(* ===== verification/_CoqProject ===== *)
-Q . S2P
Prelude.v
RustStr.v
BTree.v
TlsProfile.v
Json.v
Digest.v
Sample.v
Merge.v
Paths.v
OpenAiChat.v
OpenAiResponses.v
Anthropic.v
Gemini.v
Dashscope.v
Bedrock.v
Cohere.v
Protocol.v
Sse.v
EventStream.v
Collector.v
CollectorTyping.v
Statement.v
Io.v
Frames.v
Http1.v
ResponseHead.v
Base64.v
BlockingIo.v
H2Client.v
Egress.v
Evidence.v
AliyunHelper.v
Metrics.v
Trailer.v
Sink.v
Handle.v
Transcript.v
Delivery.v
JsJson.v
Verifier.v
JsViews.v
JsAgree.v
JsMerges.v
JsTables.v
JsStreams.v
JsBlocks.v
FieldProof.v
Verdict.v
EndToEnd.v
GoJson.v
AliyunProof.v
HelperServer.v
ProfileEncode.v
Startup.v
Server.v
ServerSafety.v
ServerProgress.v
Report.v
Service.v
