(* ===== verification/Prelude.v ===== *)
(** * Verification of the enclave of proof-of-observation

    The program ([src/enclave/src]) runs in a trusted execution environment.  A
    client sends it one HTTP request over a control connection; the enclave
    makes the request to the upstream API over its own TLS connection, relays
    the response while hashing it, extracts claims about selected JSON fields,
    and ends with a proof trailer: a statement of the exchange signed by a key
    that hardware evidence vouches for.  This library models the enclave's
    Rust code as pure functions and step relations and proves what makes the
    proof worth having.

    ** How the parts interact

    [main] (Startup.v, Server.v) chooses a proof backend and hands connections
    through a bounded queue to workers; a worker runs [handle] (Handle.v),
    which reads two frames (Frames.v), chooses a way out (Egress.v) by the TLS
    profile of the request (TlsProfile.v), speaks HTTP/1.1 (Http1.v) or HTTP/2
    (H2Client.v) upstream, passes the response through a digest (Digest.v) and
    a field-claims collector (Collector.v), and writes the trailer (Trailer.v)
    over the statement (Statement.v), with evidence from a device (Evidence.v)
    or a proof from the Aliyun helper (AliyunHelper.v).  The collector parses
    event streams (Sse.v, EventStream.v) and assembles the response of one of
    seven protocols (OpenAiChat.v, OpenAiResponses.v, Anthropic.v, Gemini.v,
    Dashscope.v, Bedrock.v, Cohere.v, all over Merge.v), chosen by Protocol.v.

    ** Files

    Foundations, not tied to one component:
    - Prelude.v: byte strings ([bytes] is [list byte], with a string notation),
      big-endian integers, [result] with the [?] operator as [let?], tactics.
    - RustStr.v: the parts of Rust's [str] and slices that the code uses,
      UTF-8 validation and lossy decoding included; non-ASCII case conversion
      is a parameter ([UnicodeCase]).
    - BTree.v: [BTreeMap] as a sorted association list.
    - Io.v: the control connection as bytes in and bytes out, any writes of
      which may fail after a number of bytes (it breaks, or a time-out passes
      and later writes go on behind a partial frame); the upstream connection
      as a script of what its reads return.
    - Base64.v, Json.v, Digest.v: the interfaces of the [base64], [serde_json]
      and [sha2] crates as classes with their laws ([SerdeJson],
      [SerdeJsonLaws], [Sha256], [Sha256Laws], [Base64], [Base64Laws]), and the
      functions of [main.rs] over them; Sample.v has instances (a JSON reader
      and writer, SHA-256, ASCII case) on which the witnesses run.

    Components (file of the source; operations):
    - TlsProfile.v ([tls_profile.rs]): [canonical_encode], [decode].
    - Paths.v, Json.v, Digest.v ([main.rs]): path and header text helpers,
      [pick_value], [canonical_json], [sha256_hex], [field_claims_sha256_hex].
    - Merge.v and the seven protocol files ([main.rs]): the request and response
      views, the incremental [*StreamState] and the batch [aggregate_*].
    - Protocol.v: [detect_protocol_family], the field policy registry and the
      presence rules.
    - Sse.v, EventStream.v: [parse_sse_data] and [SseEventParser],
      [AwsEventStreamParser].
    - Collector.v: [field_view], [build_field_claims], [StreamFieldState],
      [FieldResponseCollector].  CollectorTyping.v: its states and views are
      well-formed at every moment.
    - Statement.v: [build_v2_statement].
    - Frames.v: [read_frame], [write_frame].
    - Http1.v: request heads, response head, chunked and plain bodies.
      ResponseHead.v: a response head as its sender writes it, and read back.
    - BlockingIo.v, H2Client.v ([h2_client.rs]): the poll adapter; [execute], in
      which the [h2] crate may panic ([failure]) on values of the profile.
    - ProfileEncode.v ([bin/profile-encode.rs]): the encoder command.
    - Egress.v ([main.rs], [egress_boring.rs], [egress_openssl.rs],
      [egress_rustls_aws_lc.rs]): parent CIDs, [connect_egress], and the
      configuration of the TLS clients.
    - Evidence.v ([evidence.rs], [evidence_nitro.rs], [evidence_qingtian.rs]):
      the [EvidenceProvider] interface with its law and its two instances.
    - AliyunHelper.v ([aliyun_helper.rs]): [request_proof].
    - Trailer.v: the four trailer writers.
    - Handle.v: [handle], both transports, both sinks.  Sink.v: what the body
      readers do to a sink.  Transcript.v: what a connection promises.
      Delivery.v: when it succeeds.
    - JsJson.v, Verifier.v ([src/verifier]: [field-proof.ts], [signing.ts],
      [tee-verify-core.ts]): the verifier's JSON, its statement and its checks of
      a trailer.  JsViews.v: the verifier's views of the seven protocols, on
      objects in order of insertion.  JsAgree.v, JsMerges.v, JsTables.v,
      JsStreams.v, JsBlocks.v: that they are the enclave's views, by a relation
      [sim] between the objects of the two sides that every operation keeps.
      FieldProof.v: the verifier's parsers of bodies and [verifyFieldClaims],
      against the claims of the collector.  Verdict.v: [verifyTeeExchange], all
      the checks together, the evidence verifiers being a parameter; what a
      verdict means ([accepted]).
      EndToEnd.v: from the client's request to the verdict.
    - GoJson.v, AliyunProof.v, HelperServer.v ([src/aliyun-enclave/internal]):
      the Aliyun helper, which makes the proofs of that backend in Go: its
      canonical JSON, [GenerateFromHashes], and the handling of a connection.
    - Startup.v: the proof backend of [main].
    - Metrics.v, Server.v: the counters; the accept loop, the queue, the workers
      and [bump_max] as a step relation, parametric in a [Handler], of which
      [handle] is an instance.  ServerSafety.v and ServerProgress.v: its
      invariants and its progress.  Service.v: the server with [handle], as its
      clients see it.  Report.v: [Metrics::snapshot] and [serve_metrics] beside
      the running server.

    ** What is proved

    - The whole way (EndToEnd.v, Delivery.v, Verdict.v, Verifier.v): when the
      client, the upstream and the device do their part, [handle] succeeds over
      either transport, the client has the whole response, and
      [verifyTeeExchange] accepts the trailer for that response, once the
      evidence passes.  Without field claims it accepts no other bytes; with
      them the digests of the bodies are advisory in the verifier, and it
      accepts no other fields, when both sides read the bodies alike.  The
      trailer of any successful connection passes the signature check
      ([handle_trailer_verifies]).  The verifier hashes the claims as the enclave
      does, and is shown to part from it on keys that are array indices.
    - The field check (FieldProof.v): the verifier, with its own views of the
      bodies, finds the hashes of the claims, and no other response unless its
      view has the same text.  This needs bodies both JSON parsers read alike
      ([body_alike]: plain keys, none twice, numbers both sides print alike)
      and streams with events of the shape of their protocol: tool calls in
      arrays, indices without gaps, types with one [_delta] at most (the
      [*_stream_ok] of JsStreams.v and JsBlocks.v, executable); [recomputable] collects the
      conditions, and [null_tool_calls_diverge] shows one of them is needed.
    - The Aliyun backend (AliyunProof.v, HelperServer.v): the proof the helper
      makes of an exchange comes through the socket into the trailer, the
      verifier, parsing that text, gives it the same verdict as a local
      trailer, and the quote it carries
      is of a challenge that determines every field of the statement; the
      canonical texts of the two programs are the same exactly when no string
      has a character Go's JSON escapes and [serde_json] does not (GoJson.v).
    - The connection (Transcript.v): on success the client has the response
      head, exactly the relayed bytes in chunk frames and one trailer over
      their digest; on failure, writes that time out included, there is no
      complete trailer.  The checks of [handle] keep the header map from forging lines
      of the request.
    - The statement and the claims (Statement.v, Collector.v, Json.v): each
      determines what it speaks of, or exhibits a SHA-256 collision; the claims
      do not depend on how the body is cut into chunks and agree with the
      batch functions; whatever arrives, the collector stays well-typed
      (CollectorTyping.v).
    - The parsers (EventStream.v, Http1.v, Frames.v, TlsProfile.v): exactly the
      well-framed inputs are accepted, for every cut of the input; encoders and
      decoders are inverse to each other; limits hold; a response head is read
      as its sender means it (ResponseHead.v).
    - The way out (Egress.v, H2Client.v): no profile weakens certificate
      verification; the HTTP/2 request is sent whole and sanitised, its
      response relayed whole or refused; the preface says what the profile
      says, and the profiles on which the crate panics are known; what the
      encoder command prints is the profile [handle] connects with
      (ProfileEncode.v).
    - Evidence (Evidence.v, AliyunHelper.v, Startup.v): what the backends accept
      and how their proofs are marked.
    - The server (ServerSafety.v, ServerProgress.v): under every interleaving no
      connection is lost or handled twice, gauges are exact and bounded,
      maxima are the peaks, the work between arrivals is bounded and ends only
      with every connection handled or shed; with [handle] as the handler
      (Service.v) every client gets a proof or at most one error frame; the
      reports of the counters are true of the run they are made in (Report.v).
    - Behaviour that is surely not meant is proved too, where the model showed
      it: [sniffed_stream_drops_tail] (Collector.v), [chunk_limit_wraps]
      (Http1.v), [ordered_template_unguarded] (Transcript.v),
      [alpn_wire_truncates] (Egress.v), [html_claims_diverge] and
      [untyped_response_unproven] (HelperServer.v), [index_keys_diverge]
      (JsJson.v), [null_tool_calls_diverge] (FieldProof.v).

    ** Bounds and fuel

    A [usize] is 64 bits wide and wraps where the source adds or multiplies
    unchecked (a release build).  Loops over an input take fuel from its
    length and every step consumes some of it, so the fuel is enough; the
    theorems of the parsers are about the results, not conditional on the
    fuel.  Reads from the network are scripts: a finite list of what the peer
    sends, of any length and cut.  The number of workers is a parameter of the
    server's theorems, up to [N_WORKERS] (a worker may fail to start).

    ** Not modelled

    - Third-party crates and devices: [serde_json], [sha2], [base64],
      [ed25519-dalek], [h2], [http], [tokio], [rustls], [btls], [openssl],
      [vsock], the NSM and QTSM drivers.  They are classes or arguments, with
      what the code relies on as their laws.
    - The texts of the errors of a control connection that is read to its end
      or times out; both are one error.
    - Logging, binding and accepting on vsock, the spawning of threads.
    - Of the verifiers in TypeScript: making claims (the enclave makes them), the
      prototype that a member [__proto__] sets, the evidence verifiers (an
      argument of [verifyTeeExchange], as the source lets a caller inject them),
      the parsers of captured streams, the browser pages.
    - Of the Go helper: the attester SDK (a parameter), the listening socket, the
      health-check client, the command line. *)

From stdpp Require Export base tactics option list numbers.
From Stdlib Require Import Strings.Byte.

(** * Byte strings

    Rust's [&[u8]], [Vec<u8>], [&str] and [String] are all lists of bytes; a
    [str] is a list of bytes that is valid UTF-8 ([Utf8.from_utf8]). *)

Abbreviation byte := Byte.byte.
Abbreviation bytes := (list byte).

(** The type a literal is read at, unfolded to [bytes]. *)
Definition literal_bytes : Type := bytes.

(** String literals ["..."%bs] denote the UTF-8 bytes between the quotes. *)
Inductive literal :=
  | LNil
  | LCons (b : byte) (l : literal).

Fixpoint literal_parse (l : list byte) : literal :=
  match l with
  | [] => LNil
  | b :: l => LCons b (literal_parse l)
  end.

Fixpoint literal_print (l : literal) : list byte :=
  match l with
  | LNil => []
  | LCons b l => b :: literal_print l
  end.

Declare Scope bytes_scope.
Delimit Scope bytes_scope with bs.
Bind Scope bytes_scope with list.
#[warnings="-via-type-remapping,-via-type-mismatch"]
String Notation literal_bytes literal_parse literal_print
  (via literal mapping [[nil] => LNil, [cons] => LCons]) : bytes_scope.

#[global] Instance byte_eq_dec : EqDecision byte := Byte.byte_eq_dec.

#[global] Instance In_decision `{EqDecision A} (x : A) (l : list A) : Decision (In x l) :=
  List.in_dec (fun a b => decide (a = b)) x l.

(** Equality test of two Rust strings. *)
Definition eqs (a b : bytes) : bool := bool_decide (a = b).

(** * Machine integers *)

Definition u16_max : Z := 2 ^ 16 - 1.
Definition u32_max : Z := 2 ^ 32 - 1.
Definition u64_max : Z := 2 ^ 64 - 1.
Definition i64_max : Z := 2 ^ 63 - 1.

(** Value of a [u8]. *)
Definition bv (b : byte) : Z := Z.of_N (Byte.to_N b).

(** [z as u8]. *)
Definition byte_of_Z (z : Z) : byte :=
  match Byte.of_N (Z.to_N (z mod 256)) with
  | Some b => b
  | None => Byte.x00
  end.

(** [z.to_be_bytes()] of an unsigned integer of [n] bytes: the value is taken
    modulo [256 ^ n], as the [as u32] casts of the source do. *)
Fixpoint to_be_bytes (n : nat) (z : Z) : bytes :=
  match n with
  | O => []
  | S n => to_be_bytes n (z / 256) ++ [byte_of_Z z]
  end.

(** [from_be_bytes]. *)
Definition from_be_bytes (l : bytes) : Z :=
  fold_left (fun acc b => acc * 256 + bv b)%Z l 0%Z.

(** Length of a slice as a [usize]. *)
Definition zlen {A} (l : list A) : Z := Z.of_nat (length l).

Section MachineIntegers.
Local Open Scope Z_scope.

Lemma bv_range b : 0 <= bv b < 256.
Proof. unfold bv. pose proof (Byte.to_N_bounded b). lia. Qed.

Lemma bv_inj a b : bv a = bv b -> a = b.
Proof.
  unfold bv. intros H. apply N2Z.inj in H.
  pose proof (Byte.of_to_N a). pose proof (Byte.of_to_N b). congruence.
Qed.

Lemma bv_of_Z z : bv (byte_of_Z z) = z mod 256.
Proof.
  unfold byte_of_Z, bv. pose proof (Z.mod_pos_bound z 256 eq_refl) as B.
  destruct (Byte.of_N _) as [b|] eqn:E.
  - apply Byte.to_of_N in E. rewrite E, Z2N.id; lia.
  - apply Byte.of_N_None_iff in E. lia.
Qed.

Lemma byte_of_bv b : byte_of_Z (bv b) = b.
Proof. apply bv_inj. rewrite bv_of_Z. apply Z.mod_small, bv_range. Qed.

Lemma byte_of_Z_add_mul z b : byte_of_Z (z * 256 + bv b) = b.
Proof.
  apply bv_inj. rewrite bv_of_Z, Z.add_comm, Z.mod_add by lia.
  apply Z.mod_small, bv_range.
Qed.

Lemma length_to_be_bytes n z : length (to_be_bytes n z) = n.
Proof.
  revert z. induction n as [|n IH]; intros z; [done|].
  cbn. rewrite length_app, IH. cbn. lia.
Qed.

Lemma from_be_bytes_snoc l b : from_be_bytes (l ++ [b]) = from_be_bytes l * 256 + bv b.
Proof. unfold from_be_bytes. by rewrite fold_left_app. Qed.

Lemma from_be_bytes_nonneg l : 0 <= from_be_bytes l.
Proof.
  induction l as [|b l IH] using rev_ind; [done|].
  rewrite from_be_bytes_snoc. pose proof (bv_range b). lia.
Qed.

Lemma from_be_bytes_bound l : from_be_bytes l < 256 ^ zlen l.
Proof.
  unfold zlen. induction l as [|b l IH] using rev_ind; [done|].
  rewrite from_be_bytes_snoc, length_app. cbn [length].
  rewrite Nat.add_1_r, Nat2Z.inj_succ, Z.pow_succ_r by lia.
  pose proof (bv_range b). lia.
Qed.

Lemma from_to_be_bytes n z : from_be_bytes (to_be_bytes n z) = z mod 256 ^ Z.of_nat n.
Proof.
  revert z. induction n as [|n IH]; intros z.
  { cbn. symmetry. apply Z.mod_1_r. }
  cbn [to_be_bytes]. rewrite from_be_bytes_snoc, IH, bv_of_Z.
  rewrite Nat2Z.inj_succ, Z.pow_succ_r by lia.
  pose proof (Z.pow_pos_nonneg 256 (Z.of_nat n) ltac:(lia) ltac:(lia)).
  rewrite (Z.rem_mul_r z 256) by lia. lia.
Qed.

Lemma from_to_be_bytes_small n z :
  0 <= z < 256 ^ Z.of_nat n -> from_be_bytes (to_be_bytes n z) = z.
Proof. intros H. rewrite from_to_be_bytes. by apply Z.mod_small. Qed.

Lemma to_from_be_bytes l : to_be_bytes (length l) (from_be_bytes l) = l.
Proof.
  induction l as [|b l IH] using rev_ind; [done|].
  rewrite length_app, from_be_bytes_snoc. cbn [length].
  rewrite Nat.add_1_r. cbn [to_be_bytes].
  rewrite byte_of_Z_add_mul. f_equal.
  rewrite Z.div_add_l, (Z.div_small (bv b)), Z.add_0_r by (apply bv_range || lia).
  apply IH.
Qed.

Lemma zlen_app {A} (a b : list A) : zlen (a ++ b) = zlen a + zlen b.
Proof. unfold zlen. rewrite length_app. lia. Qed.

Lemma zlen_cons {A} (x : A) (a : list A) : zlen (x :: a) = 1 + zlen a.
Proof. unfold zlen. cbn [length]. lia. Qed.

Lemma zlen_nil {A} : zlen (@nil A) = 0.
Proof. done. Qed.

Lemma zlen_to_nat {A} (a : list A) : Z.to_nat (zlen a) = length a.
Proof. unfold zlen. apply Nat2Z.id. Qed.

Lemma zlen_nonneg {A} (a : list A) : 0 <= zlen a.
Proof. unfold zlen. lia. Qed.
End MachineIntegers.

(** * Results

    [Result<A, E>], with the [?] operator as [let? x := e in k]. *)

Inductive result (A E : Type) :=
  | Ok (a : A)
  | Err (e : E).
Arguments Ok {A E} a.
Arguments Err {A E} e.

Notation "'let?' x ':=' e 'in' k" :=
  (match e with Ok x => k | Err err => Err err end)
  (at level 10, x pattern, e at level 200, k at level 200,
   format "'[v' 'let?'  x  ':='  e  'in' '//' k ']'").

(** [Result::map_err]. *)
Definition map_err {A E F} (f : E -> F) (r : result A E) : result A F :=
  match r with
  | Ok a => Ok a
  | Err e => Err (f e)
  end.

(** [Option::ok_or]. *)
Definition ok_or {A E} (o : option A) (e : E) : result A E :=
  match o with
  | Some a => Ok a
  | None => Err e
  end.

(** * Automation *)

Create HintDb poo.
#[export] Hint Resolve bv_range from_be_bytes_nonneg zlen_nonneg : poo.
Create Rewrite HintDb poo_len.
#[export] Hint Rewrite @length_app @length_to_be_bytes @length_cons @length_nil @zlen_app : poo_len.

(** Splits the innermost [match] of the goal or of a hypothesis. *)
Ltac break_match_goal :=
  match goal with
  | |- context [match ?x with _ => _ end] =>
      lazymatch x with
      | context [match _ with _ => _ end] => fail
      | _ => destruct x eqn:?
      end
  end.

Ltac break_match_hyp :=
  match goal with
  | H : context [match ?x with _ => _ end] |- _ =>
      lazymatch x with
      | context [match _ with _ => _ end] => fail
      | _ => destruct x eqn:?
      end
  end.

(** Decides a goal about literals by evaluation. *)
Ltac by_eval := solve [vm_compute; congruence | vm_compute; reflexivity].

(** * Lists *)

Section Lists.
Context {A : Type}.
Implicit Types l k : list A.

(** Strong induction on the length of a list. *)
Lemma list_length_ind (P : list A -> Prop) :
  (forall l, (forall k, length k < length l -> P k) -> P l) -> forall l, P l.
Proof.
  intros H l. remember (length l) as n eqn:En. revert l En.
  induction n as [n IH] using lt_wf_ind. intros l ->.
  apply H. intros k Hk. by apply (IH (length k)).
Qed.

Lemma app_eq_length_inv l1 l2 k1 k2 :
  length l1 = length l2 -> l1 ++ k1 = l2 ++ k2 -> l1 = l2 /\ k1 = k2.
Proof. intros. by apply app_inj_1. Qed.
End Lists.

(** Two folds stay related when every step keeps the relation: here the
    relation is a projection, the state of one fold seen as that of the other. *)
Lemma fold_left_proj {A B C} (g : A -> B) (f : A -> C -> A) (h : B -> C -> B) :
  (forall s x, g (f s x) = h (g s) x) ->
  forall l s, g (fold_left f l s) = fold_left h l (g s).
Proof. intros H l. induction l as [|x l IH]; intros s; [done|]. cbn. by rewrite IH, H. Qed.

Lemma fold_left_ext {A C} (f h : A -> C -> A) :
  (forall s x, f s x = h s x) -> forall l s, fold_left f l s = fold_left h l s.
Proof. intros H l s. exact (fold_left_proj (fun s => s) f h H l s). Qed.

(** An invariant kept by every step, on the elements that satisfy [Q]. *)
Lemma fold_left_inv {A C} (P : A -> Prop) (Q : C -> Prop) (f : A -> C -> A) :
  (forall s x, P s -> Q x -> P (f s x)) ->
  forall l s, P s -> Forall Q l -> P (fold_left f l s).
Proof.
  intros H l. induction l as [|x l IH]; intros s Hs Hl; [done|].
  inversion_clear Hl. cbn. auto.
Qed.

(** * Incremental readers

    A reader consumes chunks of input and emits outputs; [run] feeds it a list
    of chunks. *)

Section Run.
Context {St In Out : Type} (step : St -> list In -> St * list Out).

Fixpoint run (s : St) (chunks : list (list In)) : St * list Out :=
  match chunks with
  | [] => (s, [])
  | c :: chunks =>
      let '(s, out) := step s c in
      let '(s, out') := run s chunks in
      (s, out ++ out')
  end.

(** A reader for which two chunks are one: it is indifferent to the cutting. *)
Hypothesis step_app : forall s a b,
  step s (a ++ b) = let '(s1, o1) := step s a in let '(s2, o2) := step s1 b in (s2, o1 ++ o2).

Lemma step_idle s a s' o : step s a = (s', o) -> step s' [] = (s', []).
Proof using step_app.
  intros E. pose proof (step_app s a []) as P. rewrite app_nil_r, E in P.
  destruct (step s' []) as [s2 o2]. injection P as <- P. f_equal.
  apply (f_equal length) in P. rewrite length_app in P. destruct o2; [done|cbn in P; lia].
Qed.

Lemma run_concat s chunks : step s [] = (s, []) -> run s chunks = step s (concat chunks).
Proof using step_app.
  revert s. induction chunks as [|c chunks IH]; intros s Hs; cbn [run concat]; [done|].
  rewrite step_app. destruct (step s c) as [s1 o1] eqn:E.
  rewrite IH by (by eapply step_idle). done.
Qed.
End Run.
