(* ===== verification/RustStr.v ===== *)
(** The part of Rust's standard library for strings and slices that the source
    uses: UTF-8 validation and lossy decoding ([String::from_utf8],
    [String::from_utf8_lossy]), the white space, line and pattern operations of
    [str], ASCII case folding, and integer parsing.  These are models of
    [core]/[alloc], not of code under [src/]. *)

From S2P Require Import Prelude.
Local Open Scope Z_scope.

(** [lo <= b <= hi]. *)
Definition in_range (lo hi : Z) (b : byte) : bool := (lo <=? bv b) && (bv b <=? hi).

Definition is_ascii_byte (b : byte) : bool := bv b <? 128.

(** A UTF-8 continuation byte: [b & 0xC0 == 0x80]. *)
Definition is_cont (b : byte) : bool := in_range 128 191 b.

(** Second byte allowed after a three-byte, or four-byte, lead byte. *)
Definition ok_second3 (b0 b1 : byte) : bool :=
  if bv b0 =? 224 then in_range 160 191 b1
  else if bv b0 =? 237 then in_range 128 159 b1
  else in_range 128 191 b1.

Definition ok_second4 (b0 b1 : byte) : bool :=
  if bv b0 =? 240 then in_range 144 191 b1
  else if bv b0 =? 244 then in_range 128 143 b1
  else in_range 128 191 b1.

(** * UTF-8 *)

(** [String::from_utf8_lossy]: every maximal invalid subpart becomes U+FFFD. *)
Definition replacement : bytes := "�".

Fixpoint from_utf8_lossy (s : bytes) : bytes :=
  match s with
  | [] => []
  | b0 :: t0 =>
      if is_ascii_byte b0 then b0 :: from_utf8_lossy t0
      else if in_range 194 223 b0 then
        match t0 with
        | b1 :: t1 =>
            if is_cont b1 then b0 :: b1 :: from_utf8_lossy t1
            else replacement ++ from_utf8_lossy t0
        | [] => replacement
        end
      else if in_range 224 239 b0 then
        match t0 with
        | b1 :: t1 =>
            if ok_second3 b0 b1 then
              match t1 with
              | b2 :: t2 =>
                  if is_cont b2 then b0 :: b1 :: b2 :: from_utf8_lossy t2
                  else replacement ++ from_utf8_lossy t1
              | [] => replacement
              end
            else replacement ++ from_utf8_lossy t0
        | [] => replacement
        end
      else if in_range 240 244 b0 then
        match t0 with
        | b1 :: t1 =>
            if ok_second4 b0 b1 then
              match t1 with
              | b2 :: t2 =>
                  if is_cont b2 then
                    match t2 with
                    | b3 :: t3 =>
                        if is_cont b3 then b0 :: b1 :: b2 :: b3 :: from_utf8_lossy t3
                        else replacement ++ from_utf8_lossy t2
                    | [] => replacement
                    end
                  else replacement ++ from_utf8_lossy t1
              | [] => replacement
              end
            else replacement ++ from_utf8_lossy t0
        | [] => replacement
        end
      else replacement ++ from_utf8_lossy t0
  end.

(** UTF-8 validity, as [core::str::from_utf8] checks it. *)
Fixpoint is_utf8 (s : bytes) : bool :=
  match s with
  | [] => true
  | b0 :: t0 =>
      if is_ascii_byte b0 then is_utf8 t0
      else if in_range 194 223 b0 then
        match t0 with
        | b1 :: t1 => is_cont b1 && is_utf8 t1
        | [] => false
        end
      else if in_range 224 239 b0 then
        match t0 with
        | b1 :: b2 :: t2 => ok_second3 b0 b1 && is_cont b2 && is_utf8 t2
        | _ => false
        end
      else if in_range 240 244 b0 then
        match t0 with
        | b1 :: b2 :: b3 :: t3 => ok_second4 b0 b1 && is_cont b2 && is_cont b3 && is_utf8 t3
        | _ => false
        end
      else false
  end.

(** * White space *)

(** Byte length of the [White_Space] character a string starts with. *)
Definition ws_len (s : bytes) : option nat :=
  match s with
  | b :: t =>
      if in_range 9 13 b || (bv b =? 32) then Some 1%nat
      else match t with
      | b1 :: t1 =>
          if (bv b =? 194) && ((bv b1 =? 133) || (bv b1 =? 160)) then Some 2%nat
          else match t1 with
          | b2 :: _ =>
              if ((bv b =? 225) && (bv b1 =? 154) && (bv b2 =? 128))
                 || ((bv b =? 226) && (bv b1 =? 128)
                     && (in_range 128 138 b2 || in_range 168 169 b2 || (bv b2 =? 175)))
                 || ((bv b =? 226) && (bv b1 =? 129) && (bv b2 =? 159))
                 || ((bv b =? 227) && (bv b1 =? 128) && (bv b2 =? 128))
              then Some 3%nat else None
          | [] => None
          end
      | [] => None
      end
  | [] => None
  end.

(** The same at the end of a string, given reversed. *)
Definition ws_len_rev (r : bytes) : option nat :=
  match ws_len (rev (take 1 r)) with
  | Some n => Some n
  | None =>
      match ws_len (rev (take 2 r)) with
      | Some 2%nat => Some 2%nat
      | _ =>
          match ws_len (rev (take 3 r)) with
          | Some 3%nat => Some 3%nat
          | _ => None
          end
      end
  end.

(** Drops leading pieces while [f] recognises one; [fuel] is the length. *)
Fixpoint strip_while (fuel : nat) (f : bytes -> option nat) (s : bytes) : bytes :=
  match fuel with
  | O => s
  | S fuel =>
      match f s with
      | Some n => strip_while fuel f (drop n s)
      | None => s
      end
  end.

(** [str::trim_start], [str::trim_end], [str::trim]. *)
Definition trim_start (s : bytes) : bytes := strip_while (length s) ws_len s.
Definition trim_end (s : bytes) : bytes := rev (strip_while (length s) ws_len_rev (rev s)).
Definition trim (s : bytes) : bytes := trim_end (trim_start s).

(** [str::trim_start_matches(|c| c.is_whitespace() || c == '\u{feff}')]. *)
Definition ws_or_bom_len (s : bytes) : option nat :=
  match ws_len s with
  | Some n => Some n
  | None =>
      match s with
      | b :: b1 :: b2 :: _ =>
          if (bv b =? 239) && (bv b1 =? 187) && (bv b2 =? 191) then Some 3%nat else None
      | _ => None
      end
  end.
Definition trim_start_ws_bom (s : bytes) : bytes := strip_while (length s) ws_or_bom_len s.

(** * Patterns *)

(** [str::strip_prefix]. *)
Fixpoint strip_prefix (s p : bytes) : option bytes :=
  match p, s with
  | [], _ => Some s
  | y :: p, x :: s => if Byte.eqb x y then strip_prefix s p else None
  | _ :: _, [] => None
  end.

Definition starts_with (s p : bytes) : bool :=
  match strip_prefix s p with Some _ => true | None => false end.

Definition ends_with (s p : bytes) : bool := starts_with (rev s) (rev p).

(** [str::contains] of a string. *)
Fixpoint contains (s p : bytes) : bool :=
  starts_with s p || match s with [] => false | _ :: s => contains s p end.

(** [str::find] of a one-byte character. *)
Fixpoint find_byte (s : bytes) (c : byte) : option nat :=
  match s with
  | [] => None
  | b :: s => if Byte.eqb b c then Some O else option_map S (find_byte s c)
  end.

(** [str::split] of a one-byte character: never empty. *)
Fixpoint split_on (c : byte) (s : bytes) : list bytes :=
  match s with
  | [] => [[]]
  | b :: s =>
      if Byte.eqb b c then [] :: split_on c s
      else match split_on c s with
           | p :: ps => (b :: p) :: ps
           | [] => [[b]]
           end
  end.

(** [str::split] of a two-byte string [c1 c2]. *)
Fixpoint split_on2 (c1 c2 : byte) (s : bytes) : list bytes :=
  match s with
  | [] => [[]]
  | b :: s' =>
      match s' with
      | b' :: s'' =>
          if Byte.eqb b c1 && Byte.eqb b' c2 then [] :: split_on2 c1 c2 s''
          else match split_on2 c1 c2 s' with
               | p :: ps => (b :: p) :: ps
               | [] => [[b]]
               end
      | [] => [[b]]
      end
  end.

(** A line without its carriage return. *)
Definition strip_cr (l : bytes) : bytes :=
  match rev l with
  | Byte.x0d :: r => rev r
  | _ => l
  end.

(** [str::lines]: pieces between line feeds; a carriage return is dropped only
    before a line feed, and an empty last piece is not a line. *)
Definition lines (s : bytes) : list bytes :=
  let ps := split_on Byte.x0a s in
  map strip_cr (removelast ps)
    ++ match List.last ps [] with [] => [] | l => [l] end.

(** [slice.join(sep)]. *)
Fixpoint join (sep : bytes) (l : list bytes) : bytes :=
  match l with
  | [] => []
  | [s] => s
  | s :: l => s ++ sep ++ join sep l
  end.

(** [str::split_whitespace]. *)
Fixpoint split_whitespace_aux (fuel : nat) (cur s : bytes) : list bytes :=
  let flush := match cur with [] => [] | _ => [cur] end in
  match fuel with
  | O => flush
  | S fuel =>
      match s with
      | [] => flush
      | b :: s' =>
          match ws_len s with
          | Some n => flush ++ split_whitespace_aux fuel [] (drop n s)
          | None => split_whitespace_aux fuel (cur ++ [b]) s'
          end
      end
  end.
Definition split_whitespace (s : bytes) : list bytes := split_whitespace_aux (S (length s)) [] s.

(** * ASCII case *)

Definition byte_lower (b : byte) : byte := if in_range 65 90 b then byte_of_Z (bv b + 32) else b.
Definition byte_upper (b : byte) : byte := if in_range 97 122 b then byte_of_Z (bv b - 32) else b.

Definition to_ascii_lowercase (s : bytes) : bytes := map byte_lower s.
Definition to_ascii_uppercase (s : bytes) : bytes := map byte_upper s.
Definition eq_ignore_ascii_case (a b : bytes) : bool :=
  eqs (to_ascii_lowercase a) (to_ascii_lowercase b).

(** [str::to_lowercase] and [str::to_uppercase] are ASCII case folding on ASCII
    strings; the Unicode case tables, which the standard library generates, are
    parameters. *)
Class UnicodeCase := {
  unicode_lower : bytes -> bytes;
  unicode_upper : bytes -> bytes;
}.

(** The tables never make a line feed of another character. *)
Class UnicodeCaseLaws `{UnicodeCase} : Prop := {
  unicode_lower_lf s : In Byte.x0a (unicode_lower s) -> In Byte.x0a s;
  unicode_upper_lf s : In Byte.x0a (unicode_upper s) -> In Byte.x0a s;
}.

Definition is_ascii (s : bytes) : bool := forallb is_ascii_byte s.

Definition to_lowercase `{UnicodeCase} (s : bytes) : bytes :=
  if is_ascii s then to_ascii_lowercase s else unicode_lower s.
Definition to_uppercase `{UnicodeCase} (s : bytes) : bytes :=
  if is_ascii s then to_ascii_uppercase s else unicode_upper s.

(** * Integers *)

Inductive parse_int_error := PIEmpty | PIInvalidDigit | PIPosOverflow.

(** [char::to_digit]. *)
Definition to_digit (radix : Z) (b : byte) : option Z :=
  let d :=
    if in_range 48 57 b then Some (bv b - 48)
    else if in_range 97 122 b then Some (bv b - 87)
    else if in_range 65 90 b then Some (bv b - 55)
    else None in
  match d with
  | Some d => if d <? radix then Some d else None
  | None => None
  end.

Fixpoint parse_digits (radix max acc : Z) (s : bytes) : result Z parse_int_error :=
  match s with
  | [] => Ok acc
  | b :: s =>
      match to_digit radix b with
      | None => Err PIInvalidDigit
      | Some d =>
          if max <? acc * radix + d then Err PIPosOverflow
          else parse_digits radix max (acc * radix + d) s
      end
  end.

(** [uN::from_str_radix], [max] being the largest value of the type. *)
Definition from_str_radix (radix max : Z) (s : bytes) : result Z parse_int_error :=
  match s with
  | [] => Err PIEmpty
  | b :: t =>
      match t with
      | [] => if Byte.eqb b Byte.x2b || Byte.eqb b Byte.x2d then Err PIInvalidDigit
              else parse_digits radix max 0 s
      | _ => parse_digits radix max 0 (if Byte.eqb b Byte.x2b then t else s)
      end
  end.

(** [Display] of an unsigned integer. *)
Fixpoint show_aux (fuel : nat) (n : Z) (acc : bytes) : bytes :=
  match fuel with
  | O => acc
  | S fuel =>
      let acc := byte_of_Z (48 + n mod 10) :: acc in
      if n <? 10 then acc else show_aux fuel (n / 10) acc
  end.
Definition show_Z (n : Z) : bytes := show_aux (S (Z.to_nat (Z.log2_up (n + 1)))) n [].

(** [format!("{:02x}", b)]. *)
Definition hex_digit (n : Z) : byte := if n <? 10 then byte_of_Z (48 + n) else byte_of_Z (87 + n).
Definition hex_byte (b : byte) : bytes := [hex_digit (bv b / 16); hex_digit (bv b mod 16)].

(** * Lemmas *)

Section Utf8Lemmas.
Ltac ranges :=
  unfold is_ascii_byte, is_cont, ok_second3, ok_second4, in_range in *;
  repeat match goal with |- context [if ?c then _ else _] => destruct c eqn:? end; lia.

Lemma ascii_not_cont b : is_ascii_byte b = true -> is_cont b = false.
Proof. intros. ranges. Qed.
Lemma ascii_not_second3 b0 b : is_ascii_byte b = true -> ok_second3 b0 b = false.
Proof. intros. ranges. Qed.
Lemma ascii_not_second4 b0 b : is_ascii_byte b = true -> ok_second4 b0 b = false.
Proof. intros. ranges. Qed.

Lemma ascii_byte_lossy b c : is_ascii_byte b = true ->
  from_utf8_lossy (b :: c) = b :: from_utf8_lossy c.
Proof. intros H. cbn. by rewrite H. Qed.

Lemma lossy_unfold b0 t0 :
  from_utf8_lossy (b0 :: t0) = (if is_ascii_byte b0 then b0 :: from_utf8_lossy t0
    else if in_range 194 223 b0 then
      match t0 with
      | b1 :: t1 =>
          if is_cont b1 then b0 :: b1 :: from_utf8_lossy t1
          else replacement ++ from_utf8_lossy t0
      | [] => replacement
      end
    else if in_range 224 239 b0 then
      match t0 with
      | b1 :: t1 =>
          if ok_second3 b0 b1 then
            match t1 with
            | b2 :: t2 =>
                if is_cont b2 then b0 :: b1 :: b2 :: from_utf8_lossy t2
                else replacement ++ from_utf8_lossy t1
            | [] => replacement
            end
          else replacement ++ from_utf8_lossy t0
      | [] => replacement
      end
    else if in_range 240 244 b0 then
      match t0 with
      | b1 :: t1 =>
          if ok_second4 b0 b1 then
            match t1 with
            | b2 :: t2 =>
                if is_cont b2 then
                  match t2 with
                  | b3 :: t3 =>
                      if is_cont b3 then b0 :: b1 :: b2 :: b3 :: from_utf8_lossy t3
                      else replacement ++ from_utf8_lossy t2
                  | [] => replacement
                  end
                else replacement ++ from_utf8_lossy t1
            | [] => replacement
            end
          else replacement ++ from_utf8_lossy t0
      | [] => replacement
      end
    else replacement ++ from_utf8_lossy t0).
Proof. done. Qed.

(** Lossy decoding works on either side of an ASCII byte separately. *)
Lemma from_utf8_lossy_ascii_mid a b c :
  is_ascii_byte b = true ->
  from_utf8_lossy (a ++ b :: c) = from_utf8_lossy a ++ b :: from_utf8_lossy c.
Proof.
  intros Hb. pose proof (ascii_not_cont b Hb) as Hc.
  pose proof (fun b0 => ascii_not_second3 b0 b Hb) as H3.
  pose proof (fun b0 => ascii_not_second4 b0 b Hb) as H4.
  pose proof (ascii_byte_lossy b c Hb) as Hbc.
  induction a as [a IH] using list_length_ind.
  destruct a as [|b0 a]; [done|].
  assert (IH0 : from_utf8_lossy (a ++ b :: c) = from_utf8_lossy a ++ b :: from_utf8_lossy c)
    by (apply IH; cbn; lia).
  cbn [app]. rewrite !lossy_unfold.
  destruct (is_ascii_byte b0); [cbn; by rewrite IH0|].
  destruct (in_range 194 223 b0).
  { destruct a as [|b1 a]; cbn [app] in *; [by rewrite Hc, Hbc|].
    destruct (is_cont b1); [|by rewrite IH0, app_assoc].
    rewrite IH; [done|cbn; lia]. }
  destruct (in_range 224 239 b0).
  { destruct a as [|b1 a]; cbn [app] in *; [by rewrite H3, Hbc|].
    destruct (ok_second3 b0 b1); [|by rewrite IH0, app_assoc].
    assert (IH1 : from_utf8_lossy (a ++ b :: c) = from_utf8_lossy a ++ b :: from_utf8_lossy c)
      by (apply IH; cbn; lia).
    destruct a as [|b2 a]; cbn [app] in *; [by rewrite Hc, Hbc|].
    destruct (is_cont b2); [|by rewrite IH1, app_assoc].
    rewrite IH; [done|cbn; lia]. }
  destruct (in_range 240 244 b0); [|by rewrite IH0, app_assoc].
  destruct a as [|b1 a]; cbn [app] in *; [by rewrite H4, Hbc|].
  destruct (ok_second4 b0 b1); [|by rewrite IH0, app_assoc].
  assert (IH1 : from_utf8_lossy (a ++ b :: c) = from_utf8_lossy a ++ b :: from_utf8_lossy c)
    by (apply IH; cbn; lia).
  destruct a as [|b2 a]; cbn [app] in *; [by rewrite Hc, Hbc|].
  destruct (is_cont b2); [|by rewrite IH1, app_assoc].
  assert (IH2 : from_utf8_lossy (a ++ b :: c) = from_utf8_lossy a ++ b :: from_utf8_lossy c)
    by (apply IH; cbn; lia).
  destruct a as [|b3 a]; cbn [app] in *; [by rewrite Hc, Hbc|].
  destruct (is_cont b3); [|by rewrite IH2, app_assoc].
  rewrite IH; [done|cbn; lia].
Qed.

(** Outside ASCII, decoding stays outside ASCII and loses no byte to nothing. *)
Definition non_ascii (b : byte) : Prop := is_ascii_byte b = false.

Lemma lossy_non_ascii s :
  Forall non_ascii s -> Forall non_ascii (from_utf8_lossy s) /\ (s <> [] -> from_utf8_lossy s <> []).
Proof.
  assert (R : forall l, Forall non_ascii l -> Forall non_ascii (replacement ++ l)).
  { intros l Hl. apply Forall_app. split; [repeat constructor|done]. }
  intros Hs. split.
  - induction s as [s IH] using list_length_ind. destruct s as [|b0 s]; [done|].
    rewrite lossy_unfold. apply Forall_cons_1 in Hs as [N0 Hs]. unfold non_ascii in N0. rewrite N0.
    assert (Forall non_ascii (from_utf8_lossy s)) by (apply IH; [cbn; lia|done]).
    assert (Forall non_ascii replacement) by repeat constructor.
    destruct (in_range 194 223 b0).
    { destruct s as [|b1 s]; [done|]. apply Forall_cons_1 in Hs as [N1 Hs].
      destruct (is_cont b1); [|auto]. repeat constructor; try done. apply IH; [cbn; lia|done]. }
    destruct (in_range 224 239 b0).
    { destruct s as [|b1 s]; [done|]. apply Forall_cons_1 in Hs as [N1 Hs].
      destruct (ok_second3 b0 b1); [|auto]. destruct s as [|b2 s]; [done|].
      assert (Forall non_ascii (from_utf8_lossy (b2 :: s))) by (apply IH; [cbn; lia|done]).
      apply Forall_cons_1 in Hs as [N2 Hs].
      destruct (is_cont b2); [|auto]. repeat constructor; try done. apply IH; [cbn; lia|done]. }
    destruct (in_range 240 244 b0); [|auto]. destruct s as [|b1 s]; [done|].
    apply Forall_cons_1 in Hs as [N1 Hs].
    destruct (ok_second4 b0 b1); [|auto]. destruct s as [|b2 s]; [done|].
    assert (Forall non_ascii (from_utf8_lossy (b2 :: s))) by (apply IH; [cbn; lia|done]).
    apply Forall_cons_1 in Hs as [N2 Hs].
    destruct (is_cont b2); [|auto]. destruct s as [|b3 s]; [done|].
    assert (Forall non_ascii (from_utf8_lossy (b3 :: s))) by (apply IH; [cbn; lia|done]).
    apply Forall_cons_1 in Hs as [N3 Hs].
    destruct (is_cont b3); [|auto]. repeat constructor; try done. apply IH; [cbn; lia|done].
  - destruct s as [|b0 s]; [done|]. intros _. rewrite lossy_unfold. repeat case_match; done.
Qed.

Lemma ascii_split s :
  Forall non_ascii s \/
  exists a b c, s = a ++ b :: c /\ is_ascii_byte b = true /\ Forall non_ascii c.
Proof.
  induction s as [|x s [IH|(a & b & c & -> & Hb & Hc)]].
  - by left.
  - destruct (is_ascii_byte x) eqn:E; [right; by exists [], x, s|left; by constructor].
  - right. by exists (x :: a), b, c.
Qed.

(** An ASCII byte of the text was one of the input, and in the same place
    at the end. *)
Lemma In_lossy c s : is_ascii_byte c = true -> In c (from_utf8_lossy s) -> In c s.
Proof.
  intros Hc. induction s as [s IH] using list_length_ind.
  destruct (ascii_split s) as [Hs|(a & b & d & -> & Hb & Hd)].
  - intros Hin. apply lossy_non_ascii in Hs as [Hs _]. rewrite Forall_forall in Hs.
    apply Hs in Hin. unfold non_ascii in Hin. congruence.
  - rewrite from_utf8_lossy_ascii_mid, !in_app_iff by done. cbn. intros [Hin|[->|Hin]]; auto.
    + left. apply IH; [rewrite length_app; cbn; lia|done].
    + right. right. apply IH; [rewrite length_app; cbn; lia|done].
Qed.

Lemma lossy_nil s : from_utf8_lossy s = [] <-> s = [].
Proof.
  split; [|by intros ->]. destruct (ascii_split s) as [Hs|(a & b & d & -> & Hb & Hd)].
  - destruct s; [done|]. intros H. by apply lossy_non_ascii in Hs as [_ Hn]; apply Hn in H.
  - rewrite from_utf8_lossy_ascii_mid by done. by destruct (from_utf8_lossy a).
Qed.

Lemma last_lossy c s :
  is_ascii_byte c = true -> forall t, from_utf8_lossy s = t ++ [c] -> exists a, s = a ++ [c].
Proof.
  intros Hc t E. destruct (ascii_split s) as [Hs|(a & b & d & -> & Hb & Hd)].
  - apply lossy_non_ascii in Hs as [Hs _]. rewrite E in Hs. apply Forall_app in Hs as [_ Hs].
    inversion_clear Hs. unfold non_ascii in *. congruence.
  - rewrite from_utf8_lossy_ascii_mid in E by done. apply lossy_non_ascii in Hd as [Hn Hd].
    destruct d as [|x d].
    + cbn in E. apply app_inj_tail in E as [_ ->]. by exists a.
    + destruct (from_utf8_lossy (x :: d)) as [|y ys] eqn:Ed using rev_ind; [by destruct Hd|].
      change (b :: ys ++ [y]) with ((b :: ys) ++ [y]) in E. rewrite app_assoc in E.
      apply app_inj_tail in E as [_ ->]. apply Forall_app in Hn as [_ Hn].
      inversion_clear Hn. unfold non_ascii in *. congruence.
Qed.

(** An ASCII byte of the decoded text cuts the input in the same place. *)
Lemma lossy_cut c s w r :
  is_ascii_byte c = true -> from_utf8_lossy s = w ++ c :: r ->
  exists a b, s = a ++ c :: b /\ from_utf8_lossy a = w /\ from_utf8_lossy b = r.
Proof.
  intros Hc. revert w r. induction s as [s IH] using list_length_ind. intros w r E.
  destruct (ascii_split s) as [Hs|(a & b & d & -> & Hb & Hd)].
  - apply lossy_non_ascii in Hs as [Hs _]. rewrite E in Hs. apply Forall_app in Hs as [_ Hs].
    inversion_clear Hs. unfold non_ascii in *. congruence.
  - rewrite from_utf8_lossy_ascii_mid in E by done. apply app_eq_inv in E as [(k & Ea & Ed)|(k & Ew & Ed)].
    + (* the cut is in [a] *)
      destruct k as [|x k].
      * rewrite app_nil_r in Ea. injection Ed as -> ->. by exists a, d.
      * injection Ed as <- ->. apply IH in Ea as (a1 & a2 & -> & E1 & E2); [|rewrite length_app; cbn; lia].
        exists a1, (a2 ++ b :: d). rewrite <-app_assoc. split; [done|].
        by rewrite from_utf8_lossy_ascii_mid, E1, E2.
    + destruct k as [|x k].
      * rewrite app_nil_r in Ew. injection Ed as -> <-. by exists a, d.
      * injection Ed as _ Ed. apply lossy_non_ascii in Hd as [Hd _]. rewrite Ed in Hd.
        apply Forall_app in Hd as [_ Hd]. inversion_clear Hd. unfold non_ascii in *. congruence.
Qed.

(** Valid UTF-8 is decoded to itself. *)
Lemma from_utf8_lossy_valid s : is_utf8 s = true -> from_utf8_lossy s = s.
Proof.
  induction s as [s IH] using list_length_ind. intros Hv.
  destruct s as [|b0 s]; [done|].
  cbn in Hv |- *.
  repeat (case_match; try done); rewrite ?andb_true_iff in *; simplify_eq;
    destruct_and?; simplify_eq; cbn in *;
    try congruence; repeat f_equal; apply IH; cbn; try lia; done.
Qed.
End Utf8Lemmas.

Section TrimLemmas.
Lemma strip_prefix_spec s p r : strip_prefix s p = Some r <-> s = p ++ r.
Proof.
  revert s. induction p as [|b p IH]; intros s.
  - destruct s; cbn; split; congruence.
  - destruct s as [|c s]; [done|]. cbn. destruct (Byte.eqb c b) eqn:E.
    + apply Byte.byte_dec_bl in E as ->. rewrite IH. split; [by intros ->|by intros [=]].
    + split; [done|]. intros [= -> _]. by rewrite (Byte.byte_dec_lb (x:=b) eq_refl) in E.
Qed.

Lemma starts_with_spec s p : starts_with s p = true <-> exists r, s = p ++ r.
Proof.
  unfold starts_with. destruct (strip_prefix s p) as [r|] eqn:E.
  - apply strip_prefix_spec in E. split; [by exists r|done].
  - split; [done|]. intros [r Hr]. apply strip_prefix_spec in Hr. congruence.
Qed.

Lemma strip_while_suffix fuel f s : exists k, strip_while fuel f s = drop k s.
Proof.
  revert s. induction fuel as [|fuel IH]; intros s; cbn; [by exists 0%nat; rewrite drop_0|].
  destruct (f s) as [n|]; [|by exists 0%nat; rewrite drop_0].
  destruct (IH (drop n s)) as [k ->]. exists (n + k)%nat. by rewrite drop_drop.
Qed.

(** A visible ASCII byte stops the search for white space: what follows it
    does not matter. *)
Lemma ws_or_bom_len_cut w c r r' :
  33 <= bv c < 128 ->
  ws_or_bom_len (w ++ c :: r) = ws_or_bom_len (w ++ c :: r')
  /\ forall n, ws_or_bom_len (w ++ c :: r) = Some n -> (1 <= n <= length w)%nat.
Proof.
  intros Hc.
  assert (A : forall k, 128 <= k -> (bv c =? k) = false) by (intros; lia).
  assert (B : forall lo hi, 128 <= lo -> in_range lo hi c = false) by (unfold in_range; intros; lia).
  assert (C : in_range 9 13 c || (bv c =? 32) = false) by (unfold in_range; lia).
  destruct w as [|x [|y [|z w]]]; cbn [app length].
  - assert (Z : forall r, ws_or_bom_len (c :: r) = None); [|by rewrite !Z].
    intros [|r1 [|r2 u]]; unfold ws_or_bom_len, ws_len; by rewrite C, ?A by done.
  - assert (Z : forall r, ws_or_bom_len (x :: c :: r)
      = if in_range 9 13 x || (bv x =? 32) then Some 1%nat else None).
    { intros [|r1 u]; unfold ws_or_bom_len, ws_len; rewrite !A, ?B, !andb_false_r by done;
        by destruct (in_range 9 13 x || (bv x =? 32)). }
    rewrite !Z. split; [done|]. case_match; intros; simplify_eq; lia.
  - assert (Z : forall r, ws_or_bom_len (x :: y :: c :: r)
      = if in_range 9 13 x || (bv x =? 32) then Some 1%nat
        else if (bv x =? 194) && ((bv y =? 133) || (bv y =? 160)) then Some 2%nat else None).
    { intros u. unfold ws_or_bom_len, ws_len. rewrite !A, !B, !andb_false_r by done.
      by repeat case_match. }
    rewrite !Z. split; [done|]. repeat case_match; intros; simplify_eq; lia.
  - split; [done|]. unfold ws_or_bom_len, ws_len.
    repeat match goal with |- context [if ?b then _ else _] => destruct b end;
      intros; simplify_eq; lia.
Qed.

Lemma strip_while_cut fuel fuel' w c r r' :
  33 <= bv c < 128 -> (length w <= fuel')%nat ->
  strip_while fuel ws_or_bom_len (w ++ c :: r) = c :: r ->
  strip_while fuel' ws_or_bom_len (w ++ c :: r') = c :: r'.
Proof.
  intros Hc. revert w fuel'. induction fuel as [|fuel IH]; intros w fuel' Hf; cbn [strip_while].
  - intros E. apply (f_equal length) in E. rewrite length_app in E. cbn in E.
    destruct w; [|cbn in E; lia]. destruct (ws_or_bom_len_cut [] c r' r' Hc) as [_ Hn].
    cbn [app] in *. destruct fuel'; cbn; [done|]. destruct (ws_or_bom_len (c :: r')) as [n|]; [|done].
    specialize (Hn n eq_refl). cbn in Hn. lia.
  - destruct (ws_or_bom_len_cut w c r r' Hc) as [Heq Hn].
    destruct (ws_or_bom_len (w ++ c :: r)) as [n|] eqn:En.
    + specialize (Hn n eq_refl). intros E. destruct fuel' as [|fuel']; [lia|]. cbn [strip_while].
      rewrite <-Heq. rewrite drop_app_le in E |- * by lia.
      apply IH; [rewrite length_drop; lia|done].
    + intros E. apply (f_equal length) in E. rewrite length_app in E. cbn in E.
      destruct w; [|cbn in E; lia]. destruct fuel'; cbn [strip_while]; by rewrite <-?Heq.
Qed.

(** So a text that starts, after white space, with [p] still does when it
    grows. *)
Lemma trim_start_ws_bom_prefix c p s t :
  33 <= bv c < 128 -> forallb is_ascii_byte p = true ->
  starts_with (trim_start_ws_bom (from_utf8_lossy s)) (c :: p) = true ->
  starts_with (trim_start_ws_bom (from_utf8_lossy (s ++ t))) (c :: p) = true.
Proof.
  intros Hc Hp H. unfold trim_start_ws_bom in *.
  destruct (strip_while_suffix (length (from_utf8_lossy s)) ws_or_bom_len (from_utf8_lossy s)) as [k Ek].
  rewrite Ek in H. apply starts_with_spec in H as [r Er]. rewrite Er in Ek.
  assert (Es : from_utf8_lossy s = take k (from_utf8_lossy s) ++ c :: p ++ r)
    by (change (c :: p ++ r) with ((c :: p) ++ r); by rewrite <-Er, take_drop).
  remember (take k (from_utf8_lossy s)) as w eqn:Ew. clear Ew Er.
  assert (Ha : is_ascii_byte c = true) by (unfold is_ascii_byte; lia).
  destruct (lossy_cut c s w _ Ha Es) as (a & b & -> & Ea & Eb).
  assert (G : exists r', from_utf8_lossy (b ++ t) = p ++ r').
  { clear - Eb Hp. revert b Eb. induction p as [|d p IH]; intros b Eb; [by eexists|].
    cbn in Hp. apply andb_prop in Hp as [Hd Hp].
    destruct (lossy_cut d b [] _ Hd Eb) as (a1 & b1 & -> & Ea1 & Eb1).
    apply (proj1 (lossy_nil _)) in Ea1 as ->. destruct (IH Hp b1 Eb1) as [r' E']. exists r'.
    cbn [app]. rewrite ascii_byte_lossy by done. by rewrite E'. }
  destruct G as [r' Er']. rewrite Es in Ek.
  rewrite <-app_assoc. cbn [app]. rewrite from_utf8_lossy_ascii_mid, Ea, Er' by done.
  rewrite (strip_while_cut _ _ w c (p ++ r) (p ++ r') Hc) by (done || (rewrite length_app; lia)).
  apply starts_with_spec. by exists r'.
Qed.
End TrimLemmas.

Section SplitLemmas.
Implicit Types s a b : bytes.

Lemma split_on_not_nil c s : split_on c s <> [].
Proof. destruct s as [|x s]; cbn; [done|]. by repeat case_match. Qed.

Lemma byte_eqb_refl c : Byte.eqb c c = true.
Proof. by apply Byte.byte_dec_lb. Qed.

Lemma byte_eqb_ne x c : x <> c -> Byte.eqb x c = false.
Proof.
  intros H. destruct (Byte.eqb x c) eqn:E; [|done].
  by apply Byte.byte_dec_bl in E.
Qed.

Lemma split_on_app c a b : split_on c (a ++ c :: b) = split_on c a ++ split_on c b.
Proof.
  induction a as [|x a IH]; cbn; [by rewrite byte_eqb_refl|].
  rewrite IH. destruct (Byte.eqb x c); [done|].
  destruct (split_on c a) eqn:E; [by apply split_on_not_nil in E|done].
Qed.

Lemma split_on_none c s : ~ In c s -> split_on c s = [s].
Proof.
  induction s as [|x s IH]; cbn; [done|]. intros Hn.
  rewrite byte_eqb_ne by tauto. by rewrite IH by tauto.
Qed.

Lemma split_on_no_sep c s l : In l (split_on c s) -> ~ In c l.
Proof.
  revert l. induction s as [|x s IH]; cbn; intros l; [intros [<-|[]] []|].
  destruct (Byte.eqb x c) eqn:E.
  - intros [<-|H]; [tauto|by apply IH].
  - destruct (split_on c s) as [|p ps]; cbn in *; intros [<-|H]; cbn.
    + intros [->|[]]. by rewrite byte_eqb_refl in E.
    + done.
    + intros [->|Hc]; [by rewrite byte_eqb_refl in E|]. eapply IH; eauto.
    + eapply IH; eauto.
Qed.

(** Joining the pieces gives the string back. *)
Lemma join_split_on c s : join [c] (split_on c s) = s.
Proof.
  induction s as [|x s IH]; [done|]. cbn [split_on].
  destruct (Byte.eqb x c) eqn:E.
  - apply Byte.byte_dec_bl in E as ->.
    pose proof (split_on_not_nil c s). cbn. destruct (split_on c s); [done|by rewrite <-IH].
  - destruct (split_on c s) as [|p [|q ps]] eqn:Es; cbn in *.
    + by apply split_on_not_nil in Es.
    + by rewrite IH.
    + by rewrite IH.
Qed.

(** The pieces of a string whose tail holds no separator. *)
Lemma split_on_snoc c a b : ~ In c b -> split_on c (a ++ c :: b) = split_on c a ++ [b].
Proof. intros. by rewrite split_on_app, (split_on_none c b). Qed.

Lemma removelast_split_app c a b :
  removelast (split_on c (a ++ c :: b)) = split_on c a ++ removelast (split_on c b).
Proof. rewrite split_on_app. apply removelast_app, split_on_not_nil. Qed.

Lemma last_split_app c a b d :
  List.last (split_on c (a ++ c :: b)) d = List.last (split_on c b) d.
Proof.
  rewrite split_on_app. destruct (split_on c b) eqn:E; [by apply split_on_not_nil in E|].
  generalize (split_on c a). intros l'. induction l' as [|y l' IH]; cbn; [done|].
  rewrite IH. by destruct l'.
Qed.

(** Complete lines, then the rest. *)
Lemma lines_app_nl a b : lines (a ++ Byte.x0a :: b) = map strip_cr (split_on Byte.x0a a) ++ lines b.
Proof.
  unfold lines. by rewrite removelast_split_app, last_split_app, map_app, app_assoc.
Qed.

Lemma lines_no_nl s : ~ In Byte.x0a s -> lines s = match s with [] => [] | l => [l] end.
Proof. intros H. unfold lines. rewrite split_on_none by done. by destruct s. Qed.
End SplitLemmas.

Section ShowLemmas.
(** Value of a decimal text. *)
Definition dec_value (s : bytes) : Z := fold_left (fun acc b => acc * 10 + (bv b - 48)) s 0.

Definition is_digit (b : byte) : bool := in_range 48 57 b.

Lemma digit_value n : 0 <= n < 10 -> bv (byte_of_Z (48 + n)) = 48 + n.
Proof. intros. rewrite bv_of_Z. apply Z.mod_small. lia. Qed.

Lemma show_aux_app fuel n acc : show_aux fuel n acc = show_aux fuel n [] ++ acc.
Proof.
  revert n acc. induction fuel as [|fuel IH]; intros n acc; cbn; [done|].
  destruct (n <? 10); [done|].
  rewrite IH, (IH _ [_]), <-app_assoc. done.
Qed.

Lemma show_aux_spec fuel n :
  0 <= n < 2 ^ Z.of_nat fuel ->
  dec_value (show_aux (S fuel) n []) = n /\ forallb is_digit (show_aux (S fuel) n []) = true.
Proof.
  revert n. induction fuel as [|fuel IH]; intros n Hn.
  - assert (n = 0) as -> by (cbn in Hn; lia). done.
  - pose proof (Z.mod_pos_bound n 10 ltac:(lia)) as Hm.
    assert (Hd : is_digit (byte_of_Z (48 + n mod 10)) = true).
    { unfold is_digit, in_range. rewrite digit_value by lia. lia. }
    change (show_aux (S (S fuel)) n []) with
      (if n <? 10 then [byte_of_Z (48 + n mod 10)]
       else show_aux (S fuel) (n / 10) [byte_of_Z (48 + n mod 10)]).
    destruct (Z.ltb_spec n 10) as [Hs|Hs].
    + unfold dec_value. cbn. rewrite Hd, digit_value by lia.
      rewrite Z.mod_small by lia. split; [lia|done].
    + rewrite show_aux_app.
      destruct (IH (n / 10)) as [IH1 IH2].
      { rewrite Nat2Z.inj_succ, Z.pow_succ_r in Hn by lia.
        split; [apply Z.div_pos; lia|]. apply Z.div_lt_upper_bound; lia. }
      unfold dec_value in *. rewrite fold_left_app, forallb_app, IH1, IH2. cbn.
      rewrite Hd, digit_value by lia. split; [|done].
      pose proof (Z.div_mod n 10 ltac:(lia)). lia.
Qed.

Lemma show_Z_spec n : 0 <= n -> dec_value (show_Z n) = n /\ forallb is_digit (show_Z n) = true.
Proof.
  intros Hn. unfold show_Z. apply show_aux_spec. split; [done|].
  rewrite Z2Nat.id by (apply Z.log2_up_nonneg).
  pose proof (Z.log2_up_spec (n + 1)) as H.
  destruct (Z.eq_dec n 0) as [->|]; [done|]. lia.
Qed.

Lemma show_Z_inj a b : 0 <= a -> 0 <= b -> show_Z a = show_Z b -> a = b.
Proof.
  intros Ha Hb E. destruct (show_Z_spec a Ha), (show_Z_spec b Hb). congruence.
Qed.

(** A decimal text holds neither a line feed nor any other non-digit. *)
Lemma show_Z_no_byte c n : 0 <= n -> is_digit c = false -> ~ In c (show_Z n).
Proof.
  intros Hn Hc Hin. destruct (show_Z_spec n Hn) as [_ H].
  rewrite forallb_forall in H. apply H in Hin. congruence.
Qed.
End ShowLemmas.

(** ** Parsed integers fit their type *)

Lemma parse_digits_bounds radix max acc s n :
  (0 <= acc <= max)%Z -> (0 < radix)%Z -> parse_digits radix max acc s = Ok n -> (0 <= n <= max)%Z.
Proof.
  intros Ha Hr. revert acc Ha. induction s as [|b s IH]; intros acc Ha; cbn [parse_digits].
  { by intros [= <-]. }
  destruct (to_digit radix b) as [d|] eqn:Ed; [|done].
  destruct (Z.ltb_spec max (acc * radix + d)); [done|]. apply IH. split; [|done].
  assert (0 <= d)%Z; [|nia]. unfold to_digit, in_range in Ed. repeat case_match; simplify_eq; lia.
Qed.

Lemma from_str_radix_bounds radix max s n :
  (0 <= max)%Z -> (0 < radix)%Z -> from_str_radix radix max s = Ok n -> (0 <= n <= max)%Z.
Proof.
  intros Hm Hr. unfold from_str_radix. repeat case_match; (done || (intros; eapply parse_digits_bounds; [| |done]; lia)).
Qed.

(** ** Case folding makes no line feed *)

Lemma ascii_case_lf s :
  (In Byte.x0a (to_ascii_lowercase s) -> In Byte.x0a s) /\ (In Byte.x0a (to_ascii_uppercase s) -> In Byte.x0a s).
Proof.
  unfold to_ascii_lowercase, to_ascii_uppercase.
  split; intros (b & E & Hin)%in_map_iff; replace Byte.x0a with b; (done || by destruct b).
Qed.

Lemma to_lowercase_lf `{UnicodeCaseLaws} s : In Byte.x0a (to_lowercase s) -> In Byte.x0a s.
Proof. unfold to_lowercase. destruct (is_ascii s); [apply ascii_case_lf|apply unicode_lower_lf]. Qed.

Lemma to_uppercase_lf `{UnicodeCaseLaws} s : In Byte.x0a (to_uppercase s) -> In Byte.x0a s.
Proof. unfold to_uppercase. destruct (is_ascii s); [apply ascii_case_lf|apply unicode_upper_lf]. Qed.

(** ** Concatenation of valid texts *)

Lemma is_utf8_app a b : is_utf8 a = true -> is_utf8 b = true -> is_utf8 (a ++ b) = true.
Proof.
  induction a as [a IH] using list_length_ind. intros Ha Hb. destruct a as [|b0 a]; [done|].
  cbn in Ha |- *.
  repeat (case_match; simplify_eq/=; try done); rewrite ?andb_true_iff in *; destruct_and?;
    repeat split; try done; apply IH; cbn; (done || lia).
Qed.

Lemma is_ascii_utf8 s : is_ascii s = true -> is_utf8 s = true.
Proof. induction s as [|b s IH]; cbn; [done|]. intros [-> ?]%andb_prop. auto. Qed.

(** ** Words and trimmed texts *)

(** A visible ASCII character. *)
Definition visible (b : byte) : bool := in_range 33 126 b.

Lemma visible_ws b s : visible b = true -> ws_len (b :: s) = None.
Proof.
  unfold visible, in_range. intros H. cbn [ws_len]. unfold in_range.
  assert (A : forall k, 128 <= k -> (bv b =? k) = false) by (intros; lia).
  replace ((9 <=? bv b) && (bv b <=? 13) || (bv b =? 32)) with false by lia.
  destruct s as [|b1 s]; [done|]. rewrite A by done. cbn [andb]. destruct s; [done|]. by rewrite !A by done.
Qed.

Lemma visible_ascii s : forallb visible s = true -> is_ascii s = true.
Proof.
  unfold is_ascii. rewrite !forallb_forall. intros H b Hb%H. unfold visible, is_ascii_byte, in_range in *. lia.
Qed.

Lemma visible_ws_rev b r : visible b = true -> ws_len_rev (b :: r) = None.
Proof.
  intros H. unfold ws_len_rev. change (rev (take 1 (b :: r))) with [b]. rewrite visible_ws by done.
  assert (A : forall k, 128 <= k -> (bv b =? k) = false) by (unfold visible, in_range in H; intros; lia).
  assert (B : forall lo hi, 128 <= lo -> in_range lo hi b = false) by (unfold visible, in_range in *; intros; lia).
  assert (W2 : forall x, ws_len [x; b] <> Some 2%nat).
  { intros x. unfold ws_len. rewrite !A, !andb_false_r by done. by case_match. }
  assert (W3 : forall x y, ws_len [x; y; b] <> Some 3%nat).
  { intros x y. unfold ws_len. rewrite !A, !B, !andb_false_r by done. by repeat case_match. }
  destruct r as [|b1 [|b2 r]].
  - change (rev (take 2 [b])) with [b]. change (rev (take 3 [b])) with [b]. by rewrite visible_ws.
  - change (rev (take 2 [b; b1])) with [b1; b]. change (rev (take 3 [b; b1])) with [b1; b].
    specialize (W2 b1). destruct (ws_len [b1; b]) as [[|[|[|[|n]]]]|] eqn:E; try done.
    unfold ws_len in E. rewrite !A, !andb_false_r in E by done. by repeat case_match.
  - change (rev (take 2 (b :: b1 :: b2 :: r))) with [b1; b]. change (rev (take 3 (b :: b1 :: b2 :: r))) with [b2; b1; b].
    specialize (W2 b1). specialize (W3 b2 b1).
    destruct (ws_len [b1; b]) as [[|[|[|n]]]|]; try done;
      by destruct (ws_len [b2; b1; b]) as [[|[|[|[|n']]]]|].
Qed.

Lemma strip_while_None fuel f s : f s = None -> strip_while fuel f s = s.
Proof. intros H. destruct fuel; cbn; by rewrite ?H. Qed.

(** Visible texts have nothing to trim. *)
Lemma trim_visible s : forallb visible s = true -> trim s = s.
Proof.
  intros H. unfold trim, trim_start, trim_end.
  assert (E : strip_while (length s) ws_len s = s).
  { destruct s as [|b s]; [done|]. apply strip_while_None, visible_ws. cbn in H. by apply andb_prop in H as [? _]. }
  rewrite E. destruct s as [|b s _] using rev_ind; [done|]. rewrite rev_app_distr. cbn [rev app].
  rewrite strip_while_None; [by cbn [rev]; rewrite rev_involutive|].
  apply visible_ws_rev. rewrite forallb_app in H. cbn in H. rewrite andb_true_r in H. by apply andb_prop in H as [_ ?].
Qed.

(** One space before a trimmed text. *)
Lemma trim_space s : trim (Byte.x20 :: s) = trim s.
Proof. reflexivity. Qed.

(** The first word of a text, up to a space. *)
Lemma split_whitespace_aux_word fuel cur w s :
  forallb visible w = true -> cur ++ w <> [] -> (length w < fuel)%nat ->
  split_whitespace_aux fuel cur (w ++ Byte.x20 :: s)
    = (cur ++ w) :: split_whitespace_aux (fuel - length w - 1) [] s.
Proof.
  revert fuel cur. induction w as [|b w IH]; intros fuel cur Hw Hne Hf.
  - rewrite app_nil_r in *. destruct fuel as [|fuel]; [cbn in Hf; lia|].
    cbn [app length]. rewrite Nat.sub_0_r. replace (S fuel - 1)%nat with fuel by lia.
    destruct cur as [|c cur]; [done|]. reflexivity.
  - destruct fuel as [|fuel]; [cbn in Hf; lia|]. cbn [forallb] in Hw. apply andb_prop in Hw as [Hb Hw].
    cbn [app split_whitespace_aux]. rewrite visible_ws by done.
    cbn [length] in *. rewrite IH by (try rewrite <-app_assoc; (done || lia)).
    rewrite <-app_assoc. done.
Qed.

Lemma split_whitespace_word w s :
  forallb visible w = true -> w <> [] ->
  split_whitespace (w ++ Byte.x20 :: s) = w :: split_whitespace s.
Proof.
  intros Hw Hne. unfold split_whitespace. rewrite split_whitespace_aux_word; [|done|done|rewrite length_app; cbn; lia].
  rewrite length_app. cbn [length app]. do 2 f_equal. lia.
Qed.

(** ** A decimal text is read back *)

Lemma digit_visible s : forallb is_digit s = true -> forallb visible s = true.
Proof. rewrite !forallb_forall. intros H b Hb%H. unfold visible, is_digit, in_range in *. lia. Qed.

Lemma parse_digits_dec max s : forall acc,
  0 <= acc -> forallb is_digit s = true ->
  fold_left (fun acc b => acc * 10 + (bv b - 48)) s acc <= max ->
  parse_digits 10 max acc s = Ok (fold_left (fun acc b => acc * 10 + (bv b - 48)) s acc).
Proof.
  assert (Mono : forall s acc, 0 <= acc -> forallb is_digit s = true ->
    acc <= fold_left (fun acc b => acc * 10 + (bv b - 48)) s acc).
  { clear. induction s as [|b s IH]; intros acc Ha H; cbn in *; [lia|]. apply andb_prop in H as [Hb H].
    unfold is_digit, in_range in Hb. specialize (IH (acc * 10 + (bv b - 48)) ltac:(lia) H). lia. }
  induction s as [|b s IH]; intros acc Ha H Hmax; [done|]. cbn in H. apply andb_prop in H as [Hb H].
  cbn [fold_left parse_digits] in *. unfold to_digit. unfold is_digit in Hb. rewrite Hb. unfold in_range in Hb.
  rewrite (proj2 (Z.ltb_lt _ _)) by lia.
  specialize (Mono s (acc * 10 + (bv b - 48)) ltac:(lia) H).
  rewrite (proj2 (Z.ltb_ge _ _)) by lia. apply IH; (done || lia).
Qed.

Lemma show_Z_not_nil n : 0 <= n -> show_Z n <> [].
Proof. intros _. unfold show_Z. cbn [show_aux]. destruct (n <? 10); [done|]. rewrite show_aux_app. by destruct (show_aux _ _ _). Qed.

Lemma from_str_radix_show max n : 0 <= n <= max -> from_str_radix 10 max (show_Z n) = Ok n.
Proof.
  intros Hn. destruct (show_Z_spec n ltac:(lia)) as [Hv Hd]. pose proof (show_Z_not_nil n ltac:(lia)) as Hne.
  assert (E : parse_digits 10 max 0 (show_Z n) = Ok n)
    by (rewrite parse_digits_dec; [f_equal; exact Hv|lia|done|unfold dec_value in Hv; rewrite Hv; lia]).
  destruct (show_Z n) as [|b t]; [done|]. cbn [from_str_radix]. cbn in Hd. apply andb_prop in Hd as [Hb _].
  assert (Hp : Byte.eqb b Byte.x2b = false) by (apply byte_eqb_ne; intros ->; done).
  assert (Hm : Byte.eqb b Byte.x2d = false) by (apply byte_eqb_ne; intros ->; done).
  rewrite Hp, Hm. by destruct t.
Qed.

(** * Prefix codes *)

(** Neither of two lists continues the other. *)
Fixpoint diverge (a b : bytes) : bool :=
  match a, b with
  | x :: a, y :: b => negb (Byte.eqb x y) || diverge a b
  | _, _ => false
  end.

Lemma diverge_app a b x y : diverge a b = true -> a ++ x <> b ++ y.
Proof.
  revert b. induction a as [|c a IH]; intros [|d b]; cbn; try done.
  destruct (Byte.eqb c d) eqn:E; cbn.
  - intros H [= -> Eq]. by apply (IH b).
  - intros _ [= -> _]. by rewrite byte_eqb_refl in E.
Qed.

Definition all_bytes : list byte := map (fun n => byte_of_Z (Z.of_nat n)) (seq 0 256).

Lemma In_all_bytes b : In b all_bytes.
Proof.
  apply in_map_iff. exists (Z.to_nat (bv b)). pose proof (bv_range b). split.
  - rewrite Z2Nat.id by lia. apply bv_inj. rewrite bv_of_Z. apply Z.mod_small. lia.
  - apply in_seq. lia.
Qed.

(** Texts of a prefix code that no code word can end early: what was encoded
    can be told, and what follows it. *)
Lemma prefix_code {T} `{EqDecision T} (enc : T -> bytes) (stop : bytes) us vs x y :
  (forall u, diverge (enc u) stop = true) ->
  (forall u v, u <> v -> diverge (enc u) (enc v) = true) ->
  concat (map enc us) ++ stop ++ x = concat (map enc vs) ++ stop ++ y -> us = vs /\ x = y.
Proof.
  intros Hstop Hcode. revert vs. induction us as [|u us IH]; intros [|v vs]; cbn [map concat]; rewrite <-?app_assoc, ?app_nil_l; intros E.
  - by apply app_inv_head in E.
  - symmetry in E. by apply diverge_app in E.
  - by apply diverge_app in E.
  - destruct (decide (u = v)) as [->|Hne].
    + apply app_inv_head in E. by apply IH in E as [-> ->].
    + apply diverge_app in E; [done|by apply Hcode].
Qed.
