(* ===== verification/BTree.v ===== *)
(** [std::collections::BTreeMap] as the source uses it: an association list in
    the order of its keys.  [serde_json::Map] is documented to be a
    [BTreeMap<String, Value>] (the crate is built without [preserve_order]), and
    the stream aggregators keep [BTreeMap<i64, Map>] tables, so every component
    that builds JSON stands on this file.

    The lookup and update lemmas need no invariant; [sorted] is what makes two
    maps with the same lookups equal ([btree_ext]). *)

From S2P Require Import Prelude.

(** * Ordered keys *)

Class OrdKey (K : Type) := {
  kcmp : K -> K -> comparison;
  kcmp_eq : forall a b, kcmp a b = Eq <-> a = b;
  kcmp_sym : forall a b, kcmp b a = CompOpp (kcmp a b);
  kcmp_trans : forall a b c, kcmp a b = Lt -> kcmp b c = Lt -> kcmp a c = Lt;
}.

#[export] Instance Z_OrdKey : OrdKey Z.
Proof.
  refine {| kcmp := Z.compare |}.
  - apply Z.compare_eq_iff.
  - intros. apply Z.compare_antisym.
  - intros a b c. rewrite !Z.compare_lt_iff. lia.
Defined.

(** [str] is compared byte by byte. *)
Fixpoint bytes_cmp (a b : bytes) : comparison :=
  match a, b with
  | [], [] => Eq
  | [], _ :: _ => Lt
  | _ :: _, [] => Gt
  | x :: a, y :: b =>
      match (bv x ?= bv y)%Z with
      | Eq => bytes_cmp a b
      | c => c
      end
  end.

Lemma bytes_cmp_eq a b : bytes_cmp a b = Eq <-> a = b.
Proof.
  revert b. induction a as [|x a IH]; intros [|y b]; cbn; try done.
  destruct (Z.compare_spec (bv x) (bv y)) as [E|E|E].
  - apply bv_inj in E as ->. rewrite IH. split; congruence.
  - split; [done|]. intros [= -> ->]. lia.
  - split; [done|]. intros [= -> ->]. lia.
Qed.

Lemma bytes_cmp_sym a b : bytes_cmp b a = CompOpp (bytes_cmp a b).
Proof.
  revert b. induction a as [|x a IH]; intros [|y b]; cbn; try done.
  rewrite (Z.compare_antisym (bv x) (bv y)).
  destruct (bv x ?= bv y)%Z; cbn; auto.
Qed.

Lemma bytes_cmp_trans a b c : bytes_cmp a b = Lt -> bytes_cmp b c = Lt -> bytes_cmp a c = Lt.
Proof.
  revert b c. induction a as [|x a IH]; intros [|y b] [|z c]; cbn; try done.
  destruct (Z.compare_spec (bv x) (bv y)), (Z.compare_spec (bv y) (bv z)),
    (Z.compare_spec (bv x) (bv z)); try done; try lia.
  apply IH.
Qed.

#[export] Instance bytes_OrdKey : OrdKey bytes := {|
  kcmp := bytes_cmp;
  kcmp_eq := bytes_cmp_eq;
  kcmp_sym := bytes_cmp_sym;
  kcmp_trans := bytes_cmp_trans;
|}.

Lemma kcmp_refl `{OrdKey K} (k : K) : kcmp k k = Eq.
Proof. by apply kcmp_eq. Qed.

Lemma kcmp_gt_lt `{OrdKey K} (a b : K) : kcmp a b = Gt <-> kcmp b a = Lt.
Proof. rewrite (kcmp_sym a b). by destruct (kcmp a b). Qed.

(** * The map *)

Definition btree (K V : Type) : Type := list (K * V).

Section Ops.
Context {K V : Type} `{OrdKey K}.
Implicit Types (k : K) (v : V) (m : list (K * V)).

(** [BTreeMap::get]. *)
Fixpoint bget k m : option V :=
  match m with
  | [] => None
  | (k', v) :: m => match kcmp k k' with Eq => Some v | _ => bget k m end
  end.

(** [BTreeMap::insert]. *)
Fixpoint bins k v m : list (K * V) :=
  match m with
  | [] => [(k, v)]
  | (k', v') :: m =>
      match kcmp k k' with
      | Lt => (k, v) :: (k', v') :: m
      | Eq => (k, v) :: m
      | Gt => (k', v') :: bins k v m
      end
  end.

(** [BTreeMap::remove] (the map it leaves). *)
Fixpoint bdel k m : list (K * V) :=
  match m with
  | [] => []
  | (k', v') :: m =>
      match kcmp k k' with
      | Eq => m
      | _ => (k', v') :: bdel k m
      end
  end.

(** [BTreeMap::contains_key]. *)
Definition bhas k m : bool := match bget k m with Some _ => true | None => false end.

(** [m.entry(k).or_insert(d)], read back, updated by [f] and stored. *)
Definition bentry k (d : V) (f : V -> V) m : list (K * V) :=
  bins k (f (default d (bget k m))) m.

(** [for (k, v) in source { target.insert(k, v); }]. *)
Definition bextend (target source : list (K * V)) : list (K * V) :=
  fold_left (fun t kv => bins kv.1 kv.2 t) source target.

(** [BTreeMap::into_values]. *)
Definition bvalues m : list V := map snd m.
End Ops.

(** The keys are strictly increasing. *)
Inductive sorted {K V} `{OrdKey K} : list (K * V) -> Prop :=
  | sorted_nil : sorted []
  | sorted_cons k v m :
      Forall (fun kv => kcmp k kv.1 = Lt) m -> sorted m -> sorted ((k, v) :: m).

#[export] Hint Constructors sorted : poo.

(** Case analysis on a key comparison, with equal keys substituted. *)
Ltac cmp_cases a b :=
  let E := fresh "Ecmp" in
  destruct (kcmp a b) eqn:E; [apply kcmp_eq in E; subst| |].

Section Lemmas.
Context {K V : Type} `{OrdKey K}.
Implicit Types (k : K) (v : V) (m : list (K * V)).

Lemma bget_bins_eq k v m : bget k (bins k v m) = Some v.
Proof.
  induction m as [|[k' v'] m IH]; cbn.
  - by rewrite kcmp_refl.
  - cmp_cases k k'; cbn; rewrite ?kcmp_refl; [done..|]. by rewrite Ecmp.
Qed.

Lemma bget_bins_ne k k' v m : k <> k' -> bget k (bins k' v m) = bget k m.
Proof.
  intros Hne. induction m as [|[k0 v0] m IH]; cbn.
  - cmp_cases k k'; [done..].
  - cmp_cases k' k0; cbn.
    + cmp_cases k k0; [done..].
    + cmp_cases k k'; [done..].
    + by rewrite IH.
Qed.

Lemma bget_bins k k' v m :
  bget k (bins k' v m) = match kcmp k k' with Eq => Some v | _ => bget k m end.
Proof.
  cmp_cases k k'.
  - apply bget_bins_eq.
  - apply bget_bins_ne. intros ->. by rewrite kcmp_refl in Ecmp.
  - apply bget_bins_ne. intros ->. by rewrite kcmp_refl in Ecmp.
Qed.

Lemma bins_bins_eq k v v' m : bins k v (bins k v' m) = bins k v m.
Proof.
  induction m as [|[k0 v0] m IH]; cbn.
  - by rewrite kcmp_refl.
  - cmp_cases k k0; cbn; rewrite ?kcmp_refl; [done..|]. by rewrite Ecmp, IH.
Qed.

Lemma bins_comm k1 k2 v1 v2 m :
  k1 <> k2 -> bins k1 v1 (bins k2 v2 m) = bins k2 v2 (bins k1 v1 m).
Proof.
  intros Hne.
  assert (Htr : forall a b c : K, kcmp a b = Lt -> kcmp c b = Gt -> kcmp c a = Gt).
  { intros a b c ? ?%kcmp_gt_lt. apply kcmp_gt_lt. by eapply kcmp_trans. }
  assert (H12 : kcmp k1 k2 <> Eq) by (by rewrite kcmp_eq).
  pose proof (kcmp_sym k1 k2) as Hs.
  induction m as [|[k v] m IH]; cbn.
  - rewrite Hs. by destruct (kcmp k1 k2).
  - destruct (kcmp k1 k) eqn:E1, (kcmp k2 k) eqn:E2; cbn; rewrite ?E1, ?E2; try done;
      try (apply kcmp_eq in E1; subst); try (apply kcmp_eq in E2; subst); try done;
      rewrite ?kcmp_refl; try done.
    + by rewrite (kcmp_sym k2 k), E2.
    + by rewrite E2.
    + by rewrite (kcmp_sym k1 k), E1.
    + rewrite Hs. by destruct (kcmp k1 k2) eqn:E; cbn; rewrite ?E1, ?E2.
    + by rewrite (Htr k1 k k2).
    + by rewrite E1.
    + by rewrite (Htr k2 k k1).
    + by rewrite IH.
Qed.

Lemma Forall_bins (P : K * V -> Prop) k v m :
  P (k, v) -> Forall P m -> Forall P (bins k v m).
Proof.
  intros Hp. induction 1 as [|[k' v'] m Hx Hm IH]; cbn; [by repeat constructor|].
  destruct (kcmp k k'); repeat constructor; auto.
Qed.

Lemma sorted_bins k v m : sorted m -> sorted (bins k v m).
Proof.
  induction 1 as [|k' v' m Hf Hs IH]; cbn; [repeat constructor|].
  cmp_cases k k'.
  - by constructor.
  - constructor; [|by constructor]. constructor; [done|].
    eapply Forall_impl; [|exact Hf]. intros [k0 v0] Hk; cbn in *.
    by eapply kcmp_trans.
  - constructor; [|done]. apply Forall_bins; [|done]. by apply kcmp_gt_lt.
Qed.

Lemma bget_lt_None k m : Forall (fun kv => kcmp k kv.1 = Lt) m -> bget k m = None.
Proof.
  induction 1 as [|[k' v'] m Hk _ IH]; cbn in *; [done|]. by rewrite Hk.
Qed.

Lemma bget_In k v m : sorted m -> In (k, v) m -> bget k m = Some v.
Proof.
  induction 1 as [|k' v' m Hf Hs IH]; cbn; [done|].
  intros [[= -> ->]|Hin]; [by rewrite kcmp_refl|].
  rewrite Forall_forall in Hf.
  specialize (Hf _ Hin). cbn in Hf.
  rewrite (kcmp_sym k' k), Hf. cbn. auto.
Qed.

Lemma In_bget k v m : bget k m = Some v -> In (k, v) m.
Proof.
  induction m as [|[k' v'] m IH]; cbn; [done|].
  cmp_cases k k'; [intros [= ->]; by left|auto..].
Qed.

(** Two maps with the same lookups are the same map. *)
Lemma btree_ext m1 m2 :
  sorted m1 -> sorted m2 -> (forall k, bget k m1 = bget k m2) -> m1 = m2.
Proof.
  intros S1. revert m2. induction S1 as [|k1 v1 m1 F1 S1 IH]; intros m2 S2 He.
  - destruct S2 as [|k v m2 F2 S2]; [done|].
    specialize (He k). cbn in He. by rewrite kcmp_refl in He.
  - destruct S2 as [|k2 v2 m2 F2 S2].
    { specialize (He k1). cbn in He. by rewrite kcmp_refl in He. }
    assert (k1 = k2) as ->.
    { pose proof (He k1) as H1. pose proof (He k2) as H2. cbn in H1, H2.
      rewrite kcmp_refl in H1, H2. rewrite (kcmp_sym k1 k2) in H2.
      cmp_cases k1 k2; cbn in *; [done| |].
      - rewrite bget_lt_None in H1; [done|].
        eapply Forall_impl; [|exact F2]. intros [k v]; cbn. eauto using kcmp_trans.
      - rewrite bget_lt_None in H2; [done|].
        apply kcmp_gt_lt in Ecmp.
        eapply Forall_impl; [|exact F1]. intros [k v]; cbn. eauto using kcmp_trans. }
    pose proof (He k2) as H2. cbn in H2. rewrite kcmp_refl in H2. injection H2 as ->.
    f_equal. apply IH; [done|]. intros k. specialize (He k). cbn in He.
    cmp_cases k k2; [|done..].
    by rewrite !bget_lt_None.
Qed.

Lemma bget_bentry_eq k d f m : bget k (bentry k d f m) = Some (f (default d (bget k m))).
Proof. apply bget_bins_eq. Qed.

(** Updating an entry twice is updating it once by the composition. *)
Lemma bentry_bentry k d f g m : bentry k d g (bentry k d f m) = bentry k d (fun x => g (f x)) m.
Proof. unfold bentry. by rewrite bget_bins_eq, bins_bins_eq. Qed.

Lemma bentry_ext k d f g m :
  (forall x, f x = g x) -> bentry k d f m = bentry k d g m.
Proof. intros E. unfold bentry. by rewrite E. Qed.

Lemma bins_not_nil k v m : bins k v m <> [].
Proof. destruct m as [|[k' v'] m]; cbn; [done|]. by destruct (kcmp k k'). Qed.

Lemma Forall_bdel (P : K * V -> Prop) k m : Forall P m -> Forall P (bdel k m).
Proof.
  induction 1 as [|[k' v'] m Hx Hm IH]; cbn; [done|].
  destruct (kcmp k k'); auto.
Qed.

Lemma sorted_bdel k m : sorted m -> sorted (bdel k m).
Proof.
  induction 1 as [|k' v' m Hf Hs IH]; cbn; [constructor|].
  destruct (kcmp k k'); [done|..]; (constructor; [by apply Forall_bdel|done]).
Qed.

Lemma bdel_absent k m : Forall (fun kv => kcmp k kv.1 = Lt) m -> bdel k m = m.
Proof.
  induction 1 as [|[k' v'] m Hk _ IH]; cbn in *; [done|]. by rewrite Hk, IH.
Qed.

(** Removing an entry before writing it is writing it. *)
Lemma bins_bdel k v m : sorted m -> bins k v (bdel k m) = bins k v m.
Proof.
  induction 1 as [|k' v' m Hf Hs IH]; cbn; [done|].
  cmp_cases k k'; cbn; rewrite ?Ecmp, ?IH.
  - destruct Hf as [|[k0 v0] m Hx Hf]; cbn in *; [done|]. by rewrite Hx.
  - rewrite bdel_absent; [done|].
    eapply Forall_impl; [|exact Hf]. intros [? ?]; cbn; eauto using kcmp_trans.
  - done.
Qed.

Lemma bins_id k v m : sorted m -> bget k m = Some v -> bins k v m = m.
Proof.
  intros Hs Hg. apply btree_ext; [by apply sorted_bins|done|].
  intros k'. rewrite bget_bins. cmp_cases k' k; congruence.
Qed.

Lemma length_bins_has k v v0 m : bget k m = Some v0 -> sorted m ->
  length (bins k v m) = length m.
Proof.
  intros Hg Hs. induction Hs as [|k' v' m Hf Hs IH]; cbn in *; [done|].
  cmp_cases k k'; cbn; [done| |by rewrite IH].
  rewrite bget_lt_None in Hg; [done|].
  eapply Forall_impl; [|exact Hf]. intros [? ?]; cbn; eauto using kcmp_trans.
Qed.

(** Lookups through [bextend]: the source wins. *)
Lemma bget_bextend k (t s : list (K * V)) :
  sorted s -> bget k (bextend t s) = match bget k s with Some v => Some v | None => bget k t end.
Proof.
  intros Hs. revert t. induction Hs as [|k' v' s Hf Hs IH]; intros t; cbn; [done|].
  unfold bextend in IH. rewrite IH, bget_bins.
  cmp_cases k k'; [|done..]. by rewrite bget_lt_None.
Qed.

Lemma Forall_bextend (P : K * V -> Prop) (t s : list (K * V)) : Forall P t -> Forall P s -> Forall P (bextend t s).
Proof.
  intros Ht Hs. unfold bextend. revert t Ht. induction Hs as [|[k v] s Hk _ IH]; intros t Ht; [done|].
  cbn [fold_left]. apply IH. by apply Forall_bins.
Qed.

Lemma sorted_bextend (t s : list (K * V)) : sorted t -> sorted (bextend t s).
Proof.
  unfold bextend. revert t. induction s as [|[k v] s IH]; intros t Ht; cbn; [done|].
  by apply IH, sorted_bins.
Qed.
End Lemmas.

#[export] Hint Resolve sorted_bins sorted_bdel sorted_bextend : poo.

(** Simplifies lookups of inserts at literal keys. *)
Ltac bsimp :=
  repeat first
    [ rewrite bget_bins_eq
    | rewrite bget_bins_ne by discriminate
    | rewrite bins_bins_eq ].
