(* ===== verification/TlsProfile.v ===== *)
(** The egress TLS profile and its canonical binary form
    ([src/enclave/src/tls_profile.rs]): the [TlsProfile] record, the encoder
    [canonical_encode] and the cursor decoder [decode].

    The decoder's [u32] counts are loop bounds; the loops carry fuel one larger
    than the input, which suffices because every round consumes at least one
    byte ([push_n_fuel]). *)

From S2P Require Import Prelude RustStr.
Local Open Scope Z_scope.

(** * Data *)

Inductive Stack := Rustls | Boring | OpenSsl | RustlsAwsLc.
Inductive TlsVersion := Tls12 | Tls13.
Inductive GreasePolicy := GreaseDisabled | GreaseEnabled.
Inductive ExtOrder := Fixed | PermutePerSession.
Inductive CertPolicy := WebpkiRoots.

#[export] Instance Stack_eq_dec : EqDecision Stack.
Proof. solve_decision. Defined.
#[export] Instance GreasePolicy_eq_dec : EqDecision GreasePolicy.
Proof. solve_decision. Defined.
#[export] Instance ExtOrder_eq_dec : EqDecision ExtOrder.
Proof. solve_decision. Defined.

Record H2Settings := {
  settings : list (Z * Z);
  window_update : Z;
  pseudo_header_order : list bytes;
}.

Record TlsProfile := {
  spec_id : Z;
  issued_at : Z;
  label : bytes;
  stack : Stack;
  cipher_list : bytes;
  sigalgs : list bytes;
  groups : list bytes;
  alpn : list bytes;
  grease : GreasePolicy;
  ext_order : ExtOrder;
  min_negotiated : TlsVersion;
  cert_policy : CertPolicy;
  h2 : option H2Settings;
}.

Inductive DecodeError :=
  | Eof
  | Utf8
  | BadTag (what : bytes)
  | Trailing.

(** * Encoder *)

Definition put_len (o : bytes) (n : Z) : bytes := o ++ to_be_bytes 4 n.
Definition put_bytes (o b : bytes) : bytes := put_len o (zlen b) ++ b.
Definition put_str (o s : bytes) : bytes := put_bytes o s.
Definition put_strs (o : bytes) (v : list bytes) : bytes :=
  fold_left put_str v (put_len o (zlen v)).

Definition stack_tag (s : Stack) : byte :=
  match s with Rustls => Byte.x00 | Boring => Byte.x01 | OpenSsl => Byte.x02 | RustlsAwsLc => Byte.x03 end.
Definition grease_tag (g : GreasePolicy) : byte :=
  match g with GreaseDisabled => Byte.x00 | GreaseEnabled => Byte.x01 end.
Definition ext_order_tag (e : ExtOrder) : byte :=
  match e with Fixed => Byte.x00 | PermutePerSession => Byte.x01 end.
Definition tls_version_tag (v : TlsVersion) : byte :=
  match v with Tls12 => Byte.x00 | Tls13 => Byte.x01 end.
Definition cert_policy_tag (c : CertPolicy) : byte :=
  match c with WebpkiRoots => Byte.x00 end.

Definition canonical_encode (s : TlsProfile) : bytes :=
  let o := [] in
  let o := o ++ to_be_bytes 4 (spec_id s) in
  let o := o ++ to_be_bytes 8 (issued_at s) in
  let o := put_str o (label s) in
  let o := o ++ [stack_tag (stack s)] in
  let o := put_str o (cipher_list s) in
  let o := put_strs o (sigalgs s) in
  let o := put_strs o (groups s) in
  let o := put_strs o (alpn s) in
  let o := o ++ [grease_tag (grease s)] in
  let o := o ++ [ext_order_tag (ext_order s)] in
  let o := o ++ [tls_version_tag (min_negotiated s)] in
  let o := o ++ [cert_policy_tag (cert_policy s)] in
  match h2 s with
  | None => o ++ [Byte.x00]
  | Some h2 =>
      let o := o ++ [Byte.x01] in
      let o := put_len o (zlen (settings h2)) in
      let o := fold_left
        (fun o '(id, val) => (o ++ to_be_bytes 2 id) ++ to_be_bytes 4 val) (settings h2) o in
      let o := o ++ to_be_bytes 4 (window_update h2) in
      put_strs o (pseudo_header_order h2)
  end.

(** * Decoder *)

(** [Dec]: the input and the position in it. *)
Record Dec := mkDec { d_b : bytes; d_i : Z }.

Definition dec_result (A : Type) : Type := result (A * Dec) DecodeError.

Definition dec_new (b : bytes) : Dec := mkDec b 0.

(** [Dec::take]: [checked_add] on [usize], then the bound check. *)
Definition dec_take (n : Z) (d : Dec) : dec_result bytes :=
  let e := d_i d + n in
  if u64_max <? e then Err Eof
  else if zlen (d_b d) <? e then Err Eof
  else Ok (take (Z.to_nat n) (drop (Z.to_nat (d_i d)) (d_b d)), mkDec (d_b d) e).

Definition dec_u8 (d : Dec) : dec_result byte :=
  let? (s, d) := dec_take 1 d in
  Ok (default Byte.x00 (head s), d).
Definition dec_u16 (d : Dec) : dec_result Z :=
  let? (s, d) := dec_take 2 d in Ok (from_be_bytes s, d).
Definition dec_u32 (d : Dec) : dec_result Z :=
  let? (s, d) := dec_take 4 d in Ok (from_be_bytes s, d).
Definition dec_u64 (d : Dec) : dec_result Z :=
  let? (s, d) := dec_take 8 d in Ok (from_be_bytes s, d).
Definition dec_len (d : Dec) : dec_result Z := dec_u32 d.
Definition dec_bytes (d : Dec) : dec_result bytes :=
  let? (n, d) := dec_len d in dec_take n d.
(** [Dec::s]: [String::from_utf8]. *)
Definition dec_s (d : Dec) : dec_result bytes :=
  let? (b, d) := dec_bytes d in
  if is_utf8 b then Ok (b, d) else Err Utf8.

(** [for _ in 0..n { v.push(f()?); }]. *)
Fixpoint push_n {A} (f : Dec -> dec_result A) (fuel : nat) (n : Z) (v : list A) (d : Dec)
    : dec_result (list A) :=
  if n <=? 0 then Ok (v, d)
  else match fuel with
       | O => Err Eof
       | S fuel => let? (x, d) := f d in push_n f fuel (n - 1) (v ++ [x]) d
       end.

Definition dec_strs (d : Dec) : dec_result (list bytes) :=
  let? (n, d) := dec_len d in
  push_n dec_s (S (length (d_b d))) n [] d.

(** [(d.u16()?, d.u32()?)]. *)
Definition dec_setting (d : Dec) : dec_result (Z * Z) :=
  let? (id, d) := dec_u16 d in
  let? (val, d) := dec_u32 d in
  Ok ((id, val), d).

Definition dec_stack (d : Dec) : dec_result Stack :=
  let? (t, d) := dec_u8 d in
  match t with
  | Byte.x00 => Ok (Rustls, d)
  | Byte.x01 => Ok (Boring, d)
  | Byte.x02 => Ok (OpenSsl, d)
  | Byte.x03 => Ok (RustlsAwsLc, d)
  | _ => Err (BadTag "stack")
  end.
Definition dec_grease (d : Dec) : dec_result GreasePolicy :=
  let? (t, d) := dec_u8 d in
  match t with
  | Byte.x00 => Ok (GreaseDisabled, d)
  | Byte.x01 => Ok (GreaseEnabled, d)
  | _ => Err (BadTag "grease")
  end.
Definition dec_ext_order (d : Dec) : dec_result ExtOrder :=
  let? (t, d) := dec_u8 d in
  match t with
  | Byte.x00 => Ok (Fixed, d)
  | Byte.x01 => Ok (PermutePerSession, d)
  | _ => Err (BadTag "ext_order")
  end.
Definition dec_tls_version (d : Dec) : dec_result TlsVersion :=
  let? (t, d) := dec_u8 d in
  match t with
  | Byte.x00 => Ok (Tls12, d)
  | Byte.x01 => Ok (Tls13, d)
  | _ => Err (BadTag "tls_version")
  end.
Definition dec_cert_policy (d : Dec) : dec_result CertPolicy :=
  let? (t, d) := dec_u8 d in
  match t with
  | Byte.x00 => Ok (WebpkiRoots, d)
  | _ => Err (BadTag "cert_policy")
  end.
Definition dec_h2 (d : Dec) : dec_result (option H2Settings) :=
  let? (t, d) := dec_u8 d in
  match t with
  | Byte.x00 => Ok (None, d)
  | Byte.x01 =>
      let? (sn, d) := dec_len d in
      let? (ss, d) := push_n dec_setting (S (length (d_b d))) sn [] d in
      let? (wu, d) := dec_u32 d in
      let? (pho, d) := dec_strs d in
      Ok (Some {| settings := ss; window_update := wu; pseudo_header_order := pho |}, d)
  | _ => Err (BadTag "h2")
  end.

Definition decode (b : bytes) : result TlsProfile DecodeError :=
  let d := dec_new b in
  let? (spec_id, d) := dec_u32 d in
  let? (issued_at, d) := dec_u64 d in
  let? (label, d) := dec_s d in
  let? (stack, d) := dec_stack d in
  let? (cipher_list, d) := dec_s d in
  let? (sigalgs, d) := dec_strs d in
  let? (groups, d) := dec_strs d in
  let? (alpn, d) := dec_strs d in
  let? (grease, d) := dec_grease d in
  let? (ext_order, d) := dec_ext_order d in
  let? (min_negotiated, d) := dec_tls_version d in
  let? (cert_policy, d) := dec_cert_policy d in
  let? (h2, d) := dec_h2 d in
  if negb (d_i d =? zlen (d_b d)) then Err Trailing
  else Ok {|
    spec_id := spec_id; issued_at := issued_at; label := label; stack := stack;
    cipher_list := cipher_list; sigalgs := sigalgs; groups := groups; alpn := alpn;
    grease := grease; ext_order := ext_order; min_negotiated := min_negotiated;
    cert_policy := cert_policy; h2 := h2 |}.

(** * Codecs

    [Codec f enc ok]: the cursor decoder [f] reads back exactly what [enc]
    writes for the values satisfying [ok], and accepts nothing else. *)

Definition at_ (pre rest : bytes) : Dec := mkDec (pre ++ rest) (zlen pre).

Class Codec {A} (f : Dec -> dec_result A) (enc : A -> bytes) (ok : A -> Prop) : Prop := {
  codec_complete x pre rest :
    ok x -> zlen (pre ++ enc x ++ rest) <= u64_max ->
    f (at_ pre (enc x ++ rest)) = Ok (x, at_ (pre ++ enc x) rest);
  codec_sound pre rest x d :
    f (at_ pre rest) = Ok (x, d) ->
    ok x /\ exists rest', rest = enc x ++ rest' /\ d = at_ (pre ++ enc x) rest';
}.

Lemma at_app pre a rest : mkDec (pre ++ a ++ rest) (zlen (pre ++ a)) = at_ (pre ++ a) rest.
Proof. unfold at_. by rewrite app_assoc. Qed.

Lemma dec_take_complete pre s rest :
  zlen (pre ++ s ++ rest) <= u64_max ->
  dec_take (zlen s) (at_ pre (s ++ rest)) = Ok (s, at_ (pre ++ s) rest).
Proof.
  intros Hb. unfold dec_take. change (d_i (at_ pre (s ++ rest))) with (zlen pre).
    change (d_b (at_ pre (s ++ rest))) with (pre ++ s ++ rest).
    rewrite !zlen_app in *.
  pose proof (zlen_nonneg rest).
  destruct (Z.ltb_spec u64_max (zlen pre + zlen s)); [lia|].
  destruct (Z.ltb_spec (zlen pre + (zlen s + zlen rest)) (zlen pre + zlen s)); [lia|].
  unfold zlen. rewrite !Nat2Z.id, drop_app_length, take_app_length.
  do 2 f_equal. rewrite <-at_app. f_equal. unfold zlen. rewrite length_app. lia.
Qed.

Lemma dec_take_sound pre rest n s d :
  0 <= n -> dec_take n (at_ pre rest) = Ok (s, d) ->
  zlen s = n /\ exists rest', rest = s ++ rest' /\ d = at_ (pre ++ s) rest'.
Proof.
  intros Hn. unfold dec_take. change (d_i (at_ pre rest)) with (zlen pre).
  change (d_b (at_ pre rest)) with (pre ++ rest).
  case_match; [done|]. destruct (Z.ltb_spec (zlen (pre ++ rest)) (zlen pre + n)) as [|Hl]; [done|].
  rewrite zlen_app in Hl. intros [= <- <-].
  rewrite !zlen_to_nat, !drop_app_length.
  assert (Hlen : zlen (take (Z.to_nat n) rest) = n).
  { unfold zlen in *. rewrite length_take. lia. }
  split; [done|]. exists (drop (Z.to_nat n) rest). rewrite take_drop. split; [done|].
  rewrite <-at_app, take_drop, zlen_app, Hlen. unfold at_. done.
Qed.

(** A fixed-width read. *)
Lemma take_codec {A} (n : nat) (g : bytes -> A) (enc : A -> bytes) (ok : A -> Prop)
    (f : Dec -> dec_result A) :
  (forall d, f d = let? (s, d) := dec_take (Z.of_nat n) d in Ok (g s, d)) ->
  (forall x, ok x -> length (enc x) = n /\ g (enc x) = x) ->
  (forall s, length s = n -> ok (g s) /\ enc (g s) = s) ->
  Codec f enc ok.
Proof.
  intros Hf H1 H2. split.
  - intros x pre rest Hok Hb. rewrite Hf. destruct (H1 x Hok) as [<- Hg].
    change (Z.of_nat (length (enc x))) with (zlen (enc x)).
    by rewrite dec_take_complete, Hg.
  - intros pre rest x d. rewrite Hf.
    destruct (dec_take _ _) as [[s d']|] eqn:E; [|done]. intros [= <- <-].
    apply dec_take_sound in E as [Hl E]; [|lia].
    destruct (H2 s) as [Hok Henc]; [unfold zlen in Hl; lia|]. by rewrite Henc.
Qed.

#[export] Instance u8_codec : Codec dec_u8 (fun b => [b]) (fun _ => True).
Proof.
  apply (take_codec 1 (fun s => default Byte.x00 (head s))); [done..|].
  intros [|b [|]]; done.
Qed.

Section UnsignedCodec.
Context (n : nat) (f : Dec -> dec_result Z).
Hypothesis f_eq : forall d, f d = let? (s, d) := dec_take (Z.of_nat n) d in Ok (from_be_bytes s, d).

Lemma be_codec : Codec f (to_be_bytes n) (fun z => 0 <= z < 256 ^ Z.of_nat n).
Proof using f_eq.
  eapply take_codec; [exact f_eq|..].
  - intros z Hz. by rewrite length_to_be_bytes, from_to_be_bytes_small.
  - intros s <-. rewrite to_from_be_bytes. split; [|done]. split.
    + apply from_be_bytes_nonneg.
    + apply from_be_bytes_bound.
Qed.
End UnsignedCodec.

#[export] Instance u16_codec : Codec dec_u16 (to_be_bytes 2) (fun z => 0 <= z < 2 ^ 16).
Proof. by apply be_codec. Qed.
#[export] Instance u32_codec : Codec dec_u32 (to_be_bytes 4) (fun z => 0 <= z < 2 ^ 32).
Proof. by apply be_codec. Qed.
#[export] Instance u64_codec : Codec dec_u64 (to_be_bytes 8) (fun z => 0 <= z < 2 ^ 64).
Proof. by apply be_codec. Qed.

(** A one-byte tag. *)
Lemma tag_codec {A} (f : Dec -> dec_result A) (tag : A -> byte) (g : byte -> result A DecodeError) :
  (forall d, f d = let? (t, d) := dec_u8 d in let? x := g t in Ok (x, d)) ->
  (forall x, g (tag x) = Ok x) ->
  (forall t x, g t = Ok x -> t = tag x) ->
  Codec f (fun x => [tag x]) (fun _ => True).
Proof.
  intros Hf H1 H2. split.
  - intros x pre rest _ Hb. rewrite Hf.
    pose proof (codec_complete (f := dec_u8) (tag x) pre rest I Hb) as E.
    cbn beta in E. by rewrite E, H1.
  - intros pre rest x d. rewrite Hf.
    destruct (dec_u8 _) as [[t d']|] eqn:E; [|done].
    destruct (g t) as [y|] eqn:Eg; [|done]. intros [= <- <-].
    apply codec_sound in E as [_ E]. by apply H2 in Eg as ->.
Qed.

Ltac solve_tag g :=
  apply (tag_codec _ _ g);
  [ intros d; unfold dec_stack, dec_grease, dec_ext_order, dec_tls_version, dec_cert_policy;
    destruct (dec_u8 d) as [[t ?]|]; [by destruct t|done]
  | by intros []
  | intros t x; destruct t; intros ?; simplify_eq; by try destruct x ].

#[export] Instance stack_codec : Codec dec_stack (fun x => [stack_tag x]) (fun _ => True).
Proof.
  solve_tag (fun t => match t with
    | Byte.x00 => Ok Rustls | Byte.x01 => Ok Boring | Byte.x02 => Ok OpenSsl
    | Byte.x03 => Ok RustlsAwsLc | _ => Err (BadTag "stack") end).
Qed.
#[export] Instance grease_codec : Codec dec_grease (fun x => [grease_tag x]) (fun _ => True).
Proof.
  solve_tag (fun t => match t with
    | Byte.x00 => Ok GreaseDisabled | Byte.x01 => Ok GreaseEnabled | _ => Err (BadTag "grease") end).
Qed.
#[export] Instance ext_order_codec : Codec dec_ext_order (fun x => [ext_order_tag x]) (fun _ => True).
Proof.
  solve_tag (fun t => match t with
    | Byte.x00 => Ok Fixed | Byte.x01 => Ok PermutePerSession | _ => Err (BadTag "ext_order") end).
Qed.
#[export] Instance tls_version_codec : Codec dec_tls_version (fun x => [tls_version_tag x]) (fun _ => True).
Proof.
  solve_tag (fun t => match t with
    | Byte.x00 => Ok Tls12 | Byte.x01 => Ok Tls13 | _ => Err (BadTag "tls_version") end).
Qed.
#[export] Instance cert_policy_codec : Codec dec_cert_policy (fun x => [cert_policy_tag x]) (fun _ => True).
Proof.
  solve_tag (fun t => match t with
    | Byte.x00 => Ok WebpkiRoots | _ => Err (BadTag "cert_policy") end).
Qed.

(** Sequencing: [pr] reads the first component back out of the result. *)
Lemma bind_codec {A B} (f : Dec -> dec_result A) (encA : A -> bytes) (okA : A -> Prop)
    (g : A -> Dec -> dec_result B) (enc2 : B -> bytes) (ok : B -> Prop) (pr : B -> A) :
  Codec f encA okA ->
  (forall y, ok y -> okA (pr y)) ->
  (forall x, okA x -> Codec (g x) enc2 (fun y => ok y /\ pr y = x)) ->
  Codec (fun d => let? (x, d) := f d in g x d) (fun y => encA (pr y) ++ enc2 y) ok.
Proof.
  intros Cf Hok Cg. split.
  - intros y pre rest Hy Hb. rewrite <-app_assoc in *.
    rewrite (codec_complete (pr y)) by auto.
    pose proof (Cg (pr y) (Hok y Hy)) as C.
    rewrite (codec_complete y) by (rewrite <-?app_assoc; auto).
    by rewrite app_assoc.
  - intros pre rest y d. destruct (f _) as [[x d']|] eqn:E; [|done]. intros E2.
    apply codec_sound in E as (Hx & r1 & -> & ->).
    pose proof (Cg x Hx) as C.
    apply codec_sound in E2 as ([Hy <-] & r2 & -> & ->).
    split; [done|]. exists r2. by rewrite !app_assoc.
Qed.

Lemma ret_codec {A} (x : A) (ok : A -> Prop) :
  ok x -> (forall y, ok y -> y = x) -> Codec (fun d => Ok (x, d)) (fun _ => []) ok.
Proof.
  intros Hx Hu. split.
  - intros y pre rest Hy _. by rewrite (Hu y Hy), app_nil_r.
  - intros pre rest y d [= <- <-]. split; [done|]. exists rest. by rewrite app_nil_r.
Qed.

Section PushN.
Context {A} (f : Dec -> dec_result A) (enc : A -> bytes) (ok : A -> Prop) `{!Codec f enc ok}.
Hypothesis enc_nonempty : forall x, enc x <> [].

Lemma length_concat_map (l : list A) : (length l <= length (concat (map enc l)))%nat.
Proof using enc_nonempty.
  induction l as [|x l IH]; cbn; [done|]. rewrite length_app.
  pose proof (enc_nonempty x). destruct (enc x); [done|cbn; lia].
Qed.

Lemma push_n_complete l fuel v pre rest :
  Forall ok l -> (length l <= fuel)%nat ->
  zlen (pre ++ concat (map enc l) ++ rest) <= u64_max ->
  push_n f fuel (zlen l) v (at_ pre (concat (map enc l) ++ rest)) =
    Ok (v ++ l, at_ (pre ++ concat (map enc l)) rest).
Proof using All.
  intros Hl. revert fuel v pre. induction Hl as [|x l Hx Hl IH]; intros fuel v pre Hf Hb.
  - cbn. destruct fuel; cbn; by rewrite !app_nil_r.
  - destruct fuel as [|fuel]; cbn in Hf; [lia|]. cbn [push_n].
    destruct (Z.leb_spec (zlen (x :: l)) 0) as [Hz|_]; [unfold zlen in Hz; cbn in Hz; lia|].
    cbn [map concat] in *. rewrite <-app_assoc in *.
    rewrite (codec_complete x) by done.
    replace (zlen (x :: l) - 1) with (zlen l) by (unfold zlen; cbn; lia).
    rewrite IH by (first [lia | by rewrite <-app_assoc]).
    by rewrite <-!app_assoc.
Qed.

Lemma push_n_sound fuel n v v' pre rest d :
  0 <= n -> push_n f fuel n v (at_ pre rest) = Ok (v', d) ->
  exists l rest', v' = v ++ l /\ zlen l = n /\ Forall ok l /\
    rest = concat (map enc l) ++ rest' /\ d = at_ (pre ++ concat (map enc l)) rest'.
Proof using Codec0.
  revert n v pre rest. induction fuel as [|fuel IH]; intros n v pre rest Hn; cbn;
    (destruct (Z.leb_spec n 0) as [Hz|Hz];
      [intros [= <- <-]; exists [], rest; cbn; rewrite !app_nil_r;
       assert (n = 0) as -> by lia; done|]); [done|].
  destruct (f _) as [[x d']|] eqn:E; [|done].
  apply codec_sound in E as (Hx & r1 & -> & ->). intros E2.
  apply IH in E2 as (l & r2 & -> & Hl & Hok & -> & ->); [|lia].
  exists (x :: l), r2. cbn. rewrite <-!app_assoc. repeat split; auto.
  unfold zlen in *. cbn. lia.
Qed.

(** Fuel beyond the length of the remaining input changes nothing. *)
Lemma push_n_fuel fuel1 fuel2 n v pre rest :
  (length rest < fuel1)%nat -> (length rest < fuel2)%nat ->
  push_n f fuel1 n v (at_ pre rest) = push_n f fuel2 n v (at_ pre rest).
Proof using All.
  revert fuel2 n v pre rest. induction fuel1 as [|fuel1 IH]; intros fuel2 n v pre rest H1 H2; [lia|].
  destruct fuel2 as [|fuel2]; [lia|]. cbn.
  destruct (n <=? 0); [done|].
  destruct (f _) as [[x d']|] eqn:E; [|done].
  apply codec_sound in E as (Hx & r1 & -> & ->).
  rewrite length_app in *. pose proof (enc_nonempty x).
  assert (0 < length (enc x))%nat by (destruct (enc x); [done|cbn; lia]).
  apply IH; lia.
Qed.

Lemma push_n_codec (fuel : Dec -> nat) :
  (forall d, fuel d = S (length (d_b d))) ->
  Codec (fun d => let? (n, d) := dec_len d in push_n f (fuel d) n [] d)
    (fun l => to_be_bytes 4 (zlen l) ++ concat (map enc l))
    (fun l => zlen l < 2 ^ 32 /\ Forall ok l).
Proof using All.
  intros Hf.
  apply (bind_codec dec_u32 (to_be_bytes 4) (fun z => 0 <= z < 2 ^ 32)
    (fun n d => push_n f (fuel d) n [] d) (fun l => concat (map enc l)) _ zlen).
  - apply _.
  - intros l [Hl _]. pose proof (zlen_nonneg l). lia.
  - intros n Hn. split.
    + intros l pre rest [[_ Hl] <-] Hb. rewrite push_n_complete; [done..| |done].
      rewrite Hf. unfold at_. cbn. rewrite !length_app. pose proof (length_concat_map l). lia.
    + intros pre rest v d E.
      apply push_n_sound in E as (l & r & -> & Hl & Hok & -> & ->); [|lia].
      cbn. subst. split; [by destruct Hn|by eexists].
Qed.
End PushN.

Definition enc_str (s : bytes) : bytes := to_be_bytes 4 (zlen s) ++ s.

#[export] Instance bytes_codec : Codec dec_bytes enc_str (fun b => zlen b < 2 ^ 32).
Proof.
  apply (bind_codec dec_u32 (to_be_bytes 4) (fun z => 0 <= z < 2 ^ 32)
    (fun n d => dec_take n d) (fun b => b) _ zlen).
  - apply _.
  - intros b Hb. pose proof (zlen_nonneg b). lia.
  - intros n Hn. split.
    + intros b pre rest [_ <-] Hb. by apply dec_take_complete.
    + intros pre rest b d E. apply dec_take_sound in E as [<- E]; [|lia].
      destruct Hn. auto.
Qed.

(** A Rust [String] whose length fits the [u32] prefix. *)
Definition str_ok (s : bytes) : Prop := is_utf8 s = true /\ zlen s < 2 ^ 32.

#[export] Instance s_codec : Codec dec_s enc_str str_ok.
Proof.
  split.
  - intros s pre rest [Hu Hl] Hb. unfold dec_s.
    by rewrite codec_complete, Hu.
  - intros pre rest s d. unfold dec_s. destruct (dec_bytes _) as [[b d']|] eqn:E; [|done].
    destruct (is_utf8 b) eqn:Hu; [|done]. intros [= <- <-].
    apply codec_sound in E as (Hl & r & -> & ->). split; [done|]. by exists r.
Qed.

Definition strs_ok (l : list bytes) : Prop := zlen l < 2 ^ 32 /\ Forall str_ok l.
Definition enc_strs (l : list bytes) : bytes := to_be_bytes 4 (zlen l) ++ concat (map enc_str l).

Lemma be_prefix_nonempty n z (b : bytes) : to_be_bytes (S n) z ++ b <> [].
Proof.
  intros H. apply (f_equal length) in H. rewrite length_app, length_to_be_bytes in H. cbn in H. lia.
Qed.

#[export] Instance strs_codec : Codec dec_strs enc_strs strs_ok.
Proof. apply (push_n_codec dec_s enc_str str_ok); [|done]. intros x. apply be_prefix_nonempty. Qed.

Definition setting_ok (s : Z * Z) : Prop := 0 <= s.1 < 2 ^ 16 /\ 0 <= s.2 < 2 ^ 32.
Definition enc_setting (s : Z * Z) : bytes := to_be_bytes 2 s.1 ++ to_be_bytes 4 s.2.

#[export] Instance setting_codec : Codec dec_setting enc_setting setting_ok.
Proof.
  apply (bind_codec dec_u16 (to_be_bytes 2) (fun z => 0 <= z < 2 ^ 16)
    (fun id d => let? (val, d) := dec_u32 d in Ok ((id, val), d)) (fun s => to_be_bytes 4 s.2) _ fst).
  - apply _.
  - by intros y [? _].
  - intros id Hid. split.
    + intros [id' val] pre rest [[_ ?] <-] Hb. by rewrite codec_complete.
    + intros pre rest y d. destruct (dec_u32 _) as [[val d']|] eqn:E; [|done]. intros [= <- <-].
      apply codec_sound in E as (? & r & -> & ->). split; [done|]. by exists r.
Qed.

(** ** HTTP/2 settings *)

Definition h2_settings_ok (h : H2Settings) : Prop :=
  (zlen (settings h) < 2 ^ 32 /\ Forall setting_ok (settings h)) /\
  0 <= window_update h < 2 ^ 32 /\ strs_ok (pseudo_header_order h).
Definition enc_settings (l : list (Z * Z)) : bytes :=
  to_be_bytes 4 (zlen l) ++ concat (map enc_setting l).
Definition enc_h2 (o : option H2Settings) : bytes :=
  match o with
  | None => [Byte.x00]
  | Some h =>
      [Byte.x01] ++ enc_settings (settings h) ++ to_be_bytes 4 (window_update h)
        ++ enc_strs (pseudo_header_order h)
  end.
Definition h2_ok (o : option H2Settings) : Prop :=
  match o with None => True | Some h => h2_settings_ok h end.

Definition dec_settings (d : Dec) : dec_result (list (Z * Z)) :=
  let? (sn, d) := dec_len d in push_n dec_setting (S (length (d_b d))) sn [] d.

#[export] Instance settings_codec :
  Codec dec_settings enc_settings (fun l => zlen l < 2 ^ 32 /\ Forall setting_ok l).
Proof. apply (push_n_codec dec_setting enc_setting setting_ok); [|done]. intros x. apply be_prefix_nonempty. Qed.

(** One step of a sequential decoder. *)
Ltac codec_step f encA okA pr :=
  apply (bind_codec f encA okA _ _ _ pr);
  [ apply _ | intros ? ?; destruct_and?; done | intros ? ? ].

Definition dec_h2_settings (d : Dec) : dec_result H2Settings :=
  let? (ss, d) := dec_settings d in
  let? (wu, d) := dec_u32 d in
  let? (pho, d) := dec_strs d in
  Ok ({| settings := ss; window_update := wu; pseudo_header_order := pho |}, d).

#[export] Instance h2_settings_codec :
  Codec dec_h2_settings
    (fun h => enc_settings (settings h) ++ to_be_bytes 4 (window_update h)
       ++ enc_strs (pseudo_header_order h) ++ [])
    h2_settings_ok.
Proof.
  unfold h2_settings_ok.
  codec_step dec_settings enc_settings (fun l => zlen l < 2 ^ 32 /\ Forall setting_ok l) settings.
  codec_step dec_u32 (to_be_bytes 4) (fun z => 0 <= z < 2 ^ 32) window_update.
  codec_step dec_strs enc_strs strs_ok pseudo_header_order.
  apply ret_codec; [done|]. intros [] H'; cbn in *. by destruct_and? H'; subst.
Qed.

Lemma dec_h2_eq d :
  dec_h2 d = let? (t, d) := dec_u8 d in
             match t with
             | Byte.x00 => Ok (None, d)
             | Byte.x01 => let? (h, d) := dec_h2_settings d in Ok (Some h, d)
             | _ => Err (BadTag "h2")
             end.
Proof.
  unfold dec_h2, dec_h2_settings, dec_settings. destruct (dec_u8 d) as [[t ?]|]; [|done].
  destruct t; try done. repeat case_match; simplify_eq; try done.
Qed.

#[export] Instance h2_codec : Codec dec_h2 enc_h2 h2_ok.
Proof.
  split.
  - intros o pre rest Ho Hb. rewrite dec_h2_eq. destruct o as [h|]; unfold enc_h2 in *.
    + rewrite <-!app_assoc in *.
      pose proof (codec_complete (f := dec_u8) Byte.x01 pre _ I Hb) as E. cbn beta in E.
      rewrite E. pose proof (codec_complete (f := dec_h2_settings) h (pre ++ [Byte.x01]) rest Ho) as E2.
      cbn beta in E2. rewrite app_nil_r, <-!app_assoc in E2. rewrite E2 by done.
      done.
    + pose proof (codec_complete (f := dec_u8) Byte.x00 pre _ I Hb) as E. cbn beta in E.
      by rewrite E.
  - intros pre rest o d. rewrite dec_h2_eq.
    destruct (dec_u8 _) as [[t d1]|] eqn:E1; [|done].
    apply codec_sound in E1 as (_ & r1 & -> & ->).
    destruct t; try done.
    + intros [= <- <-]. split; [done|]. by exists r1.
    + destruct (dec_h2_settings _) as [[h d2]|] eqn:E2; [|done]. intros [= <- <-].
      apply codec_sound in E2 as (Hok & r2 & -> & ->). split; [done|]. exists r2.
      cbn. by rewrite !app_nil_r, <-!app_assoc.
Qed.

(** ** Profiles *)

(** What Rust's types guarantee of a [TlsProfile], plus length prefixes that
    fit in 32 bits. *)
Definition profile_ok (p : TlsProfile) : Prop :=
  0 <= spec_id p < 2 ^ 32 /\ 0 <= issued_at p < 2 ^ 64 /\ str_ok (label p) /\
  str_ok (cipher_list p) /\ strs_ok (sigalgs p) /\ strs_ok (groups p) /\ strs_ok (alpn p) /\
  h2_ok (h2 p).

Definition enc_profile (p : TlsProfile) : bytes :=
  to_be_bytes 4 (spec_id p) ++ to_be_bytes 8 (issued_at p) ++ enc_str (label p) ++
  [stack_tag (stack p)] ++ enc_str (cipher_list p) ++ enc_strs (sigalgs p) ++
  enc_strs (groups p) ++ enc_strs (alpn p) ++ [grease_tag (grease p)] ++
  [ext_order_tag (ext_order p)] ++ [tls_version_tag (min_negotiated p)] ++
  [cert_policy_tag (cert_policy p)] ++ enc_h2 (h2 p) ++ [].

Definition dec_profile (d : Dec) : dec_result TlsProfile :=
  let? (spec_id, d) := dec_u32 d in
  let? (issued_at, d) := dec_u64 d in
  let? (label, d) := dec_s d in
  let? (stack, d) := dec_stack d in
  let? (cipher_list, d) := dec_s d in
  let? (sigalgs, d) := dec_strs d in
  let? (groups, d) := dec_strs d in
  let? (alpn, d) := dec_strs d in
  let? (grease, d) := dec_grease d in
  let? (ext_order, d) := dec_ext_order d in
  let? (min_negotiated, d) := dec_tls_version d in
  let? (cert_policy, d) := dec_cert_policy d in
  let? (h2, d) := dec_h2 d in
  Ok ({|
    spec_id := spec_id; issued_at := issued_at; label := label; stack := stack;
    cipher_list := cipher_list; sigalgs := sigalgs; groups := groups; alpn := alpn;
    grease := grease; ext_order := ext_order; min_negotiated := min_negotiated;
    cert_policy := cert_policy; h2 := h2 |}, d).

#[export] Instance profile_codec : Codec dec_profile enc_profile profile_ok.
Proof.
  unfold profile_ok.
  codec_step dec_u32 (to_be_bytes 4) (fun z => 0 <= z < 2 ^ 32) spec_id.
  codec_step dec_u64 (to_be_bytes 8) (fun z => 0 <= z < 2 ^ 64) issued_at.
  codec_step dec_s enc_str str_ok label.
  codec_step dec_stack (fun s => [stack_tag s]) (fun _ : Stack => True) stack.
  codec_step dec_s enc_str str_ok cipher_list.
  codec_step dec_strs enc_strs strs_ok sigalgs.
  codec_step dec_strs enc_strs strs_ok groups.
  codec_step dec_strs enc_strs strs_ok alpn.
  codec_step dec_grease (fun s => [grease_tag s]) (fun _ : GreasePolicy => True) grease.
  codec_step dec_ext_order (fun s => [ext_order_tag s]) (fun _ : ExtOrder => True) ext_order.
  codec_step dec_tls_version (fun s => [tls_version_tag s]) (fun _ : TlsVersion => True) min_negotiated.
  codec_step dec_cert_policy (fun s => [cert_policy_tag s]) (fun _ : CertPolicy => True) cert_policy.
  codec_step dec_h2 enc_h2 h2_ok h2.
  apply ret_codec; [cbn; tauto|].
  intros []; cbn; intros H'; destruct_and? H'; by subst.
Qed.

Lemma decode_dec_profile b :
  decode b = let? (p, d) := dec_profile (dec_new b) in
             if negb (d_i d =? zlen (d_b d)) then Err Trailing else Ok p.
Proof.
  unfold decode, dec_profile.
  repeat match goal with |- context [match ?x with Ok _ => _ | Err _ => _ end] =>
    is_var x || (destruct x as [[? ?]|]; [|done]) end.
  done.
Qed.

Lemma put_str_eq o s : put_str o s = o ++ enc_str s.
Proof. unfold put_str, put_bytes, put_len, enc_str. by rewrite <-app_assoc. Qed.

Lemma put_strs_eq o v : put_strs o v = o ++ enc_strs v.
Proof.
  unfold put_strs, enc_strs, put_len. rewrite app_assoc. generalize (o ++ to_be_bytes 4 (zlen v)).
  induction v as [|s v IH]; intros o'; cbn [fold_left map concat]; [by rewrite app_nil_r|].
  by rewrite IH, put_str_eq, app_assoc.
Qed.

Lemma put_settings_eq o (l : list (Z * Z)) :
  fold_left (fun o '(id, val) => (o ++ to_be_bytes 2 id) ++ to_be_bytes 4 val) l o
    = o ++ concat (map enc_setting l).
Proof.
  revert o. induction l as [|[id val] l IH]; intros o; cbn [fold_left map concat]; [by rewrite app_nil_r|].
  rewrite IH. unfold enc_setting. cbn [fst snd]. by rewrite <-!app_assoc.
Qed.

Lemma canonical_encode_eq p : canonical_encode p = enc_profile p.
Proof.
  unfold canonical_encode, enc_profile. rewrite !put_str_eq, !put_strs_eq. unfold enc_h2.
  destruct (h2 p) as [h|].
  - rewrite put_strs_eq, put_settings_eq. unfold put_len, enc_settings.
    by rewrite <-!app_assoc, app_nil_r.
  - by rewrite <-!app_assoc.
Qed.

Lemma decode_encoded p :
  profile_ok p -> zlen (canonical_encode p) <= u64_max -> decode (canonical_encode p) = Ok p.
Proof.
  intros Hok Hb. rewrite canonical_encode_eq in *. rewrite decode_dec_profile.
  pose proof (codec_complete p [] [] Hok) as E. rewrite app_nil_r in E.
  change (at_ [] (enc_profile p)) with (dec_new (enc_profile p)) in E.
  rewrite E by done. cbn [app at_ d_i d_b]. by rewrite app_nil_r, Z.eqb_refl.
Qed.

(** * Properties *)

(** C24. Every profile that Rust's types allow, with length prefixes that fit 32
    bits, decodes back to itself from its canonical encoding. *)
Theorem decode_canonical_encode p :
  profile_ok p -> zlen (canonical_encode p) <= u64_max ->
  decode (canonical_encode p) = Ok p.
Proof. apply decode_encoded. Qed.

(** C25. The decoder accepts only canonical encodings: when it returns a profile,
    the input is byte for byte the encoding of that profile, and the profile
    respects the ranges of its Rust types. *)
Theorem decode_only_canonical b p :
  decode b = Ok p -> canonical_encode p = b /\ profile_ok p.
Proof.
  rewrite canonical_encode_eq, decode_dec_profile.
  change (dec_new b) with (at_ [] b).
  destruct (dec_profile _) as [[q d]|] eqn:E; [|done].
  apply codec_sound in E as (Hok & r & -> & ->). cbn [app at_ d_i d_b].
  destruct (Z.eqb_spec (zlen (enc_profile q)) (zlen (enc_profile q ++ r))) as [Hl|]; [|done].
  intros [= <-]. rewrite zlen_app in Hl.
  destruct r; [by rewrite app_nil_r|unfold zlen in Hl; cbn in Hl; lia].
Qed.

(** No accepted input is a proper prefix of another input that is accepted:
    extra bytes are reported as [Trailing], missing bytes as an error. *)
Theorem decode_prefix_free b p :
  decode b = Ok p ->
  (forall x, x <> [] -> zlen (b ++ x) <= u64_max -> decode (b ++ x) = Err Trailing) /\
  (forall k, (k < length b)%nat -> zlen b <= u64_max -> exists e, decode (take k b) = Err e).
Proof.
  rewrite !decode_dec_profile. change (dec_new b) with (at_ [] b).
  destruct (dec_profile (at_ [] b)) as [[q d]|] eqn:E; [|done].
  apply codec_sound in E as (Hok & r & -> & ->). cbn [app at_ d_i d_b].
  destruct (Z.eqb_spec (zlen (enc_profile q)) (zlen (enc_profile q ++ r))) as [Hl|]; [|done].
  assert (r = []) as -> by (rewrite zlen_app in Hl; destruct r; unfold zlen in *; cbn in *; [done|lia]).
  rewrite app_nil_r. intros [= <-]. split.
  - intros x Hx Hb. rewrite decode_dec_profile. change (dec_new ?b) with (at_ [] b).
    rewrite codec_complete by done. cbn [app at_ d_i d_b]. rewrite zlen_app.
    destruct x; [done|]. destruct (Z.eqb_spec (zlen (enc_profile q)) (zlen (enc_profile q) + zlen (b :: x)));
      [unfold zlen in *; cbn in *; lia|done].
  - intros k Hk Hb. rewrite decode_dec_profile. change (dec_new ?b) with (at_ [] b).
    destruct (dec_profile (at_ [] (take k _))) as [[q' d']|e] eqn:E; [|by exists e].
    apply codec_sound in E as (Hok' & r & E & ->). cbn [app at_ d_i d_b].
    exists Trailing. destruct r as [|y r].
    + exfalso. rewrite app_nil_r in E.
      pose proof (codec_complete q' [] (drop k (enc_profile q)) Hok') as C1.
      pose proof (codec_complete q [] [] Hok) as C2. cbn [app] in *.
      rewrite <-E, take_drop in C1. rewrite app_nil_r in C2.
      rewrite C2 in C1 by done. specialize (C1 Hb).
      apply (f_equal (fun r => match r with Ok (_, d) => d_i d | Err _ => 0 end)) in C1.
      cbn [at_ d_i] in C1. unfold zlen in C1. rewrite length_take in C1. lia.
    + rewrite zlen_app. by destruct (Z.eqb_spec (zlen (enc_profile q'))
        (zlen (enc_profile q') + zlen (y :: r))); [unfold zlen in *; cbn in *; lia|].
Qed.

(** * Witnesses *)

(** The profile of [specs/example-profile.json]. *)
Definition example_profile : TlsProfile := {|
  spec_id := 1; issued_at := 0; label := "example-client"; stack := Rustls;
  cipher_list := ""; sigalgs := []; groups := ["X25519"%bs; "P-256"%bs];
  alpn := ["http/1.1"%bs]; grease := GreaseDisabled; ext_order := Fixed;
  min_negotiated := Tls12; cert_policy := WebpkiRoots; h2 := None |}.

Definition h2_profile : TlsProfile := {|
  spec_id := 4; issued_at := 1721000000; label := "grok"; stack := RustlsAwsLc;
  cipher_list := ""; sigalgs := []; groups := []; alpn := ["h2"%bs; "http/1.1"%bs];
  grease := GreaseDisabled; ext_order := PermutePerSession; min_negotiated := Tls12;
  cert_policy := WebpkiRoots;
  h2 := Some {| settings := [(2, 0); (4, 2097152)]; window_update := 5177345;
                pseudo_header_order := [":method"%bs; ":path"%bs] |} |}.

Ltac solve_profile_ok :=
  unfold profile_ok, str_ok, strs_ok, h2_ok, h2_settings_ok; cbn;
  repeat first [ split | constructor | (vm_compute; congruence) | done ].

Lemma decode_canonical_encode_witness :
  profile_ok h2_profile /\ decode (canonical_encode h2_profile) = Ok h2_profile.
Proof.
  split; [solve_profile_ok|].
  apply decode_canonical_encode; [solve_profile_ok|vm_compute; congruence].
Defined.

Lemma decode_only_canonical_witness :
  canonical_encode example_profile = canonical_encode example_profile /\ profile_ok example_profile.
Proof. apply decode_only_canonical. vm_compute. reflexivity. Defined.

Lemma decode_prefix_free_witness :
  decode (canonical_encode example_profile ++ [Byte.xff]) = Err Trailing.
Proof.
  refine (proj1 (decode_prefix_free (canonical_encode example_profile) example_profile _) _ _ _);
    [vm_compute; reflexivity|done|vm_compute; congruence].
Defined.

(** The three cases of the unit tests of [tls_profile.rs]. *)
Example decode_huge_length_prefix :
  decode (to_be_bytes 4 0 ++ to_be_bytes 8 0 ++ to_be_bytes 4 0 ++ [Byte.x01] ++ to_be_bytes 4 0
          ++ to_be_bytes 4 4294967295) = Err Eof.
Proof. vm_compute. reflexivity. Qed.
