(* ===== verification/Json.v ===== *)
(** JSON values as the source handles them: [serde_json::Value], the lookups the
    code performs on it, the field selection [pick_value], the presence test
    [has_present_path], the string and object update helpers, and the canonical
    text [canonical_json] whose SHA-256 goes into the signed claims.

    [serde_json] itself is a parameter: numbers, the parser and the text of
    strings and numbers come from the class [SerdeJson], and what the
    development relies on is stated in [SerdeJsonLaws]. *)

From S2P Require Import Prelude RustStr BTree.

(** * Values *)

#[warnings="-register-all"]
Inductive value (N : Type) :=
  | Null
  | Bool (b : bool)
  | Number (n : N)
  | Str (s : bytes)
  | Array (l : list (value N))
  | Object (m : list (bytes * value N)).
Arguments Null {N}.
Arguments Bool {N} b.
Arguments Number {N} n.
Arguments Str {N} s.
Arguments Array {N} l.
Arguments Object {N} m.

(** Induction with the hypothesis on every element and member. *)
Section ValueInd.
Context {N : Type} (P : value N -> Prop).
Hypothesis Hnull : P Null.
Hypothesis Hbool : forall b, P (Bool b).
Hypothesis Hnumber : forall n, P (Number n).
Hypothesis Hstr : forall s, P (Str s).
Hypothesis Harray : forall l, Forall P l -> P (Array l).
Hypothesis Hobject : forall m, Forall (fun kv => P kv.2) m -> P (Object m).

Fixpoint value_ind' (v : value N) : P v :=
  match v with
  | Null => Hnull
  | Bool b => Hbool b
  | Number n => Hnumber n
  | Str s => Hstr s
  | Array l =>
      Harray l ((fix go (l : list (value N)) : Forall P l :=
        match l with
        | [] => Forall_nil_2 P
        | v :: l => Forall_cons_2 P v l (value_ind' v) (go l)
        end) l)
  | Object m =>
      Hobject m ((fix go (m : list (bytes * value N)) : Forall (fun kv => P kv.2) m :=
        match m with
        | [] => Forall_nil_2 (fun kv => P kv.2)
        | kv :: m => Forall_cons_2 (fun kv => P kv.2) kv m (value_ind' kv.2) (go m)
        end) m)
  end.
End ValueInd.

(** ** The [serde_json] crate *)

Class SerdeJson := {
  number : Type;
  number_as_i64 : number -> option Z;
  number_as_u64 : number -> option Z;
  number_from_i64 : Z -> number;
  number_to_string : number -> bytes;
  (** [serde_json::from_str::<Value>], [None] on a syntax error. *)
  from_str : bytes -> option (value number);
  (** [serde_json::to_string] of a [str]. *)
  quote : bytes -> bytes;
  (** [Display] of a [Value]: the compact serialisation. *)
  to_string : value number -> bytes;
}.

(** The text JSON writers give one byte of a string: the short escapes and
    [\\u00xx] for the other control characters. *)
Definition escape_byte (b : byte) : bytes :=
  match b with
  | Byte.x22 => [Byte.x5c; Byte.x22]
  | Byte.x5c => [Byte.x5c; Byte.x5c]
  | Byte.x08 => "\b"
  | Byte.x09 => "\t"
  | Byte.x0a => "\n"
  | Byte.x0c => "\f"
  | Byte.x0d => "\r"
  | _ => if (bv b <? 32)%Z then "\u00"%bs ++ hex_byte b else [b]
  end.

Lemma escape_table :
  forallb (fun a => diverge (escape_byte a) [Byte.x22]
    && forallb (fun b => Byte.eqb a b || diverge (escape_byte a) (escape_byte b)) all_bytes) all_bytes = true.
Proof. vm_compute. reflexivity. Qed.

Lemma escape_diverge a : diverge (escape_byte a) [Byte.x22] = true /\
  forall b, a <> b -> diverge (escape_byte a) (escape_byte b) = true.
Proof.
  pose proof escape_table as T. rewrite forallb_forall in T.
  specialize (T a (In_all_bytes a)). apply andb_prop in T as [T1 T2].
  split; [done|]. intros b Hne. rewrite forallb_forall in T2.
  specialize (T2 b (In_all_bytes b)). by rewrite (byte_eqb_ne _ _ Hne) in T2.
Qed.

(** Objects hold their keys in increasing order, all the way down: what the
    type [Map = BTreeMap] guarantees of every Rust value. *)
#[warnings="-register-all"]
Inductive wf_value {N} : value N -> Prop :=
  | wf_null : wf_value Null
  | wf_bool b : wf_value (Bool b)
  | wf_number n : wf_value (Number n)
  | wf_str s : wf_value (Str s)
  | wf_array l : Forall wf_value l -> wf_value (Array l)
  | wf_object m : sorted m -> Forall (fun kv => wf_value kv.2) m -> wf_value (Object m).
#[export] Hint Constructors wf_value : poo.

(** A well-formed object. *)
Definition wf_map {N} (m : list (bytes * value N)) : Prop :=
  sorted m /\ Forall (fun kv => wf_value kv.2) m.

(** A byte that can occur in the text of a JSON number. *)
Definition is_number_byte (b : byte) : bool :=
  is_digit b || bool_decide (In b "+-.eE"%bs).

Class SerdeJsonLaws `{SerdeJson} : Prop := {
  number_from_i64_as_i64 z : (- 2 ^ 63 <= z < 2 ^ 63)%Z -> number_as_i64 (number_from_i64 z) = Some z;
  number_to_string_inj a b : number_to_string a = number_to_string b -> a = b;
  number_to_string_bytes n : number_to_string n <> [] /\ forallb is_number_byte (number_to_string n) = true;
  number_to_string_head n : exists b s, number_to_string n = b :: s /\ (is_digit b = true \/ b = Byte.x2d);
  from_str_wf s v : from_str s = Some v -> wf_value v;
  (** A JSON string starts with a quote, and its end can be told. *)
  quote_head s : exists t, quote s = Byte.x22 :: t;
  quote_prefix a b x y : quote a ++ x = quote b ++ y -> a = b /\ x = y;
}.

Section Accessors.
Context {N : Type}.
Implicit Types v : value N.

Definition as_object v : option (list (bytes * value N)) :=
  match v with Object m => Some m | _ => None end.
Definition as_array v : option (list (value N)) :=
  match v with Array l => Some l | _ => None end.
Definition as_str v : option bytes := match v with Str s => Some s | _ => None end.
Definition as_bool v : option bool := match v with Bool b => Some b | _ => None end.
Definition is_array v : bool := match v with Array _ => true | _ => false end.
Definition is_null v : bool := match v with Null => true | _ => false end.

(** [Value::get] with a string index. *)
Definition value_get (k : bytes) v : option (value N) :=
  match v with Object m => bget k m | _ => None end.

(** [json!({ ... })] with the members in the order written. *)
Definition json_object (l : list (bytes * value N)) : value N := Object (bextend [] l).
End Accessors.

Section Numbers.
Context `{SJ : SerdeJson}.
Definition as_i64 (v : value number) : option Z :=
  match v with Number n => number_as_i64 n | _ => None end.
Definition as_u64 (v : value number) : option Z :=
  match v with Number n => number_as_u64 n | _ => None end.
(** [serde_json::from_slice]: the text has to be UTF-8. *)
Definition from_slice (b : bytes) : option (value number) :=
  if is_utf8 b then from_str b else None.
(** [json!(n)] of an integer. *)
Definition json_int (z : Z) : value number := Number (number_from_i64 z).
End Numbers.

(** * Field selection and updates *)

Section Fields.
Context {N : Type}.
Abbreviation json := (value N).
Abbreviation jmap := (list (bytes * value N)).

(** The object case of [pick_value]. *)
Definition pick_map (map : jmap) (keys : list bytes) : jmap :=
  fold_left (fun out key =>
    match bget key map with
    | Some v => bins key v out
    | None => out
    end) keys [].

Fixpoint pick_value (v : json) (keys : list bytes) : json :=
  match v with
  | Array items => Array (map (fun item => pick_value item keys) items)
  | Object m => Object (pick_map m keys)
  | _ => v
  end.

Definition has_present_path (v : json) (path : bytes) : bool :=
  match
    fold_left (fun cur part => cur ≫= value_get part) (split_on Byte.x2e path) (Some v)
  with
  | None => false
  | Some Null => false
  | Some (Str s) => negb (bool_decide (s = []))
  | Some (Array a) => match a with [] => false | _ => true end
  | Some _ => true
  end.

Definition append_string_field (target : jmap) (field : bytes) (v : option json) : jmap :=
  match v ≫= as_str with
  | None => target
  | Some s =>
      let merged := match bget field target ≫= as_str with
                    | Some existing => existing ++ s
                    | None => s
                    end in
      bins field (Str merged) target
  end.

Definition set_string_field (target : jmap) (field : bytes) (v : option json) : jmap :=
  match v ≫= as_str with
  | None => target
  | Some s => bins field (Str s) target
  end.

Definition merge_value_object (target : jmap) (source : json) : jmap :=
  match source with
  | Object map => bextend target map
  | _ => target
  end.

Definition merge_nested_object (target : jmap) (field : bytes) (v : option json) : jmap :=
  match v with
  | None => target
  | Some v =>
      match bget field target ≫= as_object, as_object v with
      | Some existing, Some incoming => bins field (Object (bextend existing incoming)) target
      | _, _ => bins field v target
      end
  end.
End Fields.

(** * Canonical text *)

(** [keys.sort()]. *)
Fixpoint insert_key (k : bytes) (l : list bytes) : list bytes :=
  match l with
  | [] => [k]
  | k' :: l' => match bytes_cmp k k' with Gt => k' :: insert_key k l' | _ => k :: l end
  end.
Definition sort_keys (l : list bytes) : list bytes := foldr insert_key [] l.

Section Canonical.
Context `{SJ : SerdeJson}.

Fixpoint canonical_json (v : value number) : bytes :=
  match v with
  | Null => "null"
  | Bool b => if b then "true" else "false"
  | Number n => number_to_string n
  | Str s => quote s
  | Array items => "["%bs ++ join ","%bs (map canonical_json items) ++ "]"%bs
  | Object m =>
      (* [canonical_json(&map[k])] for every key *)
      let texts := map (fun kv => (kv.1, canonical_json kv.2)) m in
      let keys := sort_keys (map fst m) in
      let parts := map (fun k => quote k ++ ":"%bs ++ default [] (bget k texts)) keys in
      "{"%bs ++ join ","%bs parts ++ "}"%bs
  end.
End Canonical.

(** * Lemmas: field selection *)

Section FieldLemmas.
Context {N : Type}.
Implicit Types (v : value N) (m : list (bytes * value N)) (keys : list bytes).

Lemma bget_pick_map k m keys :
  bget k (pick_map m keys) = if bool_decide (In k keys) then bget k m else None.
Proof.
  unfold pick_map.
  assert (G : forall out, (forall k', In k' keys -> bget k' out = None \/ bget k' out = bget k' m) ->
    bget k (fold_left (fun out key => match bget key m with Some v => bins key v out | None => out end) keys out)
      = if bool_decide (In k keys) then bget k m else bget k out).
  { induction keys as [|key keys IH]; intros out Hout; cbn [fold_left]; [done|].
    rewrite IH.
    - destruct (decide (k = key)) as [->|Hne].
      + rewrite (bool_decide_true (In key (key :: keys))) by (by left).
        case_bool_decide; [done|].
        destruct (bget key m) as [v|] eqn:E; [apply bget_bins_eq|].
        destruct (Hout key ltac:(by left)); congruence.
      + rewrite (bool_decide_ext (In k (key :: keys)) (In k keys)) by (cbn; intuition congruence).
        case_bool_decide; [done|].
        destruct (bget key m); [by apply bget_bins_ne|done].
    - intros k' Hk'. destruct (bget key m) as [v|] eqn:E; [|apply Hout; by right].
      destruct (decide (k' = key)) as [->|]; [right; by rewrite bget_bins_eq|].
      rewrite bget_bins_ne by done. apply Hout. by right. }
  rewrite G by (intros; by left). done.
Qed.

Lemma sorted_pick_map m keys : sorted (pick_map m keys).
Proof.
  unfold pick_map. assert (G : forall out, sorted out -> sorted (fold_left
    (fun out key => match bget key m with Some v => bins key v out | None => out end) keys out)).
  { induction keys as [|key keys IH]; intros out Ho; [done|]. cbn. apply IH.
    destruct (bget key m); auto with poo. }
  apply G. constructor.
Qed.

(** Selection depends on the selected members only. *)
Lemma pick_map_ext m1 m2 keys :
  (forall k, In k keys -> bget k m1 = bget k m2) -> pick_map m1 keys = pick_map m2 keys.
Proof.
  intros H. apply btree_ext; [apply sorted_pick_map..|].
  intros k. rewrite !bget_pick_map. case_bool_decide; auto.
Qed.

Lemma pick_map_idem m keys : pick_map (pick_map m keys) keys = pick_map m keys.
Proof.
  apply pick_map_ext. intros k Hk. rewrite bget_pick_map. by rewrite bool_decide_true.
Qed.

(** A map all of whose keys are selected is kept. *)
Lemma pick_map_all m keys :
  sorted m -> (forall k v, bget k m = Some v -> In k keys) -> pick_map m keys = m.
Proof.
  intros Hs Hk. apply btree_ext; [apply sorted_pick_map|done|].
  intros k. rewrite bget_pick_map. case_bool_decide as Hin; [done|].
  destruct (bget k m) eqn:E; [|done]. by apply Hk in E.
Qed.

Lemma pick_value_idem v keys : pick_value (pick_value v keys) keys = pick_value v keys.
Proof.
  induction v as [| | | |l IH|m IH] using value_ind'; cbn; try done.
  - f_equal. rewrite map_map. induction IH; cbn; by f_equal.
  - f_equal. apply pick_map_idem.
Qed.

Lemma wf_map_bins k v m : wf_value v -> wf_map m -> wf_map (bins k v m).
Proof. intros Hv [Hs Hf]. split; [by apply sorted_bins|by apply Forall_bins]. Qed.

Lemma wf_map_bget k v m : wf_map m -> bget k m = Some v -> wf_value v.
Proof.
  intros [_ Hf] Hg. apply In_bget in Hg. rewrite Forall_forall in Hf. by apply (Hf (k, v)).
Qed.

Lemma wf_map_nil : wf_map (N := N) [].
Proof. split; constructor. Qed.

Lemma wf_object_iff m : wf_value (Object m) <-> wf_map m.
Proof. split; [by inversion 1|intros []; by constructor]. Qed.

Lemma wf_map_pick m keys : wf_map m -> wf_map (pick_map m keys).
Proof.
  intros Hm. split; [apply sorted_pick_map|].
  apply Forall_forall. intros [k v] Hin. apply bget_In in Hin; [|apply sorted_pick_map].
  rewrite bget_pick_map in Hin. case_bool_decide; [|done]. by eapply wf_map_bget.
Qed.

Lemma wf_pick_value v keys : wf_value v -> wf_value (pick_value v keys).
Proof.
  induction v as [| | | |l IH|m IH] using value_ind'; cbn; try done.
  - inversion_clear 1 as [| | | |? Hf|]. constructor. induction IH; inversion_clear Hf; constructor; auto.
  - rewrite !wf_object_iff. apply wf_map_pick.
Qed.

Lemma wf_map_extend (t s : list (bytes * value N)) : wf_map t -> wf_map s -> wf_map (bextend t s).
Proof.
  intros Ht [_ Hs]. unfold bextend. revert t Ht.
  induction Hs as [|[k v] s Hv Hs IH]; intros t Ht; cbn; [done|].
  by apply IH, wf_map_bins.
Qed.

Lemma wf_append_string_field m f o : wf_map m -> wf_map (append_string_field m f o).
Proof.
  intros Hm. unfold append_string_field. destruct (o ≫= as_str); [|done].
  apply wf_map_bins; [constructor|done].
Qed.

Lemma wf_set_string_field m f o : wf_map m -> wf_map (set_string_field m f o).
Proof.
  intros Hm. unfold set_string_field. destruct (o ≫= as_str); [|done].
  apply wf_map_bins; [constructor|done].
Qed.

Lemma wf_merge_value_object m v : wf_map m -> wf_value v -> wf_map (merge_value_object m v).
Proof.
  intros Hm Hv. destruct v; try done. cbn. apply wf_map_extend; [done|by apply wf_object_iff].
Qed.

Lemma wf_merge_nested_object m f o :
  wf_map m -> (forall v, o = Some v -> wf_value v) -> wf_map (merge_nested_object m f o).
Proof.
  intros Hm Ho. unfold merge_nested_object. destruct o as [v|]; [|done].
  specialize (Ho v eq_refl).
  destruct (bget f m) as [old|] eqn:E; cbn; [|by apply wf_map_bins].
  apply wf_map_bget in E; [|done].
  destruct old; cbn; try by apply wf_map_bins.
  destruct v; cbn; try by apply wf_map_bins.
  apply wf_map_bins; [|done]. rewrite !wf_object_iff in *. by apply wf_map_extend.
Qed.

(** Appending two pieces one after the other is appending their concatenation. *)
Lemma append_string_field_app m f a b :
  append_string_field (append_string_field m f (Some (Str a))) f (Some (Str b))
    = append_string_field m f (Some (Str (a ++ b))).
Proof.
  unfold append_string_field. cbn. rewrite bget_bins_eq. cbn. rewrite bins_bins_eq.
  destruct (bget f m ≫= as_str); by rewrite <-?app_assoc.
Qed.

Lemma bget_append_ne m k f o : k <> f -> bget k (append_string_field m f o) = bget k m.
Proof.
  intros. unfold append_string_field. destruct (o ≫= as_str); [by apply bget_bins_ne|done].
Qed.

Lemma append_string_field_comm m f g a b :
  f <> g ->
  append_string_field (append_string_field m f a) g b
    = append_string_field (append_string_field m g b) f a.
Proof.
  intros Hne. unfold append_string_field at 1 3.
  rewrite !bget_append_ne by done. unfold append_string_field.
  destruct (a ≫= as_str), (b ≫= as_str); try done. by apply bins_comm.
Qed.
End FieldLemmas.

#[export] Hint Resolve wf_map_bins wf_map_nil wf_map_pick wf_map_extend wf_append_string_field
  wf_set_string_field wf_merge_value_object wf_merge_nested_object wf_pick_value : poo.

(** * Lemmas: canonical text *)

Section SortLemmas.
Lemma insert_key_lt {V} k (m : list (bytes * V)) :
  Forall (fun kv => kcmp k kv.1 = Lt) m -> insert_key k (map fst m) = k :: map fst m.
Proof.
  destruct 1 as [|[k' v] m Hk _]; cbn in *; [done|]. by rewrite Hk.
Qed.

(** The keys of a [Map] are already in order. *)
Lemma sort_keys_perm l : sort_keys l ≡ₚ l.
Proof.
  assert (G : forall k l, insert_key k l ≡ₚ k :: l).
  { intros k l0. induction l0 as [|k' l0 IH]; [done|]. cbn [insert_key]. case_match; [done..|].
    rewrite IH. by constructor. }
  induction l as [|k l IH]; [done|]. cbn. fold (sort_keys l). by rewrite G, IH.
Qed.

Lemma sort_keys_sorted {V} (m : list (bytes * V)) :
  sorted m -> sort_keys (map fst m) = map fst m.
Proof.
  induction 1 as [|k v m Hf Hs IH]; cbn; [done|].
  unfold sort_keys in IH. rewrite IH. by apply insert_key_lt.
Qed.
End SortLemmas.

(** Splitting at the first byte outside a class. *)
Lemma span_prefix (p : byte -> bool) a b r1 r2 :
  forallb p a = true -> forallb p b = true ->
  (forall c r, r1 = c :: r -> p c = false) -> (forall c r, r2 = c :: r -> p c = false) ->
  a ++ r1 = b ++ r2 -> a = b /\ r1 = r2.
Proof.
  revert b. induction a as [|x a IH]; intros [|y b] Ha Hb H1 H2 E; cbn in *;
    rewrite ?andb_true_iff in *; destruct_and?.
  - done.
  - specialize (H1 _ _ E). congruence.
  - symmetry in E. specialize (H2 _ _ E). congruence.
  - injection E as -> E. destruct (IH b) as [-> ->]; done.
Qed.

(** What may follow a value: the end, or a delimiter. *)
Definition delimited (r : bytes) : Prop :=
  match r with
  | [] => True
  | c :: _ => In c ",]}"%bs
  end.

(** Lists between brackets can be read back when their elements can. *)
Lemma join_prefix {A} (e : A -> bytes) (Q : A -> Prop) (close : byte) :
  In close "]}"%bs ->
  (forall x, Q x -> exists c s, e x = c :: s /\ c <> close) ->
  forall l1 l2 r1 r2,
  Forall (fun x => Q x /\ forall y s1 s2, Q y -> delimited s1 -> delimited s2 ->
    e x ++ s1 = e y ++ s2 -> x = y /\ s1 = s2) l1 ->
  Forall Q l2 ->
  join ","%bs (map e l1) ++ close :: r1 = join ","%bs (map e l2) ++ close :: r2 ->
  l1 = l2 /\ r1 = r2.
Proof.
  intros Hclose Hhead.
  assert (Hjoin : forall x l, join ","%bs (map e (x :: l)) =
    e x ++ match l with [] => [] | _ => Byte.x2c :: join ","%bs (map e l) end).
  { intros x [|y l]; cbn; [by rewrite app_nil_r|done]. }
  assert (Hd : forall l r, delimited (match l with [] => [] | _ => Byte.x2c :: join ","%bs (map e l) end
      ++ close :: r)).
  { intros [|y l] r; cbn in *; [destruct Hclose as [<-|[<-|[]]]; auto|auto]. }
  intros l1. induction l1 as [|x l1 IH]; intros [|y l2] r1 r2 H1 H2 E.
  - cbn in E. split; congruence.
  - inversion_clear H2 as [|? ? Hy H2']. destruct (Hhead y Hy) as (c & s & Ec & Hc).
    rewrite Hjoin, Ec in E. cbn in E. congruence.
  - inversion_clear H1 as [|? ? [Hx _] H1']. destruct (Hhead x Hx) as (c & s & Ec & Hc).
    rewrite Hjoin, Ec in E. cbn in E. congruence.
  - inversion_clear H1 as [|? ? [Hx Hrd] H1']. inversion_clear H2 as [|? ? Hy H2'].
    rewrite !Hjoin, <-!app_assoc in E. apply Hrd in E as [-> E]; [|done|apply Hd..].
    destruct l1 as [|x1 l1], l2 as [|y1 l2]; cbn [app] in E.
    + split; congruence.
    + injection E as E _. by destruct Hclose as [<-|[<-|[]]].
    + injection E as E _. by destruct Hclose as [<-|[<-|[]]].
    + injection E as E. destruct (IH (y1 :: l2) r1 r2) as [-> ->]; done.
Qed.

Section CanonicalLemmas.
Context `{SJL : SerdeJsonLaws}.
Implicit Types (v : value number) (m : list (bytes * value number)).

Definition canonical_member (kv : bytes * value number) : bytes :=
  quote kv.1 ++ ":"%bs ++ canonical_json kv.2.

Lemma bget_map_snd {V W} (f : V -> W) k (m : list (bytes * V)) :
  bget k (map (fun kv => (kv.1, f kv.2)) m) = option_map f (bget k m).
Proof. induction m as [|[k' v] m IH]; cbn; [done|]. by destruct (bytes_cmp k k'). Qed.

(** On the maps of the source the canonical text lists the members in order. *)
Lemma canonical_json_object m :
  sorted m ->
  canonical_json (Object m) = "{"%bs ++ join ","%bs (map canonical_member m) ++ "}"%bs.
Proof.
  intros Hs. cbn [canonical_json]. rewrite sort_keys_sorted, map_map by done.
  do 3 f_equal. apply map_ext_in. intros [k v] Hin. unfold canonical_member. cbn.
  rewrite bget_map_snd. apply bget_In in Hin; [|done]. cbn in Hin. by rewrite Hin.
Qed.

(** The constructor can be told from the first byte. *)
Definition head_tag (b : byte) : nat :=
  if Byte.eqb b Byte.x6e then 0
  else if Byte.eqb b Byte.x74 || Byte.eqb b Byte.x66 then 1
  else if Byte.eqb b Byte.x22 then 3
  else if Byte.eqb b Byte.x5b then 4
  else if Byte.eqb b Byte.x7b then 5
  else 2.
Definition value_tag v : nat :=
  match v with Null => 0 | Bool _ => 1 | Number _ => 2 | Str _ => 3 | Array _ => 4 | Object _ => 5 end.

Lemma number_head_tag b : is_digit b = true \/ b = Byte.x2d -> head_tag b = 2.
Proof.
  intros [Hd| ->]; [|done]. by destruct b.
Qed.

Lemma canonical_head v :
  exists b s, canonical_json v = b :: s /\ head_tag b = value_tag v /\
    ~ In b ",]}"%bs.
Proof using SJL.
  destruct v as [|b|n|s|l|m].
  - by exists Byte.x6e, "ull"%bs; repeat split; cbn; intuition congruence.
  - destruct b; [exists Byte.x74, "rue"%bs|exists Byte.x66, "alse"%bs];
      (repeat split; cbn; intuition congruence).
  - destruct (number_to_string_head n) as (b & s & E & Hb).
    exists b, s. split; [done|]. split; [by apply number_head_tag|].
    cbn. intros Hin.
    destruct Hb as [Hb| ->]; [|by intuition discriminate].
    destruct Hin as [<-|[<-|[<-|[]]]]; done.
  - destruct (quote_head s) as [t E]. exists Byte.x22, t. repeat split; [done|]. cbn; intuition congruence.
  - eexists _, _. repeat split. cbn; intuition congruence.
  - eexists _, _. repeat split. cbn; intuition congruence.
Qed.
End CanonicalLemmas.

Section CanonicalInjective.
Context `{SJL : SerdeJsonLaws}.
Implicit Types (v : value number) (m : list (bytes * value number)).

(** [v] can be read back from its canonical text followed by a delimiter. *)
Definition readable v : Prop :=
  forall v' r r', wf_value v' -> delimited r -> delimited r' ->
  canonical_json v ++ r = canonical_json v' ++ r' -> v = v' /\ r = r'.

Lemma same_tag v v' r r' :
  canonical_json v ++ r = canonical_json v' ++ r' -> value_tag v = value_tag v'.
Proof using SJL.
  intros E. destruct (canonical_head v) as (b & s & E1 & <- & _).
  destruct (canonical_head v') as (b' & s' & E2 & <- & _).
  rewrite E1, E2 in E. cbn in E. congruence.
Qed.

Lemma delimited_not_number c r : delimited (c :: r) -> is_number_byte c = false.
Proof. cbn. by intros [<-|[<-|[<-|[]]]]. Qed.

Lemma readable_number n : readable (Number n).
Proof using SJL.
  intros v' r r' _ Hr Hr' E. pose proof (same_tag _ _ _ _ E) as T.
  destruct v' as [| |n'| | |]; try done. cbn in E.
  apply span_prefix with (p := is_number_byte) in E as [E ->].
  - by apply number_to_string_inj in E as ->.
  - apply number_to_string_bytes.
  - apply number_to_string_bytes.
  - intros c s ->. by eapply delimited_not_number.
  - intros c s ->. by eapply delimited_not_number.
Qed.

Lemma readable_array l : wf_value (Array l) -> Forall (fun v => wf_value v -> readable v) l ->
  readable (Array l).
Proof using SJL.
  intros Hwf IH v' r r' Hwf' Hr Hr' E. pose proof (same_tag _ _ _ _ E) as T.
  destruct v' as [| | | |l'|]; try done. cbn in E. injection E as E.
  rewrite <-!app_assoc in E. cbn in E.
  inversion_clear Hwf as [| | | |? Hl|]. inversion_clear Hwf' as [| | | |? Hl'|].
  apply join_prefix with (Q := wf_value) in E as [-> ->]; [done|cbn; auto| | |done].
  - intros x _. destruct (canonical_head x) as (b & s & -> & _ & Hb). exists b, s.
    split; [done|]. intros ->. apply Hb. cbn. auto.
  - clear - IH Hl. induction IH as [|x l Hx IH IH']; inversion_clear Hl; constructor; auto.
    split; [done|by apply Hx].
Qed.

Lemma readable_object m : wf_value (Object m) ->
  Forall (fun kv => wf_value kv.2 -> readable kv.2) m -> readable (Object m).
Proof using SJL.
  intros Hwf IH v' r r' Hwf' Hr Hr' E. pose proof (same_tag _ _ _ _ E) as T.
  destruct v' as [| | | | |m']; try done.
  inversion_clear Hwf as [| | | | |? Hs Hm]. inversion_clear Hwf' as [| | | | |? Hs' Hm'].
  rewrite !canonical_json_object in E by done. cbn in E. injection E as E.
  rewrite <-!app_assoc in E. cbn in E.
  apply join_prefix with (Q := fun kv => wf_value kv.2) in E as [-> ->];
    [done|cbn; auto| | |done].
  - intros [k v] _. destruct (quote_head k) as [t Et]. unfold canonical_member. cbn.
    rewrite Et. by eexists Byte.x22, _.
  - clear - IH Hm SJL. induction IH as [|[k v] m Hv IH]; inversion_clear Hm; constructor; auto.
    split; [done|]. intros [k' v'] s s' Hv' Hs Hs' E. unfold canonical_member in E. cbn in *.
    rewrite <-!app_assoc in E. apply quote_prefix in E as [-> E]. cbn in E. injection E as E.
    apply Hv in E as [-> ->]; done.
Qed.

Lemma wf_readable v : wf_value v -> readable v.
Proof using SJL.
  induction v as [|b|n|s|l IH|m IH] using value_ind'; intros Hwf.
  - intros v' r r' _ _ _ E. pose proof (same_tag _ _ _ _ E) as T. destruct v'; try done.
    cbn in E. split; congruence.
  - intros v' r r' _ _ _ E. pose proof (same_tag _ _ _ _ E) as T. destruct v' as [|b'| | | |]; try done.
    destruct b, b'; cbn in E; split; congruence.
  - apply readable_number.
  - intros v' r r' _ _ _ E. pose proof (same_tag _ _ _ _ E) as T. destruct v'; try done.
    cbn in E. apply quote_prefix in E as [-> ->]. done.
  - by apply readable_array.
  - by apply readable_object.
Qed.

Lemma canonical_json_inj v v' :
  wf_value v -> wf_value v' -> canonical_json v = canonical_json v' -> v = v'.
Proof using SJL.
  intros Hv Hv' E.
  destruct (wf_readable v Hv v' [] [] Hv' I I) as [-> _]; [by rewrite E|done].
Qed.

(** The canonical text determines the value: two well-formed JSON values
    with the same canonical text, and so the same bytes under the signed
    hash, are the same value. *)
Theorem canonical_json_injective v v' :
  wf_value v -> wf_value v' -> canonical_json v = canonical_json v' -> v = v'.
Proof using SJL. apply canonical_json_inj. Qed.
End CanonicalInjective.
