(* ===== verification/Digest.v ===== *)
(** SHA-256 and its hexadecimal text: [hex], [sha256_hex] and
    [field_claims_sha256_hex] of [main.rs].  The hash is the [sha2] crate, a
    parameter with the interface the source uses (one-shot and incremental). *)

From S2P Require Import Prelude RustStr BTree Json.

(** [sha2::Sha256]. *)
Class Sha256 := {
  hasher : Type;
  sha_new : hasher;
  sha_update : hasher -> bytes -> hasher;
  sha_finalize : hasher -> bytes;
}.

(** Feeding a message in pieces is feeding it whole, and a digest has 32 bytes. *)
Class Sha256Laws `{Sha256} : Prop := {
  sha_update_app h a b :
    sha_finalize (sha_update (sha_update h a) b) = sha_finalize (sha_update h (a ++ b));
  sha_update_nil h : sha_finalize (sha_update h []) = sha_finalize h;
  sha_length h : length (sha_finalize h) = 32;
}.

(** [Sha256::digest]. *)
Definition sha_digest `{Sha256} (b : bytes) : bytes := sha_finalize (sha_update sha_new b).

Definition hex (b : bytes) : bytes := concat (map hex_byte b).

Definition sha256_hex `{Sha256} (b : bytes) : bytes := hex (sha_digest b).

Definition field_claims_sha256_hex `{Sha256, SerdeJson} (field_claims : value number) : bytes :=
  sha256_hex (canonical_json field_claims).

(** Two messages with the same digest that are not the same message. *)
Definition sha_collision `{Sha256} (a b : bytes) : Prop :=
  a <> b /\ sha_digest a = sha_digest b.

Lemma hex_byte_inj a b : hex_byte a = hex_byte b -> a = b.
Proof.
  assert (D : forall x, from_str_radix 16 255 (hex_byte x) = Ok (bv x)) by (by intros []).
  intros E. apply bv_inj. pose proof (D a) as Da. rewrite E, D in Da. congruence.
Qed.

Lemma hex_inj a b : hex a = hex b -> a = b.
Proof.
  unfold hex. revert b. induction a as [|x a IH]; intros [|y b]; cbn [map concat]; try done.
  intros E. change (hex_byte x ++ concat (map hex_byte a) = hex_byte y ++ concat (map hex_byte b)) in E.
  apply app_eq_length_inv in E as [Ex E]; [|done].
  apply hex_byte_inj in Ex as ->. f_equal. by apply IH.
Qed.

Lemma length_hex b : length (hex b) = 2 * length b.
Proof.
  unfold hex. induction b as [|x b IH]; [done|]. cbn [map concat].
  rewrite length_app, IH. cbn. lia.
Qed.

(** Every digit is one of [0-9a-f]. *)
Lemma hex_no_newline b : ~ In Byte.x0a (hex b) /\ ~ In Byte.x0d (hex b).
Proof.
  unfold hex. induction b as [|x b [IH1 IH2]]; cbn [map concat]; [cbn; tauto|].
  rewrite !in_app_iff.
  assert (~ In Byte.x0a (hex_byte x) /\ ~ In Byte.x0d (hex_byte x)) as [? ?]
    by (split; intros Hin; destruct x; vm_compute in Hin; intuition discriminate).
  tauto.
Qed.

Section DigestLemmas.
Context `{SL : Sha256Laws}.

(** The digest of a message fed in pieces. *)
Lemma sha_fold_update (chunks : list bytes) h :
  sha_finalize (fold_left sha_update chunks h) = sha_finalize (sha_update h (concat chunks)).
Proof using SL.
  revert h. induction chunks as [|c chunks IH]; intros h; cbn.
  - by rewrite sha_update_nil.
  - by rewrite IH, sha_update_app.
Qed.

Lemma sha256_hex_length b : length (sha256_hex b) = 64.
Proof using SL. unfold sha256_hex, sha_digest. by rewrite length_hex, sha_length. Qed.

(** Equal hexadecimal digests: equal messages, or a collision in hand. *)
Lemma sha256_hex_inj a b : sha256_hex a = sha256_hex b -> a = b \/ sha_collision a b.
Proof.
  unfold sha256_hex. intros E%hex_inj.
  destruct (decide (a = b)) as [->|]; [by left|by right].
Qed.
End DigestLemmas.
