(* ===== verification/Sample.v ===== *)
(** Concrete instances of the crates the development is parametric in, with the
    proofs of their laws: a JSON reader and writer for integers ([serde_json]),
    SHA-256 as FIPS 180-4 defines it ([sha2]) and the ASCII case mapping.  The
    witnesses of the properties and the replayed tests of the repository run
    on these instances; no property depends on them. *)

From S2P Require Import Prelude RustStr BTree Json Digest.
Local Open Scope Z_scope.

(** * JSON *)

(** Decimal text of an integer. *)
Definition show_int (z : Z) : bytes := if z <? 0 then Byte.x2d :: show_Z (- z) else show_Z z.

Definition sample_quote (s : bytes) : bytes := Byte.x22 :: concat (map escape_byte s) ++ [Byte.x22].

Fixpoint sample_to_string (v : value Z) : bytes :=
  match v with
  | Null => "null"
  | Bool b => if b then "true" else "false"
  | Number n => show_int n
  | Str s => sample_quote s
  | Array l => "["%bs ++ join ","%bs (map sample_to_string l) ++ "]"%bs
  | Object m =>
      "{"%bs ++ join ","%bs (map (fun kv => sample_quote kv.1 ++ ":"%bs ++ sample_to_string kv.2) m)
        ++ "}"%bs
  end.

(** ** Reading *)

Fixpoint skip_ws (s : bytes) : bytes :=
  match s with
  | (Byte.x20 | Byte.x09 | Byte.x0a | Byte.x0d) :: s => skip_ws s
  | _ => s
  end.

(** The UTF-8 text of a code point of the basic plane. *)
Definition utf8_encode (c : Z) : bytes :=
  if c <? 128 then [byte_of_Z c]
  else if c <? 2048 then [byte_of_Z (192 + c / 64); byte_of_Z (128 + c mod 64)]
  else [byte_of_Z (224 + c / 4096); byte_of_Z (128 + (c / 64) mod 64); byte_of_Z (128 + c mod 64)].

(** The rest of a string after its opening quote, and what follows it. *)
Fixpoint read_string (fuel : nat) (s : bytes) : option (bytes * bytes) :=
  match fuel, s with
  | S fuel, Byte.x22 :: s => Some ([], s)
  | S fuel, Byte.x5c :: Byte.x75 :: a :: b :: c :: d :: s =>
      match from_str_radix 16 65535 [a; b; c; d], read_string fuel s with
      | Ok z, Some (t, s) => Some (utf8_encode z ++ t, s)
      | _, _ => None
      end
  | S fuel, Byte.x5c :: e :: s =>
      let c := match e with
               | Byte.x62 => Some Byte.x08 | Byte.x74 => Some Byte.x09 | Byte.x6e => Some Byte.x0a
               | Byte.x66 => Some Byte.x0c | Byte.x72 => Some Byte.x0d
               | Byte.x22 | Byte.x5c | Byte.x2f => Some e
               | _ => None
               end in
      match c, read_string fuel s with
      | Some c, Some (t, s) => Some (c :: t, s)
      | _, _ => None
      end
  | S fuel, b :: s =>
      if bv b <? 32 then None
      else match read_string fuel s with
           | Some (t, s) => Some (b :: t, s)
           | None => None
           end
  | _, _ => None
  end.

Fixpoint span_digits (s : bytes) : bytes * bytes :=
  match s with
  | b :: t => if is_digit b then let '(d, r) := span_digits t in (b :: d, r) else ([], s)
  | [] => ([], [])
  end.

Definition read_nat (s : bytes) : option (Z * bytes) :=
  match span_digits s with
  | ([], _) => None
  | (d, r) => Some (fold_left (fun acc b => acc * 10 + (bv b - 48)) d 0, r)
  end.

Definition read_literal (lit : bytes) (v : value Z) (s : bytes) : option (value Z * bytes) :=
  match strip_prefix s lit with
  | Some r => Some (v, r)
  | None => None
  end.

(** A value after white space, or the members of an array or object whose
    opening bracket has been read. *)
Inductive goal := GValue | GItems (acc : list (value Z)) | GMembers (acc : list (bytes * value Z)).

(** The next byte after white space is [b]: what follows it. *)
Definition next_is (b : byte) (s : bytes) : option bytes :=
  match skip_ws s with
  | c :: t => if Byte.eqb c b then Some t else None
  | [] => None
  end.

(** A value that is not an array or object. *)
Definition read_scalar (s : bytes) : option (value Z * bytes) :=
  match next_is Byte.x22 s with
  | Some t => '(x, r) ← read_string (S (length t)) t; Some (Str x, r)
  | None =>
      match next_is Byte.x2d s with
      | Some t => '(n, r) ← read_nat t; Some (Number (- n), r)
      | None =>
          match read_literal "null" Null (skip_ws s) with
          | Some p => Some p
          | None =>
              match read_literal "true" (Bool true) (skip_ws s) with
              | Some p => Some p
              | None =>
                  match read_literal "false" (Bool false) (skip_ws s) with
                  | Some p => Some p
                  | None => '(n, r) ← read_nat (skip_ws s); Some (Number n, r)
                  end
              end
          end
      end
  end.

Section Read.
(** How a member is put into the object read so far. *)
Context (put : bytes -> value Z -> list (bytes * value Z) -> list (bytes * value Z)).

Fixpoint read (fuel : nat) (g : goal) (s : bytes) : option (value Z * bytes) :=
  match fuel with
  | O => None
  | S fuel =>
      match g with
      | GValue =>
          match next_is Byte.x5b s, next_is Byte.x7b s with
          | Some t, _ =>
              match next_is Byte.x5d t with
              | Some r => Some (Array [], r)
              | None => read fuel (GItems []) t
              end
          | None, Some t =>
              match next_is Byte.x7d t with
              | Some r => Some (Object [], r)
              | None => read fuel (GMembers []) t
              end
          | None, None => read_scalar s
          end
      | GItems acc =>
          '(v, r) ← read fuel GValue s;
          match next_is Byte.x2c r, next_is Byte.x5d r with
          | Some r, _ => read fuel (GItems (acc ++ [v])) r
          | None, Some r => Some (Array (acc ++ [v]), r)
          | None, None => None
          end
      | GMembers acc =>
          t ← next_is Byte.x22 s;
          '(k, r) ← read_string (S (length t)) t;
          r ← next_is Byte.x3a r;
          '(v, r) ← read fuel GValue r;
          match next_is Byte.x2c r, next_is Byte.x7d r with
          | Some r, _ => read fuel (GMembers (put k v acc)) r
          | None, Some r => Some (Object (put k v acc), r)
          | None, None => None
          end
      end
  end.

Definition read_text (s : bytes) : option (value Z) :=
  match read (S (2 * length s)) GValue s with
  | Some (v, r) => match skip_ws r with [] => Some v | _ => None end
  | None => None
  end.
End Read.

Definition sample_from_str : bytes -> option (value Z) := read_text bins.

#[export] Instance SampleJson : SerdeJson := {|
  number := Z;
  number_as_i64 z := if (- 2 ^ 63 <=? z) && (z <? 2 ^ 63) then Some z else None;
  number_as_u64 z := if (0 <=? z) && (z <? 2 ^ 64) then Some z else None;
  number_from_i64 z := z;
  number_to_string := show_int;
  from_str := sample_from_str;
  quote := sample_quote;
  to_string := sample_to_string;
|}.

(** * SHA-256 *)

Definition w32 (z : Z) : Z := z mod 2 ^ 32.
Definition rotr (n x : Z) : Z := w32 (Z.lor (Z.shiftr x n) (Z.shiftl x (32 - n))).

(** The first 64 primes. *)
Definition primes64 : list Z :=
  Eval vm_compute in
    take 64 (List.filter (fun n => forallb (fun d => negb (n mod d =? 0)) (seqZ 2 (n - 2))) (seqZ 2 310)).

(** Integer cube root by bits: the largest [r] under [2 ^ bits] whose cube is at most [n]. *)
Fixpoint cube_root (bits : nat) (n acc : Z) : Z :=
  match bits with
  | O => acc
  | S bits =>
      let r := acc + 2 ^ Z.of_nat bits in
      cube_root bits n (if r ^ 3 <=? n then r else acc)
  end.

(** The round constants and the initial state are the first 32 bits of the
    fractional parts of the cube and square roots of primes. *)
Definition sha_k : list Z := Eval vm_compute in map (fun p => w32 (cube_root 36 (p * 2 ^ 96) 0)) primes64.
Definition sha_iv : list Z := Eval vm_compute in map (fun p => w32 (Z.sqrt (p * 2 ^ 64))) (take 8 primes64).

Record sha_state := mkSha { sa : Z; sb : Z; sc : Z; sd : Z; se : Z; sf : Z; sg : Z; sh : Z }.

Definition sha_h0 : sha_state :=
  Eval vm_compute in
    let h i := default 0 (sha_iv !! i) in
    mkSha (h 0%nat) (h 1%nat) (h 2%nat) (h 3%nat) (h 4%nat) (h 5%nat) (h 6%nat) (h 7%nat).

(** One round on the working variables, with round constant and schedule word. *)
Definition sha_round (s : sha_state) (k w : Z) : sha_state :=
  let s1 := Z.lxor (Z.lxor (rotr 6 (se s)) (rotr 11 (se s))) (rotr 25 (se s)) in
  let ch := Z.lxor (Z.land (se s) (sf s)) (Z.land (Z.lxor (se s) 0xffffffff) (sg s)) in
  let t1 := w32 (sh s + s1 + ch + k + w) in
  let s0 := Z.lxor (Z.lxor (rotr 2 (sa s)) (rotr 13 (sa s))) (rotr 22 (sa s)) in
  let maj := Z.lxor (Z.lxor (Z.land (sa s) (sb s)) (Z.land (sa s) (sc s))) (Z.land (sb s) (sc s)) in
  let t2 := w32 (s0 + maj) in
  mkSha (w32 (t1 + t2)) (sa s) (sb s) (sc s) (w32 (sd s + t1)) (se s) (sf s) (sg s).

(** The rounds over a sliding window of the last sixteen schedule words. *)
Fixpoint sha_rounds (ks : list Z) (win : list Z) (s : sha_state) : sha_state :=
  match ks with
  | [] => s
  | k :: ks =>
      let w i := default 0 (win !! i) in
      let s0 := Z.lxor (Z.lxor (rotr 7 (w 1%nat)) (rotr 18 (w 1%nat))) (Z.shiftr (w 1%nat) 3) in
      let s1 := Z.lxor (Z.lxor (rotr 17 (w 14%nat)) (rotr 19 (w 14%nat))) (Z.shiftr (w 14%nat) 10) in
      let next := w32 (w 0%nat + s0 + w 9%nat + s1) in
      sha_rounds ks (tail win ++ [next]) (sha_round s k (w 0%nat))
  end.

Fixpoint words (fuel : nat) (b : bytes) : list Z :=
  match fuel with
  | O => []
  | S fuel => from_be_bytes (take 4 b) :: words fuel (drop 4 b)
  end.

Definition sha_block (s : sha_state) (block : bytes) : sha_state :=
  let r := sha_rounds sha_k (words 16 block) s in
  mkSha (w32 (sa s + sa r)) (w32 (sb s + sb r)) (w32 (sc s + sc r)) (w32 (sd s + sd r))
    (w32 (se s + se r)) (w32 (sf s + sf r)) (w32 (sg s + sg r)) (w32 (sh s + sh r)).

Fixpoint sha_blocks (fuel : nat) (s : sha_state) (b : bytes) : sha_state :=
  match fuel with
  | O => s
  | S fuel => sha_blocks fuel (sha_block s (take 64 b)) (drop 64 b)
  end.

Definition sha_pad (b : bytes) : bytes :=
  let zeros := Z.to_nat ((55 - zlen b) mod 64) in
  b ++ Byte.x80 :: repeat Byte.x00 zeros ++ to_be_bytes 8 (8 * zlen b).

Definition sha256_compute (b : bytes) : bytes :=
  let p := sha_pad b in
  let s := sha_blocks (length p / 64)%nat sha_h0 p in
  concat (map (to_be_bytes 4) [sa s; sb s; sc s; sd s; se s; sf s; sg s; sh s]).

#[export] Instance SampleSha : Sha256 := {|
  hasher := bytes;
  sha_new := [];
  sha_update h b := h ++ b;
  sha_finalize := sha256_compute;
|}.

(** * Case mapping *)

#[export] Instance SampleCase : UnicodeCase := {| unicode_lower s := s; unicode_upper s := s |}.

(** JSON text written with [']. *)
Definition js (s : bytes) : bytes := map (fun b => if Byte.eqb b Byte.x27 then Byte.x22 else b) s.

(** * The laws *)

Example sha256_abc :
  sha256_hex "abc" = "ba7816bf8f01cfea414140de5dae2223b00361a396177a9cb410ff61f20015ad"%bs.
Proof. vm_compute. reflexivity. Qed.


#[export] Instance SampleCaseLaws : UnicodeCaseLaws.
Proof. by split. Qed.

#[export] Instance SampleShaLaws : Sha256Laws.
Proof.
  constructor; cbn.
  - intros h a b. by rewrite app_assoc.
  - intros h. by rewrite app_nil_r.
  - done.
Qed.

Example sample_read :
  from_str (js " {'b' : [1, -2, 'x\u00e9\n'], 'a':null} ")
    = Some (Object [("a", Null); ("b", Array [Number 1; Number (-2); Str ("xé" ++ [Byte.x0a])])])%bs.
Proof. vm_compute. reflexivity. Qed.

(** ** Strings *)

Lemma sample_quote_prefix a b x y :
  sample_quote a ++ x = sample_quote b ++ y -> a = b /\ x = y.
Proof.
  unfold sample_quote. rewrite <-!app_comm_cons, <-!app_assoc. intros E. injection E as E.
  apply (prefix_code escape_byte [Byte.x22]); [apply escape_diverge| |done]. intros c d. apply escape_diverge.
Qed.

(** ** Numbers *)

Lemma show_Z_head n : 0 <= n -> exists b s, show_Z n = b :: s /\ is_digit b = true.
Proof.
  intros Hn. destruct (show_Z_spec n Hn) as [Hv Hd].
  destruct (show_Z n) as [|b s] eqn:E.
  - exfalso. assert (Z.to_nat (Z.log2_up (n + 1)) = Z.to_nat (Z.log2_up (n + 1))) by done.
    unfold show_Z in E. cbn [show_aux] in E. destruct (n <? 10); [done|].
    rewrite show_aux_app in E. by apply app_eq_nil in E as [_ ?].
  - cbn in Hd. apply andb_prop in Hd as [? ?]. by eexists _, _.
Qed.

Lemma show_int_inj a b : show_int a = show_int b -> a = b.
Proof.
  unfold show_int. destruct (Z.ltb_spec a 0), (Z.ltb_spec b 0); intros E.
  - injection E as E. apply show_Z_inj in E; lia.
  - destruct (show_Z_head b) as (c & s & Eb & Hc); [lia|]. rewrite Eb in E. by injection E as <-.
  - destruct (show_Z_head a) as (c & s & Eb & Hc); [lia|]. rewrite Eb in E. by injection E as ->.
  - apply show_Z_inj in E; lia.
Qed.

Lemma show_int_bytes n : show_int n <> [] /\ forallb is_number_byte (show_int n) = true.
Proof.
  assert (G : forall m, 0 <= m -> forallb is_number_byte (show_Z m) = true).
  { intros m Hm. destruct (show_Z_spec m Hm) as [_ Hd]. rewrite forallb_forall in *.
    intros c Hc. unfold is_number_byte. by rewrite (Hd c Hc). }
  unfold show_int. destruct (Z.ltb_spec n 0).
  - split; [done|]. cbn [forallb]. by rewrite G by lia.
  - split; [|by apply G]. destruct (show_Z_head n) as (b & s & -> & _); done.
Qed.

Lemma show_int_head n : exists b s, show_int n = b :: s /\ (is_digit b = true \/ b = Byte.x2d).
Proof.
  unfold show_int. destruct (Z.ltb_spec n 0); [by eexists _, _; eauto|].
  destruct (show_Z_head n) as (b & s & -> & Hb); [done|]. eauto.
Qed.

(** ** The reader builds maps *)

Definition wf_goal (g : goal) : Prop :=
  match g with
  | GValue => True
  | GItems acc => Forall wf_value acc
  | GMembers acc => wf_map acc
  end.

Lemma read_scalar_wf s v r : read_scalar s = Some (v, r) -> wf_value v.
Proof.
  unfold read_scalar, read_literal. generalize (skip_ws s). intros w E.
  destruct (next_is Byte.x22 s) as [t|].
  { destruct (read_string _ t) as [[x u]|]; [|done]. injection E as <- _. constructor. }
  destruct (next_is Byte.x2d s) as [t|].
  { destruct (read_nat t) as [[x u]|]; [|done]. injection E as <- _. constructor. }
  destruct (strip_prefix w "null"); [injection E as <- _; constructor|].
  destruct (strip_prefix w "true"); [injection E as <- _; constructor|].
  destruct (strip_prefix w "false"); [injection E as <- _; constructor|].
  destruct (read_nat w) as [[x u]|]; [|done]. injection E as <- _. constructor.
Qed.

Lemma read_wf fuel g s v r : wf_goal g -> read bins fuel g s = Some (v, r) -> wf_value v.
Proof.
  revert g s v r. induction fuel as [|fuel IH]; intros g s v r Hg E; [done|].
  cbn [read] in E. destruct g as [|acc|acc].
  - repeat case_match; simplify_eq; eauto using read_scalar_wf;
      try (by repeat constructor); (eapply IH; [|eassumption]); first [apply wf_map_nil | constructor].
  - destruct (read bins fuel GValue s) as [[w t]|] eqn:Ev; cbn in E; [|done].
    apply IH in Ev; [|done].
    assert (Forall wf_value (acc ++ [w])) by (apply Forall_app; auto).
    repeat case_match; simplify_eq; [by eapply IH; [|eassumption]|by constructor].
  - destruct (next_is Byte.x22 s) as [t|]; cbn [mbind option_bind] in E; [|done].
    destruct (read_string (S (length t)) t) as [[k r1]|]; cbn [mbind option_bind] in E; [|done].
    destruct (next_is Byte.x3a r1) as [r2|]; cbn [mbind option_bind] in E; [|done].
    destruct (read bins fuel GValue r2) as [[w r3]|] eqn:Ev; cbn [mbind option_bind] in E; [|done].
    apply IH in Ev; [|done].
    assert (wf_map (bins k w acc)) by (by apply wf_map_bins).
    repeat case_match; simplify_eq; [by eapply IH; [|eassumption]|by apply wf_object_iff].
Qed.

Lemma sample_from_str_wf s v : sample_from_str s = Some v -> wf_value v.
Proof.
  unfold sample_from_str, read_text. intros E.
  destruct (read bins (S (2 * length s)) GValue s) as [[w r]|] eqn:Er; [|done].
  destruct (skip_ws r); [|done]. injection E as <-. by eapply read_wf in Er.
Qed.

#[export] Instance SampleJsonLaws : SerdeJsonLaws.
Proof.
  constructor.
  - intros z Hz. cbn. destruct (Z.leb_spec (- 2 ^ 63) z), (Z.ltb_spec z (2 ^ 63)); cbn; (done || lia).
  - apply show_int_inj.
  - apply show_int_bytes.
  - apply show_int_head.
  - apply sample_from_str_wf.
  - intros s. by eexists.
  - apply sample_quote_prefix.
Qed.

Lemma canonical_json_injective_witness :
  let v : value (@number SampleJson) := json_object (N := Z) [("b", Number 2); ("a", Array [Null; Str "x"%bs])]%bs in
  let w : value (@number SampleJson) := json_object (N := Z) [("a", Array [Null; Str "x"%bs]); ("b", Number 2)]%bs in
  canonical_json v = canonical_json w /\ v = w.
Proof.
  cbv zeta. split; [vm_compute; reflexivity|].
  apply (canonical_json_injective (H := SampleJson)); [repeat constructor..|vm_compute; reflexivity].
Defined.
