(* ===== verification/Merge.v ===== *)
(** The merge functions of [main.rs] the stream aggregators are made of: how one
    delta of a streamed response is folded into the object assembled so far. *)

From S2P Require Import Prelude RustStr BTree Json.
Local Open Scope bytes_scope.

(** A field of an object read as an object, empty when it is not one:
    [.get(k).and_then(Value::as_object).cloned().unwrap_or_default()]. *)
Definition object_or_empty {N} (o : option (value N)) : list (bytes * value N) :=
  default [] (o ≫= as_object).
(** The same for arrays. *)
Definition array_or_empty {N} (o : option (value N)) : list (value N) :=
  default [] (o ≫= as_array).

(** [while v.len() <= index { v.push(Value::Object(Map::new())); }]. *)
Definition pad_objects {N} (v : list (value N)) (index : nat) : list (value N) :=
  v ++ repeat (Object []) (S index - length v).

(** [target.insert(k, v)] unless [v] is [null]. *)
Definition insert_non_null {N} (k : bytes) (v : value N) (target : list (bytes * value N))
    : list (bytes * value N) :=
  if is_null v then target else bins k v target.

(** Runs a loop [for (k, v) in map] over the members in key order. *)
Definition for_members {N S} (f : S -> bytes -> value N -> S) (map : list (bytes * value N)) (s : S) : S :=
  fold_left (fun s kv => f s kv.1 kv.2) map s.

(** [for (i, item) in items.iter().enumerate()]. *)
Fixpoint enumerate_from {A} (i : Z) (l : list A) : list (Z * A) :=
  match l with
  | [] => []
  | x :: l => (i, x) :: enumerate_from (i + 1) l
  end.
Definition enumerate {A} (l : list A) : list (Z * A) := enumerate_from 0 l.

Section Merge.
Context `{SJ : SerdeJson}.
Abbreviation json := (value number).
Abbreviation jmap := (list (bytes * value number)).

(** ** OpenAI *)

Definition merge_tool_call_member (item : jmap) (key : bytes) (v : json) : jmap :=
  if eqs key "index" then item
  else if eqs key "function" then
    match as_object v with
    | Some fn_delta =>
        let fn_obj := object_or_empty (bget "function" item) in
        let fn_obj := append_string_field fn_obj "name" (bget "name" fn_delta) in
        let fn_obj := append_string_field fn_obj "arguments" (bget "arguments" fn_delta) in
        bins "function" (Object fn_obj) item
    | None => item
    end
  else bins key v item.

Definition merge_tool_call (current : list json) (raw : json) : list json :=
  match as_object raw with
  | None => current
  | Some raw_obj =>
      let index := match bget "index" raw_obj ≫= as_u64 with
                   | Some v => Z.to_nat v
                   | None => length current
                   end in
      let current := pad_objects current index in
      let item := object_or_empty (current !! index) in
      let item := for_members merge_tool_call_member raw_obj item in
      <[index := Object item]> current
  end.

Definition merge_tool_calls (current : list json) (delta : list json) : list json :=
  fold_left merge_tool_call delta current.

Definition merge_openai_chat_delta (message delta : jmap) : jmap :=
  let message :=
    if bhas "role" message then message
    else match bget "role" delta ≫= as_str with
         | Some role => bins "role" (Str role) message
         | None => message
         end in
  let message := append_string_field message "content" (bget "content" delta) in
  let message := append_string_field message "reasoning_content" (bget "reasoning_content" delta) in
  match bget "tool_calls" delta ≫= as_array with
  | Some tool_calls =>
      let current := array_or_empty (bget "tool_calls" message) in
      bins "tool_calls" (Array (merge_tool_calls current tool_calls)) message
  | None => message
  end.

Definition merge_openai_response_content_part (item : jmap) (raw_index raw_part : option json)
    (append_field : option bytes) (append_value : option json)
    (set_field : option bytes) (set_value : option json) : jmap :=
  let content := array_or_empty (bget "content" item) in
  let index := match raw_index ≫= as_u64 with
               | Some v => Z.to_nat v
               | None => length content
               end in
  let content := pad_objects content index in
  let part := object_or_empty (content !! index) in
  let part := match raw_part ≫= as_object with
              | Some raw_part => bextend part raw_part
              | None => part
              end in
  let part := match append_field with
              | Some field => append_string_field part field append_value
              | None => part
              end in
  let part := match set_field with
              | Some field => set_string_field part field set_value
              | None => part
              end in
  let content := <[index := Object part]> content in
  bins "content" (Array content) item.

(** ** Anthropic *)

Definition seed_anthropic_content_blocks (blocks : list (Z * jmap)) (content : option json)
    : list (Z * jmap) :=
  match content ≫= as_array with
  | None => blocks
  | Some items =>
      fold_left (fun blocks '(i, item) =>
        match as_object item with
        | Some block => bentry i block (fun b => b) blocks
        | None => blocks
        end) (enumerate items) blocks
  end.

(** [str::trim_end_matches("_delta")]: the suffix is removed repeatedly. *)
Fixpoint trim_end_delta (fuel : nat) (s : bytes) : bytes :=
  match fuel with
  | O => s
  | S fuel =>
      match strip_prefix (rev s) (rev "_delta") with
      | Some r => trim_end_delta fuel (rev r)
      | None => s
      end
  end.

Definition merge_anthropic_content_delta (block delta : jmap) : jmap :=
  let block :=
    if bhas "type" block then block
    else match bget "type" delta ≫= as_str with
         | Some delta_type => bins "type" (Str (trim_end_delta (length delta_type) delta_type)) block
         | None => block
         end in
  let block := append_string_field block "text" (bget "text" delta) in
  let block := append_string_field block "thinking" (bget "thinking" delta) in
  let block := append_string_field block "signature" (bget "signature" delta) in
  append_string_field block "input_json" (bget "partial_json" delta).

(** ** Gemini *)

Definition merge_semantic_part (target source : jmap) : jmap :=
  for_members (fun target k v =>
    if eqs k "text" || eqs k "thinking" || eqs k "signature" then
      append_string_field target k (Some v)
    else
      match bget k target ≫= as_object, as_object v with
      | Some existing, Some incoming => bins k (Object (bextend existing incoming)) target
      | _, _ => insert_non_null k v target
      end) source target.

Definition merge_indexed_part (out : list json) (iraw : Z * json) : list json :=
  let i := Z.to_nat iraw.1 in
  let out := pad_objects out i in
  match as_object iraw.2 with
  | None => <[i := iraw.2]> out
  | Some raw_obj =>
      let current := object_or_empty (out !! i) in
      <[i := Object (merge_semantic_part current raw_obj)]> out
  end.

Definition merge_indexed_parts (existing : option json) (incoming : list json) : json :=
  Array (fold_left merge_indexed_part (enumerate incoming) (array_or_empty existing)).

Definition merge_gemini_content_member (content : jmap) (content_key : bytes) (content_value : json)
    : jmap :=
  if eqs content_key "parts" then
    match as_array content_value with
    | Some parts => bins "parts" (merge_indexed_parts (bget "parts" content) parts) content
    | None => content
    end
  else insert_non_null content_key content_value content.

Definition merge_gemini_candidate (target source : jmap) : jmap :=
  for_members (fun target k v =>
    if eqs k "index" then target
    else if eqs k "content" then
      match as_object v with
      | Some content_obj =>
          let content := object_or_empty (bget "content" target) in
          let content := for_members merge_gemini_content_member content_obj content in
          bins "content" (Object content) target
      | None => target
      end
    else insert_non_null k v target) source target.

(** ** DashScope *)

Definition merge_dashscope_message (target source : jmap) : jmap :=
  let target := append_string_field target "content" (bget "content" source) in
  let target := append_string_field target "reasoning_content" (bget "reasoning_content" source) in
  let target :=
    match bget "tool_calls" source ≫= as_array with
    | Some tool_calls =>
        let current := array_or_empty (bget "tool_calls" target) in
        bins "tool_calls" (Array (merge_tool_calls current tool_calls)) target
    | None => target
    end in
  for_members (fun target k v =>
    if negb (eqs k "content") && negb (eqs k "reasoning_content") && negb (eqs k "tool_calls")
    then insert_non_null k v target else target) source target.

(** ** Bedrock *)

Definition merge_nested_semantic_object (existing : option json) (incoming : jmap)
    (append_fields : list bytes) : json :=
  Object (for_members (fun out k v =>
    if bool_decide (In k append_fields) then append_string_field out k (Some v)
    else
      match bget k out ≫= as_object, as_object v with
      | Some existing, Some incoming => bins k (Object (bextend existing incoming)) out
      | _, _ => insert_non_null k v out
      end) incoming (object_or_empty existing)).

Definition merge_bedrock_content_delta (block delta : jmap) : jmap :=
  let block := append_string_field block "text" (bget "text" delta) in
  let block :=
    if bhas "text" delta && negb (bhas "type" block) then bins "type" (Str "text") block
    else block in
  let block :=
    match bget "reasoningContent" delta ≫= as_object with
    | Some reasoning =>
        bins "reasoningContent"
          (merge_nested_semantic_object (bget "reasoningContent" block) reasoning
             ["text"; "signature"]) block
    | None => block
    end in
  let block :=
    match bget "toolUse" delta ≫= as_object with
    | Some tool_use =>
        bins "toolUse"
          (merge_nested_semantic_object (bget "toolUse" block) tool_use ["input"]) block
    | None => block
    end in
  let block :=
    match bget "citationsContent" delta ≫= as_object with
    | Some citations =>
        bins "citationsContent"
          (merge_nested_semantic_object (bget "citationsContent" block) citations ["text"]) block
    | None => block
    end in
  for_members (fun block k v =>
    if negb (eqs k "text") && negb (eqs k "reasoningContent") && negb (eqs k "toolUse")
       && negb (eqs k "citationsContent")
    then insert_non_null k v block else block) delta block.

(** ** Cohere *)

Definition merge_cohere_content_block (blocks : list (Z * jmap)) (index : Z) (raw_block : json)
    : list (Z * jmap) :=
  match as_object raw_block with
  | None => blocks
  | Some raw_obj => bentry index [] (fun block => merge_semantic_part block raw_obj) blocks
  end.

Definition merge_cohere_message_delta (message : jmap) (content_blocks : list (Z * jmap))
    (raw_message : json) : jmap * list (Z * jmap) :=
  match as_object raw_message with
  | None => (message, content_blocks)
  | Some message_obj =>
      let message := for_members (fun message k v =>
        if negb (eqs k "content") then insert_non_null k v message else message)
        message_obj message in
      match bget "content" message_obj with
      | None => (message, content_blocks)
      | Some (Array items) =>
          (message, fold_left (fun blocks '(i, item) =>
             merge_cohere_content_block blocks i item) (enumerate items) content_blocks)
      | Some (Object content_obj as raw_content) =>
          let index :=
            match bget "index" content_obj ≫= as_i64 with
            | Some i => i
            | None => match content_blocks with
                      | [] => 0%Z
                      | _ => (zlen content_blocks - 1)%Z
                      end
            end in
          (message, merge_cohere_content_block content_blocks index raw_content)
      | Some (Str s) =>
          (message,
           bentry 0%Z (bins "type" (Str "text") [])
             (fun block => append_string_field block "text" (Some (Str s))) content_blocks)
      | Some _ => (message, content_blocks)
      end
  end.
End Merge.

(** * Well-formedness

    Every merge keeps objects in key order: what is signed is the text of a
    value the Rust type can hold. *)

Definition wf_opt {N} (o : option (value N)) : Prop := forall v, o = Some v -> wf_value v.

(** A table of objects, and the objects of it. *)
Definition wf_table {N} (t : list (Z * list (bytes * value N))) : Prop := Forall (fun kv => wf_map kv.2) t.

Section WfBasics.
Context {N : Type}.
Implicit Types (m : list (bytes * value N)) (o : option (value N)) (v : value N).

Lemma wf_opt_some v : wf_value v -> wf_opt (Some v).
Proof. by intros H ? [= <-]. Qed.
Lemma wf_opt_none : wf_opt (N := N) None.
Proof. done. Qed.
Lemma wf_opt_bget k m : wf_map m -> wf_opt (bget k m).
Proof. intros H v. by apply wf_map_bget. Qed.
Lemma wf_opt_inv o v : wf_opt o -> o = Some v -> wf_value v.
Proof. auto. Qed.
Lemma wf_as_object v m : wf_value v -> as_object v = Some m -> wf_map m.
Proof. intros H. destruct v; cbn; [done..|]. intros [= <-]. by apply wf_object_iff. Qed.
Lemma wf_as_array v l : wf_value v -> as_array v = Some l -> Forall wf_value l.
Proof. intros H. destruct v; cbn; try done. intros [= <-]. by inversion H. Qed.
Lemma wf_bind_object o m : wf_opt o -> o ≫= as_object = Some m -> wf_map m.
Proof. destruct o as [v|]; cbn; [|done]. intros H. apply wf_as_object. by apply H. Qed.
Lemma wf_bind_array o l : wf_opt o -> o ≫= as_array = Some l -> Forall wf_value l.
Proof. destruct o as [v|]; cbn; [|done]. intros H. apply wf_as_array. by apply H. Qed.
Lemma wf_object_or_empty o : wf_opt o -> wf_map (object_or_empty o).
Proof.
  intros H. unfold object_or_empty. destruct (o ≫= as_object) eqn:E; cbn; [|apply wf_map_nil].
  by eapply wf_bind_object.
Qed.
Lemma wf_array_or_empty o : wf_opt o -> Forall wf_value (array_or_empty o).
Proof.
  intros H. unfold array_or_empty. destruct (o ≫= as_array) eqn:E; cbn; [|constructor].
  by eapply wf_bind_array.
Qed.
Lemma wf_obj m : wf_map m -> wf_value (Object m).
Proof. apply wf_object_iff. Qed.
Lemma wf_lookup (l : list (value N)) i : Forall wf_value l -> wf_opt (l !! i).
Proof. intros H v Hv. by eapply Forall_lookup_1. Qed.
Lemma wf_pad_objects (l : list (value N)) i : Forall wf_value l -> Forall wf_value (pad_objects l i).
Proof.
  intros H. apply Forall_app. split; [done|]. apply Forall_forall. intros x Hx.
  apply repeat_spec in Hx as ->. apply wf_obj, wf_map_nil.
Qed.
Lemma wf_list_insert (l : list (value N)) i v :
  Forall wf_value l -> wf_value v -> Forall wf_value (<[i := v]> l).
Proof. intros. by apply Forall_insert. Qed.
Lemma wf_insert_non_null k v m : wf_value v -> wf_map m -> wf_map (insert_non_null k v m).
Proof. intros. unfold insert_non_null. destruct (is_null v); [done|by apply wf_map_bins]. Qed.
Lemma wf_for_members (f : list (bytes * value N) -> bytes -> value N -> list (bytes * value N)) m t :
  (forall t k v, wf_map t -> wf_value v -> wf_map (f t k v)) ->
  wf_map m -> wf_map t -> wf_map (for_members f m t).
Proof.
  intros Hf [_ Hm] Ht. unfold for_members.
  apply (fold_left_inv wf_map (fun kv => wf_value kv.2)); auto.
Qed.
Lemma wf_enumerate (l : list (value N)) : Forall wf_value l -> Forall (fun ix => wf_value ix.2) (enumerate l).
Proof.
  unfold enumerate. generalize 0%Z. intros i H. revert i.
  induction H; intros i; cbn; constructor; auto.
Qed.
Lemma wf_table_nil : wf_table (N := N) [].
Proof. constructor. Qed.
Lemma wf_table_get (t : list (Z * list (bytes * value N))) i m : wf_table t -> bget i t = Some m -> wf_map m.
Proof.
  intros H Hg. apply In_bget in Hg. unfold wf_table in H. rewrite Forall_forall in H.
  by apply (H (i, m)).
Qed.
Lemma wf_table_bins i m (t : list (Z * list (bytes * value N))) : wf_map m -> wf_table t -> wf_table (bins i m t).
Proof. intros. by apply Forall_bins. Qed.
Lemma wf_table_bdel i (t : list (Z * list (bytes * value N))) : wf_table t -> wf_table (bdel i t).
Proof. apply Forall_bdel. Qed.
Lemma wf_table_default i d (t : list (Z * list (bytes * value N))) :
  wf_map d -> wf_table t -> wf_map (default d (bget i t)).
Proof.
  intros Hd Ht. destruct (bget i t) eqn:E; cbn; [by eapply wf_table_get|done].
Qed.
Lemma wf_table_bentry i d f (t : list (Z * list (bytes * value N))) :
  wf_map d -> (forall m, wf_map m -> wf_map (f m)) -> wf_table t -> wf_table (bentry i d f t).
Proof. intros Hd Hf Ht. apply wf_table_bins; [|done]. by apply Hf, wf_table_default. Qed.
Lemma wf_table_values (t : list (Z * list (bytes * value N))) :
  wf_table t -> wf_value (Array (map Object (bvalues t))).
Proof.
  intros H. constructor. unfold bvalues. rewrite map_map. induction H; cbn; constructor; auto.
  by apply wf_obj.
Qed.
Lemma wf_json_object (l : list (bytes * value N)) :
  Forall (fun kv => wf_value kv.2) l -> wf_value (json_object l).
Proof.
  intros H. apply wf_obj. unfold bextend.
  apply (fold_left_inv wf_map (fun kv => wf_value kv.2)); [|apply wf_map_nil|done].
  intros. by apply wf_map_bins.
Qed.
End WfBasics.

Create HintDb wf.
#[export] Hint Resolve wf_opt_some wf_opt_none wf_opt_bget wf_object_or_empty wf_array_or_empty wf_obj
  wf_lookup wf_pad_objects wf_list_insert wf_insert_non_null wf_map_bins wf_map_nil wf_map_extend
  wf_append_string_field wf_set_string_field wf_merge_value_object wf_merge_nested_object
  wf_pick_value wf_map_pick wf_table_nil wf_table_bins wf_table_bdel wf_table_default
  wf_table_values wf_json_object wf_enumerate : wf.
#[export] Hint Constructors wf_value : wf.

(** Well-formedness of a goal built from merges: what a [match] has read out
    of a well-formed object is well-formed. *)
Ltac wf_read :=
  repeat match goal with
  | H : ?o ≫= as_object = Some ?m |- _ =>
      lazymatch goal with _ : wf_map m |- _ => fail | _ =>
        assert (wf_map m) by (eapply (wf_bind_object o); [eauto with wf|exact H]) end
  | H : ?o ≫= as_array = Some ?l |- _ =>
      lazymatch goal with _ : Forall wf_value l |- _ => fail | _ =>
        assert (Forall wf_value l) by (eapply (wf_bind_array o); [eauto with wf|exact H]) end
  | H : as_object ?v = Some ?m |- _ =>
      lazymatch goal with _ : wf_map m |- _ => fail | _ =>
        assert (wf_map m) by (eapply (wf_as_object v); [eauto with wf|exact H]) end
  | H : as_array ?v = Some ?l |- _ =>
      lazymatch goal with _ : Forall wf_value l |- _ => fail | _ =>
        assert (Forall wf_value l) by (eapply (wf_as_array v); [eauto with wf|exact H]) end
  | H : bget ?k ?m = Some ?v |- _ =>
      lazymatch goal with _ : wf_value v |- _ => fail | _ =>
        assert (wf_value v) by (eapply (wf_map_bget k); [|exact H]; eauto with wf) end
  end.

Ltac wf_cases := repeat case_match; wf_read; eauto 20 with wf.

Section WfMerge.
Context `{SJ : SerdeJson}.
Abbreviation json := (value number).
Abbreviation jmap := (list (bytes * value number)).

Lemma wf_merge_tool_call_member item key (v : json) :
  wf_map item -> wf_value v -> wf_map (merge_tool_call_member item key v).
Proof. intros. unfold merge_tool_call_member. wf_cases. Qed.

Lemma wf_merge_tool_calls current delta :
  Forall wf_value current -> Forall wf_value delta -> Forall wf_value (merge_tool_calls current delta).
Proof.
  intros Hc Hd. apply (fold_left_inv (Forall wf_value) wf_value); try done.
  clear. intros current raw Hc Hr. unfold merge_tool_call.
  destruct (as_object raw) as [obj|] eqn:E; [|done]. wf_read. cbv zeta.
  apply wf_list_insert; [eauto with wf|]. apply wf_obj, wf_for_members; eauto with wf.
  intros. by apply wf_merge_tool_call_member.
Qed.
#[local] Hint Resolve wf_merge_tool_calls : wf.

Lemma wf_merge_openai_chat_delta message (delta : jmap) :
  wf_map message -> wf_map delta -> wf_map (merge_openai_chat_delta message delta).
Proof.
  intros Hm Hd. unfold merge_openai_chat_delta.
  set (m := if bhas "role" message then _ else _).
  assert (wf_map m) by (subst m; wf_cases). clearbody m. wf_cases.
Qed.

Lemma wf_merge_response_content_part item ri rp af av sf sv :
  wf_map item -> wf_opt rp -> wf_map (merge_openai_response_content_part item ri rp af av sf sv).
Proof.
  intros Hi Hp. unfold merge_openai_response_content_part. cbv zeta.
  apply wf_map_bins; [|done]. constructor. apply wf_list_insert; [eauto with wf|]. apply wf_obj.
  wf_cases.
Qed.

Lemma wf_seed_blocks blocks content :
  wf_table blocks -> wf_opt content -> wf_table (seed_anthropic_content_blocks blocks content).
Proof.
  intros Hb Hc. unfold seed_anthropic_content_blocks.
  destruct (content ≫= as_array) as [items|] eqn:E; [|done]. wf_read.
  apply (fold_left_inv wf_table (fun ix => wf_value ix.2)); [|done|eauto with wf].
  intros t [i item] Ht Hi. destruct (as_object item) as [m|] eqn:Em; [|done].
  cbn in Hi. wf_read. by apply wf_table_bentry.
Qed.

Lemma wf_merge_anthropic_content_delta block (delta : jmap) :
  wf_map block -> wf_map delta -> wf_map (merge_anthropic_content_delta block delta).
Proof. intros. unfold merge_anthropic_content_delta. wf_cases. Qed.

Lemma wf_merge_semantic_part target (source : jmap) :
  wf_map target -> wf_map source -> wf_map (merge_semantic_part target source).
Proof. intros. unfold merge_semantic_part. apply wf_for_members; [|done..]. intros. wf_cases. Qed.
#[local] Hint Resolve wf_merge_semantic_part : wf.

Lemma wf_merge_indexed_parts existing (incoming : list json) :
  wf_opt existing -> Forall wf_value incoming -> wf_value (merge_indexed_parts existing incoming).
Proof.
  intros He Hi. constructor.
  apply (fold_left_inv (Forall wf_value) (fun ix => wf_value ix.2)); [|eauto with wf..].
  intros out [i raw] Ho Hr. unfold merge_indexed_part. cbn [fst snd] in *. cbv zeta.
  destruct (as_object raw) eqn:E; wf_read; apply wf_list_insert; eauto 20 with wf.
Qed.
#[local] Hint Resolve wf_merge_indexed_parts : wf.

Lemma wf_merge_gemini_candidate target (source : jmap) :
  wf_map target -> wf_map source -> wf_map (merge_gemini_candidate target source).
Proof.
  intros. unfold merge_gemini_candidate. apply wf_for_members; [|done..]. intros t k v Ht Hv.
  repeat case_match; wf_read; eauto with wf.
  apply wf_map_bins; [|done]. apply wf_obj, wf_for_members; [|done|eauto with wf].
  intros. unfold merge_gemini_content_member. wf_cases.
Qed.

Lemma wf_merge_dashscope_message target (source : jmap) :
  wf_map target -> wf_map source -> wf_map (merge_dashscope_message target source).
Proof.
  intros. unfold merge_dashscope_message. apply wf_for_members; [intros; wf_cases|done|wf_cases].
Qed.

Lemma wf_merge_nested_semantic_object existing (incoming : jmap) fields :
  wf_opt existing -> wf_map incoming -> wf_value (merge_nested_semantic_object existing incoming fields).
Proof.
  intros. apply wf_obj, wf_for_members; [|done|eauto with wf]. intros. wf_cases.
Qed.
#[local] Hint Resolve wf_merge_nested_semantic_object : wf.

Lemma wf_merge_bedrock_content_delta block (delta : jmap) :
  wf_map block -> wf_map delta -> wf_map (merge_bedrock_content_delta block delta).
Proof.
  intros. unfold merge_bedrock_content_delta. apply wf_for_members; [intros; wf_cases|done|].
  repeat match goal with
  | |- wf_map match ?o with Some x => bins _ _ ?b | None => ?b end =>
      let W := fresh in assert (W : wf_map b); [|revert W; generalize b; intros ? W; wf_cases]
  end. wf_cases.
Qed.

Lemma wf_merge_cohere_content_block blocks i (raw : json) :
  wf_table blocks -> wf_value raw -> wf_table (merge_cohere_content_block blocks i raw).
Proof.
  intros. unfold merge_cohere_content_block. destruct (as_object raw) eqn:E; [|done]. wf_read.
  apply wf_table_bentry; eauto with wf.
Qed.
#[local] Hint Resolve wf_merge_cohere_content_block : wf.

Lemma wf_merge_cohere_message_delta message blocks (raw : json) :
  wf_map message -> wf_table blocks -> wf_value raw ->
  let '(m, b) := merge_cohere_message_delta message blocks raw in wf_map m /\ wf_table b.
Proof.
  intros Hm Hb Hr. unfold merge_cohere_message_delta.
  destruct (as_object raw) as [obj|] eqn:E; [|done]. wf_read. cbv zeta.
  set (m := for_members _ obj message).
  assert (wf_map m) by (apply wf_for_members; [intros; wf_cases|done..]). clearbody m.
  destruct (bget "content" obj) as [c|] eqn:Ec; [|done]. wf_read.
  destruct c as [| | |s|items|content]; try done.
  - split; [done|]. apply wf_table_bentry; eauto with wf.
  - split; [done|]. match goal with W : wf_value (Array items) |- _ => inversion_clear W end.
    apply (fold_left_inv wf_table (fun ix => wf_value ix.2)); [|done|eauto with wf].
    intros t [i item] Ht Hix. eauto with wf.
  - split; eauto with wf.
Qed.
End WfMerge.

#[export] Hint Resolve wf_merge_openai_chat_delta wf_merge_tool_calls wf_merge_response_content_part
  wf_seed_blocks wf_merge_anthropic_content_delta wf_merge_semantic_part wf_merge_gemini_candidate
  wf_merge_dashscope_message wf_merge_bedrock_content_delta wf_merge_cohere_content_block : wf.
