(* ===== verification/Paths.v ===== *)
(** Request paths and header text: [find], [no_crlf] and [path_no_query] of
    [main.rs]. *)

From S2P Require Import Prelude RustStr.

(** [slice.iter().position(p)]. *)
Fixpoint position {A} (p : A -> bool) (l : list A) : option nat :=
  match l with
  | [] => None
  | x :: l => if p x then Some O else option_map S (position p l)
  end.

(** [(0..=n).find(p)]. *)
Definition find_upto (n : nat) (p : nat -> bool) : option nat :=
  position p (seq 0 (S n)).

Definition find (hay needle : bytes) : option nat :=
  if bool_decide (needle = []) || (length hay <? length needle)%nat then None
  else find_upto (length hay - length needle)
         (fun i => eqs (take (length needle) (drop i hay)) needle).

Definition no_crlf (s : bytes) : bool :=
  negb (existsb (fun b => Byte.eqb b Byte.x0d || Byte.eqb b Byte.x0a) s).

Definition path_no_query (p : bytes) : bytes :=
  match find_byte p Byte.x3f with
  | Some i => take i p
  | None => p
  end.

(** * Lemmas *)

Lemma no_crlf_spec s : no_crlf s = true <-> ~ In Byte.x0d s /\ ~ In Byte.x0a s.
Proof.
  unfold no_crlf. rewrite negb_true_iff. split.
  - intros H. split; intros Hin; (assert (E : existsb
      (fun b => Byte.eqb b Byte.x0d || Byte.eqb b Byte.x0a) s = true);
      [apply existsb_exists; eexists; split; [exact Hin|done]|congruence]).
  - intros [H1 H2]. destruct (existsb _ s) eqn:E; [|done]. apply existsb_exists in E as (b & Hb & E).
    apply orb_prop in E as [E|E]; apply Byte.byte_dec_bl in E as ->; done.
Qed.

Lemma path_no_query_prefix p : exists r, p = path_no_query p ++ r.
Proof.
  unfold path_no_query. destruct (find_byte p Byte.x3f) as [i|].
  - exists (drop i p). by rewrite take_drop.
  - exists []. by rewrite app_nil_r.
Qed.

Lemma path_no_query_In c p : In c (path_no_query p) -> In c p.
Proof. destruct (path_no_query_prefix p) as [r E]. rewrite E at 2. intros. apply in_app_iff. auto. Qed.

(** ** [find] *)

Lemma position_Some {A} (p : A -> bool) l i :
  position p l = Some i <->
  (exists x, l !! i = Some x /\ p x = true) /\ forall j x, j < i -> l !! j = Some x -> p x = false.
Proof.
  revert i. induction l as [|y l IH]; intros i; cbn.
  - split; [done|]. intros [(x & Hx & _) _]. by rewrite lookup_nil in Hx.
  - destruct (p y) eqn:E.
    + split.
      * intros [= <-]. split; [by exists y|]. intros; lia.
      * intros [_ H]. destruct i; [done|]. rewrite (H 0 y) in E; (done || lia).
    + split.
      * destruct (position p l) as [k|]; [|done]. intros [= <-].
        destruct (proj1 (IH k) eq_refl) as [(x & Hx & Hp) Hf]. split; [by exists x|].
        intros [|j] z Hj Hz; [by injection Hz as <-|]. apply (Hf j); [lia|done].
      * intros [(x & Hx & Hp) Hf]. destruct i as [|i]; [by injection Hx as <-; rewrite Hp in E|].
        rewrite (proj2 (IH i)); [done|]. split; [by exists x|].
        intros j z Hj Hz. apply (Hf (S j)); [lia|done].
Qed.

(** [needle] occurs in [hay] at [i]. *)
Definition occurs (hay needle : bytes) (i : nat) : Prop :=
  i + length needle <= length hay /\ take (length needle) (drop i hay) = needle.

(** [find] gives the first occurrence. *)
Lemma find_Some hay needle i :
  needle <> [] ->
  find hay needle = Some i <-> occurs hay needle i /\ forall j, j < i -> ~ occurs hay needle j.
Proof.
  intros Hn. unfold find. rewrite bool_decide_false by done. cbn [orb].
  destruct (Nat.ltb_spec (length hay) (length needle)) as [Hl|Hl].
  { split; [done|]. intros [[Ho _] _]. lia. }
  unfold find_upto. rewrite position_Some. unfold occurs.
  assert (L : forall j x, seq 0 (S (length hay - length needle)) !! j = Some x <->
    x = j /\ j + length needle <= length hay).
  { intros j x. rewrite lookup_seq. lia. }
  split.
  - intros [(x & Hx & Hp) Hf]. apply L in Hx as [-> Hi]. apply bool_decide_eq_true in Hp.
    split; [done|]. intros j Hj [Hj1 Hj2]. specialize (Hf j j Hj (proj2 (L j j) (conj eq_refl Hj1))).
    apply bool_decide_eq_false in Hf. done.
  - intros [[H1 H2] Hf]. split.
    + exists i. split; [by apply L|]. by apply bool_decide_eq_true.
    + intros j x Hj Hx. apply L in Hx as [-> Hx]. apply bool_decide_eq_false. intros E.
      by apply (Hf j).
Qed.

Lemma occurs_app a b needle i :
  i + length needle <= length a -> occurs (a ++ b) needle i <-> occurs a needle i.
Proof.
  intros H. unfold occurs. rewrite length_app, drop_app_le, take_app_le by (rewrite ?length_drop; lia).
  intuition lia.
Qed.

Lemma occurs_split hay needle i :
  occurs hay needle i <-> exists r, i <= length hay /\ hay = take i hay ++ needle ++ r.
Proof.
  unfold occurs. split.
  - intros [Hl E]. exists (drop (length needle) (drop i hay)). split; [lia|].
    pose proof (take_drop (length needle) (drop i hay)) as T. rewrite E in T. by rewrite T, take_drop.
  - intros (r & Hl & E). rewrite E at 1 2. rewrite drop_app_length' by (rewrite length_take; lia).
    rewrite take_app_length, !length_app, length_take. split; [lia|done].
Qed.

(** A first occurrence inside a prefix, seen from either side. *)
Lemma find_app a b needle i :
  needle <> [] -> i + length needle <= length a -> find (a ++ b) needle = Some i <-> find a needle = Some i.
Proof.
  intros Hn Hi. rewrite !find_Some by done. rewrite occurs_app by done.
  split; intros [Ho Hf]; (split; [done|]); intros j Hj Hoj; apply (Hf j Hj);
    [apply occurs_app; [lia|done]|by apply occurs_app in Hoj; [|lia]].
Qed.

Lemma find_bound hay needle i : needle <> [] -> find hay needle = Some i -> i + length needle <= length hay.
Proof. intros Hn E. apply find_Some in E as [[? _] _]; done. Qed.

Lemma find_None_app a b needle i :
  needle <> [] -> find (a ++ b) needle = Some i -> length a < i + length needle -> find a needle = None.
Proof.
  intros Hn E Hi. destruct (find a needle) as [j|] eqn:Ej; [|done].
  pose proof (find_bound _ _ _ Hn Ej) as Hj. apply (find_app a b) in Ej; [|done..].
  rewrite E in Ej. injection Ej as ->. lia.
Qed.

(** A separator whose first byte is not in the text before it. *)
Lemma find_sep line sep rest b :
  head sep = Some b -> ~ In b line -> find (line ++ sep ++ rest) sep = Some (length line).
Proof.
  intros Hb Hin. apply find_Some; [by destruct sep|]. split.
  - apply occurs_split. exists rest. rewrite take_app_length. split; [rewrite length_app; lia|done].
  - intros j Hj (r & _ & E)%occurs_split. apply Hin.
    destruct sep as [|c sep]; [done|]. injection Hb as ->.
    assert (L : (line ++ (b :: sep) ++ rest) !! j = Some b).
    { rewrite E, lookup_app_r; rewrite length_take, length_app; [|lia].
      replace (j - _) with 0 by lia. done. }
    rewrite lookup_app_l in L by lia. apply list_elem_of_lookup_2 in L. by apply list_elem_of_In in L.
Qed.
