(* ===== verification/OpenAiChat.v ===== *)
(** OpenAI chat completions ([openai.chat_completions]): the incremental
    [OpenAiChatStreamState] and the batch [aggregate_openai_chat_stream] of
    [main.rs], and their agreement. *)

From S2P Require Import Prelude RustStr BTree Json Merge.
Local Open Scope bytes_scope.

Section OpenAiChat.
Context `{SJ : SerdeJson}.
Abbreviation json := (value number).
Abbreviation jmap := (list (bytes * value number)).

(** [{"index": index, "message": {}}]. *)
Definition new_choice (index : Z) : jmap :=
  bins "message" (Object []) (bins "index" (json_int index) []).

Record OpenAiChatStreamState := mkOpenAiChat {
  out : jmap;
  choices : list (Z * jmap);
}.

Definition openai_chat_default : OpenAiChatStreamState := mkOpenAiChat [] [].

(** The body of [for raw_choice in raw_choices]. *)
Definition apply_choice (choices : list (Z * jmap)) (raw_choice : json) : list (Z * jmap) :=
  match as_object raw_choice with
  | None => choices
  | Some choice_obj =>
      let index := default (zlen choices) (bget "index" choice_obj ≫= as_i64) in
      bentry index (new_choice index) (fun choice =>
        let message := object_or_empty (bget "message" choice) in
        let message :=
          match bget "delta" choice_obj ≫= as_object with
          | Some delta => merge_openai_chat_delta message delta
          | None => message
          end in
        let message :=
          match bget "message" choice_obj ≫= as_object with
          | Some full_message => bextend message full_message
          | None => message
          end in
        let choice := bins "message" (Object message) choice in
        let choice :=
          match bget "finish_reason" choice_obj with
          | Some finish_reason =>
              if negb (is_null finish_reason) then bins "finish_reason" finish_reason choice
              else choice
          | None => choice
          end in
        match bget "logprobs" choice_obj with
        | Some logprobs => bins "logprobs" logprobs choice
        | None => choice
        end) choices
  end.

Definition apply (st : OpenAiChatStreamState) (item : json) : OpenAiChatStreamState :=
  match as_object item with
  | None => st
  | Some chunk =>
      let o := out st in
      let o :=
        if negb (bhas "model" o) then
          match bget "model" chunk ≫= as_str with
          | Some model => bins "model" (Str model) o
          | None => o
          end
        else o in
      let o := match bget "usage" chunk with Some usage => bins "usage" usage o | None => o end in
      let o := match bget "error" chunk with Some error => bins "error" error o | None => o end in
      match bget "choices" chunk ≫= as_array with
      | None => mkOpenAiChat o (choices st)
      | Some raw_choices => mkOpenAiChat o (fold_left apply_choice raw_choices (choices st))
      end
  end.

Definition finish (st : OpenAiChatStreamState) : json :=
  let o :=
    match choices st with
    | [] => out st
    | _ => bins "choices" (Array (map Object (bvalues (choices st)))) (out st)
    end in
  Object o.

(** The loop of [aggregate_openai_chat_stream] over the pair of locals
    [(out, choices)]. *)
Definition aggregate_choice (choices : list (Z * jmap)) (raw_choice : json) : list (Z * jmap) :=
  match as_object raw_choice with
  | None => choices
  | Some choice_obj =>
      let index := match bget "index" choice_obj ≫= as_i64 with
                   | Some i => i
                   | None => zlen choices
                   end in
      let choice := match bget index choices with
                    | Some c => c
                    | None => new_choice index
                    end in
      let message := object_or_empty (bget "message" choice) in
      let message := match bget "delta" choice_obj ≫= as_object with
                     | Some delta => merge_openai_chat_delta message delta
                     | None => message
                     end in
      let message := match bget "message" choice_obj ≫= as_object with
                     | Some full_message => bextend message full_message
                     | None => message
                     end in
      let choice := bins "message" (Object message) choice in
      let choice := match bget "finish_reason" choice_obj with
                    | Some finish_reason =>
                        if negb (is_null finish_reason)
                        then bins "finish_reason" finish_reason choice else choice
                    | None => choice
                    end in
      let choice := match bget "logprobs" choice_obj with
                    | Some logprobs => bins "logprobs" logprobs choice
                    | None => choice
                    end in
      bins index choice choices
  end.

Definition aggregate_chunk (acc : jmap * list (Z * jmap)) (item : json)
    : jmap * list (Z * jmap) :=
  let '(out, choices) := acc in
  match as_object item with
  | None => (out, choices)
  | Some chunk =>
      let out :=
        if negb (bhas "model" out) then
          match bget "model" chunk ≫= as_str with
          | Some model => bins "model" (Str model) out
          | None => out
          end
        else out in
      let out := match bget "usage" chunk with Some usage => bins "usage" usage out | None => out end in
      let out := match bget "error" chunk with Some error => bins "error" error out | None => out end in
      match bget "choices" chunk ≫= as_array with
      | None => (out, choices)
      | Some raw_choices => (out, fold_left aggregate_choice raw_choices choices)
      end
  end.

Definition aggregate_openai_chat_stream (v : json) : json :=
  match as_array v with
  | None => pick_value v ["model"; "choices"; "usage"; "error"]
  | Some items =>
      let '(out, choices) := fold_left aggregate_chunk items ([], []) in
      let out :=
        match choices with
        | [] => out
        | _ => bins "choices" (Array (map Object (bvalues choices))) out
        end in
      Object out
  end.

(** ** Agreement of the two *)

Lemma apply_choice_aggregate choices raw :
  apply_choice choices raw = aggregate_choice choices raw.
Proof.
  unfold apply_choice, aggregate_choice, bentry. destruct (as_object raw) as [obj|]; [|done].
  unfold default. by destruct (bget "index" obj ≫= as_i64).
Qed.

Lemma apply_aggregate_chunk st item :
  (out (apply st item), choices (apply st item)) = aggregate_chunk (out st, choices st) item.
Proof.
  unfold apply, aggregate_chunk. destruct (as_object item) as [chunk|]; [|done].
  destruct (bget "choices" chunk ≫= as_array) as [raws|]; [|done]. cbn [out choices].
  by rewrite (fold_left_ext _ _ apply_choice_aggregate).
Qed.

(** Folding the events in one by one is aggregating the list of them. *)
Lemma openai_chat_stream_is_batch items :
  finish (fold_left apply items openai_chat_default) = aggregate_openai_chat_stream (Array items).
Proof.
  unfold aggregate_openai_chat_stream. cbn [as_array].
  change ([], []) with (out openai_chat_default, choices openai_chat_default).
  rewrite <-(fold_left_proj (fun st => (out st, choices st)) apply _ apply_aggregate_chunk).
  unfold finish. by destruct (fold_left apply items _) as [o [|b bs]].
Qed.

(** ** The view is well-formed *)

Definition wf_state (st : OpenAiChatStreamState) : Prop := wf_map (out st) /\ wf_table (choices st).

Lemma chat_wf_default : wf_state openai_chat_default.
Proof. split; eauto with wf. Qed.

Lemma wf_new_choice i : wf_map (new_choice i).
Proof. unfold new_choice. eauto with wf. Qed.

Lemma chat_wf_apply_choice choices raw : wf_table choices -> wf_value raw -> wf_table (apply_choice choices raw).
Proof.
  intros Hc Hr. unfold apply_choice. destruct (as_object raw) as [obj|] eqn:E; [|done]. wf_read.
  apply wf_table_bentry; [apply wf_new_choice| |done]. intros m Hm. cbv zeta. wf_cases.
Qed.

Lemma chat_wf_apply st item : wf_state st -> wf_value item -> wf_state (apply st item).
Proof.
  intros [Ho Hc] Hi. unfold apply. destruct (as_object item) as [chunk|] eqn:E; [|done]. wf_read.
  cbv zeta. set (o := match bget "error" chunk with Some _ => _ | None => _ end).
  assert (wf_map o) by (subst o; wf_cases). clearbody o.
  destruct (bget "choices" chunk ≫= as_array) as [raws|] eqn:Er; [|done]. wf_read.
  split; [done|]. apply (fold_left_inv wf_table wf_value); auto using chat_wf_apply_choice.
Qed.

Lemma chat_wf_finish st : wf_state st -> wf_value (finish st).
Proof. intros [Ho Hc]. unfold finish. wf_cases. Qed.

Lemma chat_wf_aggregate parsed : wf_value parsed -> wf_value (aggregate_openai_chat_stream parsed).
Proof.
  intros Hp. destruct parsed as [| | | |items|]; try exact (wf_pick_value _ _ Hp).
  rewrite <-openai_chat_stream_is_batch. apply chat_wf_finish. inversion_clear Hp.
  by apply (fold_left_inv wf_state wf_value); [apply chat_wf_apply|apply chat_wf_default|].
Qed.
End OpenAiChat.
