(* ===== verification/OpenAiResponses.v ===== *)
(** OpenAI responses ([openai.responses]): [openai_responses_view], the
    incremental [OpenAiResponsesStreamState] and the batch
    [aggregate_openai_responses_stream] of [main.rs]. *)

From S2P Require Import Prelude RustStr BTree Json Merge.
Local Open Scope bytes_scope.

Section OpenAiResponses.
Context `{SJ : SerdeJson}.
Abbreviation json := (value number).
Abbreviation jmap := (list (bytes * value number)).

Definition responses_keys : list bytes :=
  ["model"; "status"; "output"; "output_text"; "usage"; "error"].

Record OpenAiResponsesStreamState := mkOpenAiResponses {
  out : jmap;
  output_items : list (Z * jmap);
}.

Definition openai_responses_default : OpenAiResponsesStreamState := mkOpenAiResponses [] [].

(** [event.get("output_index").and_then(as_i64).unwrap_or(output_items.len() as i64)]. *)
Definition output_index (event : jmap) (output_items : list (Z * jmap)) : Z :=
  default (zlen output_items) (bget "output_index" event ≫= as_i64).

(** The text events ([output_text], [refusal], [reasoning_text]): a [.done]
    event sets [field] from member [done_key], a [.delta] event appends the
    member [delta]. *)
Definition text_event (event_type part_type field done_key : bytes) (event : jmap)
    (item_out : jmap) : jmap :=
  let part := Object (bins "type" (Str part_type) []) in
  let v := if ends_with event_type ".done" then bget done_key event else bget "delta" event in
  if ends_with event_type ".done" then
    merge_openai_response_content_part item_out (bget "content_index" event) (Some part)
      None None (Some field) v
  else
    merge_openai_response_content_part item_out (bget "content_index" event) (Some part)
      (Some field) v None None.

(** The function-call arms of [apply]: the arguments are set or appended. *)
Definition arguments_event (event_type : bytes) (event item_out : jmap) : jmap :=
  let v := if ends_with event_type ".done" then bget "arguments" event else bget "delta" event in
  if ends_with event_type ".done" then set_string_field item_out "arguments" v
  else append_string_field item_out "arguments" v.

(** Its last arms: [response.completed], [response.failed] and all the rest. *)
Definition outcome_event (o : jmap) (event_type : bytes) (event : jmap) : jmap :=
  if eqs event_type "response.completed" then
    if negb (bhas "status" o) then bins "status" (Str "completed") o else o
  else if eqs event_type "response.failed" then
    match bget "error" event with
    | Some error => bins "error" error o
    | None => o
    end
  else o.

(** The [match event_type] of [apply]. *)
Definition apply_event (st : OpenAiResponsesStreamState) (event_type : bytes) (event : jmap)
    : OpenAiResponsesStreamState :=
  let o := out st in
  let items := output_items st in
  let index := output_index event items in
  if eqs event_type "response.output_item.added" || eqs event_type "response.output_item.done" then
    mkOpenAiResponses o (bentry index [] (fun item_out =>
      match bget "item" event ≫= as_object with
      | Some raw_item => bextend item_out raw_item
      | None => item_out
      end) items)
  else if eqs event_type "response.content_part.added" || eqs event_type "response.content_part.done" then
    mkOpenAiResponses o (bentry index [] (fun item_out =>
      merge_openai_response_content_part item_out (bget "content_index" event)
        (bget "part" event) None None None None) items)
  else if eqs event_type "response.output_text.delta" || eqs event_type "response.output_text.done" then
    mkOpenAiResponses o (bentry index [] (text_event event_type "output_text" "text" "text" event) items)
  else if eqs event_type "response.refusal.delta" || eqs event_type "response.refusal.done" then
    mkOpenAiResponses o (bentry index [] (text_event event_type "refusal" "refusal" "refusal" event) items)
  else if eqs event_type "response.reasoning_text.delta" || eqs event_type "response.reasoning_text.done" then
    mkOpenAiResponses o (bentry index [] (text_event event_type "reasoning_text" "text" "text" event) items)
  else if eqs event_type "response.function_call_arguments.delta"
       || eqs event_type "response.function_call_arguments.done" then
    mkOpenAiResponses o (bentry index [] (arguments_event event_type event) items)
  else mkOpenAiResponses (outcome_event o event_type event) items.

Definition apply (st : OpenAiResponsesStreamState) (item : json) : OpenAiResponsesStreamState :=
  match as_object item with
  | None => st
  | Some event =>
      let event_type := default "" (bget "type" event ≫= as_str) in
      let st :=
        match bget "response" event with
        | Some response =>
            mkOpenAiResponses (merge_value_object (out st) (pick_value response responses_keys))
              (output_items st)
        | None => st
        end in
      apply_event st event_type event
  end.

Definition output_is_empty (o : jmap) : bool :=
  match bget "output" o ≫= as_array with
  | None => true
  | Some a => match a with [] => true | _ => false end
  end.

Definition finish (st : OpenAiResponsesStreamState) : json :=
  let o :=
    match output_items st with
    | [] => out st
    | items =>
        if output_is_empty (out st)
        then bins "output" (Array (map Object (bvalues items))) (out st)
        else out st
    end in
  pick_value (Object o) responses_keys.

(** The last arms of the batch's [match]. *)
Definition aggregate_outcome (out : jmap) (event_type : bytes) (event : jmap) : jmap :=
  if eqs event_type "response.completed" then
    if negb (bhas "status" out) then bins "status" (Str "completed") out else out
  else if eqs event_type "response.failed" then
    match bget "error" event with Some error => bins "error" error out | None => out end
  else out.

(** The loop body of [aggregate_openai_responses_stream] over the locals
    [(out, output_items)]: the merge of [response], then the [match]. *)
Definition aggregate_event (out : jmap) (output_items : list (Z * jmap)) (event_type : bytes)
    (event : jmap) : jmap * list (Z * jmap) :=
  let index := match bget "output_index" event ≫= as_i64 with
               | Some i => i
               | None => zlen output_items
               end in
  let item_out := match bget index output_items with Some m => m | None => [] end in
  let store item_out := (out, bins index item_out output_items) in
  let content_part := merge_openai_response_content_part item_out (bget "content_index" event) in
  let part kind := Some (Object (bins "type" (Str kind) [])) in
  let is_done := ends_with event_type ".done" in
  if eqs event_type "response.output_item.added" || eqs event_type "response.output_item.done" then
    store match bget "item" event ≫= as_object with
          | Some raw_item => bextend item_out raw_item
          | None => item_out
          end
  else if eqs event_type "response.content_part.added" || eqs event_type "response.content_part.done" then
    store (content_part (bget "part" event) None None None None)
  else if eqs event_type "response.output_text.delta" || eqs event_type "response.output_text.done" then
    let v := if is_done then bget "text" event else bget "delta" event in
    store (if is_done then content_part (part "output_text") None None (Some "text") v
           else content_part (part "output_text") (Some "text") v None None)
  else if eqs event_type "response.refusal.delta" || eqs event_type "response.refusal.done" then
    let v := if is_done then bget "refusal" event else bget "delta" event in
    store (if is_done then content_part (part "refusal") None None (Some "refusal") v
           else content_part (part "refusal") (Some "refusal") v None None)
  else if eqs event_type "response.reasoning_text.delta" || eqs event_type "response.reasoning_text.done" then
    let v := if is_done then bget "text" event else bget "delta" event in
    store (if is_done then content_part (part "reasoning_text") None None (Some "text") v
           else content_part (part "reasoning_text") (Some "text") v None None)
  else if eqs event_type "response.function_call_arguments.delta"
       || eqs event_type "response.function_call_arguments.done" then
    let v := if is_done then bget "arguments" event else bget "delta" event in
    store (if is_done then set_string_field item_out "arguments" v
           else append_string_field item_out "arguments" v)
  else (aggregate_outcome out event_type event, output_items).

Definition aggregate_item (acc : jmap * list (Z * jmap)) (item : json) : jmap * list (Z * jmap) :=
  let '(out, output_items) := acc in
  match as_object item with
  | None => (out, output_items)
  | Some event =>
      let event_type := match bget "type" event ≫= as_str with Some t => t | None => "" end in
      let out := match bget "response" event with
                 | Some response => merge_value_object out (pick_value response responses_keys)
                 | None => out
                 end in
      aggregate_event out output_items event_type event
  end.

(** After the loop. *)
Definition aggregate_close (out : jmap) (output_items : list (Z * jmap)) : json :=
  let out :=
    if output_is_empty out && match output_items with [] => false | _ => true end
    then bins "output" (Array (map Object (bvalues output_items))) out
    else out in
  pick_value (Object out) responses_keys.

Definition aggregate_openai_responses_stream (v : json) : json :=
  match as_array v with
  | None => pick_value v responses_keys
  | Some items =>
      let '(out, output_items) := fold_left aggregate_item items ([], []) in
      aggregate_close out output_items
  end.

Definition openai_responses_view (kind : bytes) (parsed : json) : json :=
  if eqs kind "request" then pick_value parsed ["model"; "input"]
  else if is_array parsed then aggregate_openai_responses_stream parsed
  else pick_value parsed responses_keys.

(** ** Agreement of the two *)

Lemma apply_event_aggregate st event_type event :
  (out (apply_event st event_type event), output_items (apply_event st event_type event))
    = aggregate_event (out st) (output_items st) event_type event.
Proof.
  unfold apply_event, aggregate_event, output_index, text_event, arguments_event, bentry, from_option, id.
  change aggregate_outcome with outcome_event. destruct st as [o items]. cbn [out output_items].
  repeat case_match; done.
Qed.

Lemma responses_apply_aggregate_item st item :
  (out (apply st item), output_items (apply st item)) = aggregate_item (out st, output_items st) item.
Proof.
  unfold apply, aggregate_item. destruct (as_object item) as [event|]; [|done].
  rewrite apply_event_aggregate. by destruct (bget "response" event).
Qed.

(** Folding the events in one by one is aggregating the list of them. *)
Lemma openai_responses_stream_is_batch items :
  finish (fold_left apply items openai_responses_default)
    = aggregate_openai_responses_stream (Array items).
Proof.
  unfold aggregate_openai_responses_stream. cbn [as_array].
  change ([], []) with (out openai_responses_default, output_items openai_responses_default).
  rewrite <-(fold_left_proj (fun st => (out st, output_items st)) apply _ responses_apply_aggregate_item).
  unfold finish, aggregate_close. destruct (fold_left apply items _) as [o its]. cbn [out output_items].
  by destruct its, (output_is_empty o).
Qed.

(** ** The view is well-formed *)

Definition wf_state (st : OpenAiResponsesStreamState) : Prop :=
  wf_map (out st) /\ wf_table (output_items st).

Lemma responses_wf_default : wf_state openai_responses_default.
Proof. split; eauto with wf. Qed.

Lemma wf_apply_event st t event : wf_state st -> wf_map event -> wf_state (apply_event st t event).
Proof.
  intros [Ho Hi] He. unfold apply_event, text_event, arguments_event, outcome_event. cbv zeta.
  repeat (case_match; [first [
    split; cbn [out output_items]; [done|apply wf_table_bentry; [eauto with wf| |done]; intros; wf_cases; fail]
  | split; wf_cases; fail]|]).
  split; wf_cases.
Qed.

Lemma responses_wf_apply st item : wf_state st -> wf_value item -> wf_state (apply st item).
Proof.
  intros Hs Hi. unfold apply. destruct (as_object item) as [event|] eqn:E; [|done]. wf_read.
  apply wf_apply_event; [|done]. destruct Hs. split; wf_cases.
Qed.

Lemma responses_wf_finish st : wf_state st -> wf_value (finish st).
Proof. intros [Ho Hc]. unfold finish. wf_cases. Qed.

Lemma responses_wf_aggregate parsed : wf_value parsed -> wf_value (aggregate_openai_responses_stream parsed).
Proof.
  intros Hp. destruct parsed as [| | | |items|]; try exact (wf_pick_value _ _ Hp).
  rewrite <-openai_responses_stream_is_batch. apply responses_wf_finish. inversion_clear Hp.
  by apply (fold_left_inv wf_state wf_value); [apply responses_wf_apply|apply responses_wf_default|].
Qed.

Lemma responses_wf_view kind parsed : wf_value parsed -> wf_value (openai_responses_view kind parsed).
Proof.
  intros Hp. unfold openai_responses_view. repeat case_match; eauto using responses_wf_aggregate with wf.
Qed.
End OpenAiResponses.
