(* ===== verification/Anthropic.v ===== *)
(** Anthropic messages ([anthropic.messages]): [anthropic_messages_view], the
    incremental [AnthropicMessagesStreamState] and the batch
    [aggregate_anthropic_messages_stream] of [main.rs]. *)

From S2P Require Import Prelude RustStr BTree Json Merge.
Local Open Scope bytes_scope.

Section Anthropic.
Context `{SJ : SerdeJson}.
Abbreviation json := (value number).
Abbreviation jmap := (list (bytes * value number)).

Definition anthropic_keys : list bytes :=
  ["type"; "role"; "model"; "content"; "stop_reason"; "usage"; "error"].

Record AnthropicMessagesStreamState := mkAnthropic {
  out : jmap;
  content_blocks : list (Z * jmap);
}.

Definition anthropic_default : AnthropicMessagesStreamState := mkAnthropic [] [].

Definition apply (st : AnthropicMessagesStreamState) (item : json) : AnthropicMessagesStreamState :=
  match as_object item with
  | None => st
  | Some event =>
      let event_type := default "" (bget "type" event ≫= as_str) in
      let index := default (zlen (content_blocks st)) (bget "index" event ≫= as_i64) in
      if eqs event_type "message_start" then
        match bget "message" event with
        | Some message =>
            mkAnthropic
              (merge_value_object (out st)
                 (pick_value message ["type"; "role"; "model"; "stop_reason"; "usage"]))
              (seed_anthropic_content_blocks (content_blocks st) (value_get "content" message))
        | None => st
        end
      else if eqs event_type "content_block_start" then
        match bget "content_block" event ≫= as_object with
        | Some block => mkAnthropic (out st) (bins index block (content_blocks st))
        | None => st
        end
      else if eqs event_type "content_block_delta" then
        match bget "delta" event ≫= as_object with
        | None => st
        | Some delta =>
            let block := default [] (bget index (content_blocks st)) in
            let content_blocks := bdel index (content_blocks st) in
            let block := merge_anthropic_content_delta block delta in
            mkAnthropic (out st) (bins index block content_blocks)
        end
      else if eqs event_type "message_delta" then
        let o :=
          match bget "delta" event with
          | Some delta => merge_value_object (out st) (pick_value delta ["stop_reason"])
          | None => out st
          end in
        mkAnthropic (merge_nested_object o "usage" (bget "usage" event)) (content_blocks st)
      else if eqs event_type "error" then
        mkAnthropic (bins "error" (default item (bget "error" event)) (out st)) (content_blocks st)
      else st
  end.

Definition finish (st : AnthropicMessagesStreamState) : json :=
  let o :=
    match content_blocks st with
    | [] => out st
    | blocks => bins "content" (Array (map Object (bvalues blocks))) (out st)
    end in
  pick_value (Object o) anthropic_keys.

(** The loop body of [aggregate_anthropic_messages_stream]. *)
Definition aggregate_item (acc : jmap * list (Z * jmap)) (item : json) : jmap * list (Z * jmap) :=
  let '(out, content_blocks) := acc in
  match as_object item with
  | None => (out, content_blocks)
  | Some event =>
      let event_type := match bget "type" event ≫= as_str with Some t => t | None => "" end in
      let index := match bget "index" event ≫= as_i64 with
                   | Some i => i
                   | None => zlen content_blocks
                   end in
      if eqs event_type "message_start" then
        match bget "message" event with
        | Some message =>
            let out := merge_value_object out
              (pick_value message ["type"; "role"; "model"; "stop_reason"; "usage"]) in
            (out, seed_anthropic_content_blocks content_blocks (value_get "content" message))
        | None => (out, content_blocks)
        end
      else if eqs event_type "content_block_start" then
        match bget "content_block" event ≫= as_object with
        | Some block => (out, bins index block content_blocks)
        | None => (out, content_blocks)
        end
      else if eqs event_type "content_block_delta" then
        match bget "delta" event ≫= as_object with
        | None => (out, content_blocks)
        | Some delta =>
            let block := match bget index content_blocks with Some b => b | None => [] end in
            let content_blocks := bdel index content_blocks in
            let block := merge_anthropic_content_delta block delta in
            (out, bins index block content_blocks)
        end
      else if eqs event_type "message_delta" then
        let out := match bget "delta" event with
                   | Some delta => merge_value_object out (pick_value delta ["stop_reason"])
                   | None => out
                   end in
        (merge_nested_object out "usage" (bget "usage" event), content_blocks)
      else if eqs event_type "error" then
        (bins "error" match bget "error" event with Some e => e | None => item end out, content_blocks)
      else (out, content_blocks)
  end.

Definition aggregate_anthropic_messages_stream (v : json) : json :=
  match as_array v with
  | None => pick_value v anthropic_keys
  | Some items =>
      let '(out, content_blocks) := fold_left aggregate_item items ([], []) in
      let out :=
        match content_blocks with
        | [] => out
        | _ => bins "content" (Array (map Object (bvalues content_blocks))) out
        end in
      pick_value (Object out) anthropic_keys
  end.

Definition anthropic_messages_view (kind : bytes) (parsed : json) : json :=
  if eqs kind "request" then pick_value parsed ["model"; "messages"; "system"]
  else if is_array parsed then aggregate_anthropic_messages_stream parsed
  else pick_value parsed anthropic_keys.

(** ** Agreement of the two *)

Lemma anthropic_apply_aggregate_item st item :
  (out (apply st item), content_blocks (apply st item)) = aggregate_item (out st, content_blocks st) item.
Proof.
  unfold apply, aggregate_item, from_option, id. destruct (as_object item) as [event|]; [|done].
  repeat case_match; done.
Qed.

(** Folding the events in one by one is aggregating the list of them. *)
Lemma anthropic_stream_is_batch items :
  finish (fold_left apply items anthropic_default)
    = aggregate_anthropic_messages_stream (Array items).
Proof.
  unfold aggregate_anthropic_messages_stream. cbn [as_array].
  change ([], []) with (out anthropic_default, content_blocks anthropic_default).
  rewrite <-(fold_left_proj (fun st => (out st, content_blocks st)) apply _ anthropic_apply_aggregate_item).
  unfold finish. by destruct (fold_left apply items _) as [o [|b bs]].
Qed.

(** ** The view is well-formed *)

Definition wf_state (st : AnthropicMessagesStreamState) : Prop :=
  wf_map (out st) /\ wf_table (content_blocks st).

Lemma anthropic_wf_default : wf_state anthropic_default.
Proof. split; eauto with wf. Qed.

Lemma wf_value_get k (v : json) : wf_value v -> wf_opt (value_get k v).
Proof. intros H. destruct v; try done. apply wf_opt_bget. by apply wf_object_iff. Qed.

Lemma anthropic_wf_apply st item : wf_state st -> wf_value item -> wf_state (apply st item).
Proof.
  intros [Ho Hb] Hi. unfold apply. destruct (as_object item) as [event|] eqn:E; [|done]. wf_read.
  cbv zeta. repeat match goal with |- wf_state (if ?b then _ else _) => destruct b end; [| | | | |done].
  - destruct (bget "message" event) as [m|] eqn:Em; [|done]. wf_read.
    split; cbn [out content_blocks]; [eauto with wf|]. apply wf_seed_blocks; [done|]. by apply wf_value_get.
  - destruct (bget "content_block" event ≫= as_object) eqn:Em; [|done]. wf_read.
    split; cbn [out content_blocks]; eauto with wf.
  - destruct (bget "delta" event ≫= as_object) eqn:Em; [|done]. wf_read.
    split; cbn [out content_blocks]; [done|]. apply wf_table_bins; eauto 8 with wf.
  - split; cbn [out content_blocks]; [|done]. apply wf_merge_nested_object; [wf_cases|].
    by apply wf_opt_bget.
  - split; cbn [out content_blocks]; [|done]. apply wf_map_bins; [|done].
    destruct (bget "error" event) eqn:Ee; wf_read; done.
Qed.

Lemma anthropic_wf_finish st : wf_state st -> wf_value (finish st).
Proof. intros [Ho Hc]. unfold finish. wf_cases. Qed.

Lemma anthropic_wf_aggregate parsed : wf_value parsed -> wf_value (aggregate_anthropic_messages_stream parsed).
Proof.
  intros Hp. destruct parsed as [| | | |items|]; try exact (wf_pick_value _ _ Hp).
  rewrite <-anthropic_stream_is_batch. apply anthropic_wf_finish. inversion_clear Hp.
  by apply (fold_left_inv wf_state wf_value); [apply anthropic_wf_apply|apply anthropic_wf_default|].
Qed.

Lemma anthropic_wf_view kind parsed : wf_value parsed -> wf_value (anthropic_messages_view kind parsed).
Proof.
  intros Hp. unfold anthropic_messages_view. repeat case_match; eauto using anthropic_wf_aggregate with wf.
Qed.
End Anthropic.
