(* ===== verification/Gemini.v ===== *)
(** Google Gemini ([google.gemini.generate_content]): the request and response
    views, the incremental [GeminiGenerateContentStreamState] and the batch
    [aggregate_gemini_generate_content_stream] of [main.rs]. *)

From S2P Require Import Prelude RustStr BTree Json Merge Paths.
Local Open Scope bytes_scope.

Section Gemini.
Context `{SJ : SerdeJson}.
Abbreviation json := (value number).
Abbreviation jmap := (list (bytes * value number)).

Definition gemini_keys : list bytes :=
  ["candidates"; "promptFeedback"; "usageMetadata"; "error"; "modelVersion"].
Definition gemini_copied : list bytes :=
  ["promptFeedback"; "usageMetadata"; "error"; "modelVersion"].

Record GeminiGenerateContentStreamState := mkGemini {
  out : jmap;
  candidates : list (Z * jmap);
}.

Definition gemini_default : GeminiGenerateContentStreamState := mkGemini [] [].

Definition apply_candidate (candidates : list (Z * jmap)) (iraw : Z * json) : list (Z * jmap) :=
  let '(i, raw_candidate) := iraw in
  match as_object raw_candidate with
  | None => candidates
  | Some candidate_obj =>
      let index := default i (bget "index" candidate_obj ≫= as_i64) in
      bentry index (bins "index" (json_int index) [])
        (fun candidate => merge_gemini_candidate candidate candidate_obj) candidates
  end.

Definition apply (st : GeminiGenerateContentStreamState) (item : json)
    : GeminiGenerateContentStreamState :=
  match as_object item with
  | None => st
  | Some chunk =>
      let o := fold_left (fun o key =>
        match bget key chunk with Some v => bins key v o | None => o end) gemini_copied (out st) in
      match bget "candidates" chunk ≫= as_array with
      | None => mkGemini o (candidates st)
      | Some raw_candidates =>
          mkGemini o (fold_left apply_candidate (enumerate raw_candidates) (candidates st))
      end
  end.

Definition finish (st : GeminiGenerateContentStreamState) : json :=
  let o :=
    match candidates st with
    | [] => out st
    | cs => bins "candidates" (Array (map Object (bvalues cs))) (out st)
    end in
  pick_value (Object o) gemini_keys.

(** The loop body of [aggregate_gemini_generate_content_stream]. *)
Definition aggregate_item (acc : jmap * list (Z * jmap)) (item : json) : jmap * list (Z * jmap) :=
  let '(out, candidates) := acc in
  match as_object item with
  | None => (out, candidates)
  | Some chunk =>
      let out := fold_left (fun out key =>
        match bget key chunk with Some v => bins key v out | None => out end)
        ["promptFeedback"; "usageMetadata"; "error"; "modelVersion"] out in
      match bget "candidates" chunk ≫= as_array with
      | None => (out, candidates)
      | Some raw_candidates =>
          (out, fold_left (fun candidates '(i, raw_candidate) =>
             match as_object raw_candidate with
             | None => candidates
             | Some candidate_obj =>
                 let index := match bget "index" candidate_obj ≫= as_i64 with
                              | Some index => index
                              | None => i
                              end in
                 let candidate := match bget index candidates with
                                  | Some c => c
                                  | None => bins "index" (json_int index) []
                                  end in
                 bins index (merge_gemini_candidate candidate candidate_obj) candidates
             end) (enumerate raw_candidates) candidates)
      end
  end.

Definition aggregate_gemini_generate_content_stream (v : json) : json :=
  match as_array v with
  | None => pick_value v gemini_keys
  | Some items =>
      let '(out, candidates) := fold_left aggregate_item items ([], []) in
      let out :=
        match candidates with
        | [] => out
        | _ => bins "candidates" (Array (map Object (bvalues candidates))) out
        end in
      pick_value (Object out) gemini_keys
  end.

(** The model segment of [/.../models/<model>:generateContent]. *)
Definition gemini_model_from_path (path : bytes) : option bytes :=
  let parts := split_on Byte.x2f (path_no_query path) in
  match position (fun part => eqs part "models") parts with
  | None => None
  | Some model_idx =>
      match parts !! (model_idx + 1) with
      | None => None
      | Some part =>
          match head (split_on Byte.x3a part) with
          | None => None
          | Some raw => match raw with [] => None | _ => Some raw end
          end
      end
  end.

Definition gemini_generate_content_request_view (parsed : json) (upstream_path : option bytes) : json :=
  match pick_value parsed ["model"; "contents"; "systemInstruction"] with
  | Object out =>
      let out :=
        if negb (bhas "model" out) then
          match upstream_path ≫= gemini_model_from_path with
          | Some model => bins "model" (Str model) out
          | None => out
          end
        else out in
      Object out
  | view => view
  end.

Definition gemini_generate_content_view (kind : bytes) (parsed : json) : json :=
  if eqs kind "request" then gemini_generate_content_request_view parsed None
  else if is_array parsed then aggregate_gemini_generate_content_stream parsed
  else pick_value parsed gemini_keys.

(** ** Agreement of the two *)

Lemma gemini_apply_aggregate_item st item :
  (out (apply st item), candidates (apply st item)) = aggregate_item (out st, candidates st) item.
Proof.
  unfold apply, aggregate_item. destruct (as_object item) as [chunk|]; [|done].
  destruct (bget "candidates" chunk ≫= as_array) as [raws|]; [|done]. cbn [out candidates].
  f_equal.
Qed.

(** Folding the events in one by one is aggregating the list of them. *)
Lemma gemini_stream_is_batch items :
  finish (fold_left apply items gemini_default)
    = aggregate_gemini_generate_content_stream (Array items).
Proof.
  unfold aggregate_gemini_generate_content_stream. cbn [as_array].
  change ([], []) with (out gemini_default, candidates gemini_default).
  rewrite <-(fold_left_proj (fun st => (out st, candidates st)) apply _ gemini_apply_aggregate_item).
  unfold finish. by destruct (fold_left apply items _) as [o [|b bs]].
Qed.

(** ** The view is well-formed *)

Definition wf_state (st : GeminiGenerateContentStreamState) : Prop :=
  wf_map (out st) /\ wf_table (candidates st).

Lemma gemini_wf_default : wf_state gemini_default.
Proof. split; eauto with wf. Qed.

Lemma gemini_wf_apply st item : wf_state st -> wf_value item -> wf_state (apply st item).
Proof.
  intros [Ho Hc] Hi. unfold apply. destruct (as_object item) as [chunk|] eqn:E; [|done]. wf_read.
  cbv zeta. set (o := fold_left _ gemini_copied (out st)).
  assert (wf_map o) by (subst o; cbn [gemini_copied fold_left]; wf_cases). clearbody o.
  destruct (bget "candidates" chunk ≫= as_array) as [raws|] eqn:Er; [|done]. wf_read.
  split; [done|]. apply (fold_left_inv wf_table (fun ix => wf_value ix.2)); [|done|eauto with wf].
  intros t [i raw] Ht Hr. unfold apply_candidate. destruct (as_object raw) eqn:Eo; [|done].
  cbn in Hr. wf_read. apply wf_table_bentry; eauto with wf.
Qed.

Lemma gemini_wf_finish st : wf_state st -> wf_value (finish st).
Proof. intros [Ho Hc]. unfold finish. wf_cases. Qed.

Lemma gemini_wf_request_view parsed upath :
  wf_value parsed -> wf_value (gemini_generate_content_request_view parsed upath).
Proof.
  intros Hp. unfold gemini_generate_content_request_view.
  pose proof (wf_pick_value parsed ["model"; "contents"; "systemInstruction"] Hp) as W.
  destruct (pick_value _ _); try done. apply wf_object_iff in W. wf_cases.
Qed.
#[local] Hint Resolve gemini_wf_request_view : wf.

Lemma gemini_wf_aggregate parsed : wf_value parsed -> wf_value (aggregate_gemini_generate_content_stream parsed).
Proof.
  intros Hp. destruct parsed as [| | | |items|]; try exact (wf_pick_value _ _ Hp).
  rewrite <-gemini_stream_is_batch. apply gemini_wf_finish. inversion_clear Hp.
  by apply (fold_left_inv wf_state wf_value); [apply gemini_wf_apply|apply gemini_wf_default|].
Qed.

Lemma gemini_wf_view kind parsed : wf_value parsed -> wf_value (gemini_generate_content_view kind parsed).
Proof.
  intros Hp. unfold gemini_generate_content_view. repeat case_match; eauto using gemini_wf_aggregate with wf.
Qed.
End Gemini.
