(* ===== verification/Dashscope.v ===== *)
(** Alibaba DashScope ([alibaba.dashscope.generation]):
    [dashscope_generation_view], the incremental
    [DashscopeGenerationStreamState] and the batch
    [aggregate_dashscope_generation_stream] of [main.rs]. *)

From S2P Require Import Prelude RustStr BTree Json Merge.
Local Open Scope bytes_scope.

Section Dashscope.
Context `{SJ : SerdeJson}.
Abbreviation json := (value number).
Abbreviation jmap := (list (bytes * value number)).

Definition dashscope_keys : list bytes := ["output"; "usage"; "request_id"; "code"; "message"].

(** [{"index": index, "message": {}}]. *)
Definition new_choice (index : Z) : jmap :=
  bins "message" (Object []) (bins "index" (json_int index) []).

Record DashscopeGenerationStreamState := mkDashscope {
  out : jmap;
  output : jmap;
  choices : list (Z * jmap);
}.

Definition dashscope_default : DashscopeGenerationStreamState := mkDashscope [] [] [].

Definition apply_choice (choices : list (Z * jmap)) (iraw : Z * json) : list (Z * jmap) :=
  let '(i, raw_choice) := iraw in
  match as_object raw_choice with
  | None => choices
  | Some choice_obj =>
      let index := default i (bget "index" choice_obj ≫= as_i64) in
      bentry index (new_choice index) (fun choice =>
        let message := object_or_empty (bget "message" choice) in
        let message :=
          match bget "message" choice_obj ≫= as_object with
          | Some raw_message => merge_dashscope_message message raw_message
          | None => message
          end in
        let message :=
          match bget "delta" choice_obj ≫= as_object with
          | Some raw_delta => merge_dashscope_message message raw_delta
          | None => message
          end in
        let choice := bins "message" (Object message) choice in
        for_members (fun choice k v =>
          if negb (eqs k "index") && negb (eqs k "message") && negb (eqs k "delta")
             && negb (is_null v)
          then bins k v choice else choice) choice_obj choice) choices
  end.

Definition apply (st : DashscopeGenerationStreamState) (item : json)
    : DashscopeGenerationStreamState :=
  match as_object item with
  | None => st
  | Some chunk =>
      let o := fold_left (fun o key =>
        match bget key chunk with Some v => bins key v o | None => o end)
        ["usage"; "request_id"; "code"; "message"] (out st) in
      match bget "output" chunk ≫= as_object with
      | None => mkDashscope o (output st) (choices st)
      | Some raw_output =>
          let op := for_members (fun op k v =>
            if negb (eqs k "choices") then bins k v op else op) raw_output (output st) in
          match bget "choices" raw_output ≫= as_array with
          | None => mkDashscope o op (choices st)
          | Some raw_choices =>
              mkDashscope o op (fold_left apply_choice (enumerate raw_choices) (choices st))
          end
      end
  end.

Definition finish (st : DashscopeGenerationStreamState) : json :=
  let op :=
    match choices st with
    | [] => output st
    | cs => bins "choices" (Array (map Object (bvalues cs))) (output st)
    end in
  let o := match op with [] => out st | _ => bins "output" (Object op) (out st) end in
  pick_value (Object o) dashscope_keys.

(** The loops of [aggregate_dashscope_generation_stream] over the locals
    [(out, output, choices)]. *)
Definition aggregate_choice (choices : list (Z * jmap)) (iraw : Z * json) : list (Z * jmap) :=
  let '(i, raw_choice) := iraw in
  match as_object raw_choice with
  | None => choices
  | Some choice_obj =>
      let index := match bget "index" choice_obj ≫= as_i64 with Some i => i | None => i end in
      let choice := match bget index choices with Some c => c | None => new_choice index end in
      let message := object_or_empty (bget "message" choice) in
      let message := match bget "message" choice_obj ≫= as_object with
                     | Some raw_message => merge_dashscope_message message raw_message
                     | None => message
                     end in
      let message := match bget "delta" choice_obj ≫= as_object with
                     | Some raw_delta => merge_dashscope_message message raw_delta
                     | None => message
                     end in
      let choice := bins "message" (Object message) choice in
      let choice := for_members (fun choice k v =>
        if negb (eqs k "index") && negb (eqs k "message") && negb (eqs k "delta") && negb (is_null v)
        then bins k v choice else choice) choice_obj choice in
      bins index choice choices
  end.

Definition aggregate_item (acc : jmap * jmap * list (Z * jmap)) (item : json)
    : jmap * jmap * list (Z * jmap) :=
  let '(out, output, choices) := acc in
  match as_object item with
  | None => (out, output, choices)
  | Some chunk =>
      let out := fold_left (fun out key =>
        match bget key chunk with Some v => bins key v out | None => out end)
        ["usage"; "request_id"; "code"; "message"] out in
      match bget "output" chunk ≫= as_object with
      | None => (out, output, choices)
      | Some raw_output =>
          let output := for_members (fun output k v =>
            if negb (eqs k "choices") then bins k v output else output) raw_output output in
          match bget "choices" raw_output ≫= as_array with
          | None => (out, output, choices)
          | Some raw_choices =>
              (out, output, fold_left aggregate_choice (enumerate raw_choices) choices)
          end
      end
  end.

Definition aggregate_dashscope_generation_stream (v : json) : json :=
  match as_array v with
  | None => pick_value v dashscope_keys
  | Some items =>
      let '(out, output, choices) := fold_left aggregate_item items ([], [], []) in
      let output :=
        match choices with
        | [] => output
        | _ => bins "choices" (Array (map Object (bvalues choices))) output
        end in
      let out := match output with [] => out | _ => bins "output" (Object output) out end in
      pick_value (Object out) dashscope_keys
  end.

Definition dashscope_generation_view (kind : bytes) (parsed : json) : json :=
  if eqs kind "request" then pick_value parsed ["model"; "input"; "system"; "messages"]
  else if is_array parsed then aggregate_dashscope_generation_stream parsed
  else pick_value parsed dashscope_keys.

(** ** Agreement of the two *)

Lemma dashscope_apply_aggregate_item st item :
  (out (apply st item), output (apply st item), choices (apply st item))
    = aggregate_item (out st, output st, choices st) item.
Proof.
  unfold apply, aggregate_item. destruct (as_object item) as [chunk|]; [|done].
  destruct (bget "output" chunk ≫= as_object) as [raw_output|]; [|done].
  destruct (bget "choices" raw_output ≫= as_array) as [raws|]; [|done].
  cbn [out output choices]. f_equal.
Qed.

(** Folding the events in one by one is aggregating the list of them. *)
Lemma dashscope_stream_is_batch items :
  finish (fold_left apply items dashscope_default)
    = aggregate_dashscope_generation_stream (Array items).
Proof.
  unfold aggregate_dashscope_generation_stream. cbn [as_array].
  change ([], [], [])
    with (out dashscope_default, output dashscope_default, choices dashscope_default).
  rewrite <-(fold_left_proj (fun st => (out st, output st, choices st)) apply _ dashscope_apply_aggregate_item).
  unfold finish. by destruct (fold_left apply items _) as [o op [|b bs]].
Qed.

(** ** The view is well-formed *)

Definition wf_state (st : DashscopeGenerationStreamState) : Prop :=
  wf_map (out st) /\ wf_map (output st) /\ wf_table (choices st).

Lemma dashscope_wf_default : wf_state dashscope_default.
Proof. split; [|split]; eauto with wf. Qed.

Lemma dashscope_wf_apply_choice t ix : wf_table t -> wf_value ix.2 -> wf_table (apply_choice t ix).
Proof.
  destruct ix as [i raw]. cbn [snd]. intros Ht Hr. unfold apply_choice.
  destruct (as_object raw) eqn:E; [|done]. wf_read.
  apply wf_table_bentry; [unfold new_choice; eauto with wf| |done].
  intros m Hm. cbv zeta. apply wf_for_members; [intros; wf_cases|done|]. wf_cases.
Qed.

Lemma dashscope_wf_apply st item : wf_state st -> wf_value item -> wf_state (apply st item).
Proof.
  intros (Ho & Hp & Hc) Hi. unfold apply. destruct (as_object item) as [chunk|] eqn:E; [|done]. wf_read.
  cbv zeta. set (o := fold_left _ _ (out st)).
  assert (wf_map o) by (subst o; cbn [fold_left]; wf_cases). clearbody o.
  destruct (bget "output" chunk ≫= as_object) as [raw|] eqn:Er; [|done]. wf_read.
  set (op := for_members _ raw (output st)).
  assert (wf_map op) by (apply wf_for_members; [intros; wf_cases|done..]). clearbody op.
  destruct (bget "choices" raw ≫= as_array) as [raws|] eqn:Ec; [|done]. wf_read.
  split; [done|split; [done|]].
  apply (fold_left_inv wf_table (fun ix => wf_value ix.2)); [apply dashscope_wf_apply_choice|done|eauto with wf].
Qed.

Lemma dashscope_wf_finish st : wf_state st -> wf_value (finish st).
Proof.
  intros (Ho & Hp & Hc). unfold finish. cbv zeta.
  set (op := match choices st with [] => _ | _ => _ end).
  assert (wf_map op) by (subst op; wf_cases). clearbody op. wf_cases.
Qed.

Lemma dashscope_wf_aggregate parsed : wf_value parsed -> wf_value (aggregate_dashscope_generation_stream parsed).
Proof.
  intros Hp. destruct parsed as [| | | |items|]; try exact (wf_pick_value _ _ Hp).
  rewrite <-dashscope_stream_is_batch. apply dashscope_wf_finish. inversion_clear Hp.
  by apply (fold_left_inv wf_state wf_value); [apply dashscope_wf_apply|apply dashscope_wf_default|].
Qed.

Lemma dashscope_wf_view kind parsed : wf_value parsed -> wf_value (dashscope_generation_view kind parsed).
Proof.
  intros Hp. unfold dashscope_generation_view. repeat case_match; eauto using dashscope_wf_aggregate with wf.
Qed.
End Dashscope.
