(* ===== verification/Bedrock.v ===== *)
(** AWS Bedrock Converse ([aws.bedrock.converse]): the request and response
    views, the incremental [BedrockConverseStreamState] and the batch
    [aggregate_bedrock_converse_stream] of [main.rs]. *)

From S2P Require Import Prelude RustStr BTree Json Merge Paths.
Local Open Scope bytes_scope.

Section Bedrock.
Context `{SJ : SerdeJson}.
Abbreviation json := (value number).
Abbreviation jmap := (list (bytes * value number)).

Definition bedrock_keys : list bytes := ["output"; "stopReason"; "usage"; "error"].

Record BedrockConverseStreamState := mkBedrock {
  out : jmap;
  message : jmap;
  content_blocks : list (Z * jmap);
}.

Definition bedrock_default : BedrockConverseStreamState := mkBedrock [] [] [].

(** The six consecutive [if let] of [apply], each on the fields it changes. *)
Definition apply_message_start (event : jmap) (m : jmap) : jmap :=
  match bget "messageStart" event ≫= as_object with
  | Some message_start =>
      match bget "role" message_start with
      | Some role => bins "role" role m
      | None => m
      end
  | None => m
  end.

Definition apply_block_start (event : jmap) (blocks : list (Z * jmap)) : list (Z * jmap) :=
  match bget "contentBlockStart" event ≫= as_object with
  | Some block_start =>
      let index := default (zlen blocks) (bget "contentBlockIndex" block_start ≫= as_i64) in
      bentry index [] (fun block =>
        match bget "start" block_start ≫= as_object with
        | Some start => bextend block start
        | None => block
        end) blocks
  | None => blocks
  end.

Definition apply_block_delta (event : jmap) (blocks : list (Z * jmap)) : list (Z * jmap) :=
  match bget "contentBlockDelta" event ≫= as_object with
  | Some block_delta =>
      let index := default (zlen blocks) (bget "contentBlockIndex" block_delta ≫= as_i64) in
      bentry index [] (fun block =>
        match bget "delta" block_delta ≫= as_object with
        | Some delta => merge_bedrock_content_delta block delta
        | None => block
        end) blocks
  | None => blocks
  end.

Definition apply_out (event : jmap) (item : json) (o : jmap) : jmap :=
  let o :=
    match bget "messageStop" event ≫= as_object with
    | Some message_stop =>
        match bget "stopReason" message_stop with
        | Some stop_reason => bins "stopReason" stop_reason o
        | None => o
        end
    | None => o
    end in
  let o :=
    match bget "metadata" event ≫= as_object with
    | Some metadata =>
        match bget "usage" metadata with
        | Some usage => bins "usage" usage o
        | None => o
        end
    | None => o
    end in
  let o :=
    if bhas "output" event then merge_value_object o (pick_value item bedrock_keys) else o in
  match bget "error" event with
  | Some error => bins "error" error o
  | None => o
  end.

Definition apply (st : BedrockConverseStreamState) (item : json) : BedrockConverseStreamState :=
  match as_object item with
  | None => st
  | Some event =>
      mkBedrock (apply_out event item (out st))
        (apply_message_start event (message st))
        (apply_block_delta event (apply_block_start event (content_blocks st)))
  end.

Definition finish (st : BedrockConverseStreamState) : json :=
  let m :=
    match content_blocks st with
    | [] => message st
    | blocks => bins "content" (Array (map Object (bvalues blocks))) (message st)
    end in
  let o :=
    if match m with [] => false | _ => true end && negb (bhas "output" (out st)) then
      bins "output" (json_object [("message", Object m)]) (out st)
    else out st in
  pick_value (Object o) bedrock_keys.

(** The loop body of [aggregate_bedrock_converse_stream] over the locals
    [(out, message, content_blocks)]. *)
Definition aggregate_item (acc : jmap * jmap * list (Z * jmap)) (item : json)
    : jmap * jmap * list (Z * jmap) :=
  let '(out, message, content_blocks) := acc in
  match as_object item with
  | None => (out, message, content_blocks)
  | Some event =>
      let message :=
        match bget "messageStart" event ≫= as_object with
        | Some message_start =>
            match bget "role" message_start with
            | Some role => bins "role" role message
            | None => message
            end
        | None => message
        end in
      let content_blocks :=
        match bget "contentBlockStart" event ≫= as_object with
        | Some block_start =>
            let index := match bget "contentBlockIndex" block_start ≫= as_i64 with
                         | Some i => i
                         | None => zlen content_blocks
                         end in
            let block := match bget index content_blocks with Some b => b | None => [] end in
            let block := match bget "start" block_start ≫= as_object with
                         | Some start => bextend block start
                         | None => block
                         end in
            bins index block content_blocks
        | None => content_blocks
        end in
      let content_blocks :=
        match bget "contentBlockDelta" event ≫= as_object with
        | Some block_delta =>
            let index := match bget "contentBlockIndex" block_delta ≫= as_i64 with
                         | Some i => i
                         | None => zlen content_blocks
                         end in
            let block := match bget index content_blocks with Some b => b | None => [] end in
            let block := match bget "delta" block_delta ≫= as_object with
                         | Some delta => merge_bedrock_content_delta block delta
                         | None => block
                         end in
            bins index block content_blocks
        | None => content_blocks
        end in
      let out :=
        match bget "messageStop" event ≫= as_object with
        | Some message_stop =>
            match bget "stopReason" message_stop with
            | Some stop_reason => bins "stopReason" stop_reason out
            | None => out
            end
        | None => out
        end in
      let out :=
        match bget "metadata" event ≫= as_object with
        | Some metadata =>
            match bget "usage" metadata with
            | Some usage => bins "usage" usage out
            | None => out
            end
        | None => out
        end in
      let out :=
        match bget "output" event with
        | Some _ => merge_value_object out (pick_value item bedrock_keys)
        | None => out
        end in
      let out := match bget "error" event with Some error => bins "error" error out | None => out end in
      (out, message, content_blocks)
  end.

Definition aggregate_bedrock_converse_stream (v : json) : json :=
  match as_array v with
  | None => pick_value v bedrock_keys
  | Some items =>
      let '(out, message, content_blocks) := fold_left aggregate_item items ([], [], []) in
      let message :=
        match content_blocks with
        | [] => message
        | _ => bins "content" (Array (map Object (bvalues content_blocks))) message
        end in
      let out :=
        if match message with [] => false | _ => true end && negb (bhas "output" out) then
          bins "output" (json_object [("message", Object message)]) out
        else out in
      pick_value (Object out) bedrock_keys
  end.

(** The model of [/model/<id>/converse] and [/model/<id>/converse-stream]. *)
Definition bedrock_model_id_from_path (path : bytes) : option bytes :=
  let parts := split_on Byte.x2f (path_no_query path) in
  match position (fun part => eqs part "model") parts with
  | None => None
  | Some model_idx =>
      if (length parts <=? model_idx + 2)%nat then None
      else
        let operation := to_ascii_lowercase (default [] (parts !! (model_idx + 2))) in
        if negb (eqs operation "converse") && negb (eqs operation "converse-stream") then None
        else
          match default [] (parts !! (model_idx + 1)) with
          | [] => None
          | model_id => Some model_id
          end
  end.

Definition bedrock_converse_request_view (parsed : json) (upstream_path : option bytes) : json :=
  match pick_value parsed ["modelId"; "messages"; "system"] with
  | Object out =>
      let out :=
        if negb (bhas "modelId" out) then
          match upstream_path ≫= bedrock_model_id_from_path with
          | Some model_id => bins "modelId" (Str model_id) out
          | None => out
          end
        else out in
      Object out
  | view => view
  end.

Definition bedrock_converse_view (kind : bytes) (parsed : json) : json :=
  if eqs kind "request" then bedrock_converse_request_view parsed None
  else if is_array parsed then aggregate_bedrock_converse_stream parsed
  else pick_value parsed bedrock_keys.

(** ** Agreement of the two *)

Lemma bedrock_apply_aggregate_item st item :
  (out (apply st item), message (apply st item), content_blocks (apply st item))
    = aggregate_item (out st, message st, content_blocks st) item.
Proof.
  unfold apply, aggregate_item. destruct (as_object item) as [event|]; [|done].
  cbn [out message content_blocks]. f_equal. f_equal.
  unfold apply_out, bhas. by destruct (bget "output" event).
Qed.

(** Folding the events in one by one is aggregating the list of them. *)
Lemma bedrock_stream_is_batch items :
  finish (fold_left apply items bedrock_default)
    = aggregate_bedrock_converse_stream (Array items).
Proof.
  unfold aggregate_bedrock_converse_stream. cbn [as_array].
  change ([], [], [])
    with (out bedrock_default, message bedrock_default, content_blocks bedrock_default).
  rewrite <-(fold_left_proj (fun st => (out st, message st, content_blocks st)) apply _ bedrock_apply_aggregate_item).
  unfold finish. by destruct (fold_left apply items _) as [o m [|b bs]].
Qed.

(** ** The view is well-formed *)

Definition wf_state (st : BedrockConverseStreamState) : Prop :=
  wf_map (out st) /\ wf_map (message st) /\ wf_table (content_blocks st).

Lemma bedrock_wf_default : wf_state bedrock_default.
Proof. split; [|split]; eauto with wf. Qed.

Lemma bedrock_wf_apply st item : wf_state st -> wf_value item -> wf_state (apply st item).
Proof.
  intros (Ho & Hm & Hb) Hi. unfold apply. destruct (as_object item) as [event|] eqn:E; [|done]. wf_read.
  split; [|split]; cbn [out message content_blocks].
  - unfold apply_out. cbv zeta. wf_cases.
  - unfold apply_message_start. wf_cases.
  - assert (wf_table (apply_block_start event (content_blocks st))).
    { unfold apply_block_start. destruct (bget "contentBlockStart" event ≫= as_object) eqn:E1; [|done].
      wf_read. apply wf_table_bentry; [eauto with wf|intros; wf_cases|done]. }
    unfold apply_block_delta. destruct (bget "contentBlockDelta" event ≫= as_object) eqn:E1; [|done].
    wf_read. apply wf_table_bentry; [eauto with wf|intros; wf_cases|done].
Qed.

Lemma bedrock_wf_finish st : wf_state st -> wf_value (finish st).
Proof.
  intros (Ho & Hp & Hc). unfold finish. cbv zeta.
  set (m := match content_blocks st with [] => _ | _ => _ end).
  assert (wf_map m) by (subst m; wf_cases). clearbody m.
  apply wf_pick_value, wf_obj. repeat case_match; eauto 10 with wf.
  all: apply wf_map_bins; [|done]; apply wf_json_object; repeat constructor; by apply wf_obj.
Qed.

Lemma bedrock_wf_request_view parsed upath :
  wf_value parsed -> wf_value (bedrock_converse_request_view parsed upath).
Proof.
  intros Hp. unfold bedrock_converse_request_view.
  pose proof (wf_pick_value parsed ["modelId"; "messages"; "system"] Hp) as W.
  destruct (pick_value _ _); try done. apply wf_object_iff in W. wf_cases.
Qed.
#[local] Hint Resolve bedrock_wf_request_view : wf.

Lemma bedrock_wf_aggregate parsed : wf_value parsed -> wf_value (aggregate_bedrock_converse_stream parsed).
Proof.
  intros Hp. destruct parsed as [| | | |items|]; try exact (wf_pick_value _ _ Hp).
  rewrite <-bedrock_stream_is_batch. apply bedrock_wf_finish. inversion_clear Hp.
  by apply (fold_left_inv wf_state wf_value); [apply bedrock_wf_apply|apply bedrock_wf_default|].
Qed.

Lemma bedrock_wf_view kind parsed : wf_value parsed -> wf_value (bedrock_converse_view kind parsed).
Proof.
  intros Hp. unfold bedrock_converse_view. repeat case_match; eauto using bedrock_wf_aggregate with wf.
Qed.
End Bedrock.
