(* ===== verification/Cohere.v ===== *)
(** Cohere chat ([cohere.chat]): [cohere_chat_view], the incremental
    [CohereChatStreamState] and the batch [aggregate_cohere_chat_stream] of
    [main.rs]. *)

From S2P Require Import Prelude RustStr BTree Json Merge.
Local Open Scope bytes_scope.

Section Cohere.
Context `{SJ : SerdeJson}.
Abbreviation json := (value number).
Abbreviation jmap := (list (bytes * value number)).

Definition cohere_keys : list bytes := ["message"; "text"; "finish_reason"; "usage"; "error"].

Record CohereChatStreamState := mkCohere {
  out : jmap;
  message : jmap;
  content_blocks : list (Z * jmap);
  text : bytes;
}.

Definition cohere_default : CohereChatStreamState := mkCohere [] [] [] [].

(** [event.get("type").or_else(..("event_type")).or_else(..("eventType"))
    .and_then(Value::as_str).unwrap_or("")]. *)
Definition event_type_of (event : jmap) : bytes :=
  let v := match bget "type" event with
           | Some v => Some v
           | None => match bget "event_type" event with
                     | Some v => Some v
                     | None => bget "eventType" event
                     end
           end in
  default "" (v ≫= as_str).

(** [if let Some(v) = source.get(key) { target.insert(key, v.clone()); }]. *)
Definition copy_member (key : bytes) (source target : jmap) : jmap :=
  match bget key source with
  | Some v => bins key v target
  | None => target
  end.

Definition apply_delta (st : CohereChatStreamState) (event_type : bytes) (delta : jmap)
    : CohereChatStreamState :=
  let '(m, blocks) :=
    match bget "message" delta with
    | Some raw_message => merge_cohere_message_delta (message st) (content_blocks st) raw_message
    | None => (message st, content_blocks st)
    end in
  if eqs event_type "message-end" then
    mkCohere (copy_member "usage" delta (copy_member "finish_reason" delta (out st)))
      (copy_member "finish_reason" delta m) blocks (text st)
  else mkCohere (out st) m blocks (text st).

Definition apply (st : CohereChatStreamState) (item : json) : CohereChatStreamState :=
  match as_object item with
  | None => st
  | Some event =>
      let event_type := event_type_of event in
      let st :=
        match bget "response" event with
        | Some response =>
            mkCohere (merge_value_object (out st) (pick_value response cohere_keys))
              (message st) (content_blocks st) (text st)
        | None => st
        end in
      let st :=
        match bget "delta" event ≫= as_object with
        | Some delta => apply_delta st event_type delta
        | None => st
        end in
      let t :=
        if eqs event_type "text-generation" then
          match bget "text" event ≫= as_str with
          | Some piece => text st ++ piece
          | None => text st
          end
        else text st in
      mkCohere (copy_member "error" event (copy_member "finish_reason" event (out st)))
        (copy_member "finish_reason" event (message st)) (content_blocks st) t
  end.

Definition finish (st : CohereChatStreamState) : json :=
  let '(o, m) :=
    match content_blocks st with
    | [] =>
        match text st with
        | [] => (out st, message st)
        | t =>
            (bins "text" (Str t) (out st),
             bins "content" (Array [json_object [("type", Str "text"); ("text", Str t)]]) (message st))
        end
    | blocks => (out st, bins "content" (Array (map Object (bvalues blocks))) (message st))
    end in
  let o :=
    if match m with [] => false | _ => true end && negb (bhas "message" o)
    then bins "message" (Object m) o else o in
  pick_value (Object o) cohere_keys.

(** The loop body of [aggregate_cohere_chat_stream] over the locals
    [(out, message, content_blocks, text)]. *)
Definition aggregate_item (acc : jmap * jmap * list (Z * jmap) * bytes) (item : json)
    : jmap * jmap * list (Z * jmap) * bytes :=
  let '(out, message, content_blocks, text) := acc in
  match as_object item with
  | None => (out, message, content_blocks, text)
  | Some event =>
      let event_type := event_type_of event in
      let out :=
        match bget "response" event with
        | Some response => merge_value_object out (pick_value response cohere_keys)
        | None => out
        end in
      let '(out, message, content_blocks) :=
        match bget "delta" event ≫= as_object with
        | None => (out, message, content_blocks)
        | Some delta =>
            let '(message, content_blocks) :=
              match bget "message" delta with
              | Some raw_message => merge_cohere_message_delta message content_blocks raw_message
              | None => (message, content_blocks)
              end in
            if eqs event_type "message-end" then
              let '(out, message) :=
                match bget "finish_reason" delta with
                | Some fr => (bins "finish_reason" fr out, bins "finish_reason" fr message)
                | None => (out, message)
                end in
              let out :=
                match bget "usage" delta with Some usage => bins "usage" usage out | None => out end in
              (out, message, content_blocks)
            else (out, message, content_blocks)
        end in
      let text :=
        if eqs event_type "text-generation" then
          match bget "text" event ≫= as_str with Some piece => text ++ piece | None => text end
        else text in
      let '(out, message) :=
        match bget "finish_reason" event with
        | Some fr => (bins "finish_reason" fr out, bins "finish_reason" fr message)
        | None => (out, message)
        end in
      let out := match bget "error" event with Some error => bins "error" error out | None => out end in
      (out, message, content_blocks, text)
  end.

Definition aggregate_cohere_chat_stream (v : json) : json :=
  match as_array v with
  | None => pick_value v cohere_keys
  | Some items =>
      let '(out, message, content_blocks, text) := fold_left aggregate_item items ([], [], [], []) in
      let '(out, message) :=
        match content_blocks with
        | _ :: _ => (out, bins "content" (Array (map Object (bvalues content_blocks))) message)
        | [] =>
            match text with
            | [] => (out, message)
            | _ =>
                (bins "text" (Str text) out,
                 bins "content" (Array [json_object [("type", Str "text"); ("text", Str text)]]) message)
            end
        end in
      let out :=
        if match message with [] => false | _ => true end && negb (bhas "message" out)
        then bins "message" (Object message) out else out in
      pick_value (Object out) cohere_keys
  end.

Definition cohere_chat_view (kind : bytes) (parsed : json) : json :=
  if eqs kind "request" then pick_value parsed ["model"; "messages"; "message"]
  else if is_array parsed then aggregate_cohere_chat_stream parsed
  else pick_value parsed cohere_keys.

(** ** Agreement of the two *)

Lemma apply_delta_parts st event_type (delta : jmap) :
  let '(out', message', blocks') :=
    let '(message, content_blocks) :=
      match bget "message" delta with
      | Some raw_message => merge_cohere_message_delta (message st) (content_blocks st) raw_message
      | None => (message st, content_blocks st)
      end in
    if eqs event_type "message-end" then
      let '(out, message) :=
        match bget "finish_reason" delta with
        | Some fr => (bins "finish_reason" fr (out st), bins "finish_reason" fr message)
        | None => (out st, message)
        end in
      let out :=
        match bget "usage" delta with Some usage => bins "usage" usage out | None => out end in
      (out, message, content_blocks)
    else (out st, message, content_blocks) in
  apply_delta st event_type delta = mkCohere out' message' blocks' (text st).
Proof.
  unfold apply_delta, copy_member.
  destruct (bget "finish_reason" delta), (bget "usage" delta), (eqs event_type "message-end");
    repeat case_match; simplify_eq; done.
Qed.


Lemma cohere_apply_aggregate_item st item :
  (out (apply st item), message (apply st item), content_blocks (apply st item), text (apply st item))
    = aggregate_item (out st, message st, content_blocks st, text st) item.
Proof.
  unfold apply, aggregate_item.
  destruct (as_object item) as [event|]; [|done].
  destruct st as [o m blocks t], (bget "response" event) as [response|];
    cbn [out message content_blocks text];
    (destruct (bget "delta" event ≫= as_object) as [delta|];
     [match goal with |- context [apply_delta ?s ?e ?d] => pose proof (apply_delta_parts s e d) as P end;
      cbn [out message content_blocks text] in P; unfold copy_member;
      case_match; case_match; rewrite P
     |unfold copy_member; idtac]);
    cbn [out message content_blocks text]; by destruct (bget "finish_reason" event).
Qed.

(** Folding the events in one by one is aggregating the list of them. *)
Lemma cohere_stream_is_batch items :
  finish (fold_left apply items cohere_default) = aggregate_cohere_chat_stream (Array items).
Proof.
  unfold aggregate_cohere_chat_stream. cbn [as_array].
  change ([], [], [], []) with (out cohere_default, message cohere_default,
    content_blocks cohere_default, text cohere_default).
  rewrite <-(fold_left_proj (fun st => (out st, message st, content_blocks st, text st)) apply _ cohere_apply_aggregate_item).
  unfold finish. by destruct (fold_left apply items _) as [o m [|b bs] [|t ts]].
Qed.

(** ** The view is well-formed *)

Definition wf_state (st : CohereChatStreamState) : Prop :=
  wf_map (out st) /\ wf_map (message st) /\ wf_table (content_blocks st).

Lemma cohere_wf_default : wf_state cohere_default.
Proof. split; [|split]; eauto with wf. Qed.

Lemma wf_copy_member k (source target : jmap) :
  wf_map source -> wf_map target -> wf_map (copy_member k source target).
Proof. intros. unfold copy_member. wf_cases. Qed.
#[local] Hint Resolve wf_copy_member : wf.

Lemma wf_apply_delta st t delta : wf_state st -> wf_map delta -> wf_state (apply_delta st t delta).
Proof.
  intros (Ho & Hm & Hb) Hd. unfold apply_delta.
  destruct (bget "message" delta) as [raw|] eqn:E.
  - wf_read. pose proof (wf_merge_cohere_message_delta (message st) (content_blocks st) raw) as W.
    destruct (merge_cohere_message_delta _ _ raw) as [m b]. destruct W as [Wm Wb]; [done..|].
    destruct (eqs t "message-end"); (split; [|split]; cbn [out message content_blocks]; eauto with wf).
  - destruct (eqs t "message-end"); (split; [|split]; cbn [out message content_blocks]; eauto with wf).
Qed.

Lemma cohere_wf_apply st item : wf_state st -> wf_value item -> wf_state (apply st item).
Proof.
  intros Hs Hi. unfold apply. destruct (as_object item) as [event|] eqn:E; [|done]. wf_read. cbv zeta.
  set (st1 := match bget "response" event with Some r => _ | None => st end).
  assert (H1 : wf_state st1).
  { subst st1. destruct (bget "response" event) eqn:Er; [|done]. wf_read.
    destruct Hs as (? & ? & ?). split; [|split]; cbn [out message content_blocks]; eauto with wf. }
  clearbody st1.
  set (st2 := match bget "delta" event ≫= as_object with Some d => _ | None => st1 end).
  assert (H2 : wf_state st2).
  { subst st2. destruct (bget "delta" event ≫= as_object) eqn:Er; [|done]. wf_read.
    by apply wf_apply_delta. }
  clearbody st2. destruct H2 as (? & ? & ?). split; [|split]; cbn [out message content_blocks]; eauto with wf.
Qed.

Lemma cohere_wf_finish st : wf_state st -> wf_value (finish st).
Proof.
  intros (Ho & Hp & Hc). unfold finish.
  assert (G : forall o m : jmap, wf_map o -> wf_map m -> wf_value (pick_value
    (Object (if match m with [] => false | _ => true end && negb (bhas "message" o)
             then bins "message" (Object m) o else o)) cohere_keys)) by (intros; wf_cases).
  destruct (content_blocks st) as [|b bs] eqn:Eb; [destruct (text st) as [|c t]|];
    apply G; eauto with wf.
  apply wf_map_bins; [|done]. repeat constructor; apply wf_json_object; repeat constructor.
Qed.

Lemma cohere_wf_aggregate parsed : wf_value parsed -> wf_value (aggregate_cohere_chat_stream parsed).
Proof.
  intros Hp. destruct parsed as [| | | |items|]; try exact (wf_pick_value _ _ Hp).
  rewrite <-cohere_stream_is_batch. apply cohere_wf_finish. inversion_clear Hp.
  by apply (fold_left_inv wf_state wf_value); [apply cohere_wf_apply|apply cohere_wf_default|].
Qed.

Lemma cohere_wf_view kind parsed : wf_value parsed -> wf_value (cohere_chat_view kind parsed).
Proof.
  intros Hp. unfold cohere_chat_view. repeat case_match; eauto using cohere_wf_aggregate with wf.
Qed.
End Cohere.
