(* ===== verification/Protocol.v ===== *)
(** Which protocol family an exchange belongs to, and which fields its claims
    must have: [detect_protocol_family], [normalize_protocol_family],
    [required_presence], [has_required_presence] and the field-policy registry
    of [main.rs], with the request head they read ([Upstream], [ReqHead]). *)

From S2P Require Import Prelude RustStr BTree Json Paths.
Local Open Scope bytes_scope.

(** * The request head *)

Record Upstream := mkUpstream {
  host : bytes;
  method : bytes;
  path : bytes;
  headers : list (bytes * bytes);
  headers_ordered : option (list (list bytes));
}.

Record ReqHead := mkReqHead {
  nonce : bytes;
  egress_port : Z;
  upstream : Upstream;
  token : option bytes;
  client_protocol_family : option bytes;
  downstream_protocol_family : option bytes;
  protocol_family : option bytes;
  tls_seed : option bytes;
  tls_spec : option bytes;
}.

(** [std::env::var(name).ok()]. *)
Class Env := env_var : bytes -> option bytes.

(** [Option::or] and [Option::or_else]. *)
Definition opt_or {A} (a b : option A) : option A :=
  match a with Some _ => a | None => b end.

(** * Field policy *)

Record FieldPolicyRegistry := mkRegistry {
  policy : bytes;
  default_version : bytes;
  protocol_versions : list (bytes * bytes);
}.

Definition SUPPORTED_PROTOCOLS : list bytes :=
  ["openai.chat_completions"; "openai.responses"; "anthropic.messages";
   "google.gemini.generate_content"; "alibaba.dashscope.generation";
   "aws.bedrock.converse"; "cohere.chat"].

(** [field-policy-registry.json], the value the source includes. *)
Definition field_policy_registry : FieldPolicyRegistry :=
  mkRegistry "core" "2026-07-29"
    (bextend [] [("openai.chat_completions", "2026-07-29");
                 ("openai.responses", "2026-07-29");
                 ("anthropic.messages", "2026-07-29");
                 ("google.gemini.generate_content", "2026-07-29");
                 ("alibaba.dashscope.generation", "2026-07-29");
                 ("aws.bedrock.converse", "2026-07-29");
                 ("cohere.chat", "2026-07-29")]).

(** [None] is the panic. *)
Definition field_policy_version (protocol : bytes) : option bytes :=
  bget protocol (protocol_versions field_policy_registry).

(** The assertions made when the registry is first read. *)
Definition registry_ok (r : FieldPolicyRegistry) : bool :=
  negb (eqs (policy r) "") &&
  forallb (fun protocol =>
    match bget protocol (protocol_versions r) with
    | Some v => negb (eqs v "")
    | None => false
    end) SUPPORTED_PROTOCOLS.

(** * Detection *)

Definition normalize_protocol_family (v : bytes) : option bytes :=
  let v := to_ascii_lowercase (trim v) in
  if eqs v "openai.chat_completions" then Some "openai.chat_completions"
  else if eqs v "openai.responses" then Some "openai.responses"
  else if eqs v "anthropic.messages" then Some "anthropic.messages"
  else if eqs v "google.gemini.generate_content" then Some "google.gemini.generate_content"
  else if eqs v "alibaba.dashscope.generation" then Some "alibaba.dashscope.generation"
  else if eqs v "aws.bedrock.converse" then Some "aws.bedrock.converse"
  else if eqs v "cohere.chat" then Some "cohere.chat"
  else None.

Section Detect.
Context `{SJ : SerdeJson}.

Definition detect_protocol_family (host path body : bytes) (enhanced configured : option bytes)
    : option bytes :=
  let h := to_ascii_lowercase host in
  let p := to_ascii_lowercase (path_no_query path) in
  if contains p "/chat/completions" then Some "openai.chat_completions"
  else if ends_with p "/responses" || contains p "/responses" then Some "openai.responses"
  else if ends_with p "/messages" || contains h "anthropic" then Some "anthropic.messages"
  else if contains p ":generatecontent" || contains p "generatecontent"
    then Some "google.gemini.generate_content"
  else if contains p "/services/aigc/text-generation/generation"
    then Some "alibaba.dashscope.generation"
  else if contains p "/converse" then Some "aws.bedrock.converse"
  else if ends_with p "/chat" || contains p "/v2/chat" || contains h "cohere"
    then Some "cohere.chat"
  else match enhanced ≫= normalize_protocol_family with
  | Some protocol => Some protocol
  | None =>
  match configured ≫= normalize_protocol_family with
  | Some protocol => Some protocol
  | None =>
      parsed ← from_slice body;
      let has k := match value_get k parsed with Some _ => true | None => false end in
      let has_array k := match value_get k parsed ≫= as_array with Some _ => true | None => false end in
      let has_str k := match value_get k parsed ≫= as_str with Some _ => true | None => false end in
      if has_array "messages" && has_str "model" && has "max_tokens" then Some "anthropic.messages"
      else if has_array "messages" && has_str "model" then Some "openai.chat_completions"
      else if has "input" && has_str "model" then Some "openai.responses"
      else if has "contents" then Some "google.gemini.generate_content"
      else None
  end
  end.

(** The hints of a request: [enhanced] and [configured] as
    [FieldResponseCollector::new] and [build_field_claims] compute them. *)
Definition detect_for_head `{Env} (head : ReqHead) (req_body : bytes) : option bytes :=
  let enhanced := opt_or (client_protocol_family head) (downstream_protocol_family head) in
  let configured := opt_or (protocol_family head) (env_var "FIELD_PROOF_PROTOCOL_FAMILY") in
  detect_protocol_family (host (upstream head)) (path (upstream head)) req_body enhanced configured.
End Detect.

(** * Required fields *)

Definition required_presence (protocol kind : bytes) : list (list bytes) :=
  let case p k := eqs protocol p && eqs kind k in
  if case "openai.chat_completions" "request" then [["model"]; ["messages"]]
  else if case "openai.chat_completions" "response" then [["choices"]]
  else if case "openai.responses" "request" then [["model"]; ["input"]]
  else if case "openai.responses" "response" then [["output"; "status"]]
  else if case "anthropic.messages" "request" then [["model"]; ["messages"]]
  else if case "anthropic.messages" "response" then [["content"]]
  else if case "google.gemini.generate_content" "request" then [["model"]; ["contents"]]
  else if case "google.gemini.generate_content" "response" then [["candidates"; "promptFeedback"]]
  else if case "alibaba.dashscope.generation" "request" then [["model"]; ["input"]]
  else if case "alibaba.dashscope.generation" "response" then [["output"]]
  else if case "aws.bedrock.converse" "request" then [["modelId"]; ["messages"]]
  else if case "aws.bedrock.converse" "response" then [["output"]]
  else if case "cohere.chat" "request" then [["model"]; ["messages"; "message"]]
  else if case "cohere.chat" "response" then [["message"; "text"]]
  else [].

Section Presence.
Context {N : Type}.

Definition is_error_response_view (protocol : bytes) (view : value N) : bool :=
  if eqs protocol "alibaba.dashscope.generation" then
    has_present_path view "code" && has_present_path view "message"
  else has_present_path view "error".

Definition has_required_presence (protocol kind : bytes) (view : value N) : bool :=
  if eqs kind "response" && is_error_response_view protocol view then true
  else
    forallb (fun alternatives => existsb (fun path => has_present_path view path) alternatives)
      (required_presence protocol kind).
End Presence.

(** * Theorems *)

Lemma registry_covers protocol :
  In protocol SUPPORTED_PROTOCOLS -> field_policy_version protocol = Some "2026-07-29".
Proof. cbn [SUPPORTED_PROTOCOLS In]. intros H. repeat (destruct H as [<-|H]; [reflexivity|]). done. Qed.

Lemma normalize_supported v protocol :
  normalize_protocol_family v = Some protocol -> In protocol SUPPORTED_PROTOCOLS.
Proof.
  unfold normalize_protocol_family. generalize (to_ascii_lowercase (trim v)). intros w.
  repeat (case_match; [intros [= <-]; cbn; tauto|]). done.
Qed.

Section DetectLemmas.
Context `{SJ : SerdeJson}.

Lemma detect_supported host path body enhanced configured protocol :
  detect_protocol_family host path body enhanced configured = Some protocol ->
  In protocol SUPPORTED_PROTOCOLS.
Proof.
  unfold detect_protocol_family.
  repeat (case_match; [intros [= <-]; cbn; tauto|]).
  case_match; [intros [= <-]; destruct enhanced; [by eapply normalize_supported|done]|].
  case_match; [intros [= <-]; destruct configured; [by eapply normalize_supported|done]|].
  destruct (from_slice body) as [parsed|]; cbn [mbind option_bind]; [|done]. cbv zeta.
  repeat match goal with
  | |- (if ?b then _ else _) = _ -> _ => destruct b; [intros [= <-]; cbn; tauto|]
  end. done.
Qed.

(** What the upstream host and path decide, no hint and no body overrides. *)
Lemma detect_path_first host path body body' enhanced configured protocol :
  from_slice body = None ->
  detect_protocol_family host path body None None = Some protocol ->
  detect_protocol_family host path body' enhanced configured = Some protocol.
Proof.
  unfold detect_protocol_family. intros ->.
  repeat (case_match; [done|]). done.
Qed.
End DetectLemmas.
