(* ===== verification/Sse.v ===== *)
(** Server-sent events: the batch reader [parse_sse_data] and the incremental
    [SseEventParser] of [main.rs], the tests that decide whether a body is an
    event stream, and the agreement of the two readers on every cutting of the
    body into chunks. *)

From S2P Require Import Prelude RustStr BTree Json Digest.
Local Open Scope bytes_scope.

Definition MAX_STREAM_SNIFF_BYTES : nat := 4 * 1024.

Definition looks_like_sse (body : bytes) : bool :=
  let prefix := from_utf8_lossy (take 512 body) in
  existsb (fun line => starts_with line "data:" || starts_with line "event:") (lines prefix).

(** [content_type.split(';').next()], trimmed, compared without case. *)
Definition media_type_is (name content_type : bytes) : bool :=
  match head (split_on Byte.x3b content_type) with
  | Some v => eq_ignore_ascii_case (trim v) name
  | None => false
  end.

Definition is_sse_content_type (content_type : bytes) : bool :=
  media_type_is "text/event-stream" content_type.

Definition is_aws_event_stream_content_type (content_type : bytes) : bool :=
  media_type_is "application/vnd.amazon.eventstream" content_type.

Definition body_prefix_indicates_sse (body : bytes) : bool :=
  let text := from_utf8_lossy (take MAX_STREAM_SNIFF_BYTES body) in
  let trimmed := trim_start_ws_bom text in
  starts_with trimmed "data:" || starts_with trimmed "event:" || starts_with trimmed ":".

Section Sse.
Context `{SJ : SerdeJson} `{SH : Sha256}.
Abbreviation json := (value number).

(** ** One event *)

(** The body of [flush_sse_data] and of [SseEventParser::flush] after
    [data_lines] is found to be non-empty. *)
Definition event_of_data (data : bytes) : list json :=
  if eqs (trim data) "" || eqs (trim data) "[DONE]" then []
  else
    match from_str data with
    | Some parsed => [parsed]
    | None =>
        [json_object [("raw_data_sha256", Str (sha256_hex data));
                      ("parse_error", Str "invalid_sse_json")]]
    end.

(** ** The batch reader *)

(** The state is [(data_lines, items)]. *)
Definition flush_sse_data (st : list bytes * list json) : list bytes * list json :=
  match st.1 with
  | [] => st
  | data_lines => ([], st.2 ++ event_of_data (join [Byte.x0a] data_lines))
  end.

Definition parse_sse_line (st : list bytes * list json) (line : bytes) : list bytes * list json :=
  match line with
  | [] => flush_sse_data st
  | _ =>
      match strip_prefix line "data:" with
      | Some rest => (st.1 ++ [trim_start rest], st.2)
      | None => st
      end
  end.

Definition parse_sse_data (body : bytes) : json :=
  let text := from_utf8_lossy body in
  let st := fold_left parse_sse_line (lines text) ([], []) in
  Array (flush_sse_data st).2.

(** ** The incremental reader

    [on_event] is called on the events in order: a step returns the list of
    them. *)
Record SseEventParser := mkSse {
  pending : bytes;
  data_lines : list bytes;
}.

Definition sse_default : SseEventParser := mkSse [] [].

Definition flush (p : SseEventParser) : SseEventParser * list json :=
  match data_lines p with
  | [] => (p, [])
  | dl => (mkSse (pending p) [], event_of_data (join [Byte.x0a] dl))
  end.

Definition process_line (p : SseEventParser) (line : bytes) : SseEventParser * list json :=
  match line with
  | [] => flush p
  | _ =>
      let text := from_utf8_lossy line in
      match strip_prefix text "data:" with
      | Some rest => (mkSse (pending p) (data_lines p ++ [trim_start rest]), [])
      | None => (p, [])
      end
  end.

(** [while let Some(pos) = pending.iter().position(b'\n')]; each turn removes
    at least one byte, so [length pending] turns are enough. *)
Fixpoint push_loop (fuel : nat) (p : SseEventParser) : SseEventParser * list json :=
  match fuel with
  | O => (p, [])
  | S fuel =>
      match find_byte (pending p) Byte.x0a with
      | None => (p, [])
      | Some pos =>
          let line := take pos (pending p) in
          let p := mkSse (drop (S pos) (pending p)) (data_lines p) in
          let '(p, events) := process_line p (strip_cr line) in
          let '(p, events') := push_loop fuel p in
          (p, events ++ events')
      end
  end.

Definition push (p : SseEventParser) (chunk : bytes) : SseEventParser * list json :=
  let p := mkSse (pending p ++ chunk) (data_lines p) in
  push_loop (length (pending p)) p.

Definition finish (p : SseEventParser) : SseEventParser * list json :=
  let '(p, events) :=
    match pending p with
    | [] => (p, [])
    | line => process_line (mkSse [] (data_lines p)) line
    end in
  let '(p, events') := flush p in
  (p, events ++ events').

(** The events of a body delivered in [chunks]. *)
Definition stream_events (chunks : list bytes) : list json :=
  let '(p, events) := run push sse_default chunks in
  let '(_, events') := finish p in
  events ++ events'.

(** ** The parser over lines

    The loop above runs [process_line] on the complete lines and keeps the
    rest of the text. *)

Definition line_step (acc : list bytes * list json) (line : bytes) : list bytes * list json :=
  let '(p, events) := process_line (mkSse [] acc.1) line in
  (data_lines p, acc.2 ++ events).

Lemma process_line_pending p line :
  process_line p line
    = let '(p', events) := process_line (mkSse [] (data_lines p)) line in
      (mkSse (pending p) (data_lines p'), events).
Proof.
  destruct p as [pe dl]. unfold process_line, flush. cbn [pending data_lines].
  repeat case_match; simplify_eq; done.
Qed.

Lemma find_byte_Some s c i :
  find_byte s c = Some i -> s = take i s ++ c :: drop (S i) s /\ ~ In c (take i s).
Proof.
  revert i. induction s as [|b s IH]; intros i; cbn; [done|].
  destruct (Byte.eqb b c) eqn:E.
  - intros [= <-]. apply Byte.byte_dec_bl in E as ->. cbn. split; [done|tauto].
  - destruct (find_byte s c) as [j|]; [|done]. intros [= <-].
    destruct (IH j eq_refl) as [Hs Hn]. cbn. split; [by f_equal|].
    intros [->|H]; [by rewrite byte_eqb_refl in E|done].
Qed.

Lemma find_byte_None s c : find_byte s c = None -> ~ In c s.
Proof.
  induction s as [|b s IH]; cbn; [tauto|]. destruct (Byte.eqb b c) eqn:E; [done|].
  destruct (find_byte s c); [done|]. intros _ [->|H]; [by rewrite byte_eqb_refl in E|by apply IH].
Qed.

(** What a line-oriented reader does with a text: the complete lines, then
    the unfinished one. *)
Definition complete_lines (s : bytes) : list bytes := map strip_cr (removelast (split_on Byte.x0a s)).
Definition last_line (s : bytes) : bytes := List.last (split_on Byte.x0a s) [].

Lemma complete_lines_cons a b :
  ~ In Byte.x0a a -> complete_lines (a ++ Byte.x0a :: b) = strip_cr a :: complete_lines b.
Proof.
  intros Ha. unfold complete_lines. by rewrite removelast_split_app, split_on_none.
Qed.

Lemma last_line_cons a b : last_line (a ++ Byte.x0a :: b) = last_line b.
Proof. apply last_split_app. Qed.

Lemma line_step_events acc lines :
  fold_left line_step lines acc
    = let '(dl, events) := fold_left line_step lines (acc.1, []) in (dl, acc.2 ++ events).
Proof.
  revert acc. induction lines as [|l lines IH]; intros [dl ev]; cbn [fold_left fst snd].
  - by rewrite app_nil_r.
  - replace (line_step (dl, ev) l)
      with ((line_step (dl, []) l).1, ev ++ (line_step (dl, []) l).2)
      by (unfold line_step; cbn [fst snd]; by destruct (process_line _ l)).
    destruct (line_step (dl, []) l) as [dl1 e1]. cbn [fst snd].
    rewrite (IH (dl1, ev ++ e1)), (IH (dl1, e1)). cbn [fst snd].
    destruct (fold_left line_step lines (dl1, [])) as [dl' e']. by rewrite app_assoc.
Qed.

Lemma push_loop_lines fuel p :
  length (pending p) <= fuel ->
  push_loop fuel p
    = let '(dl, events) := fold_left line_step (complete_lines (pending p)) (data_lines p, []) in
      (mkSse (last_line (pending p)) dl, events).
Proof.
  revert p. induction fuel as [|fuel IH]; intros [s dl] Hlen; cbn [pending data_lines] in *.
  - destruct s; [done|cbn in Hlen; lia].
  - cbn [push_loop pending]. destruct (find_byte s Byte.x0a) as [pos|] eqn:E.
    + apply find_byte_Some in E as [Es Hn]. cbn [pending data_lines].
      remember (take pos s) as a eqn:Ea. remember (drop (S pos) s) as b eqn:Eb.
      clear Ea Eb. subst s. rewrite complete_lines_cons, last_line_cons by done.
      cbn [fold_left]. rewrite process_line_pending. cbn [data_lines pending].
      destruct (process_line (mkSse [] dl) (strip_cr a)) as [p1 e1] eqn:E1.
      assert (line_step (dl, []) (strip_cr a) = (data_lines p1, e1)) as ->
        by (unfold line_step; cbn [fst snd]; by rewrite E1).
      rewrite IH by (cbn; rewrite length_app in Hlen; cbn in Hlen; lia).
      cbn [pending data_lines]. rewrite (line_step_events (data_lines p1, e1)). cbn [fst snd].
      destruct (fold_left line_step (complete_lines b) (data_lines p1, [])). done.
    + apply find_byte_None in E. unfold complete_lines, last_line.
      by rewrite split_on_none.
Qed.

Lemma complete_lines_app s t :
  complete_lines (s ++ t) = complete_lines s ++ complete_lines (last_line s ++ t)
  /\ last_line (s ++ t) = last_line (last_line s ++ t).
Proof.
  remember (length s) as n eqn:En. revert s En. induction n as [n IH] using lt_wf_ind.
  intros s ->. destruct (find_byte s Byte.x0a) as [pos|] eqn:E.
  - apply find_byte_Some in E as [Es Hn]. remember (take pos s) as a. remember (drop (S pos) s) as b.
    clear Heqa Heqb. subst s. rewrite last_line_cons, complete_lines_cons by done.
    rewrite <-app_assoc. cbn [app]. rewrite complete_lines_cons, last_line_cons by done.
    destruct (IH (length b)) with (s := b) as [IH1 IH2]; [rewrite length_app; cbn; lia|done|].
    by rewrite IH1, IH2.
  - apply find_byte_None in E.
    assert (complete_lines s = [] /\ last_line s = s) as [-> ->]; [|done].
    unfold complete_lines, last_line. by rewrite split_on_none.
Qed.

(** Two pushes are one push of the two chunks. *)
Lemma sse_push_app p a b :
  push p (a ++ b)
    = let '(p1, e1) := push p a in let '(p2, e2) := push p1 b in (p2, e1 ++ e2).
Proof.
  unfold push. cbn [pending data_lines].
  rewrite !push_loop_lines by done. cbn [pending data_lines]. rewrite app_assoc.
  destruct (complete_lines_app (pending p ++ a) b) as [-> ->]. rewrite fold_left_app.
  destruct (fold_left line_step (complete_lines (pending p ++ a)) (data_lines p, [])) as [dl e].
  rewrite push_loop_lines by done. cbn [pending data_lines].
  rewrite (line_step_events (dl, e)). cbn [fst snd].
  by destruct (fold_left line_step _ (dl, [])).
Qed.

Lemma push_nil p : ~ In Byte.x0a (pending p) -> push p [] = (p, []).
Proof.
  intros Hp. unfold push. rewrite app_nil_r, push_loop_lines by done. destruct p as [s dl]. cbn in *.
  unfold complete_lines, last_line. by rewrite split_on_none.
Qed.

Lemma sse_push_run chunks : run push sse_default chunks = push sse_default (concat chunks).
Proof. apply (run_concat push sse_push_app), push_nil. cbn. tauto. Qed.

(** ** Lines before and after decoding *)

Lemma lossy_split s :
  split_on Byte.x0a (from_utf8_lossy s) = map from_utf8_lossy (split_on Byte.x0a s).
Proof.
  induction s as [s IH] using list_length_ind.
  destruct (find_byte s Byte.x0a) as [pos|] eqn:E.
  - apply find_byte_Some in E as [Es Hn]. remember (take pos s) as a. remember (drop (S pos) s) as b.
    clear Heqa Heqb. subst s. rewrite from_utf8_lossy_ascii_mid, !split_on_app, map_app by done.
    rewrite (IH b), (IH a) by (rewrite length_app; cbn; lia). done.
  - apply find_byte_None in E. rewrite !split_on_none; [done|done|].
    intros Hin. apply E. by apply In_lossy.
Qed.

Lemma strip_cr_snoc l : strip_cr (l ++ [Byte.x0d]) = l.
Proof. unfold strip_cr. rewrite rev_app_distr. cbn. apply rev_involutive. Qed.

Lemma strip_cr_other l : (forall a, l <> a ++ [Byte.x0d]) -> strip_cr l = l.
Proof.
  unfold strip_cr. intros H. destruct (rev l) as [|b r] eqn:E; [done|].
  assert (l = rev r ++ [b]) as -> by (rewrite <-(rev_involutive l), E; done).
  destruct (decide (b = Byte.x0d)) as [->|Hne]; [by destruct (H (rev r))|].
  destruct b; done.
Qed.

Lemma lossy_strip_cr l : strip_cr (from_utf8_lossy l) = from_utf8_lossy (strip_cr l).
Proof.
  assert ((exists a, l = a ++ [Byte.x0d]) \/ ~ (exists a, l = a ++ [Byte.x0d])) as [[a ->]|H].
  { destruct l as [|b l _] using rev_ind; [right; intros [[] ?]; done|].
    destruct (decide (b = Byte.x0d)) as [->|Hne]; [by left; exists l|].
    right. intros [a E]. by apply app_inj_tail in E as [_ ?]. }
  - rewrite from_utf8_lossy_ascii_mid by done. by rewrite !strip_cr_snoc.
  - rewrite !strip_cr_other; [done| |]; intros a E; apply H; [by exists a|].
    by apply last_lossy in E.
Qed.

(** The lines of the decoded text, from those of the raw text. *)
Lemma lossy_lines s :
  lines (from_utf8_lossy s)
    = map from_utf8_lossy (complete_lines s)
      ++ match last_line s with [] => [] | l => [from_utf8_lossy l] end.
Proof.
  unfold lines, complete_lines, last_line. rewrite lossy_split.
  assert (S : split_on Byte.x0a s <> []) by apply split_on_not_nil.
  destruct (exists_last S) as (pre & l & ->). rewrite map_app. cbn [map].
  rewrite !removelast_last, !last_last, !map_map. f_equal.
  - apply map_ext. intros x. apply lossy_strip_cr.
  - destruct l as [|b l]; [done|].
    destruct (from_utf8_lossy (b :: l)) as [|c t] eqn:E; [by apply (proj1 (lossy_nil _)) in E|done].
Qed.

(** ** The two readers agree *)

(** One line, raw for the incremental reader and decoded for the batch one. *)
Lemma line_step_parse st line :
  line_step st line = parse_sse_line st (from_utf8_lossy line).
Proof.
  destruct st as [dl items]. unfold line_step, process_line, parse_sse_line. cbn [fst snd].
  destruct line as [|b line].
  - cbn. unfold flush, flush_sse_data. cbn. destruct dl; [by rewrite app_nil_r|done].
  - destruct (from_utf8_lossy (b :: line)) as [|c t] eqn:E; [by apply (proj1 (lossy_nil _)) in E|].
    destruct (strip_prefix (c :: t) "data:"); cbn; by rewrite app_nil_r.
Qed.

Lemma fold_line_step st ls :
  fold_left line_step ls st = fold_left parse_sse_line (map from_utf8_lossy ls) st.
Proof.
  revert st. induction ls as [|l ls IH]; intros st; [done|]. cbn [fold_left map].
  by rewrite line_step_parse, IH.
Qed.

Lemma flush_spec p items :
  let '(p', events) := flush p in
  flush_sse_data (data_lines p, items) = (data_lines p', items ++ events).
Proof.
  unfold flush, flush_sse_data. cbn [fst snd]. destruct (data_lines p) as [|d ds] eqn:E; cbn.
  - by rewrite E, app_nil_r.
  - done.
Qed.

(** The events of a stream, from its whole body. *)
Lemma stream_events_whole chunks :
  Array (stream_events chunks) = parse_sse_data (concat chunks).
Proof.
  unfold stream_events, parse_sse_data. rewrite sse_push_run.
  unfold push. cbn [pending data_lines sse_default app].
  rewrite push_loop_lines by done. cbn [pending data_lines]. rewrite lossy_lines, fold_left_app.
  rewrite <-fold_line_step.
  destruct (fold_left line_step (complete_lines (concat chunks)) ([], [])) as [dl ev].
  unfold finish. cbn [pending data_lines].
  destruct (last_line (concat chunks)) as [|b l]; cbn [fold_left].
  - pose proof (flush_spec (mkSse [] dl) ev) as F. cbn [data_lines] in F.
    destruct (flush (mkSse [] dl)) as [p' e']. by rewrite F.
  - rewrite <-line_step_parse. unfold line_step. cbn [fst snd].
    destruct (process_line (mkSse [] dl) (b :: l)) as [p1 e1].
    pose proof (flush_spec p1 (ev ++ e1)) as F.
    destruct (flush p1) as [p' e']. rewrite F. cbn. by rewrite app_assoc.
Qed.
End Sse.
