(* ===== verification/EventStream.v ===== *)
(** The binary event stream of AWS ([application/vnd.amazon.eventstream]):
    [AwsEventStreamParser] of [main.rs], the framing it accepts as a relation,
    and the proof that it accepts exactly that framing on every cutting of the
    body into chunks. *)

From S2P Require Import Prelude RustStr BTree Json.

Definition MAX_AWS_EVENTSTREAM_MESSAGE : Z := 1024 * 1024.

Section EventStream.
Context `{SJ : SerdeJson}.
Abbreviation json := (value number).

Record AwsEventStreamParser := mkAws {
  pending : bytes;
  failed : bool;
}.

Definition aws_default : AwsEventStreamParser := mkAws [] false.

(** The two lengths of the prelude. *)
Definition total_len (s : bytes) : Z := from_be_bytes (take 4 s).
Definition headers_len (s : bytes) : Z := from_be_bytes (take 4 (drop 4 s)).

Definition bad_lengths (s : bytes) : bool :=
  (total_len s <? 16)%Z || (MAX_AWS_EVENTSTREAM_MESSAGE <? total_len s)%Z
  || (Z.max 0 (total_len s - 16) <? headers_len s)%Z.

(** What the payload of a message gives: [None] is a syntax error. *)
Definition payload_events (message : bytes) : option (list json) :=
  let payload_start := Z.to_nat (12 + headers_len message) in
  let payload_end := Z.to_nat (total_len message - 4) in
  if (payload_end <? payload_start)%nat then Some []
  else
    let payload := take (payload_end - payload_start) (drop payload_start message) in
    let trimmed := trim (from_utf8_lossy payload) in
    match trimmed with
    | [] => Some []
    | _ =>
        match from_str trimmed with
        | Some parsed => Some [parsed]
        | None => None
        end
    end.

(** The [loop] of [push]: every turn that goes on removes at least sixteen
    bytes, so [length pending + 1] turns are enough. *)
Fixpoint push_loop (fuel : nat) (s : bytes) : AwsEventStreamParser * list json :=
  match fuel with
  | O => (mkAws s false, [])
  | S fuel =>
      if (length s <? 12)%nat then (mkAws s false, [])
      else if bad_lengths s then (mkAws [] true, [])
      else if (zlen s <? total_len s)%Z then (mkAws s false, [])
      else
        let message := take (Z.to_nat (total_len s)) s in
        let rest := drop (Z.to_nat (total_len s)) s in
        match payload_events message with
        | None => (mkAws [] true, [])
        | Some events =>
            let '(p, events') := push_loop fuel rest in
            (p, events ++ events')
        end
  end.

Definition push (p : AwsEventStreamParser) (chunk : bytes) : AwsEventStreamParser * list json :=
  if failed p then (p, [])
  else
    let s := pending p ++ chunk in
    push_loop (S (length s)) s.

Definition finish (p : AwsEventStreamParser) : AwsEventStreamParser :=
  match pending p with
  | [] => p
  | _ => mkAws [] true
  end.

(** The events of a body delivered in [chunks], unless the parser fails. *)
Definition stream_events (chunks : list bytes) : option (list json) :=
  let '(p, events) := run push aws_default chunks in
  if failed (finish p) then None else Some events.

(** ** The framing *)

(** One message as a sender lays it out: its length and the length of its
    headers in big-endian order, the checksum of these, the headers, the
    payload, the checksum of the message.  The checksums are four bytes the
    parser does not look at. *)
Definition message (prelude_crc headers payload message_crc : bytes) : bytes :=
  to_be_bytes 4 (16 + zlen headers + zlen payload) ++ to_be_bytes 4 (zlen headers) ++ prelude_crc
    ++ headers ++ payload ++ message_crc.

(** A blank payload reports nothing, any other the JSON value it is the text
    of. *)
Inductive reports (payload : bytes) : list json -> Prop :=
  | reports_nothing : trim (from_utf8_lossy payload) = [] -> reports payload []
  | reports_value v : trim (from_utf8_lossy payload) <> [] -> from_str (trim (from_utf8_lossy payload)) = Some v ->
      reports payload [v].

(** A body that is a sequence of messages. *)
Inductive framed : bytes -> list json -> Prop :=
  | framed_nil : framed [] []
  | framed_message prelude_crc headers payload message_crc events rest events' :
      length prelude_crc = 4 -> length message_crc = 4 ->
      (16 + zlen headers + zlen payload <= MAX_AWS_EVENTSTREAM_MESSAGE)%Z -> reports payload events ->
      framed rest events' ->
      framed (message prelude_crc headers payload message_crc ++ rest) (events ++ events').

(** ** Lemmas *)

(** One message as the parser finds it. *)
Definition is_message (m : bytes) (events : list json) : Prop :=
  total_len m = zlen m /\ (16 <= zlen m <= MAX_AWS_EVENTSTREAM_MESSAGE)%Z
  /\ (headers_len m <= zlen m - 16)%Z /\ payload_events m = Some events.

(** What [payload_events] does with a payload. *)
Definition events_of_payload (payload : bytes) : option (list json) :=
  match trim (from_utf8_lossy payload) with
  | [] => Some []
  | _ => match from_str (trim (from_utf8_lossy payload)) with Some v => Some [v] | None => None end
  end.

Lemma events_of_payload_reports payload events : events_of_payload payload = Some events <-> reports payload events.
Proof.
  unfold events_of_payload. split.
  - destruct (trim _) as [|b t] eqn:E; [intros [= <-]; by constructor|].
    destruct (from_str (b :: t)) as [v|] eqn:Ev; [|done]. intros [= <-]. rewrite <-E in Ev. constructor; [by rewrite E|done].
  - intros [->|v Hne Hv]; [done|]. destruct (trim _); [done|]. by rewrite Hv.
Qed.

Lemma message_lengths pc hs payload mc :
  length pc = 4 -> length mc = 4 -> (16 + zlen hs + zlen payload <= MAX_AWS_EVENTSTREAM_MESSAGE)%Z ->
  let m := message pc hs payload mc in
  zlen m = (16 + zlen hs + zlen payload)%Z /\ total_len m = zlen m /\ headers_len m = zlen hs
  /\ payload_events m = events_of_payload payload.
Proof.
  intros Hp Hm Hmax m. pose proof (zlen_nonneg hs). pose proof (zlen_nonneg payload). unfold MAX_AWS_EVENTSTREAM_MESSAGE in *.
  assert (L : zlen m = (16 + zlen hs + zlen payload)%Z).
  { unfold m, message, zlen. rewrite !length_app, !length_to_be_bytes, Hp, Hm. lia. }
  assert (T : total_len m = zlen m).
  { rewrite L. unfold total_len, m, message. rewrite take_app_length' by (by rewrite length_to_be_bytes).
    by rewrite from_to_be_bytes_small by (cbn; lia). }
  assert (Hd : headers_len m = zlen hs).
  { unfold headers_len, m, message. rewrite drop_app_length' by (by rewrite length_to_be_bytes).
    rewrite take_app_length' by (by rewrite length_to_be_bytes). apply from_to_be_bytes_small. cbn. lia. }
  split; [done|]. split; [done|]. split; [done|]. unfold payload_events. rewrite T, Hd, L.
  replace (Z.to_nat (12 + zlen hs)) with (12 + length hs) by (unfold zlen; lia).
  replace (Z.to_nat (16 + zlen hs + zlen payload - 4)) with (12 + length hs + length payload) by (unfold zlen; lia).
  rewrite (proj2 (Nat.ltb_ge _ _)) by lia.
  replace (12 + length hs + length payload - (12 + length hs)) with (length payload) by lia.
  replace m with ((to_be_bytes 4 (16 + zlen hs + zlen payload) ++ to_be_bytes 4 (zlen hs) ++ pc ++ hs) ++ payload ++ mc)
    by (unfold m, message; by rewrite <-!app_assoc).
  rewrite drop_app_length' by (rewrite !length_app, !length_to_be_bytes, Hp; lia). by rewrite take_app_length.
Qed.

Lemma message_is_message pc hs payload mc events :
  length pc = 4 -> length mc = 4 -> (16 + zlen hs + zlen payload <= MAX_AWS_EVENTSTREAM_MESSAGE)%Z ->
  reports payload events -> is_message (message pc hs payload mc) events.
Proof.
  intros Hp Hm Hmax Hr. destruct (message_lengths pc hs payload mc Hp Hm Hmax) as (L & T & Hd & E).
  pose proof (zlen_nonneg hs). pose proof (zlen_nonneg payload).
  split; [done|]. split; [lia|]. split; [lia|]. rewrite E. by apply events_of_payload_reports.
Qed.

Lemma is_message_message m events :
  is_message m events ->
  exists pc hs payload mc, m = message pc hs payload mc /\ length pc = 4 /\ length mc = 4
    /\ (16 + zlen hs + zlen payload <= MAX_AWS_EVENTSTREAM_MESSAGE)%Z /\ reports payload events.
Proof.
  intros (T & [H16 Hmax] & Hh & He). assert (0 <= headers_len m)%Z by apply from_be_bytes_nonneg.
  set (n := Z.to_nat (headers_len m)).
  set (pc := take 4 (drop 8 m)). set (hs := take n (drop 12 m)).
  set (payload := take (length m - 16 - n) (drop (12 + n) m)). set (mc := drop (length m - 4) m).
  unfold zlen in H16, Hmax, Hh.
  assert (Lp : length pc = 4) by (unfold pc; rewrite length_take, length_drop; lia).
  assert (Lm : length mc = 4) by (unfold mc; rewrite length_drop; lia).
  assert (Lh : zlen hs = headers_len m) by (unfold zlen, hs; rewrite length_take, length_drop; lia).
  assert (Ll : zlen payload = (zlen m - 16 - headers_len m)%Z) by (unfold zlen, payload; rewrite length_take, length_drop; lia).
  assert (E : m = message pc hs payload mc).
  { unfold message. rewrite Lh, Ll. replace (16 + headers_len m + (zlen m - 16 - headers_len m))%Z with (total_len m) by lia.
    unfold total_len at 1, headers_len at 1.
    assert (B : forall l, length l = 4 -> to_be_bytes 4 (from_be_bytes l) = l)
      by (intros l Hl; rewrite <-Hl at 1; apply to_from_be_bytes).
    rewrite !B by (rewrite length_take, ?length_drop; lia).
    unfold pc, hs, payload, mc.
    rewrite <-(take_drop 4 m) at 1. f_equal. rewrite <-(take_drop 4 (drop 4 m)) at 1. f_equal. rewrite drop_drop.
    rewrite <-(take_drop 4 (drop (4 + 4) m)) at 1. f_equal. rewrite drop_drop.
    rewrite <-(take_drop n (drop (4 + 4 + 4) m)) at 1. f_equal. rewrite drop_drop.
    rewrite <-(take_drop (length m - 16 - n) (drop _ m)) at 1. f_equal. rewrite drop_drop. f_equal. lia. }
  exists pc, hs, payload, mc. split; [done|]. split; [done|]. split; [done|]. split; [unfold zlen in *; lia|].
  apply events_of_payload_reports. destruct (message_lengths pc hs payload mc Lp Lm) as (_ & _ & _ & P); [unfold zlen in *; lia|].
  rewrite <-P, <-E. done.
Qed.

Lemma take_app_le {A} n (a b : list A) : n <= length a -> take n (a ++ b) = take n a.
Proof. intros. rewrite take_app. replace (n - length a) with 0 by lia. by rewrite app_nil_r. Qed.

Lemma drop_app_le' {A} n (a b : list A) : n <= length a -> drop n (a ++ b) = drop n a ++ b.
Proof. intros. rewrite drop_app. by replace (n - length a) with 0 by lia. Qed.

Lemma total_len_app s t : 4 <= length s -> total_len (s ++ t) = total_len s.
Proof. intros. unfold total_len. by rewrite take_app_le. Qed.

Lemma headers_len_app s t : 8 <= length s -> headers_len (s ++ t) = headers_len s.
Proof.
  intros. unfold headers_len. rewrite drop_app_le' by lia. rewrite take_app_le; [done|].
  rewrite length_drop. lia.
Qed.

Lemma bad_lengths_app s t : 12 <= length s -> bad_lengths (s ++ t) = bad_lengths s.
Proof. intros. unfold bad_lengths. by rewrite total_len_app, headers_len_app by lia. Qed.

Lemma bad_lengths_spec s :
  bad_lengths s = false <->
  (16 <= total_len s <= MAX_AWS_EVENTSTREAM_MESSAGE /\ headers_len s <= total_len s - 16)%Z.
Proof.
  unfold bad_lengths. rewrite !orb_false_iff, !Z.ltb_ge.
  assert (0 <= headers_len s)%Z by apply from_be_bytes_nonneg. lia.
Qed.

(** More fuel than bytes changes nothing. *)
Lemma push_loop_fuel f g s : length s < f -> length s < g -> push_loop f s = push_loop g s.
Proof.
  revert g s. induction f as [|f IH]; intros [|g] s Hf Hg; try lia. cbn [push_loop].
  destruct (Nat.ltb_spec (length s) 12); [done|].
  destruct (bad_lengths s) eqn:Hbad; [done|]. apply bad_lengths_spec in Hbad as [[? _] _].
  destruct (zlen s <? total_len s)%Z; [done|].
  destruct (payload_events _); [|done].
  rewrite (IH g) by (rewrite length_drop; lia). done.
Qed.

(** The loop on a longer text: a failure stays, otherwise it resumes on what
    was left. *)
Lemma push_loop_app f s t :
  length s < f ->
  push_loop (S (length (s ++ t))) (s ++ t)
    = let '(p, e) := push_loop f s in
      let '(p', e') := push p t in (p', e ++ e').
Proof.
  revert s. induction f as [|f IH]; intros s Hf; [lia|]. cbn [push_loop].
  assert (Again : forall u, push_loop (S (length (u ++ t))) (u ++ t)
    = let '(p', e') := push (mkAws u false) t in (p', [] ++ e')).
  { intros u. unfold push. cbn [failed pending]. by destruct (push_loop _ (u ++ t)). }
  destruct (Nat.ltb_spec (length s) 12) as [|H12]; [apply Again|].
  destruct (bad_lengths s) eqn:Hbad.
  { rewrite bad_lengths_app, Hbad by lia.
    rewrite (proj2 (Nat.ltb_ge _ _)) by (rewrite length_app; lia). done. }
  destruct (zlen s <? total_len s)%Z eqn:Hshort; [apply Again|].
  pose proof (proj1 (bad_lengths_spec s) Hbad) as [[? _] _].
  apply Z.ltb_ge in Hshort. unfold zlen in Hshort.
  rewrite bad_lengths_app, Hbad, total_len_app by lia.
  rewrite (proj2 (Nat.ltb_ge _ _)), (proj2 (Z.ltb_ge _ _))
    by (unfold zlen; rewrite length_app; lia).
  rewrite take_app_le, drop_app_le' by lia.
  destruct (payload_events (take (Z.to_nat (total_len s)) s)) as [ev|]; [|done].
  rewrite (push_loop_fuel _ (S (length (drop (Z.to_nat (total_len s)) s ++ t))))
    by (rewrite ?length_app, ?length_drop; lia).
  rewrite IH by (rewrite length_drop; lia).
  destruct (push_loop f _) as [p e]. destruct (push p t) as [p' e']. by rewrite app_assoc.
Qed.

Lemma aws_push_app p a b :
  push p (a ++ b)
    = let '(p1, e1) := push p a in let '(p2, e2) := push p1 b in (p2, e1 ++ e2).
Proof.
  unfold push at 1 2. destruct (failed p) eqn:F; [unfold push; by rewrite F|].
  rewrite app_assoc. apply push_loop_app. lia.
Qed.

Lemma aws_push_run chunks : run push aws_default chunks = push aws_default (concat chunks).
Proof. by apply (run_concat push aws_push_app). Qed.

Lemma message_bounds s :
  12 <= length s -> bad_lengths s = false -> (total_len s <= zlen s)%Z ->
  let m := take (Z.to_nat (total_len s)) s in
  forall ev, payload_events m = Some ev -> is_message m ev.
Proof.
  intros H12 Hbad Hlen m ev Hev. apply bad_lengths_spec in Hbad as [[H16 HM] Hh].
  unfold zlen in *.
  assert (Lm : zlen m = total_len s) by (unfold zlen, m; rewrite length_take; lia).
  assert (Tm : total_len m = total_len s).
  { unfold total_len, m. rewrite take_take. by replace (4 `min` _) with 4 by lia. }
  assert (Hm : headers_len m = headers_len s).
  { unfold headers_len, m. rewrite !take_drop_commute, take_take.
    by replace ((4 + 4) `min` _) with (4 + 4) by lia. }
  split; [congruence|]. rewrite Lm, Hm. repeat split; (lia || done).
Qed.

Lemma push_loop_sound f s p e :
  length s < f -> push_loop f s = (p, e) -> failed p = false -> pending p = [] -> framed s e.
Proof.
  revert s p e. induction f as [|f IH]; intros s p e Hf E Hfail Hp; [lia|]. cbn [push_loop] in E.
  destruct (Nat.ltb_spec (length s) 12).
  { injection E as <- <-. cbn in Hp. subst s. constructor. }
  destruct (bad_lengths s) eqn:Hbad; [by injection E as <- <-|].
  destruct (zlen s <? total_len s)%Z eqn:Hshort.
  { injection E as <- <-. cbn in Hp. subst s. constructor. }
  apply Z.ltb_ge in Hshort. pose proof (proj1 (bad_lengths_spec s) Hbad) as [[? _] _].
  destruct (payload_events _) as [ev|] eqn:Hev; [|by injection E as <- <-].
  destruct (push_loop f _) as [p' e'] eqn:Er. injection E as <- <-.
  rewrite <-(take_drop (Z.to_nat (total_len s)) s) at 1.
  destruct (is_message_message (take (Z.to_nat (total_len s)) s) ev) as (pc & hs & payload & mc & -> & Hp1 & Hm1 & Hmax & Hr);
    [by apply message_bounds|].
  constructor; [done..|]. eapply IH; try done. rewrite length_drop. lia.
Qed.

Lemma push_loop_complete f s e :
  framed s e -> length s < f -> push_loop f s = (mkAws [] false, e).
Proof.
  intros HF. revert f. induction HF as [|pc hs payload mc ev rest e' Hp1 Hm1 Hmax Hr HF IH]; intros f Hf.
  - by destruct f.
  - destruct (message_is_message _ _ _ _ _ Hp1 Hm1 Hmax Hr) as (HT & [H16 HM] & Hh & Hev).
    set (m := message pc hs payload mc) in *. clearbody m.
    destruct f as [|f]; [lia|]. cbn [push_loop]. rewrite length_app in Hf. unfold zlen in *.
    rewrite (proj2 (Nat.ltb_ge _ _)) by (rewrite length_app; lia).
    rewrite bad_lengths_app, total_len_app by lia.
    rewrite (proj2 (bad_lengths_spec m)) by lia.
    rewrite (proj2 (Z.ltb_ge _ _)) by (unfold zlen; rewrite length_app; lia).
    rewrite HT. rewrite Nat2Z.id, take_app_length, drop_app_length, Hev, IH by lia. done.
Qed.

(** C23. The parser accepts exactly the bodies that are sequences of messages
    of at most 1 MiB, laid out as a sender lays them out, whose payloads are
    blank or JSON texts, however the body is cut into chunks; and it reports
    exactly the values of the payloads that are not blank, in their order: a
    truncated, oversized or ill-formed stream gives no events at all. *)
Theorem event_stream_accepts_framed chunks events :
  stream_events chunks = Some events <-> framed (concat chunks) events.
Proof.
  unfold stream_events. rewrite aws_push_run. unfold push. cbn [failed pending aws_default app].
  split.
  - destruct (push_loop _ _) as [p e] eqn:E. unfold finish.
    destruct (pending p) as [|b l] eqn:Hp; [|done].
    destruct (failed p) eqn:Hf; [done|]. intros [= <-]. eapply push_loop_sound; try done. lia.
  - intros HF. by rewrite (push_loop_complete _ _ _ HF) by lia.
Qed.
End EventStream.
