(* ===== verification/Collector.v ===== *)
(** Field claims of an exchange: [field_view] and [build_field_claims] over a
    whole body, [StreamFieldState] and [FieldResponseCollector] over a body
    that arrives in chunks ([main.rs]), and the proof that the collector
    computes the claims of the whole body. *)

From S2P Require Import Prelude RustStr BTree Json Digest Paths Merge Protocol Sse EventStream Sample.
From S2P Require OpenAiChat OpenAiResponses Anthropic Gemini Dashscope Bedrock Cohere.
Local Open Scope bytes_scope.

Definition MAX_FIELD_CLAIMS_CAPTURE : Z := 8 * 1024 * 1024.

Definition capture_field_body (st : bytes * bool) (chunk : bytes) : bytes * bool :=
  let '(body, truncated) := st in
  if truncated then (body, truncated)
  else
    let remaining := Z.max 0 (MAX_FIELD_CLAIMS_CAPTURE - zlen body) in
    if (remaining <? zlen chunk)%Z then (body ++ take (Z.to_nat remaining) chunk, true)
    else (body ++ chunk, false).

Section Collector.
Context `{SJ : SerdeJson} `{SH : Sha256} `{EN : Env}.
Abbreviation json := (value number).

(** * Whole bodies *)

Definition parse_json_body (body : bytes) : json :=
  let trimmed := trim (from_utf8_lossy body) in
  match trimmed with
  | [] => Null
  | _ =>
      match from_str trimmed with
      | Some v => v
      | None => json_object [("raw_sha256", Str (sha256_hex body)); ("parse_error", Str "invalid_json")]
      end
  end.

Definition path_is_bedrock_converse_stream (path : bytes) : bool :=
  contains (to_ascii_lowercase (path_no_query path)) "/converse-stream".

Definition path_indicates_gemini_stream (path : bytes) : bool :=
  let lower := to_ascii_lowercase path in
  contains lower "alt=sse" || contains lower ":streamgeneratecontent"
  || contains lower "/streamgeneratecontent".

Definition request_indicates_streaming (protocol req_body upstream_path : bytes) : bool :=
  let parsed := parse_json_body req_body in
  if eqs protocol "openai.chat_completions" || eqs protocol "openai.responses"
     || eqs protocol "anthropic.messages" || eqs protocol "cohere.chat" then
    default false (value_get "stream" parsed ≫= as_bool)
  else if eqs protocol "alibaba.dashscope.generation" then
    default false (((value_get "parameters" parsed ≫= as_object) ≫= bget "stream") ≫= as_bool)
  else if eqs protocol "google.gemini.generate_content" then path_indicates_gemini_stream upstream_path
  else if eqs protocol "aws.bedrock.converse" then path_is_bedrock_converse_stream upstream_path
  else false.

(** The [match (protocol, kind)] of [field_view], on the parsed body. *)
Definition view_of_parsed (protocol kind : bytes) (parsed : json) (upstream_path : option bytes) : json :=
  let case p k := eqs protocol p && eqs kind k in
  if case "openai.chat_completions" "request" then pick_value parsed ["model"; "messages"]
  else if case "openai.chat_completions" "response" then
    if is_array parsed then OpenAiChat.aggregate_openai_chat_stream parsed
    else pick_value parsed ["model"; "choices"; "usage"; "error"]
  else if case "openai.responses" "request" then pick_value parsed ["model"; "input"]
  else if case "openai.responses" "response" then
    OpenAiResponses.openai_responses_view "response" parsed
  else if eqs protocol "anthropic.messages" then Anthropic.anthropic_messages_view kind parsed
  else if case "google.gemini.generate_content" "request" then
    Gemini.gemini_generate_content_request_view parsed upstream_path
  else if case "google.gemini.generate_content" "response" then
    Gemini.gemini_generate_content_view "response" parsed
  else if case "alibaba.dashscope.generation" "request" then
    pick_value parsed ["model"; "input"; "system"; "messages"]
  else if case "alibaba.dashscope.generation" "response" then
    Dashscope.dashscope_generation_view "response" parsed
  else if case "aws.bedrock.converse" "request" then
    Bedrock.bedrock_converse_request_view parsed upstream_path
  else if case "aws.bedrock.converse" "response" then Bedrock.bedrock_converse_view "response" parsed
  else if case "cohere.chat" "request" then pick_value parsed ["model"; "messages"; "message"]
  else if case "cohere.chat" "response" then Cohere.cohere_chat_view "response" parsed
  else parsed.

Definition field_view (protocol kind body : bytes) (upstream_path : option bytes) : json :=
  let parsed := if looks_like_sse body then parse_sse_data body else parse_json_body body in
  view_of_parsed protocol kind parsed upstream_path.

(** The claims object; the registry lookup panics on an unknown protocol, and
    no claims are modelled for that case. *)
Definition build_field_claims_from_views (head : ReqHead) (norm_method : bytes) (status : Z)
    (protocol : bytes) (req_view resp_view : json) (streaming : bool) : option json :=
  if negb (has_required_presence protocol "request" req_view) then None
  else if negb (has_required_presence protocol "response" resp_view) then None
  else
    let request_fields_hash := sha256_hex (canonical_json req_view) in
    let response_fields_hash := sha256_hex (canonical_json resp_view) in
    let host := to_ascii_lowercase (host (upstream head)) in
    let path := path_no_query (path (upstream head)) in
    version ← field_policy_version protocol;
    Some (json_object [
      ("v", json_int 1);
      ("proof_type", Str "field-proof");
      ("nonce", Str (nonce head));
      ("protocol_family", Str protocol);
      ("assurance_level", Str "strong");
      ("verification_mode", Str "field_claims");
      ("cross_protocol", Bool false);
      ("semantic_equivalence_not_proven", Bool false);
      ("request_schema_version", Str (protocol ++ ".v1"));
      ("response_schema_version", Str (protocol ++ ".v1"));
      ("upstream_host", Str host);
      ("upstream_path", Str path);
      ("http_method", Str (to_ascii_uppercase norm_method));
      ("http_status", json_int status);
      ("field_policy_id",
        Str (protocol ++ "." ++ policy field_policy_registry ++ "@" ++ version));
      ("upstream_request_fields_sha256", Str request_fields_hash);
      ("upstream_response_fields_sha256", Str response_fields_hash);
      ("request_body_sha256_severity", Str "advisory");
      ("response_body_sha256_severity", Str "advisory");
      ("body_hash_policy", Str "advisory");
      ("streaming", Bool streaming)]).

Definition build_field_claims (head : ReqHead) (norm_method : bytes) (status : Z)
    (req_body resp_body : bytes) : option json :=
  protocol ← detect_for_head head req_body;
  let req_view := field_view protocol "request" req_body (Some (path (upstream head))) in
  let resp_view := field_view protocol "response" resp_body (Some (path (upstream head))) in
  build_field_claims_from_views head norm_method status protocol req_view resp_view
    (looks_like_sse resp_body).

(** * Streams *)

Inductive StreamFieldState :=
  | StOpenAiChat (state : OpenAiChat.OpenAiChatStreamState)
  | StOpenAiResponses (state : OpenAiResponses.OpenAiResponsesStreamState)
  | StAnthropicMessages (state : Anthropic.AnthropicMessagesStreamState)
  | StGeminiGenerateContent (state : Gemini.GeminiGenerateContentStreamState)
  | StDashscopeGeneration (state : Dashscope.DashscopeGenerationStreamState)
  | StBedrockConverse (state : Bedrock.BedrockConverseStreamState)
  | StCohereChat (state : Cohere.CohereChatStreamState).

Definition state_new (protocol : bytes) : option StreamFieldState :=
  if eqs protocol "openai.chat_completions" then Some (StOpenAiChat OpenAiChat.openai_chat_default)
  else if eqs protocol "openai.responses" then
    Some (StOpenAiResponses OpenAiResponses.openai_responses_default)
  else if eqs protocol "anthropic.messages" then Some (StAnthropicMessages Anthropic.anthropic_default)
  else if eqs protocol "google.gemini.generate_content" then
    Some (StGeminiGenerateContent Gemini.gemini_default)
  else if eqs protocol "alibaba.dashscope.generation" then
    Some (StDashscopeGeneration Dashscope.dashscope_default)
  else if eqs protocol "aws.bedrock.converse" then Some (StBedrockConverse Bedrock.bedrock_default)
  else if eqs protocol "cohere.chat" then Some (StCohereChat Cohere.cohere_default)
  else None.

Definition state_apply (st : StreamFieldState) (event : json) : StreamFieldState :=
  match st with
  | StOpenAiChat s => StOpenAiChat (OpenAiChat.apply s event)
  | StOpenAiResponses s => StOpenAiResponses (OpenAiResponses.apply s event)
  | StAnthropicMessages s => StAnthropicMessages (Anthropic.apply s event)
  | StGeminiGenerateContent s => StGeminiGenerateContent (Gemini.apply s event)
  | StDashscopeGeneration s => StDashscopeGeneration (Dashscope.apply s event)
  | StBedrockConverse s => StBedrockConverse (Bedrock.apply s event)
  | StCohereChat s => StCohereChat (Cohere.apply s event)
  end.

Definition state_finish (st : StreamFieldState) : json :=
  match st with
  | StOpenAiChat s => OpenAiChat.finish s
  | StOpenAiResponses s => OpenAiResponses.finish s
  | StAnthropicMessages s => Anthropic.finish s
  | StGeminiGenerateContent s => Gemini.finish s
  | StDashscopeGeneration s => Dashscope.finish s
  | StBedrockConverse s => Bedrock.finish s
  | StCohereChat s => Cohere.finish s
  end.

Inductive FieldResponseBody :=
  | Streaming (parser : SseEventParser) (state : StreamFieldState)
  | AwsEventStream (parser : AwsEventStreamParser) (state : Bedrock.BedrockConverseStreamState)
  | Sniffing (body : bytes) (truncated : bool) (state : option StreamFieldState).

Record FieldResponseCollector := mkCollector {
  protocol : bytes;
  req_view : json;
  body : FieldResponseBody;
}.

(** The choice of the body reader in [FieldResponseCollector::new]. *)
Definition initial_body (protocol content_type upstream_path : bytes) (request_streaming : bool)
    : option FieldResponseBody :=
  if is_sse_content_type content_type then
    state ← state_new protocol; Some (Streaming sse_default state)
  else if eqs protocol "aws.bedrock.converse"
       && (is_aws_event_stream_content_type content_type || request_streaming
           || (eqs content_type "" && path_is_bedrock_converse_stream upstream_path)) then
    Some (AwsEventStream aws_default Bedrock.bedrock_default)
  else if request_streaming then
    state ← state_new protocol; Some (Streaming sse_default state)
  else Some (Sniffing [] false (state_new protocol)).

Definition collector_new (head : ReqHead) (req_body content_type : bytes)
    : option FieldResponseCollector :=
  protocol ← detect_for_head head req_body;
  let upath := path (upstream head) in
  let req_view := field_view protocol "request" req_body (Some upath) in
  if negb (has_required_presence protocol "request" req_view) then None
  else
    let request_streaming := request_indicates_streaming protocol req_body upath in
    body ← initial_body protocol content_type upath request_streaming;
    Some (mkCollector protocol req_view body).

Definition body_push (b : FieldResponseBody) (chunk : bytes) : FieldResponseBody :=
  match b with
  | Streaming parser state =>
      let '(parser, events) := Sse.push parser chunk in
      Streaming parser (fold_left state_apply events state)
  | AwsEventStream parser state =>
      let '(parser, events) := EventStream.push parser chunk in
      AwsEventStream parser (fold_left Bedrock.apply events state)
  | Sniffing body truncated state =>
      let '(body, truncated) := capture_field_body (body, truncated) chunk in
      match state with
      | Some streaming_state =>
          if body_prefix_indicates_sse body then
            let '(parser, events) := Sse.push sse_default body in
            Streaming parser (fold_left state_apply events streaming_state)
          else Sniffing body truncated state
      | None => Sniffing body truncated state
      end
  end.

Definition collector_push (c : FieldResponseCollector) (chunk : bytes) : FieldResponseCollector :=
  mkCollector (protocol c) (req_view c) (body_push (body c) chunk).

(** The response view and the [streaming] flag of [finish]. *)
Definition body_finish (b : FieldResponseBody) (protocol upath : bytes) : option (json * bool) :=
  match b with
  | Streaming parser state =>
      let '(_, events) := Sse.finish parser in
      Some (state_finish (fold_left state_apply events state), true)
  | AwsEventStream parser state =>
      if failed (EventStream.finish parser) then None
      else Some (Bedrock.finish state, true)
  | Sniffing body truncated _ =>
      if truncated then None
      else Some (field_view protocol "response" body (Some upath), false)
  end.

Definition collector_finish (c : FieldResponseCollector) (head : ReqHead) (norm_method : bytes)
    (status : Z) : option json :=
  '(resp_view, streaming) ← body_finish (body c) (protocol c) (path (upstream head));
  build_field_claims_from_views head norm_method status (protocol c) (req_view c) resp_view streaming.

(** The claims of a response delivered in [chunks]. *)
Definition collect (head : ReqHead) (req_body content_type norm_method : bytes) (status : Z)
    (chunks : list bytes) : option json :=
  c ← collector_new head req_body content_type;
  collector_finish (fold_left collector_push chunks c) head norm_method status.

(** ** What the collector computes *)

(** The view and flag of a whole body, for the reader chosen at the start. *)
Definition whole_view (b0 : FieldResponseBody) (protocol upath whole : bytes) : option (json * bool) :=
  let sse := Some (view_of_parsed protocol "response" (parse_sse_data whole) (Some upath), true) in
  match b0 with
  | Streaming _ _ => sse
  | AwsEventStream _ _ =>
      events ← EventStream.stream_events [whole];
      Some (view_of_parsed protocol "response" (Array events) (Some upath), true)
  | Sniffing _ _ _ =>
      if body_prefix_indicates_sse whole then sse
      else Some (field_view protocol "response" whole (Some upath), false)
  end.

Definition collect_whole (head : ReqHead) (req_body content_type norm_method : bytes) (status : Z)
    (whole : bytes) : option json :=
  c ← collector_new head req_body content_type;
  '(resp_view, streaming) ← whole_view (body c) (protocol c) (path (upstream head)) whole;
  build_field_claims_from_views head norm_method status (protocol c) (req_view c) resp_view streaming.

(** * Theorems *)

(** ** Events one by one, or all at once *)

(** One protocol of [state_new]: its agreement lemma, under the constructor. *)
Ltac protocol_case lem :=
  match goal with |- (if eqs ?p ?q then _ else _) = _ -> _ =>
    let E := fresh "E" in
    destruct (eqs p q) eqn:E; [apply bool_decide_eq_true in E; subst p; intros [= <-]|clear E]
  end;
  [refine (eq_trans _ lem);
   match goal with |- state_finish (fold_left _ _ (?C _)) = _ =>
     rewrite <-(fold_left_proj C _ state_apply (fun _ _ => eq_refl)); reflexivity end|].

Lemma state_finish_batch protocol st events upath :
  state_new protocol = Some st ->
  state_finish (fold_left state_apply events st)
    = view_of_parsed protocol "response" (Array events) upath.
Proof.
  unfold state_new.
  protocol_case (OpenAiChat.openai_chat_stream_is_batch events).
  protocol_case (OpenAiResponses.openai_responses_stream_is_batch events).
  protocol_case (Anthropic.anthropic_stream_is_batch events).
  protocol_case (Gemini.gemini_stream_is_batch events).
  protocol_case (Dashscope.dashscope_stream_is_batch events).
  protocol_case (Bedrock.bedrock_stream_is_batch events).
  protocol_case (Cohere.cohere_stream_is_batch events).
  done.
Qed.

(** ** The three readers *)

Lemma streaming_run p st chunks :
  fold_left body_push chunks (Streaming p st)
    = let '(p', events) := run Sse.push p chunks in Streaming p' (fold_left state_apply events st).
Proof.
  revert p st. induction chunks as [|c chunks IH]; intros p st; cbn [fold_left run]; [done|].
  cbn [body_push]. destruct (Sse.push p c) as [p1 e1]. rewrite IH.
  destruct (run Sse.push p1 chunks) as [p2 e2]. by rewrite fold_left_app.
Qed.

Lemma aws_run p st chunks :
  fold_left body_push chunks (AwsEventStream p st)
    = let '(p', events) := run EventStream.push p chunks in
      AwsEventStream p' (fold_left Bedrock.apply events st).
Proof.
  revert p st. induction chunks as [|c chunks IH]; intros p st; cbn [fold_left run]; [done|].
  cbn [body_push]. destruct (EventStream.push p c) as [p1 e1]. rewrite IH.
  destruct (run EventStream.push p1 chunks) as [p2 e2]. by rewrite fold_left_app.
Qed.

Lemma streaming_finish st protocol upath chunks :
  state_new protocol = Some st ->
  body_finish (fold_left body_push chunks (Streaming sse_default st)) protocol upath
    = Some (view_of_parsed protocol "response" (parse_sse_data (concat chunks)) (Some upath), true).
Proof.
  intros Hst. rewrite streaming_run, <-stream_events_whole. unfold Sse.stream_events.
  destruct (run Sse.push sse_default chunks) as [p events]. cbn [body_finish].
  destruct (Sse.finish p) as [p' events'].
  by rewrite <-fold_left_app, (state_finish_batch protocol _ _ (Some upath)).
Qed.

Lemma aws_finish upath chunks :
  body_finish (fold_left body_push chunks (AwsEventStream aws_default Bedrock.bedrock_default))
    "aws.bedrock.converse" upath
  = whole_view (AwsEventStream aws_default Bedrock.bedrock_default) "aws.bedrock.converse" upath
      (concat chunks).
Proof.
  rewrite aws_run. cbn [whole_view]. unfold EventStream.stream_events. rewrite !EventStream.aws_push_run.
  cbn [concat]. rewrite app_nil_r.
  destruct (EventStream.push aws_default (concat chunks)) as [p events]. cbn [body_finish].
  destruct (failed (EventStream.finish p)); [done|]. cbn [mbind option_bind].
  rewrite (Bedrock.bedrock_stream_is_batch events). reflexivity.
Qed.

Lemma indicates_app s t : body_prefix_indicates_sse s = true -> body_prefix_indicates_sse (s ++ t) = true.
Proof.
  unfold body_prefix_indicates_sse. rewrite take_app.
  set (u := take (MAX_STREAM_SNIFF_BYTES - length s) t). rewrite !orb_true_iff.
  intros [[H|H]|H]; [left; left|left; right|right];
    apply trim_start_ws_bom_prefix; (done || (cbn; lia)).
Qed.

Lemma capture_all body chunk :
  (zlen (body ++ chunk) <= MAX_FIELD_CLAIMS_CAPTURE)%Z ->
  capture_field_body (body, false) chunk = (body ++ chunk, false).
Proof.
  intros H. unfold capture_field_body. rewrite zlen_app in H.
  rewrite (proj2 (Z.ltb_ge _ _)) by lia. done.
Qed.

Lemma sniffing_finish st protocol upath chunks seen :
  state_new protocol = Some st ->
  (zlen (seen ++ concat chunks) <= MAX_FIELD_CLAIMS_CAPTURE)%Z ->
  body_prefix_indicates_sse seen = false ->
  body_finish (fold_left body_push chunks (Sniffing seen false (Some st))) protocol upath
    = whole_view (Sniffing [] false (Some st)) protocol upath (seen ++ concat chunks).
Proof.
  intros Hst. revert seen. induction chunks as [|c chunks IH]; intros seen Hlen Hseen.
  - cbn. by rewrite app_nil_r, Hseen.
  - cbn [fold_left concat body_push] in *. rewrite app_assoc in *.
    rewrite capture_all by (rewrite zlen_app in Hlen; pose proof (zlen_nonneg (concat chunks)); lia).
    destruct (body_prefix_indicates_sse (seen ++ c)) eqn:Hc; [|by apply IH].
    cbn [whole_view]. rewrite indicates_app by done.
    exact (streaming_finish st protocol upath ((seen ++ c) :: chunks) Hst).
Qed.

Lemma state_new_supported protocol :
  In protocol SUPPORTED_PROTOCOLS -> exists st, state_new protocol = Some st.
Proof.
  cbn [SUPPORTED_PROTOCOLS In]. intros H.
  repeat (destruct H as [<-|H]; [by eexists|]). done.
Qed.

(** The reader chosen at the start, run over the chunks and finished. *)
Lemma body_run protocol content_type upath request_streaming b0 chunks :
  In protocol SUPPORTED_PROTOCOLS ->
  initial_body protocol content_type upath request_streaming = Some b0 ->
  is_sse_content_type content_type = true
    \/ (zlen (concat chunks) <= MAX_FIELD_CLAIMS_CAPTURE)%Z ->
  body_finish (fold_left body_push chunks b0) protocol upath
    = whole_view b0 protocol upath (concat chunks).
Proof.
  intros Hp. destruct (state_new_supported protocol Hp) as [st Hst].
  unfold initial_body. rewrite !Hst. cbn [mbind option_bind].
  destruct (is_sse_content_type content_type).
  { intros [= <-] _. by apply streaming_finish. }
  destruct (eqs protocol "aws.bedrock.converse" && _) eqn:Haws.
  { intros [= <-] _. apply andb_prop in Haws as [Haws _]. apply bool_decide_eq_true in Haws as ->.
    apply aws_finish. }
  destruct request_streaming.
  { intros [= <-] _. by apply streaming_finish. }
  intros [= <-] [?|Hlen]; [done|]. by apply sniffing_finish.
Qed.

Lemma collector_run chunks c :
  fold_left collector_push chunks c
    = mkCollector (protocol c) (req_view c) (fold_left body_push chunks (body c)).
Proof.
  revert c. induction chunks as [|x chunks IH]; intros []; [done|]. cbn [fold_left]. by rewrite IH.
Qed.

(** The claims of a response do not depend on how it is delivered. *)
Lemma collect_whole_body head req_body content_type norm_method status chunks :
  is_sse_content_type content_type = true
    \/ (zlen (concat chunks) <= MAX_FIELD_CLAIMS_CAPTURE)%Z ->
  collect head req_body content_type norm_method status chunks
    = collect_whole head req_body content_type norm_method status (concat chunks).
Proof.
  intros Hlen. unfold collect, collect_whole, collector_new.
  destruct (detect_for_head head req_body) as [p|] eqn:Hp; [|done]. cbn [mbind option_bind].
  apply detect_supported in Hp.
  destruct (has_required_presence p "request" _); cbn [negb]; [|done].
  destruct (initial_body p _ _ _) as [b0|] eqn:Hb; cbn [mbind option_bind]; [|done].
  rewrite collector_run. unfold collector_finish. cbn [protocol req_view body].
  by rewrite (body_run p _ _ _ _ chunks Hp Hb Hlen).
Qed.

(** ** Bodies over the capture limit *)

Lemma capture_prefix body truncated chunk body' truncated' :
  capture_field_body (body, truncated) chunk = (body', truncated') ->
  (exists rest, body ++ chunk = body' ++ rest) /\
  (truncated = false -> (zlen body <= MAX_FIELD_CLAIMS_CAPTURE)%Z ->
   (zlen body' <= MAX_FIELD_CLAIMS_CAPTURE)%Z /\
   truncated' = (MAX_FIELD_CLAIMS_CAPTURE <? zlen (body ++ chunk))%Z /\
   (truncated' = false -> body' = body ++ chunk)).
Proof.
  unfold capture_field_body. rewrite zlen_app. destruct truncated.
  { intros [= <- <-]. split; [by exists chunk|done]. }
  destruct (Z.ltb_spec (Z.max 0 (MAX_FIELD_CLAIMS_CAPTURE - zlen body)) (zlen chunk)) as [Hl|Hl];
    intros [= <- <-].
  - split; [eexists (drop _ chunk); by rewrite <-app_assoc, take_drop|]. intros _ Hb.
    rewrite (proj2 (Z.ltb_lt _ _)) by lia. split; [|done].
    rewrite zlen_app. unfold zlen in *. rewrite length_take. lia.
  - split; [exists []; by rewrite app_nil_r|]. intros _ Hb.
    rewrite (proj2 (Z.ltb_ge _ _)), zlen_app by lia. split; [lia|done].
Qed.

Lemma indicates_prefix s t : body_prefix_indicates_sse (s ++ t) = false -> body_prefix_indicates_sse s = false.
Proof.
  intros H. destruct (body_prefix_indicates_sse s) eqn:E; [|done].
  by rewrite (indicates_app s t E) in H.
Qed.

Lemma sniffing_over_limit st protocol upath chunks seen truncated rest whole :
  whole = seen ++ rest ->
  (truncated = false -> rest = concat chunks /\ (zlen seen <= MAX_FIELD_CLAIMS_CAPTURE)%Z) ->
  body_prefix_indicates_sse whole = false ->
  (MAX_FIELD_CLAIMS_CAPTURE < zlen whole)%Z ->
  body_finish (fold_left body_push chunks (Sniffing seen truncated st)) protocol upath = None.
Proof.
  revert seen truncated rest. induction chunks as [|c chunks IH]; intros seen tr rest -> Hinv Hsse Hlen.
  - cbn. destruct tr; [done|]. destruct (Hinv eq_refl) as [-> ?]. cbn in Hlen.
    rewrite app_nil_r in Hlen. lia.
  - cbn [fold_left body_push].
    destruct (capture_field_body (seen, tr) c) as [seen' tr'] eqn:Ec.
    assert (exists rest', seen ++ rest = seen' ++ rest' /\
      (tr' = false -> rest' = concat chunks /\ (zlen seen' <= MAX_FIELD_CLAIMS_CAPTURE)%Z))
      as (rest' & Er & Hinv').
    { destruct tr.
      - cbn in Ec. injection Ec as <- <-. by exists rest.
      - destruct (Hinv eq_refl) as [-> Hs]. apply capture_prefix in Ec as [[r Hr] Hc].
        destruct (Hc eq_refl Hs) as (Hb & _ & Hf). exists (r ++ concat chunks).
        cbn [concat]. rewrite !app_assoc, Hr. split; [done|].
        intros Htr. split; [|done]. rewrite (Hf Htr) in Hr.
        rewrite <-(app_nil_r (seen ++ c)) in Hr at 1. apply app_inv_head in Hr. by rewrite <-Hr. }
    rewrite Er in *. apply indicates_prefix in Hsse as Hn. rewrite Hn.
    destruct st; by apply IH with (rest := rest').
Qed.

(** ** The views are well-formed *)

Section Wf.
Context {SJL : SerdeJsonLaws}.

Lemma wf_value_json_object2 k1 k2 (s1 s2 : bytes) :
  wf_value (json_object [(k1, Str s1); (k2, Str s2)] : json).
Proof. apply wf_json_object. repeat constructor. Qed.

Lemma wf_parse_json_body b : wf_value (parse_json_body b).
Proof using SJL.
  unfold parse_json_body. cbv zeta. destruct (trim _) as [|x t]; [constructor|].
  destruct (from_str _) eqn:E; [by eapply from_str_wf|apply wf_value_json_object2].
Qed.

Lemma wf_event_of_data d : Forall wf_value (event_of_data d).
Proof using SJL.
  unfold event_of_data. case_match; [constructor|].
  destruct (from_str d) eqn:E; apply Forall_singleton; [by eapply from_str_wf|apply wf_value_json_object2].
Qed.

Lemma wf_flush_sse_data dl items : Forall wf_value items -> Forall wf_value (flush_sse_data (dl, items)).2.
Proof using SJL.
  unfold flush_sse_data. cbn [fst snd]. intros H. destruct dl; [done|].
  apply Forall_app. split; [done|apply wf_event_of_data].
Qed.

Lemma wf_parse_sse_data b : wf_value (parse_sse_data b).
Proof using SJL.
  unfold parse_sse_data. constructor.
  set (st := fold_left _ _ _). assert (H : Forall wf_value st.2).
  { subst st. apply (fold_left_inv (fun st => Forall wf_value st.2) (fun _ => True)); [|constructor|].
    - intros [dl items] l H _. unfold parse_sse_line. destruct l; [by apply wf_flush_sse_data|].
      by case_match.
    - by apply Forall_true. }
  destruct st as [dl items]. by apply wf_flush_sse_data.
Qed.

Lemma wf_view_of_parsed protocol kind parsed upath :
  wf_value parsed -> wf_value (view_of_parsed protocol kind parsed upath).
Proof.
  intros Hp. unfold view_of_parsed. cbv zeta.
  repeat match goal with |- wf_value (if ?b then _ else _) => destruct b end;
    eauto using wf_pick_value, OpenAiChat.chat_wf_aggregate, OpenAiResponses.responses_wf_view, Anthropic.anthropic_wf_view,
      Gemini.gemini_wf_request_view, Gemini.gemini_wf_view, Dashscope.dashscope_wf_view, Bedrock.bedrock_wf_request_view,
      Bedrock.bedrock_wf_view, Cohere.cohere_wf_view.
Qed.

Lemma wf_field_view protocol kind b upath : wf_value (field_view protocol kind b upath).
Proof using SJL.
  unfold field_view. apply wf_view_of_parsed.
  destruct (looks_like_sse b); [apply wf_parse_sse_data|apply wf_parse_json_body].
Qed.
End Wf.

(** ** Reading the claims back *)

Lemma claims_members head norm_method status protocol rq rs streaming c :
  build_field_claims_from_views head norm_method status protocol rq rs streaming = Some c ->
  value_get "nonce" c = Some (Str (nonce head))
  /\ value_get "protocol_family" c = Some (Str protocol)
  /\ value_get "upstream_host" c = Some (Str (to_ascii_lowercase (host (upstream head))))
  /\ value_get "upstream_path" c = Some (Str (path_no_query (path (upstream head))))
  /\ value_get "http_method" c = Some (Str (to_ascii_uppercase norm_method))
  /\ value_get "http_status" c = Some (json_int status)
  /\ value_get "upstream_request_fields_sha256" c = Some (Str (sha256_hex (canonical_json rq)))
  /\ value_get "upstream_response_fields_sha256" c = Some (Str (sha256_hex (canonical_json rs)))
  /\ value_get "streaming" c = Some (Bool streaming).
Proof.
  unfold build_field_claims_from_views.
  destruct (negb (has_required_presence protocol "request" rq)); [done|].
  destruct (negb (has_required_presence protocol "response" rs)); [done|]. cbv zeta.
  destruct (field_policy_version protocol) as [version|]; [|done].
  intros [= <-]. repeat split.
Qed.

Lemma wf_claims head norm_method status protocol rq rs streaming c :
  build_field_claims_from_views head norm_method status protocol rq rs streaming = Some c -> wf_value c.
Proof.
  unfold build_field_claims_from_views.
  destruct (negb (has_required_presence protocol "request" rq)); [done|].
  destruct (negb (has_required_presence protocol "response" rs)); [done|]. cbv zeta.
  destruct (field_policy_version protocol) as [version|]; [|done].
  intros [= <-]. apply wf_json_object. repeat constructor.
Qed.

(** * Properties *)

(** C14. Re-chunking does not change the claims: two deliveries of the same
    response body give the same field claims, for an event-stream response of
    any length and for any other response up to the capture limit. *)
Theorem collect_any_chunking head req_body content_type norm_method status chunks chunks' :
  concat chunks = concat chunks' ->
  is_sse_content_type content_type = true
    \/ (zlen (concat chunks) <= MAX_FIELD_CLAIMS_CAPTURE)%Z ->
  collect head req_body content_type norm_method status chunks
    = collect head req_body content_type norm_method status chunks'.
Proof.
  intros E Hlen. rewrite collect_whole_body by done. rewrite E in *. by rewrite collect_whole_body.
Qed.

(** For a response announced as an event stream, whose body looks like
    one, the incremental collector and the whole-body reference
    [build_field_claims] make the same claims. *)
Theorem collect_matches_body_claims head req_body content_type norm_method status chunks :
  is_sse_content_type content_type = true ->
  looks_like_sse (concat chunks) = true ->
  collect head req_body content_type norm_method status chunks
    = build_field_claims head norm_method status req_body (concat chunks).
Proof.
  intros Hct Hlooks. rewrite collect_whole_body by (by left).
  unfold collect_whole, collector_new, build_field_claims.
  destruct (detect_for_head head req_body) as [p|] eqn:Hp; [|done]. cbn [mbind option_bind].
  apply detect_supported, state_new_supported in Hp as [st Hst].
  unfold build_field_claims_from_views at 2.
  destruct (has_required_presence p "request" _) eqn:Hreq; cbn [negb]; [|done].
  unfold initial_body. rewrite Hct, Hst. cbn [mbind option_bind body protocol req_view whole_view].
  unfold build_field_claims_from_views. rewrite Hreq. cbn [negb].
  unfold field_view. by rewrite Hlooks.
Qed.

(** A response over the capture limit that is not an event stream gets no
    field claims, whatever its chunks: claims are never made of a truncated
    body. *)
Theorem oversized_body_no_claims head req_body content_type norm_method status chunks p :
  detect_for_head head req_body = Some p ->
  initial_body p content_type (path (upstream head))
    (request_indicates_streaming p req_body (path (upstream head))) = Some (Sniffing [] false (state_new p)) ->
  body_prefix_indicates_sse (concat chunks) = false ->
  (MAX_FIELD_CLAIMS_CAPTURE < zlen (concat chunks))%Z ->
  collect head req_body content_type norm_method status chunks = None.
Proof.
  intros Hp Hb Hsse Hlen. unfold collect, collector_new. rewrite Hp. cbn [mbind option_bind].
  destruct (negb _); [done|]. rewrite Hb. cbn [mbind option_bind]. rewrite collector_run.
  unfold collector_finish. cbn [protocol req_view body].
  by rewrite (sniffing_over_limit _ p _ chunks [] false (concat chunks) (concat chunks)).
Qed.

(** C15. The claims bind what they speak of: equal claims are for the same
    nonce, protocol, host, path, method, status and streaming flag, and the
    same request and response fields, unless SHA-256 has a collision. *)
Theorem claims_bind `{SJL : !SerdeJsonLaws} head1 m1 s1 p1 rq1 rs1 st1 head2 m2 s2 p2 rq2 rs2 st2 c :
  build_field_claims_from_views head1 m1 s1 p1 rq1 rs1 st1 = Some c ->
  build_field_claims_from_views head2 m2 s2 p2 rq2 rs2 st2 = Some c ->
  wf_value rq1 -> wf_value rs1 -> wf_value rq2 -> wf_value rs2 ->
  (0 <= s1 <= u16_max)%Z -> (0 <= s2 <= u16_max)%Z ->
  nonce head1 = nonce head2 /\ p1 = p2
  /\ to_ascii_lowercase (host (upstream head1)) = to_ascii_lowercase (host (upstream head2))
  /\ path_no_query (path (upstream head1)) = path_no_query (path (upstream head2))
  /\ to_ascii_uppercase m1 = to_ascii_uppercase m2 /\ s1 = s2 /\ st1 = st2
  /\ (rq1 = rq2 \/ sha_collision (canonical_json rq1) (canonical_json rq2))
  /\ (rs1 = rs2 \/ sha_collision (canonical_json rs1) (canonical_json rs2)).
Proof.
  intros H1 H2 Wq1 Ws1 Wq2 Ws2 B1 B2.
  apply claims_members in H1 as (N1 & P1 & Ho1 & Pa1 & M1 & S1 & Q1 & R1 & T1).
  apply claims_members in H2 as (N2 & P2 & Ho2 & Pa2 & M2 & S2 & Q2 & R2 & T2).
  assert (s1 = s2).
  { rewrite S1 in S2. injection S2 as E. apply (f_equal number_as_i64) in E.
    unfold u16_max in *. rewrite !number_from_i64_as_i64 in E by lia. congruence. }
  assert (G : forall a b : json, wf_value a -> wf_value b ->
    sha256_hex (canonical_json a) = sha256_hex (canonical_json b) ->
    a = b \/ sha_collision (canonical_json a) (canonical_json b)).
  { intros a b Wa Wb E. apply sha256_hex_inj in E as [E|E]; [left|by right].
    by apply canonical_json_inj. }
  repeat split; try congruence; apply G; congruence.
Qed.

(** C26. The capture limit does not protect a sniffed event stream: when one
    chunk carries more than the limit and its captured prefix looks like an
    event stream, the rest of the chunk is dropped, the truncation mark with
    it, and the collector goes on as if the captured prefix had been all. *)
Theorem sniffed_stream_drops_tail st chunk :
  (MAX_FIELD_CLAIMS_CAPTURE < zlen chunk)%Z ->
  body_prefix_indicates_sse (take (Z.to_nat MAX_FIELD_CLAIMS_CAPTURE) chunk) = true ->
  body_push (Sniffing [] false (Some st)) chunk
    = body_push (Streaming sse_default st) (take (Z.to_nat MAX_FIELD_CLAIMS_CAPTURE) chunk).
Proof.
  intros Hlen Hsse. cbn [body_push]. unfold capture_field_body. cbn [zlen length].
  change (Z.max 0 (MAX_FIELD_CLAIMS_CAPTURE - zlen [])) with MAX_FIELD_CLAIMS_CAPTURE.
  rewrite (proj2 (Z.ltb_lt _ _)) by done. cbn [app]. by rewrite Hsse.
Qed.
End Collector.

(** * Witnesses *)

Section Witnesses.
#[local] Instance no_env : Env := fun _ => None.

Definition sample_head (path : bytes) : ReqHead :=
  mkReqHead "bm9uY2U=" 443 (mkUpstream "API.OpenAI.com" "post" path [] None) None None None None None None.

Definition sample_request : bytes := js "{'model':'m','messages':[{'role':'user','content':'hi'}]}".

Definition sample_stream : list bytes :=
  ["data: "; js "{'choices':[{'index':0,'delta':{'role':'assistant','content':'He'}}]}"; Byte.x0a :: nil;
   [Byte.x0a]; "data: " ++ js "{'choices':[{'index':0,'delta':{'content':'llo'},'finish_reason':'stop'}]}";
   [Byte.x0d; Byte.x0a; Byte.x0d; Byte.x0a]; "data: [DONE]"; [Byte.x0a; Byte.x0a]].

Lemma collect_any_chunking_witness :
  let once := [concat sample_stream] in
  concat sample_stream = concat once
  /\ collect (sample_head "/v1/chat/completions") sample_request "" "POST" 200 sample_stream
     = collect (sample_head "/v1/chat/completions") sample_request "" "POST" 200 once
  /\ is_Some (collect (sample_head "/v1/chat/completions") sample_request "" "POST" 200 once).
Proof.
  split; [reflexivity|split].
  - apply collect_any_chunking; [reflexivity|right; vm_compute; discriminate].
  - vm_compute. by eexists.
Defined.

Lemma collect_matches_body_claims_witness :
  collect (sample_head "/v1/chat/completions") sample_request "text/event-stream" "POST" 200 sample_stream
    = build_field_claims (sample_head "/v1/chat/completions") "POST" 200 sample_request (concat sample_stream).
Proof. apply collect_matches_body_claims; vm_compute; reflexivity. Defined.

Definition big_body : bytes := replicate (Z.to_nat (MAX_FIELD_CLAIMS_CAPTURE + 1)) Byte.x61.

Lemma zlen_replicate (n : Z) (b : byte) : (0 <= n)%Z -> zlen (replicate (Z.to_nat n) b) = n.
Proof. intros. unfold zlen. rewrite length_replicate. lia. Qed.

Lemma take_big (k : nat) (n : Z) (b : byte) :
  (Z.of_nat k <= n)%Z -> take k (replicate (Z.to_nat n) b) = replicate k b.
Proof. intros. rewrite take_replicate. by replace (k `min` Z.to_nat n) with k by lia. Qed.

Lemma oversized_body_no_claims_witness :
  collect (sample_head "/v1/chat/completions") sample_request "application/json" "POST" 200 [big_body] = None.
Proof.
  apply oversized_body_no_claims with (p := "openai.chat_completions").
  - reflexivity.
  - reflexivity.
  - cbn [concat]. rewrite app_nil_r. unfold body_prefix_indicates_sse, big_body.
    rewrite take_big by (vm_compute; discriminate). vm_compute. reflexivity.
  - cbn [concat]. rewrite app_nil_r. unfold big_body. rewrite zlen_replicate by (vm_compute; discriminate).
    vm_compute. reflexivity.
Defined.

Definition request_view1 : value number := pick_value (parse_json_body sample_request) ["model"; "messages"].
Definition response_view1 : value number :=
  view_of_parsed "openai.chat_completions" "response" (parse_sse_data (concat sample_stream)) None.

(** The query string is not claimed. *)
Lemma claims_bind_witness :
  let claims path := build_field_claims_from_views (sample_head path) "POST" 200
    "openai.chat_completions" request_view1 response_view1 true in
  claims "/v1/chat/completions" = claims "/v1/chat/completions?x=1"
  /\ is_Some (claims "/v1/chat/completions")
  /\ path_no_query "/v1/chat/completions" = path_no_query "/v1/chat/completions?x=1".
Proof.
  cbv zeta. split; [vm_compute; reflexivity|]. split; [vm_compute; by eexists|].
  destruct (build_field_claims_from_views (sample_head "/v1/chat/completions") "POST" 200
    "openai.chat_completions" request_view1 response_view1 true) as [c|] eqn:E;
    [|vm_compute in E; discriminate].
  assert (E' : build_field_claims_from_views (sample_head "/v1/chat/completions?x=1") "POST" 200
    "openai.chat_completions" request_view1 response_view1 true = Some c)
    by (rewrite <-E; vm_compute; reflexivity).
  assert (wf_value request_view1) by apply wf_pick_value, wf_parse_json_body.
  assert (wf_value response_view1) by apply wf_view_of_parsed, wf_parse_sse_data.
  assert (B : (0 <= 200 <= u16_max)%Z) by (unfold u16_max; lia).
  refine (proj1 (proj2 (proj2 (proj2 (claims_bind (sample_head "/v1/chat/completions") "POST" 200
    "openai.chat_completions" request_view1 response_view1 true (sample_head "/v1/chat/completions?x=1")
    "POST" 200 "openai.chat_completions" request_view1 response_view1 true c E E' _ _ _ _ B B)))));
    assumption.
Defined.

Lemma sniffed_stream_drops_tail_witness :
  let chunk := "data:" ++ replicate (Z.to_nat MAX_FIELD_CLAIMS_CAPTURE) Byte.x61 in
  let st := StOpenAiChat OpenAiChat.openai_chat_default in
  body_push (Sniffing [] false (Some st)) chunk
    = body_push (Streaming sse_default st) (take (Z.to_nat MAX_FIELD_CLAIMS_CAPTURE) chunk).
Proof.
  cbv zeta. apply sniffed_stream_drops_tail.
  - rewrite zlen_app, zlen_replicate by (vm_compute; discriminate). vm_compute. reflexivity.
  - unfold body_prefix_indicates_sse. rewrite take_take.
    replace (MAX_STREAM_SNIFF_BYTES `min` Z.to_nat MAX_FIELD_CLAIMS_CAPTURE) with (5 + 4091)
      by (unfold MAX_STREAM_SNIFF_BYTES, MAX_FIELD_CLAIMS_CAPTURE; lia).
    rewrite take_app_add' by reflexivity. rewrite take_big by (vm_compute; discriminate).
    vm_compute. reflexivity.
Defined.
End Witnesses.
