(* ===== verification/CollectorTyping.v ===== *)
(** The data the collector keeps is well-formed whatever bytes arrive: a typing
    invariant of [FieldResponseCollector] of [Collector.v], kept by
    [collector_push], under which [collector_finish] makes well-formed
    claims. *)

From S2P Require Import Prelude RustStr BTree Json Digest Paths Protocol Sse EventStream Collector Sample.
From S2P Require OpenAiChat OpenAiResponses Anthropic Gemini Dashscope Bedrock Cohere.
Local Open Scope bytes_scope.

Section Typing.
Context `{SJ : SerdeJson} `{SJL : !SerdeJsonLaws} `{SH : Sha256} `{EN : Env}.
Abbreviation json := (value number).

(** A reader of a response body for [protocol]: its state is that of the
    protocol, after some well-formed events, and what it has captured is within
    the limit. *)
Inductive body_typed (protocol : bytes) : FieldResponseBody -> Prop :=
  | typed_streaming parser st0 events :
      state_new protocol = Some st0 -> Forall wf_value events ->
      body_typed protocol (Streaming parser (fold_left state_apply events st0))
  | typed_aws parser events :
      protocol = "aws.bedrock.converse" -> Forall wf_value events ->
      body_typed protocol (AwsEventStream parser (fold_left Bedrock.apply events Bedrock.bedrock_default))
  | typed_sniffing body truncated :
      (zlen body <= MAX_FIELD_CLAIMS_CAPTURE)%Z ->
      body_typed protocol (Sniffing body truncated (state_new protocol)).

Record collector_typed (c : FieldResponseCollector) : Prop := {
  ct_protocol : In (protocol c) SUPPORTED_PROTOCOLS;
  ct_request : wf_value (req_view c);
  ct_body : body_typed (protocol c) (body c);
}.

(** ** The parsers emit well-formed events *)

Lemma sse_push_wf p chunk : Forall wf_value (Sse.push p chunk).2.
Proof.
  assert (L : forall p line, Forall wf_value (process_line p line).2).
  { intros q line. unfold process_line, flush. repeat case_match; try constructor; apply wf_event_of_data. }
  unfold Sse.push. generalize (length (Sse.pending (mkSse (Sse.pending p ++ chunk) (data_lines p)))).
  generalize (mkSse (Sse.pending p ++ chunk) (data_lines p)). intros q fuel. revert q.
  induction fuel as [|fuel IH]; intros q; cbn [Sse.push_loop]; [constructor|].
  destruct (find_byte _ _) as [pos|]; [|constructor].
  specialize (L (mkSse (drop (S pos) (Sse.pending q)) (data_lines q)) (strip_cr (take pos (Sse.pending q)))).
  destruct (process_line _ _) as [q1 e1]. specialize (IH q1). destruct (Sse.push_loop fuel q1) as [q2 e2].
  cbn [snd] in *. by apply Forall_app.
Qed.

Lemma sse_finish_wf p : Forall wf_value (Sse.finish p).2.
Proof.
  assert (F : forall q, Forall wf_value (flush q).2).
  { intros q. unfold flush. destruct (data_lines q); [constructor|apply wf_event_of_data]. }
  unfold Sse.finish. destruct (Sse.pending p) as [|b l].
  - specialize (F p). destruct (flush p) as [q e]. exact F.
  - destruct (process_line _ _) as [q1 e1] eqn:E.
    assert (W : Forall wf_value e1).
    { unfold process_line in E. destruct (strip_prefix _ _); injection E as _ <-; constructor. }
    specialize (F q1). destruct (flush q1) as [q2 e2]. cbn [snd] in *. by apply Forall_app.
Qed.

Lemma payload_events_wf message events : payload_events message = Some events -> Forall wf_value events.
Proof.
  unfold payload_events. case_match; [by intros [= <-]|]. cbv zeta.
  destruct (trim _) as [|b t]; [by intros [= <-]|].
  destruct (from_str (b :: t)) as [v|] eqn:E; [|done]. intros [= <-]. constructor; [by eapply from_str_wf|constructor].
Qed.

Lemma aws_push_wf p chunk : Forall wf_value (EventStream.push p chunk).2.
Proof.
  unfold EventStream.push. destruct (failed p); [constructor|].
  generalize (S (length (pending p ++ chunk))). generalize (pending p ++ chunk). intros s fuel. revert s.
  induction fuel as [|fuel IH]; intros s; cbn [EventStream.push_loop]; [constructor|].
  destruct (length s <? 12)%nat; [constructor|]. destruct (bad_lengths s); [constructor|].
  destruct (zlen s <? total_len s)%Z; [constructor|]. cbv zeta.
  destruct (payload_events _) as [events|] eqn:E; [|constructor]. apply payload_events_wf in E.
  specialize (IH (drop (Z.to_nat (total_len s)) s)). destruct (EventStream.push_loop fuel _) as [p2 e2].
  cbn [snd] in *. by apply Forall_app.
Qed.

(** ** The invariant *)

Lemma initial_body_typed protocol content_type upath rs b :
  In protocol SUPPORTED_PROTOCOLS -> initial_body protocol content_type upath rs = Some b -> body_typed protocol b.
Proof.
  intros Hp. destruct (state_new_supported protocol Hp) as [st Hst]. unfold initial_body. rewrite Hst. cbn [mbind option_bind].
  destruct (is_sse_content_type content_type); [intros [= <-]; by apply (typed_streaming _ _ _ [])|].
  destruct (eqs protocol "aws.bedrock.converse" && _) eqn:Haws.
  { intros [= <-]. apply andb_prop in Haws as [Haws%bool_decide_eq_true _]. by apply (typed_aws _ _ []). }
  destruct rs; [intros [= <-]; by apply (typed_streaming _ _ _ [])|].
  intros [= <-]. rewrite <-Hst. constructor. unfold MAX_FIELD_CLAIMS_CAPTURE, zlen. cbn. lia.
Qed.

Lemma body_push_typed protocol b chunk :
  In protocol SUPPORTED_PROTOCOLS -> body_typed protocol b -> body_typed protocol (body_push b chunk).
Proof.
  intros Hp [parser st0 events Hst Hev|parser events He Hev|body truncated Hlen]; cbn [body_push].
  - pose proof (sse_push_wf parser chunk) as W. destruct (Sse.push parser chunk) as [q new]. cbn [snd] in W.
    rewrite <-fold_left_app. constructor; [done|]. by apply Forall_app.
  - pose proof (aws_push_wf parser chunk) as W. destruct (EventStream.push parser chunk) as [q new]. cbn [snd] in W.
    rewrite <-fold_left_app. constructor; [done|]. by apply Forall_app.
  - destruct (capture_field_body (body, truncated) chunk) as [body' truncated'] eqn:Ec.
    assert (Hlen' : (zlen body' <= MAX_FIELD_CLAIMS_CAPTURE)%Z).
    { destruct truncated; [by injection Ec as <- _|]. apply capture_prefix in Ec as [_ Ec]. by apply Ec. }
    destruct (state_new_supported protocol Hp) as [st Hst]. rewrite Hst.
    destruct (body_prefix_indicates_sse body'); [|rewrite <-Hst; by constructor].
    pose proof (sse_push_wf sse_default body') as W. destruct (Sse.push sse_default body') as [q new]. cbn [snd] in W.
    by constructor.
Qed.

Lemma body_finish_wf protocol b upath view streaming :
  body_typed protocol b -> body_finish b protocol upath = Some (view, streaming) -> wf_value view.
Proof.
  intros [parser st0 events Hst Hev|parser events -> Hev|body truncated Hlen]; cbn [body_finish].
  - pose proof (sse_finish_wf parser) as W. destruct (Sse.finish parser) as [q new]. cbn [snd] in W.
    intros [= <- _]. rewrite <-fold_left_app, (state_finish_batch protocol _ _ None) by done.
    apply wf_view_of_parsed. constructor. by apply Forall_app.
  - destruct (failed _); [done|]. intros [= <- _]. rewrite (Bedrock.bedrock_stream_is_batch events).
    apply Bedrock.bedrock_wf_aggregate. by constructor.
  - destruct truncated; [done|]. intros [= <- _]. apply wf_field_view.
Qed.

Lemma collector_new_typed head req_body content_type c :
  collector_new head req_body content_type = Some c -> collector_typed c.
Proof.
  unfold collector_new. destruct (detect_for_head head req_body) as [p|] eqn:Hp; [|done]. cbn [mbind option_bind].
  apply detect_supported in Hp. destruct (negb _); [done|].
  destruct (initial_body p _ _ _) as [b|] eqn:Hb; [|done]. cbn [mbind option_bind]. intros [= <-].
  split; cbn [protocol req_view body]; [done|apply wf_field_view|by eapply initial_body_typed].
Qed.

Lemma collector_push_typed c chunk : collector_typed c -> collector_typed (collector_push c chunk).
Proof. intros [Hp Hq Hb]. split; cbn [collector_push protocol req_view body]; auto using body_push_typed. Qed.

(** * Property *)

(** C17. Whatever bytes the upstream sends, in whatever chunks, the collector is
    well-typed at every moment: its protocol is a supported one, its reader is
    in a state of that protocol reached by well-formed events, what it has
    captured is within the limit; and the view it ends with and the claims made
    of it are well-formed JSON, every object with its keys in order and none
    twice. *)
Theorem collector_well_typed head req_body content_type c0 chunks :
  collector_new head req_body content_type = Some c0 ->
  let c := fold_left collector_push chunks c0 in
  collector_typed c
  /\ (forall upath view streaming, body_finish (body c) (protocol c) upath = Some (view, streaming) -> wf_value view)
  /\ (forall norm_method status claims, collector_finish c head norm_method status = Some claims -> wf_value claims).
Proof.
  intros H. cbv zeta.
  assert (T : collector_typed (fold_left collector_push chunks c0)).
  { apply collector_new_typed in H. revert c0 H. induction chunks as [|x chunks IH]; intros c0 H; [done|].
    cbn [fold_left]. by apply IH, collector_push_typed. }
  split; [done|]. split.
  - intros upath view streaming. apply body_finish_wf, T.
  - intros norm_method status claims. unfold collector_finish.
    destruct (body_finish _ _ _) as [[view streaming]|]; [|done]. cbn [mbind option_bind]. apply wf_claims.
Qed.
End Typing.

(** * Witness *)

Section Witness.
#[local] Instance typing_env : Env := fun _ => None.

Lemma collector_well_typed_witness :
  exists c0, collector_new (sample_head "/v1/chat/completions") sample_request "text/event-stream" = Some c0
    /\ collector_typed (fold_left collector_push sample_stream c0).
Proof.
  assert (B : match collector_new (sample_head "/v1/chat/completions") sample_request "text/event-stream" with
    | Some _ => true | None => false end = true) by (vm_compute; reflexivity).
  destruct (collector_new (sample_head "/v1/chat/completions") sample_request "text/event-stream") as [c0|] eqn:E;
    [|discriminate].
  exists c0. split; [reflexivity|].
  exact (proj1 (collector_well_typed _ _ _ _ sample_stream E)).
Defined.
End Witness.
