(* ===== verification/Statement.v ===== *)
(** The signed statement: [build_v2_statement] of [main.rs], the frozen vectors
    of [signing-vectors.json], and the proof that a statement determines the
    exchange it is signed for. *)

From S2P Require Import Prelude RustStr BTree Json Digest Paths Sample.
Local Open Scope bytes_scope.

Definition DOMAIN_V2 : bytes := "tee-exchange-v2".

Section Statement.
Context `{SJ : SerdeJson} `{SH : Sha256} `{UC : UnicodeCase}.
Abbreviation json := (value number).

Definition nl : bytes := [Byte.x0a].

Definition build_v2_statement (nonce_b64 upstream_host upstream_path http_method : bytes)
    (http_status : Z) (resp_content_type request_body_sha256_hex response_body_sha256_hex : bytes)
    (field_claims : option json) : bytes :=
  let out := [] in
  let out := out ++ DOMAIN_V2 in
  let out := out ++ nl in
  let out := out ++ "nonce=" ++ nonce_b64 ++ nl in
  let out := out ++ "upstream-host=" ++ to_lowercase upstream_host ++ nl in
  let out := out ++ "upstream-path=" ++ path_no_query upstream_path ++ nl in
  let out := out ++ "http-method=" ++ to_uppercase http_method ++ nl in
  let out := out ++ "http-status=" ++ show_Z http_status ++ nl in
  let out := out ++ "resp-content-type=" ++ resp_content_type ++ nl in
  let out := out ++ "request-body-sha256=" ++ request_body_sha256_hex ++ nl in
  let out := out ++ "response-body-sha256=" ++ response_body_sha256_hex ++ nl in
  match field_claims with
  | Some claims => out ++ "field-claims-sha256=" ++ field_claims_sha256_hex claims ++ nl
  | None => out
  end.

(** ** A statement is a list of lines *)

Definition statement_lines (nonce host path method : bytes) (status : Z)
    (content_type req_hash resp_hash : bytes) (claims : option json) : list bytes :=
  [DOMAIN_V2; "nonce=" ++ nonce; "upstream-host=" ++ to_lowercase host;
   "upstream-path=" ++ path_no_query path; "http-method=" ++ to_uppercase method;
   "http-status=" ++ show_Z status; "resp-content-type=" ++ content_type;
   "request-body-sha256=" ++ req_hash; "response-body-sha256=" ++ resp_hash]
  ++ match claims with
     | Some c => ["field-claims-sha256=" ++ field_claims_sha256_hex c]
     | None => []
     end.

Definition unlines (ls : list bytes) : bytes := concat (map (fun l => l ++ nl) ls).

Lemma build_v2_statement_lines nonce host path method status ct rq rs claims :
  build_v2_statement nonce host path method status ct rq rs claims
    = unlines (statement_lines nonce host path method status ct rq rs claims).
Proof.
  unfold build_v2_statement, unlines, statement_lines.
  destruct claims; repeat progress (cbn [app map concat]; rewrite <-?app_assoc); by rewrite ?app_nil_r.
Qed.

Lemma unlines_split ls :
  Forall (fun l => ~ In Byte.x0a l) ls -> split_on Byte.x0a (unlines ls) = ls ++ [[]].
Proof.
  induction 1 as [|l ls Hl _ IH]; [done|].
  change (unlines (l :: ls)) with ((l ++ nl) ++ unlines ls).
  unfold nl. rewrite <-app_assoc. cbn [app]. by rewrite split_on_app, split_on_none, IH.
Qed.

Lemma unlines_inj ls ls' :
  Forall (fun l => ~ In Byte.x0a l) ls -> Forall (fun l => ~ In Byte.x0a l) ls' ->
  unlines ls = unlines ls' -> ls = ls'.
Proof.
  intros H H' E. apply (f_equal (split_on Byte.x0a)) in E.
  rewrite !unlines_split in E by done. by apply app_inj_tail in E as [? _].
Qed.

(** What the fields of a statement must not hold for it to be read back:
    the guards of [handle] and [write_attested_trailer]. *)
Record statement_fields (nonce host path method : bytes) (status : Z) (ct rq rs : bytes) : Prop := {
  sf_nonce : ~ In Byte.x0a nonce;
  sf_host : ~ In Byte.x0a (to_lowercase host);
  sf_path : ~ In Byte.x0a path;
  sf_method : ~ In Byte.x0a (to_uppercase method);
  sf_status : (0 <= status)%Z;
  sf_content_type : ~ In Byte.x0a ct;
  sf_req : ~ In Byte.x0a rq;
  sf_resp : ~ In Byte.x0a rs;
}.

Lemma no_nl_key (key v : bytes) : ~ In Byte.x0a key -> ~ In Byte.x0a v -> ~ In Byte.x0a (key ++ v).
Proof. rewrite in_app_iff. tauto. Qed.

Lemma statement_lines_no_nl nonce host path method status ct rq rs claims :
  statement_fields nonce host path method status ct rq rs ->
  Forall (fun l => ~ In Byte.x0a l) (statement_lines nonce host path method status ct rq rs claims).
Proof.
  intros []. unfold statement_lines. apply Forall_app. split.
  - repeat constructor; try (apply no_nl_key; [cbn; intuition congruence|]); try done.
    + cbn. intuition congruence.
    + by intros ?%path_no_query_In.
    + by apply show_Z_no_byte.
  - destruct claims as [c|]; constructor; [|constructor].
    apply no_nl_key; [cbn; intuition congruence|apply hex_no_newline].
Qed.

(** The fields are determined by the statement. *)
Lemma statement_inj nonce host path method status ct rq rs claims
    nonce' host' path' method' status' ct' rq' rs' claims' :
  statement_fields nonce host path method status ct rq rs ->
  statement_fields nonce' host' path' method' status' ct' rq' rs' ->
  build_v2_statement nonce host path method status ct rq rs claims
    = build_v2_statement nonce' host' path' method' status' ct' rq' rs' claims' ->
  nonce = nonce' /\ to_lowercase host = to_lowercase host'
  /\ path_no_query path = path_no_query path' /\ to_uppercase method = to_uppercase method'
  /\ status = status' /\ ct = ct' /\ rq = rq' /\ rs = rs'
  /\ option_map field_claims_sha256_hex claims = option_map field_claims_sha256_hex claims'.
Proof.
  intros F F' E. rewrite !build_v2_statement_lines in E.
  apply unlines_inj in E; [|by apply statement_lines_no_nl..].
  unfold statement_lines in E. cbn [app] in E.
  injection E as E1 E2 E3 E4 E5 E6 E7 E8 E9.
  apply show_Z_inj in E5; [|apply F|apply F'].
  repeat split; try done.
  destruct claims, claims'; cbn in *; try done. injection E9 as E9. by rewrite E9.
Qed.
End Statement.

(** The two frozen cases of [signing-vectors.json]. *)
Example vector_v2_basic :
  let req := js "{'model':'example','stream':true}" in
  let resp := ("event: message_start" ++ nl ++ "data: {}" ++ nl ++ nl)%bs in
  build_v2_statement "MDEyMzQ1Njc4OWFiY2RlZg==" "API.Example.Com" "/v1/chat?beta=true" "post" 200
    "text/event-stream; charset=utf-8" (sha256_hex req) (sha256_hex resp) None
  = unlines ["tee-exchange-v2"; "nonce=MDEyMzQ1Njc4OWFiY2RlZg=="; "upstream-host=api.example.com";
      "upstream-path=/v1/chat"; "http-method=POST"; "http-status=200";
      "resp-content-type=text/event-stream; charset=utf-8";
      "request-body-sha256=924067dfbe4731a8f87d4dbc96078edf774685c9c5fb22a50bf210e6fcd2a0a6";
      "response-body-sha256=371d3454662f0d86541fec1c3202000ce425c8c3be9ca0de0e10e5d0225ad8f1"].
Proof. vm_compute. reflexivity. Qed.

Example vector_v2_plain :
  let req := js "{'model':'example'}" in
  let resp := ("data: hi" ++ nl ++ nl)%bs in
  build_v2_statement "bm9uY2Utbm8tc3BraS0wMA==" "api.example.com" "/v1/chat" "POST" 200
    "text/event-stream" (sha256_hex req) (sha256_hex resp) None
  = unlines ["tee-exchange-v2"; "nonce=bm9uY2Utbm8tc3BraS0wMA=="; "upstream-host=api.example.com";
      "upstream-path=/v1/chat"; "http-method=POST"; "http-status=200";
      "resp-content-type=text/event-stream";
      "request-body-sha256=73ca4fa60c11ecd7edcd030d36f51b51800bf003791e21ac7d5a071fbf600f95";
      "response-body-sha256=4c6b77b5de4ea27da37fa0fcfb3e5fdfbf2dbb8917a7eef6ed3eb534e297d644"].
Proof. vm_compute. reflexivity. Qed.

(** C9. The statement determines the exchange: two equal statements, built
    from fields free of line feeds and from the digests of the bodies, are for
    the same nonce, host, path, method, status and content type, and for the
    same request body, response body and field claims, unless SHA-256 has a
    collision. *)
Theorem statement_binds_exchange `{SJ : SerdeJson} `{SH : Sha256} `{UC : UnicodeCase} `{SJL : !SerdeJsonLaws}
    nonce host path method status ct req resp claims
    nonce' host' path' method' status' ct' req' resp' claims' :
  statement_fields nonce host path method status ct (sha256_hex req) (sha256_hex resp) ->
  statement_fields nonce' host' path' method' status' ct' (sha256_hex req') (sha256_hex resp') ->
  (forall c, claims = Some c -> wf_value c) -> (forall c, claims' = Some c -> wf_value c) ->
  build_v2_statement nonce host path method status ct (sha256_hex req) (sha256_hex resp) claims
    = build_v2_statement nonce' host' path' method' status' ct' (sha256_hex req') (sha256_hex resp') claims' ->
  nonce = nonce' /\ to_lowercase host = to_lowercase host'
  /\ path_no_query path = path_no_query path' /\ to_uppercase method = to_uppercase method'
  /\ status = status' /\ ct = ct'
  /\ (req = req' \/ sha_collision req req') /\ (resp = resp' \/ sha_collision resp resp')
  /\ (claims = claims' \/ exists c c', claims = Some c /\ claims' = Some c'
        /\ sha_collision (canonical_json c) (canonical_json c')).
Proof.
  intros F F' W W' E.
  apply statement_inj in E as (? & ? & ? & ? & ? & ? & Hq & Hs & Hc); [|done..].
  apply sha256_hex_inj in Hq, Hs. repeat split; try done.
  destruct claims as [c|], claims' as [c'|]; cbn in Hc; try done; [|by left].
  injection Hc as Hc. apply sha256_hex_inj in Hc as [Hc|Hc]; [left|right; by exists c, c'].
  f_equal. by apply canonical_json_inj; auto.
Qed.

Lemma statement_binds_exchange_witness :
  let stmt path := build_v2_statement "bm9uY2U=" "API.example.com" path "post" 200 "application/json"
    (sha256_hex "req") (sha256_hex "resp") (Some (json_object [("v", json_int 1)])) in
  stmt "/v1?a=1" = stmt "/v1?b=2"
  /\ (path_no_query "/v1?a=1" = path_no_query "/v1?b=2").
Proof.
  assert (F : forall path, ~ In Byte.x0a path ->
    statement_fields "bm9uY2U=" "API.example.com" path "post" 200 "application/json"
      (sha256_hex "req") (sha256_hex "resp")).
  { intros path Hp. split; try exact Hp; try (apply hex_no_newline); try lia;
      apply (bool_decide_unpack _); vm_compute; exact I. }
  assert (E : build_v2_statement "bm9uY2U=" "API.example.com" "/v1?a=1" "post" 200 "application/json"
      (sha256_hex "req") (sha256_hex "resp") (Some (json_object [("v", json_int 1)]))
    = build_v2_statement "bm9uY2U=" "API.example.com" "/v1?b=2" "post" 200 "application/json"
      (sha256_hex "req") (sha256_hex "resp") (Some (json_object [("v", json_int 1)])))
    by (vm_compute; reflexivity).
  assert (W : forall c : value number, Some (json_object [("v", json_int 1)]) = Some c -> wf_value c).
  { intros c [= <-]. repeat constructor. }
  split; [exact E|].
  exact (proj1 (proj2 (proj2 (statement_binds_exchange _ _ _ _ _ _ _ _ _ _ _ _ _ _ _ _ _ _
    (F "/v1?a=1" ltac:(cbn; intuition congruence)) (F "/v1?b=2" ltac:(cbn; intuition congruence)) W W E)))).
Defined.
