(* ===== verification/Io.v ===== *)
(** Byte streams: the control connection ([VsockStream]) with [read_exact] and
    [write_all], and the upstream connection as a script of what its [read]
    calls return. *)

From S2P Require Import Prelude RustStr.

(** * Errors *)

Inductive ErrorKind := UnexpectedEof | ConnectionAborted | InvalidData | WouldBlock | TimedOut | OtherKind.

(** [std::io::Error]: its kind and its [Display] text. *)
Record io_error := mkIoError {
  kind : ErrorKind;
  display : bytes;
}.

(** * The control connection

    [inbox] is what the peer has sent, [outbox] what has been written;
    [write_limit] lists the writes that will fail: with [(room, e)] at its head
    the connection takes [room] more bytes, then a write fails with [e], and
    the connection goes on with the rest of the list.  A time-out is one such
    entry, after which writes may succeed again; a broken connection is a run of
    entries without room.  With an empty list no write fails.  A read ends at
    the end of [inbox]: which error it is (the end of the stream or a time-out)
    makes no difference to [handle] but for the text of its error. *)

Record Control := mkControl {
  inbox : bytes;
  outbox : bytes;
  write_limit : list (nat * io_error);
}.

(** [Read::read_exact]: the standard library's error text is its own. *)
Definition read_exact (n : Z) (c : Control) : Control * result bytes io_error :=
  if (zlen (inbox c) <? n)%Z then
    (mkControl [] (outbox c) (write_limit c), Err (mkIoError UnexpectedEof "failed to fill whole buffer"%bs))
  else
    (mkControl (drop (Z.to_nat n) (inbox c)) (outbox c) (write_limit c), Ok (take (Z.to_nat n) (inbox c))).

(** [Write::write_all]: a write that fails has taken a prefix. *)
Definition write_all (data : bytes) (c : Control) : Control * result unit io_error :=
  match write_limit c with
  | [] => (mkControl (inbox c) (outbox c ++ data) [], Ok tt)
  | (room, e) :: more =>
      if (length data <=? room)%nat then
        (mkControl (inbox c) (outbox c ++ data) ((room - length data, e) :: more), Ok tt)
      else
        (mkControl (inbox c) (outbox c ++ take room data) more, Err e)
  end.

(** * The upstream connection *)

(** What one [read] of the connection gives: bytes (at most as many as asked,
    the rest stays), or an error.  A script that is used up is at its end. *)
Inductive read_event :=
  | Data (b : bytes)
  | Fail (e : io_error).

Definition script : Type := list read_event.

Definition read (limit : nat) (r : script) : script * result bytes io_error :=
  match r with
  | [] => ([], Ok [])
  | Fail e :: r => (r, Err e)
  | Data b :: r =>
      if (length b <=? limit)%nat then (r, Ok b)
      else (Data (drop limit b) :: r, Ok (take limit b))
  end.

(** An upper bound on the number of reads until the end is seen. *)
Fixpoint script_size (r : script) : nat :=
  match r with
  | [] => 0
  | Data b :: r => S (length b + script_size r)
  | Fail _ :: r => S (script_size r)
  end.

(** The bytes of a script without errors. *)
Fixpoint content (r : script) : bytes :=
  match r with
  | [] => []
  | Data b :: r => b ++ content r
  | Fail _ :: r => content r
  end.

(** A connection that delivers its bytes without errors, never zero at a time
    before the end. *)
Definition delivers (r : script) : Prop :=
  Forall (fun e => match e with Data b => b <> [] | Fail _ => False end) r.

(** A TLS stream over it: what it will be read from, and what has been written
    (with the writes that will fail). *)
Record Tls := mkTls {
  reads : script;
  sent : bytes;
  send_limit : list (nat * io_error);
}.

Definition tls_write_all (data : bytes) (tls : Tls) : Tls * result unit io_error :=
  let '(c, r) := write_all data (mkControl [] (sent tls) (send_limit tls)) in
  (mkTls (reads tls) (outbox c) (write_limit c), r).

(** * Lemmas *)

Lemma read_size limit r r' out :
  read limit r = (r', out) -> 0 < limit -> r <> [] -> script_size r' < script_size r.
Proof.
  unfold read. destruct r as [|[b|e] r]; intros E Hl Hr; [done| |].
  - destruct (Nat.leb_spec (length b) limit); injection E as <- <-; cbn; [lia|].
    rewrite length_drop. lia.
  - injection E as <- <-. cbn. lia.
Qed.

(** A read of a connection that delivers: some bytes, or the end. *)
Lemma read_delivers limit r :
  delivers r -> 0 < limit ->
  (r = [] /\ content r = [] /\ read limit r = ([], Ok []))
  \/ exists b r', read limit r = (r', Ok b) /\ b <> [] /\ length b <= limit
       /\ content r = b ++ content r' /\ delivers r' /\ script_size r' < script_size r
       /\ length b + script_size r' <= script_size r.
Proof.
  intros Hd Hl. destruct r as [|[b|e] r]; [by left| |by inversion_clear Hd].
  right. apply Forall_cons_1 in Hd as [Hb Hd]. cbn [read].
  destruct (Nat.leb_spec (length b) limit).
  - exists b, r. repeat split; try done; cbn; lia.
  - exists (take limit b), (Data (drop limit b) :: r).
    split; [done|]. split; [destruct b, limit; cbn in *; (done || lia)|].
    split; [rewrite length_take; lia|]. cbn [content script_size].
    rewrite app_assoc, take_drop. repeat split; [|rewrite length_drop; lia|rewrite length_take, length_drop; lia].
    constructor; [|done]. intros E. apply (f_equal length) in E. rewrite length_drop in E. cbn in E. lia.
Qed.

Lemma write_all_outbox data c c' r :
  write_all data c = (c', r) -> inbox c' = inbox c /\ exists w, outbox c' = outbox c ++ w /\
    (r = Ok tt -> w = data).
Proof.
  unfold write_all. destruct (write_limit c) as [|[room e] more]; [|destruct (length data <=? room)%nat];
    intros [= <- <-]; (split; [done|]); eexists; (split; [reflexivity|]); done.
Qed.

(** A write that fails has not written all: something is missing. *)
Lemma write_all_cut data c c' e :
  write_all data c = (c', Err e) ->
  write_limit c <> [] /\ exists w rest, outbox c' = outbox c ++ w /\ rest <> [] /\ data = w ++ rest.
Proof.
  unfold write_all. destruct (write_limit c) as [|[room e0] more]; [done|].
  destruct (Nat.leb_spec (length data) room) as [|Hr]; [done|]. intros [= <- _]. split; [done|].
  exists (take room data), (drop room data). split; [done|]. split; [|by rewrite take_drop].
  intros E. apply (f_equal length) in E. rewrite length_drop in E. cbn in E. lia.
Qed.

Lemma read_exact_app b rest out lim :
  read_exact (zlen b) (mkControl (b ++ rest) out lim) = (mkControl rest out lim, Ok b).
Proof.
  unfold read_exact. cbn [inbox outbox write_limit]. rewrite zlen_app.
  rewrite (proj2 (Z.ltb_ge _ _)) by (pose proof (zlen_nonneg rest); lia).
  by rewrite zlen_to_nat, take_app_length, drop_app_length.
Qed.

(** A connection that takes [n] bytes without an error, and what is left of it. *)
Definition takes (n : Z) (lim : list (nat * io_error)) : Prop :=
  match lim with (room, _) :: _ => (n <= Z.of_nat room)%Z | [] => True end.
Definition less (n : Z) (lim : list (nat * io_error)) : list (nat * io_error) :=
  match lim with (room, e) :: more => (room - Z.to_nat n, e) :: more | [] => [] end.

Lemma write_all_ok data c c' :
  write_all data c = (c', Ok tt) <->
  takes (zlen data) (write_limit c) /\ c' = mkControl (inbox c) (outbox c ++ data) (less (zlen data) (write_limit c)).
Proof.
  unfold write_all, takes, less. destruct (write_limit c) as [|[room e] more].
  - split; [intros [= <-]|intros [_ ->]]; done.
  - rewrite zlen_to_nat. unfold zlen.
    destruct (Nat.leb_spec (length data) room); split; [intros [= <-]|intros [_ ->]|done|intros [? _]; lia];
      [split; [lia|done]|done].
Qed.

Lemma read_exact_ok n c c' b :
  (0 <= n)%Z ->
  read_exact n c = (c', Ok b) <->
  zlen b = n /\ inbox c = b ++ inbox c' /\ outbox c' = outbox c /\ write_limit c' = write_limit c.
Proof.
  intros Hn. unfold read_exact. destruct (Z.ltb_spec (zlen (inbox c)) n) as [Hl|Hl].
  - split; [done|]. intros (<- & E & _). rewrite E, zlen_app in Hl. pose proof (zlen_nonneg (inbox c')). lia.
  - split.
    + intros [= <- <-]. cbn. rewrite take_drop. split; [|done]. unfold zlen in *. rewrite length_take. lia.
    + intros (<- & E & E1 & E2). destruct c' as [i o l]. cbn in *. subst. rewrite E, zlen_to_nat.
      by rewrite drop_app_length, take_app_length.
Qed.
