(* ===== verification/Frames.v ===== *)
(** The framing of the control connection: [read_frame] and [write_frame] of
    [main.rs], a type byte, a 32-bit big-endian length and the data. *)

From S2P Require Import Prelude RustStr Io.

Definition MAX_REQ_HEAD : Z := 1024 * 1024.
Definition MAX_REQ_FRAME : Z := 64 * 1024 * 1024.

Definition REQ_HEAD : byte := Byte.x01.
Definition REQ_BODY : byte := Byte.x02.
Definition RESP_HEAD : byte := Byte.x10.
Definition RESP_CHUNK : byte := Byte.x11.
Definition RESP_TRAILER : byte := Byte.x12.
Definition STATS : byte := Byte.x20.
Definition ERR : byte := Byte.x1f.

Definition read_frame (max : Z) (c : Control) : Control * result (byte * bytes) io_error :=
  match read_exact 5 c with
  | (c, Err e) => (c, Err e)
  | (c, Ok hdr) =>
      let t := default Byte.x00 (hdr !! 0) in
      let n := from_be_bytes (drop 1 hdr) in
      if (max <? n)%Z then (c, Err (mkIoError InvalidData "请求帧超过上限"%bs))
      else
        match read_exact n c with
        | (c, Err e) => (c, Err e)
        | (c, Ok buf) => (c, Ok (t, buf))
        end
  end.

(** [data.len() as u32] keeps the low 32 bits. *)
Definition frame_header (t : byte) (data : bytes) : bytes :=
  t :: to_be_bytes 4 (zlen data mod 2 ^ 32).

Definition write_frame (t : byte) (data : bytes) (c : Control) : Control * result unit io_error :=
  match write_all (frame_header t data) c with
  | (c, Err e) => (c, Err e)
  | (c, Ok _) => write_all data c
  end.

(** The bytes of a frame. *)
Definition frame (t : byte) (data : bytes) : bytes := frame_header t data ++ data.

(** A frame the other side can read back. *)
Definition frame_ok (data : bytes) : Prop := (zlen data < 2 ^ 32)%Z.

(** * Lemmas *)

Lemma length_frame_header t data : length (frame_header t data) = 5.
Proof. unfold frame_header. cbn [length]. by rewrite length_to_be_bytes. Qed.

(** Reading a frame that has been sent. *)
Lemma read_frame_sent max t data rest out lim :
  frame_ok data ->
  read_frame max (mkControl (frame t data ++ rest) out lim)
    = if (max <? zlen data)%Z
      then (mkControl (data ++ rest) out lim, Err (mkIoError InvalidData "请求帧超过上限"%bs))
      else (mkControl rest out lim, Ok (t, data)).
Proof.
  intros Hok. unfold read_frame, frame. rewrite <-app_assoc.
  pose proof (read_exact_app (frame_header t data) (data ++ rest) out lim) as R.
  unfold zlen in R at 1. rewrite length_frame_header in R. change (Z.of_nat 5) with 5%Z in R. rewrite R.
  unfold frame_header. cbn [lookup list_lookup default from_option id drop]. rewrite ?drop_0.
  rewrite Z.mod_small by (pose proof (zlen_nonneg data); unfold frame_ok in Hok; lia).
  rewrite from_to_be_bytes_small by (pose proof (zlen_nonneg data); unfold frame_ok in Hok; lia).
  destruct (max <? zlen data)%Z; [done|]. by rewrite read_exact_app.
Qed.

(** What a write leaves in the outbox: the frame, or a prefix of it. *)
(** A frame that could not be written is there only in part. *)
Lemma write_frame_cut t data c c' e :
  write_frame t data c = (c', Err e) ->
  write_limit c <> [] /\ exists w rest, outbox c' = outbox c ++ w /\ rest <> [] /\ frame t data = w ++ rest.
Proof.
  unfold write_frame, frame. destruct (write_all (frame_header t data) c) as [c1 [[]|e1]] eqn:E1.
  - apply write_all_ok in E1 as [_ ->]. intros (Hl & w & rest & Ho & Hr & ->)%write_all_cut. cbn [write_limit outbox] in *.
    split; [intros E; rewrite E in Hl; done|]. exists (frame_header t (w ++ rest) ++ w), rest.
    by rewrite Ho, <-!app_assoc.
  - intros [= <- _]. apply write_all_cut in E1 as (Hl & w & rest & Ho & Hr & ->). split; [done|].
    exists w, (rest ++ data). rewrite Ho, <-app_assoc. split; [done|]. split; [|done]. by destruct rest.
Qed.

Lemma write_frame_outbox t data c c' r :
  write_frame t data c = (c', r) ->
  inbox c' = inbox c /\ exists w, outbox c' = outbox c ++ w /\ (r = Ok tt -> w = frame t data).
Proof.
  unfold write_frame. destruct (write_all (frame_header t data) c) as [c1 [[]|e]] eqn:E1.
  - intros E2. apply write_all_outbox in E1 as (I1 & w1 & O1 & W1).
    apply write_all_outbox in E2 as (I2 & w2 & O2 & W2).
    split; [congruence|]. exists (w1 ++ w2). rewrite O2, O1, app_assoc. split; [done|].
    intros ->. by rewrite W1, W2.
  - intros [= <- <-]. apply write_all_outbox in E1 as (I1 & w1 & O1 & _).
    split; [done|]. by exists w1.
Qed.

(** * Properties *)

(** Frames survive the connection: whatever sequence of frames one side
    writes, the other side reads back, type and data, one by one. *)
Theorem frames_roundtrip max frames rest out lim :
  Forall (fun f => frame_ok f.2 /\ (zlen f.2 <= max)%Z) frames ->
  forall c, inbox c = concat (map (fun f => frame f.1 f.2) frames) ++ rest -> outbox c = out -> write_limit c = lim ->
  fold_left (fun acc _ =>
      let '(c, got) := acc in
      match read_frame max c with
      | (c, Ok f) => (c, got ++ [Some f])
      | (c, Err _) => (c, got ++ [None])
      end) frames (c, [])
    = (mkControl rest out lim, map Some frames).
Proof.
  intros HF. assert (G : forall c got, inbox c = concat (map (fun f => frame f.1 f.2) frames) ++ rest ->
    outbox c = out -> write_limit c = lim ->
    fold_left (fun acc _ =>
      let '(c, got) := acc in
      match read_frame max c with
      | (c, Ok f) => (c, got ++ [Some f])
      | (c, Err _) => (c, got ++ [None])
      end) frames (c, got) = (mkControl rest out lim, got ++ map Some frames)); [|intros; by apply G].
  induction HF as [|[t data] frames [Hok Hmax] HF IH]; intros [inb outb l] got Hin <- <-; cbn [inbox] in *.
  - cbn. rewrite app_nil_r. by rewrite Hin.
  - cbn [map concat fst snd fold_left outbox write_limit] in *. rewrite Hin, <-app_assoc.
    rewrite read_frame_sent by done. rewrite (proj2 (Z.ltb_ge _ _)) by done.
    rewrite IH by done. by rewrite <-app_assoc.
Qed.

(** A frame announced over the limit is refused before its data is read,
    and a frame that is accepted is within the limit. *)
Theorem read_frame_limit max c c' t data :
  read_frame max c = (c', Ok (t, data)) ->
  (zlen data <= max)%Z /\ inbox c = frame t data ++ inbox c' /\ frame_ok data.
Proof.
  unfold read_frame. destruct (read_exact 5 c) as [c1 [hdr|e]] eqn:E1; [|done].
  unfold read_exact in E1. destruct (zlen (inbox c) <? 5)%Z eqn:L1; [done|]. injection E1 as <- <-.
  apply Z.ltb_ge in L1. cbn [inbox outbox write_limit] in *.
  set (hdr := take (Z.to_nat 5) (inbox c)) in *.
  assert (Lh : length hdr = 5) by (unfold hdr, zlen in *; rewrite length_take; lia).
  set (n := from_be_bytes (drop 1 hdr)) in *.
  destruct (Z.ltb_spec max n) as [|Hn]; [done|].
  destruct (read_exact n _) as [c2 [buf|e]] eqn:E2; [|done]. intros [= <- <- <-].
  unfold read_exact in E2. cbn [inbox outbox write_limit] in E2.
  destruct (Z.ltb_spec (zlen (drop (Z.to_nat 5) (inbox c))) n) as [|L2]; [done|].
  injection E2 as <- <-. cbn [inbox].
  assert (N : (0 <= n < 2 ^ 32)%Z).
  { split; [apply from_be_bytes_nonneg|]. pose proof (from_be_bytes_bound (drop 1 hdr)) as B.
    unfold zlen in B. rewrite length_drop, Lh in B. done. }
  assert (Lb : zlen (take (Z.to_nat n) (drop (Z.to_nat 5) (inbox c))) = n)
    by (unfold zlen in *; rewrite length_take; lia).
  split; [lia|]. split; [|unfold frame_ok; lia].
  unfold frame, frame_header. rewrite Lb, Z.mod_small by lia.
  destruct hdr as [|b hdr'] eqn:Eh; [done|]. cbn [lookup list_lookup default from_option id drop] in *. rewrite ?drop_0 in *.
  assert (E4 : to_be_bytes 4 n = hdr').
  { cbn in Lh. injection Lh as Lh. rewrite <-Lh. apply to_from_be_bytes. }
  rewrite E4, <-app_assoc, take_drop. rewrite <-Eh. unfold hdr. by rewrite take_drop.
Qed.

Lemma frames_roundtrip_witness :
  let frames := [(RESP_HEAD, "{}"); (RESP_CHUNK, "hello"); (RESP_TRAILER, "")]%bs in
  fold_left (fun acc _ =>
      let '(c, got) := acc in
      match read_frame 10 c with
      | (c, Ok f) => (c, got ++ [Some f])
      | (c, Err _) => (c, got ++ [None])
      end) frames (mkControl (concat (map (fun f => frame f.1 f.2) frames)) [] [], [])
    = (mkControl [] [] [], map Some frames).
Proof.
  apply frames_roundtrip with (rest := []); [|vm_compute; reflexivity|reflexivity|reflexivity].
  repeat constructor; vm_compute; discriminate.
Defined.

Lemma read_frame_limit_witness :
  let c := mkControl (frame REQ_HEAD "{}" ++ "rest")%bs [] [] in
  read_frame 2 c = (mkControl "rest"%bs [] [], Ok (REQ_HEAD, "{}"%bs))
  /\ inbox c = (frame REQ_HEAD "{}" ++ "rest")%bs.
Proof.
  cbv zeta.
  assert (E : read_frame 2 (mkControl (frame REQ_HEAD "{}" ++ "rest")%bs [] [])
    = (mkControl "rest"%bs [] [], Ok (REQ_HEAD, "{}"%bs))) by (vm_compute; reflexivity).
  split; [exact E|]. exact (proj1 (proj2 (read_frame_limit 2 _ _ _ _ E))).
Defined.
