(* ===== verification/Http1.v ===== *)
(** HTTP/1.1 towards the upstream: the request head ([build_request_head_ordered]
    and the map path of [handle]), [parse_headers_ordered], [parse_headers],
    [read_until_headers], [stream_chunked] and [stream_plain] of [main.rs]. *)

From S2P Require Import Prelude RustStr BTree Paths Io.
Local Open Scope bytes_scope.

Definition MAX_HEAD : Z := 64 * 1024.
Definition MAX_RESP : Z := 64 * 1024 * 1024.

(** The size of the read buffers of the two body readers. *)
Definition READ_BUF : nat := 16 * 1024.

Definition crlf : bytes := [Byte.x0d; Byte.x0a].

(** * The request head *)

(** [None] when the template is absent or an item is not a pair. *)
Definition parse_headers_ordered (v : option (list (list bytes))) : option (list (bytes * bytes)) :=
  match v with
  | None => None
  | Some arr =>
      fold_left (fun out pair =>
        match out, pair with
        | Some out, [k; v] => Some (out ++ [(k, v)])
        | _, _ => None
        end) arr (Some [])
  end.

(** [format!("{}: {}\r\n", k, v)]. *)
Definition header_line (k v : bytes) : bytes := k ++ ": " ++ v ++ crlf.

Definition request_line (norm_method path : bytes) : bytes :=
  norm_method ++ " " ++ path ++ " HTTP/1.1" ++ crlf.

(** The loop body of [build_request_head_ordered] over
    [(s, host_seen, clen_seen)]. *)
Definition ordered_header (token : option bytes) (body_len : Z) (st : bytes * bool * bool)
    (kv : bytes * bytes) : bytes * bool * bool :=
  let '(s, host_seen, clen_seen) := st in
  let '(k, v) := kv in
  if eq_ignore_ascii_case k "authorization" then
    match token with
    | Some t => (s ++ header_line k ("Bearer " ++ t), host_seen, clen_seen)
    | None => (s, host_seen, clen_seen)
    end
  else if eq_ignore_ascii_case k "content-length" then
    (s ++ header_line k (show_Z body_len), host_seen, true)
  else if eq_ignore_ascii_case k "transfer-encoding" then (s, host_seen, clen_seen)
  else
    let host_seen := if eq_ignore_ascii_case k "host" then true else host_seen in
    (s ++ header_line k v, host_seen, clen_seen).

Definition build_request_head_ordered (norm_method path host : bytes) (ordered : list (bytes * bytes))
    (token : option bytes) (body_len : Z) : bytes :=
  let '(s, host_seen, clen_seen) :=
    fold_left (ordered_header token body_len) ordered (request_line norm_method path, false, false) in
  let s := if negb host_seen then s ++ header_line "host" host else s in
  let s := if negb clen_seen then s ++ header_line "content-length" (show_Z body_len) else s in
  s ++ crlf.

Definition hop_headers : list bytes :=
  ["host"; "authorization"; "content-length"; "connection"; "transfer-encoding"; "te"; "trailer";
   "upgrade"; "proxy-connection"; "keep-alive"].

Section Case.
Context `{UC : UnicodeCase}.

(** The [None] branch of [handle]: headers in key order, [connection: close]. *)
Definition build_request_head_map (norm_method path host : bytes) (headers : list (bytes * bytes))
    (token : option bytes) (body_len : Z) : bytes :=
  let req := request_line norm_method path in
  let req := req ++ header_line "host" host in
  let req := fold_left (fun req kv =>
    if bool_decide (In (to_lowercase kv.1) hop_headers) then req
    else req ++ header_line kv.1 kv.2) headers req in
  let req := match token with
             | Some tok => req ++ header_line "authorization" ("Bearer " ++ tok)
             | None => req
             end in
  let req := req ++ header_line "content-length" (show_Z body_len) in
  req ++ "connection: close" ++ crlf ++ crlf.

(** * The response head *)

Record Headers := mkHeaders {
  status : Z;
  content_type : option bytes;
  chunked : bool;
  content_length : option Z;
  headers : list (bytes * bytes);
}.

Definition ok {A E} (r : result A E) : option A := match r with Ok a => Some a | Err _ => None end.

Definition parse_header_line (h : Headers) (line : bytes) : Headers :=
  match find_byte line Byte.x3a with
  | None => h
  | Some idx =>
      let k := to_lowercase (trim (take idx line)) in
      let v := trim (drop (idx + 1) line) in
      let ct := if eqs k "content-type" then Some v else content_type h in
      let ch := if eqs k "transfer-encoding" && contains (to_lowercase v) "chunked" then true else chunked h in
      let cl := if eqs k "content-length" then ok (from_str_radix 10 u64_max v) else content_length h in
      let hs := match bget k (headers h) with
                | Some existing => bins k (existing ++ ", " ++ v) (headers h)
                | None => bins k v (headers h)
                end in
      mkHeaders (status h) ct ch cl hs
  end.

Definition parse_headers (head : bytes) : result Headers bytes :=
  match split_on2 Byte.x0d Byte.x0a (from_utf8_lossy head) with
  | [] => Err "状态行解析失败"
  | first :: lines =>
      let status := word ← split_whitespace first !! 1; ok (from_str_radix 10 u16_max word) in
      match status with
      | None => Err "状态行解析失败"
      | Some status => Ok (fold_left parse_header_line lines (mkHeaders status None false None []))
      end
  end.
End Case.

(** [format!("...: {}", e)] of an I/O error. *)
Definition with_error (prefix : bytes) (e : io_error) : bytes := prefix ++ display e.

(** The [loop] of [read_until_headers]; [script_size] reads see the end. *)
Fixpoint read_until_headers_loop (fuel : nat) (buf : bytes) (tls : script)
    : script * result (bytes * bytes) bytes :=
  match fuel with
  | O => (tls, Err "fuel")
  | S fuel =>
      match find buf [Byte.x0d; Byte.x0a; Byte.x0d; Byte.x0a] with
      | Some pos => (tls, Ok (take pos buf, drop (pos + 4) buf))
      | None =>
          if (MAX_HEAD <? zlen buf)%Z then (tls, Err "响应头超过上限")
          else
            match read 4096 tls with
            | (tls, Ok []) => (tls, Err "读响应头时连接关闭")
            | (tls, Ok b) => read_until_headers_loop fuel (buf ++ b) tls
            | (tls, Err e) =>
                match kind e with
                | UnexpectedEof => (tls, Err "读响应头 EOF")
                | _ => (tls, Err (with_error "读响应头失败: " e))
                end
            end
      end
  end.

Definition read_until_headers (tls : script) : script * result (bytes * bytes) bytes :=
  read_until_headers_loop (S (S (S (script_size tls)))) [] tls.

(** * The response body

    [sink] is the closure of [handle]: it changes a state and may fail, and the
    state it leaves is kept when the reader stops with an error. *)

Definition usize_wrap (z : Z) : Z := z mod 2 ^ 64.

Section Body.
Context {S : Type} (sink : bytes -> S -> S * result unit bytes).

(** The loop that reads up to the end of a chunk-size line. *)
Fixpoint fill_line (fuel : nat) (buf : bytes) (tls : script) : script * result (nat * bytes) bytes :=
  match find buf crlf with
  | Some p => (tls, Ok (p, buf))
  | None =>
      match fuel with
      | O => (tls, Err "fuel")
      | Datatypes.S fuel =>
          match read READ_BUF tls with
          | (tls, Err e) => (tls, Err (with_error "读 chunk 头失败: " e))
          | (tls, Ok []) => (tls, Err "chunked 提前 EOF")
          | (tls, Ok b) => fill_line fuel (buf ++ b) tls
          end
      end
  end.

(** [while buf.len() < size + 2]: the bound has wrapped around. *)
Fixpoint fill_chunk (fuel : nat) (bound : Z) (buf : bytes) (tls : script) : script * result bytes bytes :=
  if (zlen buf <? bound)%Z then
    match fuel with
    | O => (tls, Err "fuel")
    | Datatypes.S fuel =>
        match read READ_BUF tls with
        | (tls, Err e) => (tls, Err (with_error "读 chunk 体失败: " e))
        | (tls, Ok []) => (tls, Ok buf)
        | (tls, Ok b) => fill_chunk fuel bound (buf ++ b) tls
        end
    end
  else (tls, Ok buf).

(** The size of a chunk from its line. *)
Definition chunk_size (line : bytes) : result Z bytes :=
  let text := trim (from_utf8_lossy line) in
  let text := default "0" (head (split_on Byte.x3b text)) in
  map_err (fun _ => "chunk size 解析失败"%bs) (from_str_radix 16 u64_max (trim text)).

(** What is left after a chunk, without the line end that follows it. *)
Definition skip_crlf (buf : bytes) : bytes :=
  if (2 <=? length buf)%nat && eqs (take 2 buf) crlf then drop 2 buf else buf.

Fixpoint stream_chunked_loop (fuel : nat) (total : Z) (buf : bytes) (tls : script) (st : S)
    : script * S * result unit bytes :=
  match fuel with
  | O => (tls, st, Err "fuel")
  | Datatypes.S fuel =>
      match fill_line (Datatypes.S (script_size tls)) buf tls with
      | (tls, Err e) => (tls, st, Err e)
      | (tls, Ok (p, buf)) =>
          match chunk_size (take p buf) with
          | Err e => (tls, st, Err e)
          | Ok size =>
              let buf := drop (p + 2) buf in
              if (size =? 0)%Z then (tls, st, Ok tt)
              else
                let total := usize_wrap (total + size) in
                if (MAX_RESP <? total)%Z then (tls, st, Err "响应体超过上限")
                else
                  match fill_chunk (Datatypes.S (script_size tls)) (usize_wrap (size + 2)) buf tls with
                  | (tls, Err e) => (tls, st, Err e)
                  | (tls, Ok buf) =>
                      let take_ := Z.min size (zlen buf) in
                      match sink (take (Z.to_nat take_) buf) st with
                      | (st, Err e) => (tls, st, Err e)
                      | (st, Ok _) =>
                          stream_chunked_loop fuel total (skip_crlf (drop (Z.to_nat take_) buf)) tls st
                      end
                  end
          end
      end
  end.

(** Every turn that goes on removes the bytes of a chunk-size line. *)
Definition stream_chunked (buf : bytes) (tls : script) (st : S) : script * S * result unit bytes :=
  stream_chunked_loop (Datatypes.S (length buf + script_size tls)) 0 buf tls st.

(** The text of [got {} of {}]. *)
Definition short_body (total cl : Z) : bytes :=
  "content-length 响应提前 EOF: got " ++ show_Z total ++ " of " ++ show_Z cl.

Definition is_eof_kind (e : io_error) : bool :=
  match kind e with UnexpectedEof | ConnectionAborted => true | _ => false end.

(** [while total < cl]. *)
Fixpoint plain_length_loop (fuel : nat) (cl total : Z) (tls : script) (st : S)
    : script * S * result unit bytes :=
  if (total <? cl)%Z then
    match fuel with
    | O => (tls, st, Err "fuel")
    | Datatypes.S fuel =>
        let limit := Z.to_nat (Z.min (cl - total) 16384) in
        match read limit tls with
        | (tls, Ok []) => (tls, st, Err (short_body total cl))
        | (tls, Ok b) =>
            match sink b st with
            | (st, Err e) => (tls, st, Err e)
            | (st, Ok _) => plain_length_loop fuel cl (total + zlen b) tls st
            end
        | (tls, Err e) =>
            if is_eof_kind e then (tls, st, Err (short_body total cl))
            else (tls, st, Err (with_error "读响应体失败: " e))
        end
    end
  else (tls, st, Ok tt).

(** The final [loop], up to the end of the connection. *)
Fixpoint plain_eof_loop (fuel : nat) (total : Z) (tls : script) (st : S) : script * S * result unit bytes :=
  match fuel with
  | O => (tls, st, Err "fuel")
  | Datatypes.S fuel =>
      match read READ_BUF tls with
      | (tls, Ok []) => (tls, st, Ok tt)
      | (tls, Ok b) =>
          let total := (total + zlen b)%Z in
          if (MAX_RESP <? total)%Z then (tls, st, Err "响应体超过上限")
          else
            match sink b st with
            | (st, Err e) => (tls, st, Err e)
            | (st, Ok _) => plain_eof_loop fuel total tls st
            end
      | (tls, Err e) =>
          if is_eof_kind e then (tls, st, Ok tt)
          else (tls, st, Err (with_error "读响应体失败: " e))
      end
  end.

Definition stream_plain (initial : bytes) (tls : script) (content_length : option Z) (st : S)
    : script * S * result unit bytes :=
  match content_length with
  | Some cl =>
      if (MAX_RESP <? cl)%Z then (tls, st, Err "响应体超过上限")
      else
        let initial_body := Z.min (zlen initial) cl in
        if (0 <? initial_body)%Z then
          match sink (take (Z.to_nat initial_body) initial) st with
          | (st, Err e) => (tls, st, Err e)
          | (st, Ok _) => plain_length_loop (Datatypes.S (script_size tls)) cl initial_body tls st
          end
        else plain_length_loop (Datatypes.S (script_size tls)) cl 0 tls st
  | None =>
      match initial with
      | [] => plain_eof_loop (Datatypes.S (Datatypes.S (script_size tls))) 0 tls st
      | _ =>
          let total := zlen initial in
          if (MAX_RESP <? total)%Z then (tls, st, Err "响应体超过上限")
          else
            match sink initial st with
            | (st, Err e) => (tls, st, Err e)
            | (st, Ok _) => plain_eof_loop (Datatypes.S (Datatypes.S (script_size tls))) total tls st
            end
      end
  end.
End Body.

(** * Lemmas: the response head *)

Abbreviation blank_line := [Byte.x0d; Byte.x0a; Byte.x0d; Byte.x0a].

Lemma read_until_headers_loop_spec fuel buf tls pos :
  delivers tls -> script_size tls + 1 < fuel -> find (buf ++ content tls) blank_line = Some pos ->
  (Z.of_nat pos + 4 <= MAX_HEAD)%Z ->
  exists tls' left, read_until_headers_loop fuel buf tls
      = (tls', Ok (take pos (buf ++ content tls), left))
    /\ left ++ content tls' = drop (pos + 4) (buf ++ content tls) /\ delivers tls'.
Proof.
  revert buf tls. induction fuel as [|fuel IH]; intros buf tls Hd Hf Hp Hmax; [lia|].
  cbn [read_until_headers_loop]. destruct (find buf blank_line) as [q|] eqn:Eq.
  - assert (Hb : q + 4 <= length buf) by (by apply find_bound in Eq).
    apply (find_app buf (content tls)) in Eq; [|done|done]. rewrite Hp in Eq. injection Eq as <-.
    exists tls, (drop (pos + 4) buf). rewrite take_app_le, drop_app_le by lia. done.
  - assert (Hlt : length buf < pos + 4).
    { destruct (decide (pos + 4 <= length buf)); [|lia].
      apply (find_app buf (content tls)) in Hp; [congruence|done|done]. }
    rewrite (proj2 (Z.ltb_ge _ _)) by (unfold zlen; lia).
    destruct (read_delivers 4096 tls Hd) as [(-> & E & _)|(b & r & Er & Hb & _ & Ec & Hd' & Hs & _)]; [lia| |].
    + rewrite E, app_nil_r in Hp. apply find_bound in Hp; [|done]. cbn [length] in Hp. lia.
    + rewrite Er. destruct b as [|x b'] eqn:Eb; [done|]. rewrite <-Eb in *. clear Eb.
      rewrite Ec in *. rewrite app_assoc in *. apply IH; (done || lia).
Qed.

Lemma parse_headers_status `{UC : UnicodeCase} head h :
  parse_headers head = Ok h -> (0 <= status h <= u16_max)%Z.
Proof.
  unfold parse_headers. destruct (split_on2 _ _ _) as [|first lines]; [done|].
  destruct (split_whitespace first !! 1) as [word|]; [|done]. cbn [mbind option_bind].
  destruct (from_str_radix 10 u16_max word) as [st|] eqn:E; [|done]. cbn [ok]. intros [= <-].
  assert (G : forall ls h, status (fold_left parse_header_line ls h) = status h).
  { induction ls as [|l ls IH]; intros h0; [done|]. cbn [fold_left]. rewrite IH. unfold parse_header_line. by case_match. }
  rewrite G. cbn [status]. eapply from_str_radix_bounds; [| |done]; unfold u16_max; lia.
Qed.

(** * Lemmas: the request head *)

(** What the loop of [build_request_head_ordered] writes for one entry. *)
Definition fill_header (token : option bytes) (body_len : Z) (kv : bytes * bytes) : option (bytes * bytes) :=
  let '(k, v) := kv in
  if eq_ignore_ascii_case k "authorization" then option_map (fun t => (k, "Bearer " ++ t)) token
  else if eq_ignore_ascii_case k "content-length" then Some (k, show_Z body_len)
  else if eq_ignore_ascii_case k "transfer-encoding" then None
  else Some kv.

Definition named (name : bytes) (kv : bytes * bytes) : bool := eq_ignore_ascii_case kv.1 name.

Definition render (hs : list (bytes * bytes)) : bytes := concat (map (fun kv => header_line kv.1 kv.2) hs).

(** The headers sent: the filled template, then what it lacks. *)
Definition sent_headers (host : bytes) (ordered : list (bytes * bytes)) (token : option bytes) (body_len : Z)
    : list (bytes * bytes) :=
  omap (fill_header token body_len) ordered
  ++ (if existsb (named "host") ordered then [] else [("host", host)])
  ++ (if existsb (named "content-length") ordered then [] else [("content-length", show_Z body_len)]).

Lemma render_app a b : render (a ++ b) = render a ++ render b.
Proof. unfold render. by rewrite map_app, concat_app. Qed.

Lemma eq_ignore_trans k a b : eq_ignore_ascii_case k a = true -> eq_ignore_ascii_case k b = true ->
  to_ascii_lowercase a = to_ascii_lowercase b.
Proof.
  unfold eq_ignore_ascii_case, eqs. rewrite !bool_decide_eq_true. congruence.
Qed.

Lemma ordered_loop token body_len ordered s hs cl :
  fold_left (ordered_header token body_len) ordered (s, hs, cl)
    = (s ++ render (omap (fill_header token body_len) ordered),
       hs || existsb (named "host") ordered, cl || existsb (named "content-length") ordered).
Proof.
  revert s hs cl. induction ordered as [|[k v] ordered IH]; intros s hs cl.
  - cbn. by rewrite app_nil_r, !orb_false_r.
  - cbn [fold_left ordered_header omap list_omap fill_header existsb named fst].
    assert (X : forall a b, to_ascii_lowercase a <> to_ascii_lowercase b ->
      eq_ignore_ascii_case k a = true -> eq_ignore_ascii_case k b = false).
    { intros a b Hne Ha. destruct (eq_ignore_ascii_case k b) eqn:Hb; [|done].
      by destruct (Hne (eq_ignore_trans k a b Ha Hb)). }
    unfold named at 1 3. cbn [fst].
    destruct (eq_ignore_ascii_case k "authorization") eqn:Ea.
    { rewrite (X "authorization" "host"), (X "authorization" "content-length") by done.
      destruct token as [t|]; cbn [option_map]; rewrite IH; cbn [orb]; [|done].
      unfold render at 2. cbn [map concat fst snd]. by rewrite <-app_assoc. }
    destruct (eq_ignore_ascii_case k "content-length") eqn:Ec.
    { rewrite (X "content-length" "host") by done. rewrite IH. cbn [orb]. rewrite orb_true_r.
      unfold render at 2. cbn [map concat fst snd]. by rewrite <-app_assoc. }
    destruct (eq_ignore_ascii_case k "transfer-encoding") eqn:Et.
    { rewrite (X "transfer-encoding" "host") by done. by rewrite IH. }
    rewrite IH. cbn [orb]. unfold render at 2. cbn [map concat fst snd]. rewrite <-app_assoc.
    destruct (eq_ignore_ascii_case k "host"); cbn [orb]; by rewrite ?orb_true_r.
Qed.

Lemma build_request_head_ordered_sent m path host ordered token body_len :
  build_request_head_ordered m path host ordered token body_len
    = request_line m path ++ render (sent_headers host ordered token body_len) ++ crlf.
Proof.
  unfold build_request_head_ordered, sent_headers. rewrite ordered_loop. cbn [orb].
  rewrite !render_app. destruct (existsb (named "host") ordered), (existsb (named "content-length") ordered);
    cbn [negb]; rewrite <-!app_assoc; cbn [render map concat app fst snd]; by rewrite ?app_nil_r, <-?app_assoc.
Qed.

(** Lines: a CRLF-free text up to its CRLF. *)
Lemma split_on2_line s rest :
  ~ In Byte.x0d s -> split_on2 Byte.x0d Byte.x0a (s ++ crlf ++ rest) = s :: split_on2 Byte.x0d Byte.x0a rest.
Proof.
  assert (U : forall x u, u <> [] -> Byte.eqb x Byte.x0d = false ->
    split_on2 Byte.x0d Byte.x0a (x :: u)
      = match split_on2 Byte.x0d Byte.x0a u with p :: ps => (x :: p) :: ps | [] => [[x]] end).
  { intros x [|y u] Hu Hx; [done|]. unfold split_on2 at 1. fold split_on2. by rewrite Hx. }
  induction s as [|b s IH]; intros Hs; [done|]. cbn [app].
  rewrite U, IH; [done|cbn in Hs; tauto|by destruct s|].
  apply byte_eqb_ne. cbn in Hs. intuition congruence.
Qed.

Lemma split_on2_render hs :
  Forall (fun kv => ~ In Byte.x0d kv.1 /\ ~ In Byte.x0d kv.2) hs ->
  split_on2 Byte.x0d Byte.x0a (render hs ++ crlf) = map (fun kv => kv.1 ++ ": " ++ kv.2) hs ++ [[]; []].
Proof.
  induction 1 as [|[k v] hs [Hk Hv] _ IH]; [done|]. cbn [fst snd] in *.
  change (render ((k, v) :: hs)) with ((k ++ ": " ++ v ++ crlf) ++ render hs).
  replace (((k ++ ": " ++ v ++ crlf) ++ render hs) ++ crlf) with ((k ++ ": " ++ v) ++ crlf ++ render hs ++ crlf)
    by (by rewrite <-!app_assoc).
  rewrite split_on2_line; [by rewrite IH|]. rewrite !in_app_iff. cbn. intuition congruence.
Qed.

(** The map path: what it sends, as a list of headers. *)
Definition map_headers `{UC : UnicodeCase} (host : bytes) (headers : list (bytes * bytes)) (token : option bytes) (body_len : Z)
    : list (bytes * bytes) :=
  ("host", host)
  :: List.filter (fun kv => negb (bool_decide (In (to_lowercase kv.1) hop_headers))) headers
  ++ match token with Some tok => [("authorization", "Bearer " ++ tok)] | None => [] end
  ++ [("content-length", show_Z body_len); ("connection", "close")].

Lemma build_request_head_map_sent `{UC : UnicodeCase} m path host headers token body_len :
  build_request_head_map m path host headers token body_len
    = request_line m path ++ render (map_headers host headers token body_len) ++ crlf.
Proof.
  unfold build_request_head_map, map_headers.
  assert (G : forall s, fold_left (fun req kv =>
      if bool_decide (In (to_lowercase kv.1) hop_headers) then req else req ++ header_line kv.1 kv.2) headers s
    = s ++ render (List.filter (fun kv => negb (bool_decide (In (to_lowercase kv.1) hop_headers))) headers)).
  { induction headers as [|kv headers IH]; intros s; cbn [fold_left List.filter]; [by rewrite app_nil_r|].
    rewrite IH. destruct (bool_decide _); cbn [negb]; [done|]. unfold render. cbn [map concat].
    by rewrite <-app_assoc. }
  rewrite G. set (hs := List.filter _ headers).
  change (render (("host", host) :: hs ++ ?t)) with (header_line "host" host ++ render (hs ++ t)).
  rewrite !render_app.
  change (render [("content-length", show_Z body_len); ("connection", "close")])
    with (header_line "content-length" (show_Z body_len) ++ ("connection: close" ++ crlf) ++ []).
  rewrite app_nil_r.
  destruct token as [t|]; [change (render [("authorization", "Bearer " ++ t)])
    with (header_line "authorization" ("Bearer " ++ t) ++ []); rewrite app_nil_r|];
    rewrite <-!app_assoc; done.
Qed.

(** * Lemmas: the response body *)

Section BodyLemmas.
Context {S : Type} (f : bytes -> S -> S) (sink : bytes -> S -> S * result unit bytes).
Hypothesis sink_ok : forall b st, sink b st = (f b st, Ok tt).

(** The sink has been given [pieces]. *)
Definition fed (pieces : list bytes) (st : S) : S := fold_left (fun st b => f b st) pieces st.

Lemma fill_line_spec fuel buf tls p :
  delivers tls -> script_size tls < fuel -> find (buf ++ content tls) crlf = Some p ->
  exists tls' buf', fill_line fuel buf tls = (tls', Ok (p, buf'))
    /\ buf' ++ content tls' = buf ++ content tls /\ delivers tls' /\ p + 2 <= length buf'
    /\ length buf' + script_size tls' <= length buf + script_size tls.
Proof.
  revert buf tls. induction fuel as [|fuel IH]; intros buf tls Hd Hf Hp; [lia|]. cbn [fill_line].
  destruct (find buf crlf) as [q|] eqn:Eq.
  - assert (Hb : q + 2 <= length buf) by (by apply find_bound in Eq).
    apply (find_app buf (content tls)) in Eq; [|done|done]. rewrite Hp in Eq. injection Eq as <-.
    by exists tls, buf.
  - destruct (read_delivers READ_BUF tls Hd) as [(-> & E & _)|(b & r & Er & Hb & _ & Ec & Hd' & Hs & Hm)].
    + unfold READ_BUF. lia.
    + rewrite E, app_nil_r in Hp. congruence.
    + rewrite Er. destruct b as [|x b'] eqn:Eb; [done|]. rewrite <-Eb in *. clear Eb.
      rewrite Ec in *. rewrite app_assoc in *.
      destruct (IH (buf ++ b) r Hd') as (tls' & buf' & E & E2 & H1 & H2 & H3); [lia|done|].
      exists tls', buf'. rewrite length_app in H3. repeat split; (done || lia).
Qed.

Lemma fill_chunk_spec fuel bound buf tls :
  delivers tls -> script_size tls < fuel -> (bound <= zlen (buf ++ content tls))%Z ->
  exists tls' buf', fill_chunk fuel bound buf tls = (tls', Ok buf')
    /\ buf' ++ content tls' = buf ++ content tls /\ delivers tls' /\ (bound <= zlen buf')%Z
    /\ length buf' + script_size tls' <= length buf + script_size tls.
Proof.
  revert buf tls. induction fuel as [|fuel IH]; intros buf tls Hd Hf Hb; [lia|]. cbn [fill_chunk].
  destruct (Z.ltb_spec (zlen buf) bound) as [Hl|Hl]; [|by exists tls, buf].
  destruct (read_delivers READ_BUF tls Hd) as [(-> & E & _)|(b & r & Er & Hn & _ & Ec & Hd' & Hs & Hm)].
  - unfold READ_BUF. lia.
  - rewrite E, app_nil_r in Hb. lia.
  - rewrite Er. destruct b as [|x b'] eqn:Eb; [done|]. rewrite <-Eb in *. clear Eb.
    rewrite Ec in *. rewrite app_assoc in *.
    destruct (IH (buf ++ b) r Hd') as (tls' & buf' & E & E2 & H1 & H2 & H3); [lia|done|].
    exists tls', buf'. rewrite length_app in H3. repeat split; (done || lia).
Qed.

(** ** Chunked bodies *)

(** One chunk: its size line (extensions included) and its data. *)
Definition chunk_ok (c : bytes * bytes) : Prop :=
  ~ In Byte.x0d c.1 /\ chunk_size c.1 = Ok (zlen c.2) /\ c.2 <> [].

Definition encode_chunk (c : bytes * bytes) : bytes := c.1 ++ crlf ++ c.2 ++ crlf.

Definition chunk_total (cs : list (bytes * bytes)) : Z := zlen (concat (map snd cs)).

(** The size line is found and taken off, wherever the reads cut it. *)
Lemma fill_line_at buf tls line rest :
  delivers tls -> ~ In Byte.x0d line -> buf ++ content tls = line ++ crlf ++ rest ->
  exists tls' buf', fill_line (Datatypes.S (script_size tls)) buf tls = (tls', Ok (length line, buf'))
    /\ take (length line) buf' = line /\ drop (length line + 2) buf' ++ content tls' = rest /\ delivers tls'
    /\ length (drop (length line + 2) buf') + script_size tls' + 2 <= length buf + script_size tls.
Proof.
  intros Hd Hl Hall.
  assert (Hp : find (buf ++ content tls) crlf = Some (length line))
    by (rewrite Hall; by apply find_sep with (b := Byte.x0d)).
  destruct (fill_line_spec (Datatypes.S (script_size tls)) buf tls (length line) Hd)
    as (tls1 & buf1 & E & E2 & Hd1 & Hlen & Hm); [lia|done|].
  exists tls1, buf1. split; [done|]. split; [|split; [|split; [done|]]].
  - rewrite <-(take_app_le _ (content tls1)) by lia. rewrite E2, Hall. by rewrite take_app_length.
  - rewrite <-drop_app_le by lia. rewrite E2, Hall, <-drop_drop, drop_app_length. done.
  - rewrite length_drop. lia.
Qed.

(** The size line, the data and the line end of the next chunk are consumed,
    and the data is given to the sink in one piece. *)
Lemma stream_chunked_step line data tail fuel total buf tls st :
  chunk_ok (line, data) -> (0 <= total)%Z -> (total + zlen data <= MAX_RESP)%Z ->
  delivers tls -> length buf + script_size tls < Datatypes.S fuel ->
  buf ++ content tls = encode_chunk (line, data) ++ tail ->
  exists buf' tls', stream_chunked_loop sink (Datatypes.S fuel) total buf tls st
      = stream_chunked_loop sink fuel (total + zlen data) buf' tls' (f data st)
    /\ delivers tls' /\ length buf' + script_size tls' < fuel /\ buf' ++ content tls' = tail.
Proof.
  intros (Hl & Hsize & Hne) Ht Hmax Hd Hf Hall. cbn [fst snd] in *.
  unfold encode_chunk in Hall. cbn [fst snd] in Hall. rewrite <-!app_assoc in Hall.
  destruct (fill_line_at buf tls line _ Hd Hl Hall) as (tls1 & buf1 & E & T & Hrest & Hd1 & Hm1).
  cbn [stream_chunked_loop]. rewrite E, T, Hsize. set (buf2 := drop (length line + 2) buf1) in *.
  assert (Hd0 : (0 < zlen data)%Z) by (destruct data; [done|unfold zlen; cbn; lia]).
  rewrite (proj2 (Z.eqb_neq _ _)) by lia. unfold MAX_RESP in *.
  unfold usize_wrap. rewrite !Z.mod_small by lia. rewrite (proj2 (Z.ltb_ge _ _)) by lia.
  destruct (fill_chunk_spec (Datatypes.S (script_size tls1)) (zlen data + 2) buf2 tls1 Hd1)
    as (tls3 & buf3 & E3 & E4 & Hd3 & Hb3 & Hm3);
    [lia|rewrite Hrest, !zlen_app; pose proof (zlen_nonneg tail); change (zlen crlf) with 2%Z; lia|].
  rewrite E3. unfold zlen in Hb3. rewrite Z.min_l by (unfold zlen; lia). rewrite zlen_to_nat, sink_ok.
  rewrite Hrest in E4.
  assert (T3 : take (length data) buf3 = data).
  { rewrite <-(take_app_le _ (content tls3)) by lia. by rewrite E4, take_app_length. }
  assert (D : drop (length data) buf3 ++ content tls3 = crlf ++ tail).
  { rewrite <-drop_app_le by lia. by rewrite E4, drop_app_length. }
  rewrite T3. set (buf4 := drop (length data) buf3) in *.
  assert (L4 : 2 <= length buf4) by (unfold buf4; rewrite length_drop; lia).
  assert (T4 : take 2 buf4 = crlf).
  { rewrite <-(take_app_le _ (content tls3)) by lia. by rewrite D. }
  unfold skip_crlf. rewrite (proj2 (Nat.leb_le _ _)), T4 by lia.
  change (true && eqs crlf crlf) with true. cbv iota.
  exists (drop 2 buf4), tls3. split; [done|]. split; [done|]. split.
  - unfold buf4. rewrite !length_drop in *. lia.
  - rewrite <-drop_app_le by lia. by rewrite D.
Qed.

(** All the chunks of a body, up to what follows them. *)
Lemma stream_chunked_prefix cs tail fuel total buf tls st :
  Forall chunk_ok cs -> (0 <= total)%Z -> (total + chunk_total cs <= MAX_RESP)%Z ->
  delivers tls -> length buf + script_size tls < fuel ->
  buf ++ content tls = concat (map encode_chunk cs) ++ tail ->
  exists fuel' buf' tls', stream_chunked_loop sink fuel total buf tls st
      = stream_chunked_loop sink fuel' (total + chunk_total cs) buf' tls' (fed (map snd cs) st)
    /\ delivers tls' /\ length buf' + script_size tls' < fuel' /\ buf' ++ content tls' = tail.
Proof.
  intros Hcs. revert fuel total buf tls st.
  induction Hcs as [|[line data] cs Hc Hcs IH]; intros fuel total buf tls st Ht Hmax Hd Hf Hall.
  - exists fuel, buf, tls. unfold chunk_total. cbn. by rewrite Z.add_0_r.
  - destruct fuel as [|fuel]; [lia|]. cbn [map concat] in Hall. rewrite <-app_assoc in Hall.
    unfold chunk_total in *. cbn [map concat snd] in *. rewrite zlen_app in *.
    pose proof (zlen_nonneg (concat (map snd cs))). pose proof (zlen_nonneg data).
    destruct (stream_chunked_step line data (concat (map encode_chunk cs) ++ tail) fuel total buf tls st Hc Ht) as (b' & t' & E & Hd' & Hf' & Ha');
      [lia|done..|].
    rewrite E, Z.add_assoc. apply IH; (done || lia).
Qed.

(** The last line, of size zero, ends the body. *)
Lemma stream_chunked_end last rest fuel total buf tls st :
  ~ In Byte.x0d last -> chunk_size last = Ok 0%Z -> delivers tls -> length buf + script_size tls < fuel ->
  buf ++ content tls = last ++ crlf ++ rest ->
  exists tls', stream_chunked_loop sink fuel total buf tls st = (tls', st, Ok tt).
Proof.
  intros Hl Hz Hd Hf Hall. destruct fuel as [|fuel]; [lia|].
  destruct (fill_line_at buf tls last _ Hd Hl Hall) as (tls1 & buf1 & E & T & _ & _).
  cbn [stream_chunked_loop]. rewrite E, T, Hz. by exists tls1.
Qed.

(** At the end of the connection the search for a line fails. *)
Lemma fill_line_eof fuel buf tls :
  delivers tls -> script_size tls < fuel -> find (buf ++ content tls) crlf = None ->
  exists tls', fill_line fuel buf tls = (tls', Err "chunked 提前 EOF").
Proof.
  revert buf tls. induction fuel as [|fuel IH]; intros buf tls Hd Hf Hp; [lia|]. cbn [fill_line].
  destruct (find buf crlf) as [q|] eqn:Eq.
  { assert (Hb : q + 2 <= length buf) by (by apply find_bound in Eq).
    apply (find_app buf (content tls)) in Eq; [congruence|done|done]. }
  destruct (read_delivers READ_BUF tls Hd) as [(-> & E & ->)|(b & r & Er & Hb & _ & Ec & Hd' & Hs & Hm)].
  - unfold READ_BUF. lia.
  - by exists [].
  - rewrite Er. destruct b as [|x b'] eqn:Eb; [done|]. rewrite <-Eb in *. clear Eb.
    rewrite Ec, app_assoc in Hp. apply IH; (done || lia).
Qed.

Lemma fill_chunk_eof fuel bound buf tls :
  delivers tls -> script_size tls < fuel -> (zlen (buf ++ content tls) < bound)%Z ->
  fill_chunk fuel bound buf tls = ([], Ok (buf ++ content tls)).
Proof.
  revert buf tls. induction fuel as [|fuel IH]; intros buf tls Hd Hf Hb; [lia|]. cbn [fill_chunk].
  rewrite (proj2 (Z.ltb_lt _ _)) by (rewrite zlen_app in Hb; pose proof (zlen_nonneg (content tls)); lia).
  destruct (read_delivers READ_BUF tls Hd) as [(-> & E & ->)|(b & r & Er & Hn & _ & Ec & Hd' & Hs & Hm)].
  - unfold READ_BUF. lia.
  - by rewrite E, app_nil_r.
  - rewrite Er. destruct b as [|x b'] eqn:Eb; [done|]. rewrite <-Eb in *. clear Eb.
    rewrite Ec, app_assoc in *. apply IH; (done || lia).
Qed.

Lemma find_short buf : length buf < 2 -> find buf crlf = None.
Proof.
  intros H. destruct (find buf crlf) as [q|] eqn:E; [|done]. apply find_bound in E; [|done]. cbn in E. lia.
Qed.

(** A chunk cut off before the end of its line end is an error, after what
    there is of its data has been passed on. *)
Lemma stream_chunked_cut line size part fuel total buf tls st :
  ~ In Byte.x0d line -> chunk_size line = Ok size -> (0 < size)%Z -> (zlen part < size + 2)%Z ->
  (0 <= total)%Z -> (total + size <= MAX_RESP)%Z ->
  delivers tls -> length buf + script_size tls < fuel ->
  buf ++ content tls = line ++ crlf ++ part ->
  exists tls', stream_chunked_loop sink fuel total buf tls st
    = (tls', f (take (Z.to_nat size) part) st, Err "chunked 提前 EOF").
Proof.
  intros Hl Hs Hpos Hpart Ht Hmax Hd Hf Hall. destruct fuel as [|fuel]; [lia|].
  destruct (fill_line_at buf tls line _ Hd Hl Hall) as (tls1 & buf1 & E & T & Hrest & Hd1 & Hm1).
  cbn [stream_chunked_loop]. rewrite E, T, Hs. rewrite (proj2 (Z.eqb_neq _ _)) by lia.
  unfold MAX_RESP in *. unfold usize_wrap. rewrite !Z.mod_small by lia.
  rewrite (proj2 (Z.ltb_ge _ _)) by lia.
  rewrite fill_chunk_eof by (rewrite ?Hrest; done || lia). rewrite Hrest, sink_ok.
  assert (Tk : take (Z.to_nat (Z.min size (zlen part))) part = take (Z.to_nat size) part).
  { destruct (Z.le_ge_cases size (zlen part)); [by rewrite Z.min_l|].
    rewrite Z.min_r by done. unfold zlen in *. rewrite Nat2Z.id, !take_ge by lia. done. }
  rewrite Tk. set (left := drop (Z.to_nat (Z.min size (zlen part))) part).
  assert (Hleft : length left < 2) by (unfold left, zlen in *; rewrite length_drop; lia).
  assert (Hsk : skip_crlf left = left).
  { unfold skip_crlf. by rewrite (proj2 (Nat.leb_gt _ _)) by lia. }
  rewrite Hsk. destruct fuel as [|fuel].
  { exfalso. rewrite length_drop in Hm1. lia. }
  cbn [stream_chunked_loop]. destruct (fill_line_eof (Datatypes.S (script_size [])) left [])
    as [tls' Ee]; [constructor|lia|by rewrite app_nil_r, find_short|].
  rewrite Ee. by exists tls'.
Qed.

(** ** Bodies with a length, or up to the end *)

Lemma plain_length_loop_spec fuel cl total tls st :
  delivers tls -> script_size tls < fuel ->
  exists pieces tls' r, plain_length_loop sink fuel cl total tls st = (tls', fed pieces st, r)
    /\ concat pieces = take (Z.to_nat (cl - total)) (content tls)
    /\ (r = Ok tt <-> (cl - total <= zlen (content tls))%Z).
Proof.
  revert total tls st. induction fuel as [|fuel IH]; intros total tls st Hd Hf; [lia|].
  cbn [plain_length_loop]. destruct (Z.ltb_spec total cl) as [Hl|Hl].
  2: { exists [], tls, (Ok tt). cbn. replace (Z.to_nat (cl - total)) with 0 by lia.
       rewrite take_0. pose proof (zlen_nonneg (content tls)). repeat split; (done || lia). }
  destruct (read_delivers (Z.to_nat (Z.min (cl - total) 16384)) tls Hd)
    as [(-> & E & ->)|(b & r & -> & Hn & Hlim & Ec & Hd' & Hs & _)]; [lia| |].
  - exists [], [], (Err (short_body total cl)). cbn [fed fold_left concat content]. rewrite take_nil.
    repeat split; [done|]. unfold zlen. cbn [length]. lia.
  - destruct b as [|x b'] eqn:Eb; [done|]. rewrite <-Eb in *. clear Eb. rewrite sink_ok.
    destruct (IH (total + zlen b)%Z r (f b st) Hd') as (pieces & tls' & res & E & Ep & Er); [lia|].
    exists (b :: pieces), tls', res. rewrite E. split; [done|]. cbn [concat]. rewrite Ep, Ec.
    assert (Hb : (zlen b <= cl - total)%Z) by (unfold zlen; lia).
    replace (cl - (total + zlen b))%Z with (cl - total - zlen b)%Z in * by lia. split.
    + rewrite take_app_ge by (unfold zlen in *; lia). f_equal. f_equal. unfold zlen. lia.
    + rewrite Er, zlen_app. lia.
Qed.

Lemma plain_eof_loop_spec fuel total tls st :
  delivers tls -> script_size tls + 1 < fuel -> (0 <= total)%Z ->
  exists pieces tls' r, plain_eof_loop sink fuel total tls st = (tls', fed pieces st, r)
    /\ (exists rest, content tls = concat pieces ++ rest)
    /\ (total <= MAX_RESP -> total + zlen (concat pieces) <= MAX_RESP)%Z
    /\ (r = Ok tt <-> (total + zlen (content tls) <= MAX_RESP)%Z \/ content tls = [])
    /\ (r = Ok tt -> concat pieces = content tls).
Proof.
  revert total tls st. induction fuel as [|fuel IH]; intros total tls st Hd Hf Ht; [lia|].
  cbn [plain_eof_loop].
  destruct (read_delivers READ_BUF tls Hd) as [(-> & E & ->)|(b & r & -> & Hn & _ & Ec & Hd' & Hs & _)].
  - unfold READ_BUF. lia.
  - exists [], [], (Ok tt). cbn [fed fold_left concat content]. split; [done|]. split; [by exists []|].
    split; [unfold zlen; cbn [length]; lia|]. split; [|done]. split; [by right|done].
  - destruct b as [|x b'] eqn:Eb; [done|]. rewrite <-Eb in *.
    assert (Hb : (0 < zlen b)%Z) by (subst b; unfold zlen; cbn; lia). clear Eb.
    rewrite Ec, zlen_app. pose proof (zlen_nonneg (content r)) as Hnn.
    destruct (Z.ltb_spec MAX_RESP (total + zlen b)) as [Hm|Hm].
    + exists [], r, (Err "响应体超过上限"). cbn [concat fed fold_left]. split; [done|].
      split; [by eexists|]. split; [unfold zlen; cbn [length]; lia|]. split; [|done].
      split; [done|]. intros [?|Hnil]; [lia|]. by destruct b.
    + rewrite sink_ok.
      destruct (IH (total + zlen b)%Z r (f b st) Hd') as (pieces & tls' & res & E & [rest Ep] & Hl & Hr & Hok); [lia..|].
      exists (b :: pieces), tls', res. rewrite E. split; [done|]. cbn [concat]. rewrite zlen_app.
      split; [exists rest; by rewrite Ep, app_assoc|]. split; [lia|]. split; [|intros R; by rewrite Hok].
      rewrite Hr. rewrite <-Z.add_assoc. split.
      * intros [?|Hnil]; [left; lia|]. rewrite Hnil. unfold zlen at 2. cbn. left. lia.
      * intros [?|Hnil]; [left; lia|]. by destruct b.
Qed.
End BodyLemmas.

(** A whole chunked body. *)
Lemma stream_chunked_whole {S} (f : bytes -> S -> S) sink cs last rest buf tls st :
  (forall b st, sink b st = (f b st, Ok tt)) ->
  Forall chunk_ok cs -> ~ In Byte.x0d last -> chunk_size last = Ok 0%Z ->
  (chunk_total cs <= MAX_RESP)%Z -> delivers tls ->
  buf ++ content tls = concat (map encode_chunk cs) ++ last ++ crlf ++ rest ->
  exists tls', stream_chunked sink buf tls st = (tls', fed f (map snd cs) st, Ok tt).
Proof.
  intros Hsink Hcs Hl Hz Hmax Hd Hall. unfold stream_chunked.
  destruct (stream_chunked_prefix f sink Hsink cs _ (Datatypes.S (length buf + script_size tls)) 0 buf tls st
    Hcs ltac:(lia) Hmax Hd ltac:(lia) Hall) as (fuel & b & t & E & Hd' & Hf & Ha).
  rewrite E. by apply stream_chunked_end with (last := last) (rest := rest).
Qed.

(** A body of a known length. *)
Lemma stream_plain_exact {S} (f : bytes -> S -> S) sink initial tls cl st :
  (forall b st, sink b st = (f b st, Ok tt)) -> (0 <= cl <= MAX_RESP)%Z -> delivers tls ->
  exists pieces tls' r, stream_plain sink initial tls (Some cl) st = (tls', fed f pieces st, r)
    /\ concat pieces = take (Z.to_nat cl) (initial ++ content tls)
    /\ (r = Ok tt <-> (cl <= zlen (initial ++ content tls))%Z).
Proof.
  intros Hsink Hcl Hd. unfold stream_plain. rewrite (proj2 (Z.ltb_ge _ _)) by lia.
  rewrite zlen_app. pose proof (zlen_nonneg initial) as Hi. pose proof (zlen_nonneg (content tls)) as Hc.
  destruct (Z.ltb_spec 0 (Z.min (zlen initial) cl)) as [H0|H0].
  - rewrite Hsink.
    destruct (plain_length_loop_spec f sink Hsink (Datatypes.S (script_size tls)) cl
      (Z.min (zlen initial) cl) tls (f (take (Z.to_nat (Z.min (zlen initial) cl)) initial) st) Hd)
      as (pieces & tls' & r & E & Ep & Er); [lia|].
    exists (take (Z.to_nat (Z.min (zlen initial) cl)) initial :: pieces), tls', r.
    rewrite E. split; [done|]. cbn [concat]. rewrite Ep. split; [|rewrite Er; lia].
    destruct (Z.le_ge_cases cl (zlen initial)).
    + rewrite Z.min_r, Z.sub_diag by lia. cbn. rewrite app_nil_r, take_app_le by (unfold zlen in *; lia). done.
    + rewrite Z.min_l by lia. rewrite zlen_to_nat, (take_ge initial), take_app_ge by (unfold zlen in *; lia).
      f_equal. f_equal. unfold zlen. lia.
  - destruct (plain_length_loop_spec f sink Hsink (Datatypes.S (script_size tls)) cl 0 tls st Hd)
      as (pieces & tls' & r & E & Ep & Er); [lia|].
    exists pieces, tls', r. rewrite E. split; [done|]. rewrite Z.sub_0_r in *.
    destruct (decide (cl = 0)%Z) as [->|Hne].
    + cbn in *. rewrite Ep. split; [done|]. rewrite Er. lia.
    + assert (initial = []) as -> by (destruct initial; [done|unfold zlen in *; cbn in *; lia]).
      cbn [app]. change (zlen []) with 0%Z. split; [done|]. rewrite Er. lia.
Qed.

(** A body up to the end of the connection. *)
Lemma stream_plain_rest {S} (f : bytes -> S -> S) sink initial tls st :
  (forall b st, sink b st = (f b st, Ok tt)) -> delivers tls ->
  exists pieces tls' r, stream_plain sink initial tls None st = (tls', fed f pieces st, r)
    /\ (r = Ok tt <-> (zlen (initial ++ content tls) <= MAX_RESP)%Z)
    /\ (r = Ok tt -> concat pieces = initial ++ content tls)
    /\ (zlen (concat pieces) <= MAX_RESP)%Z.
Proof.
  intros Hsink Hd. unfold stream_plain.
  assert (G : forall total st0, (0 <= total <= MAX_RESP)%Z -> exists pieces tls' r,
    plain_eof_loop sink (Datatypes.S (Datatypes.S (script_size tls))) total tls st0 = (tls', fed f pieces st0, r)
    /\ (r = Ok tt <-> (total + zlen (content tls) <= MAX_RESP)%Z)
    /\ (r = Ok tt -> concat pieces = content tls) /\ (total + zlen (concat pieces) <= MAX_RESP)%Z).
  { intros total st0 Ht.
    destruct (plain_eof_loop_spec f sink Hsink (Datatypes.S (Datatypes.S (script_size tls))) total tls st0 Hd)
      as (pieces & tls' & r & E & _ & Hb & Hr & Hok); [lia..|].
    exists pieces, tls', r. split; [done|]. split; [|split; [done|lia]]. rewrite Hr. split; [|by left].
    intros [?|Hnil]; [done|]. rewrite Hnil. change (zlen []) with 0%Z. lia. }
  destruct initial as [|b0 ini] eqn:Ei; [|rewrite <-Ei in *].
  - destruct (G 0%Z st) as (pieces & tls' & r & E & R1 & R2 & R3); [unfold MAX_RESP; lia|].
    exists pieces, tls', r. by rewrite E.
  - rewrite zlen_app. pose proof (zlen_nonneg initial). pose proof (zlen_nonneg (content tls)).
    destruct (Z.ltb_spec MAX_RESP (zlen initial)).
    + exists [], tls, (Err "响应体超过上限"). split; [done|]. split; [split; [done|lia]|].
      split; [done|]. unfold zlen, MAX_RESP. cbn. lia.
    + rewrite Hsink. destruct (G (zlen initial) (f initial st)) as (pieces & tls' & r & E & R1 & R2 & R3); [lia|].
      exists (initial :: pieces), tls', r. rewrite E. split; [done|]. split; [done|].
      cbn [concat]. rewrite zlen_app. split; [intros R; by rewrite R2|lia].
Qed.

(** * Properties *)

(** A chunked body is decoded whatever way the connection cuts it into
    reads: the sink is given the data of the chunks, one call per chunk and in
    order, and the terminating chunk ends the body. *)
Theorem stream_chunked_decodes {S} (f : bytes -> S -> S) sink cs last rest buf tls st :
  (forall b st, sink b st = (f b st, Ok tt)) ->
  Forall chunk_ok cs -> ~ In Byte.x0d last -> chunk_size last = Ok 0%Z ->
  (chunk_total cs <= MAX_RESP)%Z -> delivers tls ->
  buf ++ content tls = concat (map encode_chunk cs) ++ last ++ crlf ++ rest ->
  exists tls', stream_chunked sink buf tls st = (tls', fed f (map snd cs) st, Ok tt).
Proof. apply stream_chunked_whole. Qed.

(** A chunked body cut off inside a chunk is an error: a truncated
    response never reads as complete. *)
Theorem stream_chunked_truncated {S} (f : bytes -> S -> S) sink cs line size part buf tls st :
  (forall b st, sink b st = (f b st, Ok tt)) ->
  Forall chunk_ok cs -> ~ In Byte.x0d line -> chunk_size line = Ok size -> (0 < size)%Z ->
  (zlen part < size + 2)%Z -> (chunk_total cs + size <= MAX_RESP)%Z -> delivers tls ->
  buf ++ content tls = concat (map encode_chunk cs) ++ line ++ crlf ++ part ->
  exists tls' e, stream_chunked sink buf tls st
    = (tls', fed f (map snd cs ++ [take (Z.to_nat size) part]) st, Err e).
Proof.
  intros Hsink Hcs Hl Hs Hpos Hpart Hmax Hd Hall. unfold stream_chunked.
  destruct (stream_chunked_prefix f sink Hsink cs _ (Datatypes.S (length buf + script_size tls)) 0 buf tls st
    Hcs ltac:(lia) ltac:(lia) Hd ltac:(lia) Hall) as (fuel & b & t & E & Hd' & Hf & Ha).
  destruct (stream_chunked_cut f sink Hsink line size part fuel (0 + chunk_total cs) b t
    (fed f (map snd cs) st)) as [tls' E']; try done; try lia.
  { unfold chunk_total. pose proof (zlen_nonneg (concat (map snd cs))). lia. }
  rewrite E, E'. eexists _, _. unfold fed. by rewrite fold_left_app.
Qed.

(** With a content length the sink is given exactly the first
    [content_length] bytes of the body, and the reader succeeds exactly when
    there are that many. *)
Theorem stream_plain_length {S} (f : bytes -> S -> S) sink initial tls cl st :
  (forall b st, sink b st = (f b st, Ok tt)) -> (0 <= cl <= MAX_RESP)%Z -> delivers tls ->
  exists pieces tls' r, stream_plain sink initial tls (Some cl) st = (tls', fed f pieces st, r)
    /\ concat pieces = take (Z.to_nat cl) (initial ++ content tls)
    /\ (r = Ok tt <-> (cl <= zlen (initial ++ content tls))%Z).
Proof. apply stream_plain_exact. Qed.

(** Without a content length the sink is given the whole rest of the
    connection when it is within [MAX_RESP], and never more than that. *)
Theorem stream_plain_eof {S} (f : bytes -> S -> S) sink initial tls st :
  (forall b st, sink b st = (f b st, Ok tt)) -> delivers tls ->
  exists pieces tls' r, stream_plain sink initial tls None st = (tls', fed f pieces st, r)
    /\ (r = Ok tt <-> (zlen (initial ++ content tls) <= MAX_RESP)%Z)
    /\ (r = Ok tt -> concat pieces = initial ++ content tls)
    /\ (zlen (concat pieces) <= MAX_RESP)%Z.
Proof. apply stream_plain_rest. Qed.

(** The response head is split off at the first blank line, wherever the
    reads cut it, and the rest of the bytes is neither lost nor repeated. *)
Theorem read_until_headers_splits tls pos :
  delivers tls -> find (content tls) blank_line = Some pos -> (Z.of_nat pos + 4 <= MAX_HEAD)%Z ->
  exists tls' left, read_until_headers tls = (tls', Ok (take pos (content tls), left))
    /\ left ++ content tls' = drop (pos + 4) (content tls) /\ delivers tls'.
Proof. intros. apply (read_until_headers_loop_spec _ [] tls pos); (done || lia). Qed.

(** A name that is one name is not another. *)
Lemma eq_ignore_other k a b :
  eq_ignore_ascii_case k a = true -> to_ascii_lowercase a <> to_ascii_lowercase b -> eq_ignore_ascii_case k b = false.
Proof.
  intros Ha Hne. destruct (eq_ignore_ascii_case k b) eqn:Hb; [|done].
  by destruct (Hne (eq_ignore_trans k a b Ha Hb)).
Qed.

(** What a template header becomes. *)
Lemma fill_header_spec token body_len kv kv' :
  fill_header token body_len kv = Some kv' ->
  kv'.1 = kv.1 /\ (named "content-length" kv' = true -> kv'.2 = show_Z body_len)
  /\ named "transfer-encoding" kv' = false
  /\ (named "authorization" kv' = true -> exists t, token = Some t /\ kv'.2 = "Bearer " ++ t).
Proof.
  destruct kv as [k v]. unfold fill_header, named.
  destruct (eq_ignore_ascii_case k "authorization") eqn:Ea.
  { destruct token as [t|]; [|done]. intros [= <-]. cbn [fst snd].
    rewrite (eq_ignore_other _ _ "content-length" Ea), (eq_ignore_other _ _ "transfer-encoding" Ea) by done.
    split; [done|]. split; [done|]. split; [done|]. intros _. by exists t. }
  destruct (eq_ignore_ascii_case k "content-length") eqn:Ec.
  { intros [= <-]. cbn [fst snd]. rewrite Ea, (eq_ignore_other _ _ "transfer-encoding" Ec) by done. done. }
  destruct (eq_ignore_ascii_case k "transfer-encoding") eqn:Et; [done|].
  intros [= <-]. cbn [fst snd]. by rewrite Ea, Ec, Et.
Qed.

Lemma in_filled token body_len ordered kv' :
  In kv' (omap (fill_header token body_len) ordered) <->
  exists kv, In kv ordered /\ fill_header token body_len kv = Some kv'.
Proof.
  rewrite <-list_elem_of_In, list_elem_of_omap. split; intros (kv & Hk & E); exists kv; split; try done;
    by apply list_elem_of_In.
Qed.

(** A name of the template that [fill_header] keeps is still there. *)
Lemma filled_keeps token body_len ordered name :
  to_ascii_lowercase name <> "authorization" -> to_ascii_lowercase name <> "transfer-encoding" ->
  existsb (named name) ordered = true -> existsb (named name) (omap (fill_header token body_len) ordered) = true.
Proof.
  intros Na Nt ([k v] & Hin & Hk)%existsb_exists. unfold named in Hk. cbn [fst] in Hk.
  assert (E : exists v', fill_header token body_len (k, v) = Some (k, v')).
  { cbn [fill_header]. rewrite (eq_ignore_other _ _ "authorization" Hk) by done.
    destruct (eq_ignore_ascii_case k "content-length"); [by eexists|].
    rewrite (eq_ignore_other _ _ "transfer-encoding" Hk) by done. by eexists. }
  destruct E as [v' E]. apply existsb_exists. exists (k, v'). split; [|done].
  apply in_filled. by exists (k, v).
Qed.

(** What is sent is a filled template header or one of the two defaults. *)
Lemma in_sent host ordered token body_len kv' :
  In kv' (sent_headers host ordered token body_len) ->
  (exists kv, fill_header token body_len kv = Some kv')
  \/ kv' = ("host", host) \/ kv' = ("content-length", show_Z body_len).
Proof.
  unfold sent_headers. intros [(kv & _ & E)%in_filled|H]%in_app_iff; [left; by exists kv|right].
  destruct (existsb (named "host") ordered), (existsb (named "content-length") ordered); cbn in H; intuition.
Qed.

(** The head built from an ordered template is one request line, the
    template in its order and case, and a blank line; every content-length
    header it holds gives the length of the body, it holds one, it holds a host
    header and no transfer-encoding header, and its authorization headers carry
    the token. *)
Theorem ordered_head_framing m path host ordered token body_len :
  let hs := sent_headers host ordered token body_len in
  build_request_head_ordered m path host ordered token body_len
    = request_line m path ++ render hs ++ crlf
  /\ Forall (fun kv => named "content-length" kv = true -> kv.2 = show_Z body_len) hs
  /\ existsb (named "content-length") hs = true /\ existsb (named "host") hs = true
  /\ existsb (named "transfer-encoding") hs = false
  /\ Forall (fun kv => named "authorization" kv = true -> exists t, token = Some t /\ kv.2 = "Bearer " ++ t) hs.
Proof.
  cbv zeta. split; [apply build_request_head_ordered_sent|]. rewrite !Forall_forall.
  split; [|split; [|split; [|split]]].
  - intros kv' [[kv E]|[->| ->]]%in_sent; [apply fill_header_spec in E; tauto|done|done].
  - unfold sent_headers. rewrite !existsb_app. destruct (existsb (named "content-length") ordered) eqn:E;
      [by rewrite (filled_keeps _ _ _ "content-length") by done|by rewrite !orb_true_r].
  - unfold sent_headers. rewrite !existsb_app. destruct (existsb (named "host") ordered) eqn:E;
      [by rewrite (filled_keeps _ _ _ "host") by done|by rewrite orb_true_r].
  - apply not_true_is_false. intros (kv' & [[kv E]|[->| ->]]%in_sent & Hk)%existsb_exists; [|done|done].
    apply fill_header_spec in E as (_ & _ & E & _). congruence.
  - intros kv' [[kv E]|[->| ->]]%in_sent; [apply fill_header_spec in E; tauto|done|done].
Qed.

(** With CRLF-free parts, the head built from an ordered template is read
    back as exactly its request line and its headers: nothing in a header can
    start a line of its own. *)
Theorem ordered_head_lines m path host ordered token body_len :
  no_crlf m = true -> no_crlf path = true -> no_crlf host = true ->
  Forall (fun kv => no_crlf kv.1 = true /\ no_crlf kv.2 = true) ordered ->
  (forall t, token = Some t -> no_crlf t = true) -> (0 <= body_len)%Z ->
  split_on2 Byte.x0d Byte.x0a (build_request_head_ordered m path host ordered token body_len)
    = (m ++ " " ++ path ++ " HTTP/1.1")
      :: map (fun kv => kv.1 ++ ": " ++ kv.2) (sent_headers host ordered token body_len) ++ [[]; []].
Proof.
  intros Hm Hp Hh Ho Ht Hb. rewrite build_request_head_ordered_sent.
  rewrite no_crlf_spec in Hm, Hp, Hh. unfold request_line.
  replace ((m ++ " " ++ path ++ " HTTP/1.1" ++ crlf) ++ render (sent_headers host ordered token body_len) ++ crlf)
    with ((m ++ " " ++ path ++ " HTTP/1.1") ++ crlf ++ render (sent_headers host ordered token body_len) ++ crlf)
    by (by rewrite <-!app_assoc).
  rewrite split_on2_line by (rewrite !in_app_iff; cbn; intuition congruence).
  rewrite split_on2_render; [done|]. unfold sent_headers. rewrite !Forall_app. split; [|split].
  - apply Forall_forall. intros kv' Hin. apply list_elem_of_In, list_elem_of_omap in Hin as ([k v] & Hk & E).
    apply list_elem_of_In in Hk. rewrite Forall_forall in Ho. specialize (Ho (k, v) Hk). cbn [fst snd] in Ho.
    rewrite !no_crlf_spec in Ho. unfold fill_header in E.
    repeat case_match; simplify_eq; cbn [fst snd]; try tauto.
    + destruct token as [t|]; [|done]. injection E as <-. cbn [fst snd]. split; [tauto|].
      specialize (Ht t eq_refl). rewrite no_crlf_spec in Ht. cbn. intuition congruence.
    + split; [tauto|]. by apply show_Z_no_byte.
  - case_match; constructor; [|constructor]. split; [cbn; intuition congruence|tauto].
  - case_match; constructor; [|constructor]. split; [cbn; intuition congruence|]. by apply show_Z_no_byte.
Qed.

(** ** Sizes that wrap around *)

(** A chunk of one or two bytes, and a second one whose announced size takes the
    sum of the two to 2^64, with some bytes after its line: one read's worth. *)
Record overflow := mkOverflow {
  o_line : bytes;
  o_data : bytes;
  o_wrap : bytes;
  o_junk : bytes;
}.

Definition overflow_text (o : overflow) : bytes :=
  encode_chunk (o_line o, o_data o) ++ o_wrap o ++ crlf ++ o_junk o.

Record overflow_ok (o : overflow) : Prop := {
  oo_chunk : chunk_ok (o_line o, o_data o);
  oo_small : (zlen (o_data o) <= 2)%Z;
  oo_line : ~ In Byte.x0d (o_wrap o);
  oo_wrap : chunk_size (o_wrap o) = Ok (2 ^ 64 - zlen (o_data o))%Z;
  oo_junk : o_junk o <> [];
  oo_read : length (overflow_text o) <= READ_BUF;
}.

(** What the sink is given of them. *)
Definition overflow_pieces (os : list overflow) : list bytes := concat (map (fun o => [o_data o; o_junk o]) os).

Section Overflow.
Context {S : Type} (f : bytes -> S -> S) (sink : bytes -> S -> S * result unit bytes).
Hypothesis sink_ok : forall b st, sink b st = (f b st, Ok tt).

(** The line is in the buffer, or in what the next read gives. *)
Lemma fill_line_held fuel line rest tls :
  ~ In Byte.x0d line -> fill_line fuel (line ++ crlf ++ rest) tls = (tls, Ok (length line, line ++ crlf ++ rest)).
Proof.
  intros Hl. assert (F : find (line ++ crlf ++ rest) crlf = Some (length line)) by (by apply find_sep with (b := Byte.x0d)).
  by destruct fuel; cbn [fill_line]; rewrite F.
Qed.

Lemma fill_line_next line rest tls :
  ~ In Byte.x0d line -> length (line ++ crlf ++ rest) <= READ_BUF ->
  fill_line (Datatypes.S (script_size (Data (line ++ crlf ++ rest) :: tls))) [] (Data (line ++ crlf ++ rest) :: tls)
    = (tls, Ok (length line, line ++ crlf ++ rest)).
Proof.
  intros Hl Hr. pose proof (fun fuel => fill_line_held fuel line rest tls Hl) as H.
  cbn [fill_line]. change (find [] crlf) with (@None nat). cbn [read].
  rewrite (proj2 (Nat.leb_le _ _)) by done. set (b := line ++ crlf ++ rest) in *.
  assert (b <> []) by (unfold b; by destruct line). destruct b as [|x b]; [done|]. rewrite app_nil_l. apply H.
Qed.

(** A chunk in the buffer with its line end. *)
Lemma chunk_held fuel total buf tls tls' line data tail st :
  fill_line (Datatypes.S (script_size tls)) buf tls = (tls', Ok (length line, line ++ crlf ++ data ++ crlf ++ tail)) ->
  chunk_ok (line, data) -> (0 <= total)%Z -> (total + zlen data <= MAX_RESP)%Z ->
  stream_chunked_loop sink (Datatypes.S fuel) total buf tls st
    = stream_chunked_loop sink fuel (total + zlen data) tail tls' (f data st).
Proof.
  intros E (Hl & Hs & Hne) Ht Hmax. cbn [fst snd] in *. cbn [stream_chunked_loop]. rewrite E, take_app_length, Hs.
  assert (0 < zlen data)%Z by (destruct data; [done|unfold zlen; cbn; lia]).
  rewrite (proj2 (Z.eqb_neq _ _)) by lia. unfold MAX_RESP in *. unfold usize_wrap. rewrite !Z.mod_small by lia.
  rewrite (proj2 (Z.ltb_ge _ _)) by lia. rewrite <-drop_drop, drop_app_length. change (drop 2 (crlf ++ ?x)) with x.
  cbn [fill_chunk]. rewrite (proj2 (Z.ltb_ge _ _)) by (rewrite !zlen_app; pose proof (zlen_nonneg tail); change (zlen crlf) with 2%Z; lia).
  rewrite Z.min_l by (rewrite !zlen_app; pose proof (zlen_nonneg tail); change (zlen crlf) with 2%Z; lia).
  rewrite zlen_to_nat, take_app_length, drop_app_length, sink_ok. done.
Qed.

(** The size that wraps around: what has arrived is passed on as its data. *)
Lemma wrap_held fuel k buf tls tls' line junk st :
  fill_line (Datatypes.S (script_size tls)) buf tls = (tls', Ok (length line, line ++ crlf ++ junk)) ->
  chunk_size line = Ok (2 ^ 64 - k)%Z -> (1 <= k <= 2)%Z -> junk <> [] -> (zlen junk <= 2 ^ 64 - 2)%Z ->
  stream_chunked_loop sink (Datatypes.S fuel) k buf tls st = stream_chunked_loop sink fuel 0 [] tls' (f junk st).
Proof.
  intros E Hs Hk Hne Hj. cbn [stream_chunked_loop]. rewrite E, take_app_length, Hs.
  rewrite (proj2 (Z.eqb_neq _ _)) by lia. replace (k + (2 ^ 64 - k))%Z with (2 ^ 64)%Z by lia.
  change (usize_wrap (2 ^ 64)) with 0%Z. change (MAX_RESP <? 0)%Z with false. cbv iota.
  rewrite <-drop_drop, drop_app_length. change (drop 2 (crlf ++ ?x)) with x.
  replace (usize_wrap (2 ^ 64 - k + 2)) with (2 - k)%Z.
  2:{ unfold usize_wrap. replace (2 ^ 64 - k + 2)%Z with ((2 - k) + 1 * 2 ^ 64)%Z by lia. rewrite Z.mod_add, Z.mod_small by lia. done. }
  assert (0 < zlen junk)%Z by (destruct junk; [done|unfold zlen; cbn; lia]).
  cbn [fill_chunk]. rewrite (proj2 (Z.ltb_ge _ _)) by lia. rewrite Z.min_r by lia.
  rewrite zlen_to_nat, firstn_all, sink_ok, skipn_all. done.
Qed.

Lemma overflow_step o fuel tls st :
  overflow_ok o ->
  stream_chunked_loop sink (Datatypes.S (Datatypes.S fuel)) 0 [] (Data (overflow_text o) :: tls) st
    = stream_chunked_loop sink fuel 0 [] tls (f (o_junk o) (f (o_data o) st)).
Proof.
  intros [Hc Hd Hl Hw Hj Hr]. pose proof Hc as (Hcl & _ & Hne). cbn [fst snd] in *.
  assert (0 < zlen (o_data o))%Z by (destruct (o_data o); [done|unfold zlen; cbn; lia]).
  assert (T : overflow_text o = o_line o ++ crlf ++ o_data o ++ crlf ++ o_wrap o ++ crlf ++ o_junk o)
    by (unfold overflow_text, encode_chunk; cbn [fst snd]; by rewrite <-!app_assoc).
  rewrite T in *.
  rewrite (chunk_held _ 0 [] _ tls (o_line o) (o_data o) (o_wrap o ++ crlf ++ o_junk o));
    [|by apply fill_line_next|done|lia|unfold MAX_RESP; lia].
  rewrite Z.add_0_l. apply (wrap_held _ (zlen (o_data o)) _ _ _ (o_wrap o)); [by apply fill_line_held|done|lia|done|].
  rewrite !length_app in Hr. unfold zlen, READ_BUF in *. lia.
Qed.

Lemma overflow_loop os last fuel st :
  Forall overflow_ok os -> ~ In Byte.x0d last -> chunk_size last = Ok 0%Z -> length (last ++ crlf) <= READ_BUF ->
  2 * length os < fuel ->
  stream_chunked_loop sink fuel 0 [] (map (fun o => Data (overflow_text o)) os ++ [Data (last ++ crlf)]) st
    = ([], fed f (overflow_pieces os) st, Ok tt).
Proof.
  intros Hos Hl Hz Hlen. revert fuel st. induction Hos as [|o os Ho _ IH]; intros fuel st Hf.
  - destruct fuel as [|fuel]; [cbn in Hf; lia|]. cbn [map app stream_chunked_loop].
    rewrite <-(app_nil_r (last ++ crlf)), <-app_assoc in Hlen |- *. rewrite fill_line_next by done.
    by rewrite take_app_length, Hz.
  - cbn [length] in Hf. destruct fuel as [|[|fuel]]; [lia..|]. cbn [map app]. rewrite overflow_step by done.
    rewrite IH by lia. done.
Qed.
End Overflow.

Lemma overflow_fuel os tls :
  Forall overflow_ok os -> 2 * length os <= script_size (map (fun o => Data (overflow_text o)) os ++ tls).
Proof.
  induction 1 as [|o os [_ _ _ _ _ _] _ IH]; [cbn; lia|]. cbn [map app length script_size] in *.
  assert (2 <= length (overflow_text o)).
  { unfold overflow_text, encode_chunk. rewrite !length_app. change (length crlf) with 2. lia. }
  unfold script_size in *. cbn in *. lia.
Qed.

(** An overflow, to repeat. *)
Definition one_overflow : overflow := mkOverflow "1" "a" "ffffffffffffffff" "anything".

Lemma one_overflow_ok : overflow_ok one_overflow.
Proof.
  split; [split; [apply (bool_decide_unpack _); vm_compute; exact I|split; [vm_compute; reflexivity|done]]|vm_compute; discriminate|
    apply (bool_decide_unpack _); vm_compute; exact I|vm_compute; reflexivity|done|].
  apply Nat.leb_le. vm_compute. reflexivity.
Qed.

(** C27. The size limit of a chunked body can be skipped any number of times:
    [total += size] and [size + 2] wrap around.  After [k] bytes of body, one or
    two, a chunk announced with 2^64 - [k] bytes takes the total back to zero
    and is accepted, whatever bytes have arrived after its line are passed on
    as its data without waiting for more, and the response goes on and reads as
    complete.  So a body of any length is relayed, over [MAX_RESP]. *)
Theorem chunk_limit_wraps {S} (f : bytes -> S -> S) sink os last st :
  (forall b st, sink b st = (f b st, Ok tt)) ->
  Forall overflow_ok os -> ~ In Byte.x0d last -> chunk_size last = Ok 0%Z -> length (last ++ crlf) <= READ_BUF ->
  stream_chunked sink [] (map (fun o => Data (overflow_text o)) os ++ [Data (last ++ crlf)]) st
    = ([], fed f (overflow_pieces os) st, Ok tt)
  /\ forall n, exists os', Forall overflow_ok os' /\ n <= length (concat (overflow_pieces os')).
Proof.
  intros Hs Hos Hl Hz Hlen. split.
  - unfold stream_chunked. apply overflow_loop; try done. cbn [length]. pose proof (overflow_fuel os [Data (last ++ crlf)] Hos). lia.
  - intros n. exists (replicate n one_overflow). split; [apply Forall_replicate, one_overflow_ok|].
    induction n as [|n IH]; [cbn; lia|]. cbn [replicate]. unfold overflow_pieces in *. cbn [map concat app].
    rewrite !length_app. cbn [o_data one_overflow length]. lia.
Qed.

(** * Witnesses *)

Definition collect_sink (b : bytes) (st : list bytes) : list bytes * result unit bytes := (st ++ [b], Ok tt).
Definition collect_f (b : bytes) (st : list bytes) : list bytes := st ++ [b].

Lemma chunk_limit_wraps_witness :
  stream_chunked collect_sink []
      [Data ("1" ++ crlf ++ "a" ++ crlf ++ "ffffffffffffffff" ++ crlf ++ "anything");
       Data ("1" ++ crlf ++ "a" ++ crlf ++ "ffffffffffffffff" ++ crlf ++ "anything"); Data ("0" ++ crlf)] []
    = ([], ["a"; "anything"; "a"; "anything"], Ok tt).
Proof.
  assert (Z0 : chunk_size "0" = Ok 0%Z) by (vm_compute; reflexivity).
  assert (N0 : ~ In Byte.x0d ("0" : bytes)) by (apply (bool_decide_unpack _); vm_compute; exact I).
  assert (L0 : length (("0" : bytes) ++ crlf) <= READ_BUF) by (apply Nat.leb_le; vm_compute; reflexivity).
  exact (proj1 (chunk_limit_wraps collect_f collect_sink [one_overflow; one_overflow] "0" [] (fun _ _ => eq_refl)
    (Forall_cons _ _ _ one_overflow_ok (Forall_cons _ _ _ one_overflow_ok (Forall_nil _))) N0 Z0 L0)).
Defined.

Definition two_chunks : list (bytes * bytes) := [("5;ext=1", "hello"); ("0A", "0123456789")].

Lemma two_chunks_ok : Forall chunk_ok two_chunks.
Proof.
  repeat (constructor; [split; [apply (bool_decide_unpack _); vm_compute; exact I|split; [vm_compute; reflexivity|done]]|]).
  constructor.
Qed.

(** The body cut in the middle of a size line, of data and of a line end. *)
Definition cut_script : script :=
  [Data ";ext=1"; Data [Byte.x0d]; Data (Byte.x0a :: "hel"); Data ("lo" ++ crlf ++ "0A" ++ crlf ++ "01234567");
   Data ("89" ++ crlf ++ "0" ++ crlf ++ "tail")].

Lemma cut_script_delivers : delivers cut_script.
Proof. repeat constructor; done. Qed.

Lemma stream_chunked_decodes_witness :
  exists tls', stream_chunked collect_sink "5" cut_script [] = (tls', ["hello"; "0123456789"], Ok tt).
Proof.
  apply (stream_chunked_decodes collect_f collect_sink two_chunks "0" "tail" "5" cut_script []);
    [done|exact two_chunks_ok|cbn; intuition congruence|vm_compute; reflexivity|vm_compute; discriminate
    |exact cut_script_delivers|vm_compute; reflexivity].
Defined.

Lemma stream_chunked_truncated_witness :
  exists tls' e, stream_chunked collect_sink "" [Data ("A" ++ crlf ++ "012"); Data "345"] []
    = (tls', ["012345"], Err e).
Proof.
  apply (stream_chunked_truncated collect_f collect_sink [] "A" 10 "012345" "" [Data ("A" ++ crlf ++ "012"); Data "345"] []);
    [done|constructor|cbn; intuition congruence|vm_compute; reflexivity|lia|vm_compute; reflexivity
    |vm_compute; discriminate|repeat constructor; done|vm_compute; reflexivity].
Defined.

Lemma stream_plain_length_witness :
  exists pieces tls' r, stream_plain collect_sink "ab" [Data "cdef"; Data "gh"] (Some 5%Z) []
      = (tls', fed collect_f pieces [], r)
    /\ concat pieces = "abcde" /\ (r = Ok tt <-> (5 <= zlen ("ab" ++ content [Data "cdef"; Data "gh"]))%Z).
Proof.
  apply (stream_plain_length collect_f collect_sink "ab" [Data "cdef"; Data "gh"] 5 []);
    [done|unfold MAX_RESP; lia|repeat constructor; done].
Defined.

Lemma stream_plain_eof_witness :
  exists pieces tls' r, stream_plain collect_sink "ab" [Data "cdef"; Data "gh"] None []
      = (tls', fed collect_f pieces [], r)
    /\ (r = Ok tt <-> (zlen ("ab" ++ content [Data "cdef"; Data "gh"]) <= MAX_RESP)%Z)
    /\ (r = Ok tt -> concat pieces = "ab" ++ content [Data "cdef"; Data "gh"])
    /\ (zlen (concat pieces) <= MAX_RESP)%Z.
Proof. apply stream_plain_eof; [done|repeat constructor; done]. Defined.

Definition split_head : script :=
  [Data ("HTTP/1.1 200 OK" ++ [Byte.x0d]); Data [Byte.x0a; Byte.x0d]; Data (Byte.x0a :: "body")].

Lemma read_until_headers_splits_witness :
  exists tls' left, read_until_headers split_head = (tls', Ok ("HTTP/1.1 200 OK", left))
    /\ left ++ content tls' = "body" /\ delivers tls'.
Proof.
  assert (D : delivers split_head) by (repeat constructor; done).
  assert (F : find (content split_head) blank_line = Some 15) by (vm_compute; reflexivity).
  exact (read_until_headers_splits split_head 15 D F ltac:(unfold MAX_HEAD; lia)).
Defined.

Lemma ordered_head_lines_witness :
  split_on2 Byte.x0d Byte.x0a
    (build_request_head_ordered "POST" "/v1" "api.example.com"
       [("Accept", "*/*"); ("Authorization", ""); ("Transfer-Encoding", "chunked")] (Some "tok") 2)
  = ["POST /v1 HTTP/1.1"; "Accept: */*"; "Authorization: Bearer tok"; "host: api.example.com";
     "content-length: 2"; []; []].
Proof.
  apply (ordered_head_lines "POST" "/v1" "api.example.com"
    [("Accept", "*/*"); ("Authorization", ""); ("Transfer-Encoding", "chunked")] (Some "tok") 2);
    try (vm_compute; reflexivity); [repeat constructor|intros t [= <-]; reflexivity|lia].
Defined.
