(* ===== verification/ResponseHead.v ===== *)
(** The response head as its sender means it: a status line and a list of
    header fields, written out ([head_text]), and what [parse_headers] of
    [Http1.v] makes of it. *)

From S2P Require Import Prelude RustStr BTree Paths Io Http1 Sample.
Local Open Scope bytes_scope.

(** A status line and its header fields. *)
Record Head := mkHead {
  version : bytes;
  code : Z;
  reason : bytes;
  fields : list (bytes * bytes);
}.

Definition status_line (h : Head) : bytes := version h ++ " " ++ show_Z (code h) ++ " " ++ reason h.
Definition field_text (kv : bytes * bytes) : bytes := kv.1 ++ ": " ++ kv.2.

(** The lines of the head, without the blank line that ends it. *)
Definition head_text (h : Head) : bytes := join crlf (status_line h :: map field_text (fields h)).

(** A header field as RFC 9110 has it: a visible name without a colon, and a
    value on one line with no white space around it. *)
Definition field_ok (kv : bytes * bytes) : bool :=
  negb (bool_decide (kv.1 = [])) && forallb (fun b => visible b && negb (Byte.eqb b Byte.x3a)) kv.1
  && negb (bool_decide (In Byte.x0d kv.2)) && is_utf8 kv.2 && eqs (trim kv.2) kv.2.

Definition head_ok (h : Head) : bool :=
  negb (bool_decide (version h = [])) && forallb visible (version h)
  && ((0 <=? code h) && (code h <=? u16_max))%Z
  && negb (bool_decide (In Byte.x0d (reason h))) && is_utf8 (reason h)
  && forallb field_ok (fields h).

(** The values given under a name, in order; names do not tell case apart. *)
Definition values (name : bytes) (fs : list (bytes * bytes)) : list bytes :=
  map snd (List.filter (fun kv => eqs (to_ascii_lowercase kv.1) name) fs).

Section Parsed.
Context `{UC : UnicodeCase}.

(** What a reader of the head has to find in it. *)
Record reads_as (h : Head) (p : Headers) : Prop := {
  ra_status : status p = code h;
  ra_content_type : content_type p = list.last (values "content-type" (fields h));
  ra_chunked : chunked p =
    existsb (fun v => contains (to_lowercase v) "chunked") (values "transfer-encoding" (fields h));
  ra_content_length : content_length p =
    (v ← list.last (values "content-length" (fields h)); ok (from_str_radix 10 u64_max v));
  ra_sorted : sorted (headers p);
  ra_headers k : bget k (headers p) =
    match values k (fields h) with [] => None | vs => Some (join ", " vs) end;
}.

(** * Lemmas *)

Lemma values_snoc name fs k v :
  values name (fs ++ [(k, v)])
    = values name fs ++ (if eqs (to_ascii_lowercase k) name then [v] else []).
Proof.
  unfold values. rewrite List.filter_app, map_app. cbn [List.filter fst].
  by destruct (eqs (to_ascii_lowercase k) name).
Qed.

Lemma join_snoc sep l s : l <> [] -> join sep (l ++ [s]) = join sep l ++ sep ++ s.
Proof.
  induction l as [|x [|y l] IH]; intros Hne; [done|done|].
  change (join sep ((x :: y :: l) ++ [s])) with (x ++ sep ++ join sep ((y :: l) ++ [s])).
  change (join sep (x :: y :: l)) with (x ++ sep ++ join sep (y :: l)).
  rewrite IH by done. by rewrite <-!app_assoc.
Qed.

Lemma find_byte_app a c r : ~ In c a -> find_byte (a ++ c :: r) c = Some (length a).
Proof.
  induction a as [|b a IH]; intros Hin; cbn [app find_byte length]; [by rewrite byte_eqb_refl|].
  rewrite byte_eqb_ne by (intros ->; apply Hin; by left). rewrite IH; [done|]. intros ?. apply Hin. by right.
Qed.

Record field_spec (k v : bytes) : Prop := {
  fs_name : k <> [];
  fs_visible : forallb visible k = true;
  fs_colon : ~ In Byte.x3a k;
  fs_cr : ~ In Byte.x0d v;
  fs_utf8 : is_utf8 v = true;
  fs_trim : trim v = v;
}.

Lemma field_ok_spec k v : field_ok (k, v) = true -> field_spec k v.
Proof.
  unfold field_ok. cbn [fst snd]. rewrite !andb_true_iff, !negb_true_iff, !bool_decide_eq_false.
  intros [[[[Hne Hk] Hcr] Hu] Ht]. unfold eqs in Ht. apply bool_decide_eq_true in Ht.
  rewrite forallb_forall in Hk. split; try done.
  - apply forallb_forall. intros b Hb%Hk. by apply andb_prop in Hb as [? _].
  - intros Hb%Hk. done.
Qed.

(** One header line, read. *)
Lemma parse_header_line_field h k v :
  field_spec k v ->
  parse_header_line h (field_text (k, v))
    = let k := to_ascii_lowercase k in
      mkHeaders (status h)
        (if eqs k "content-type" then Some v else content_type h)
        (if eqs k "transfer-encoding" && contains (to_lowercase v) "chunked" then true else chunked h)
        (if eqs k "content-length" then ok (from_str_radix 10 u64_max v) else content_length h)
        (match bget k (headers h) with
         | Some existing => bins k (existing ++ ", " ++ v) (headers h)
         | None => bins k v (headers h)
         end).
Proof.
  intros H. unfold parse_header_line, field_text. cbn [fst snd].
  change (k ++ ": " ++ v) with (k ++ Byte.x3a :: Byte.x20 :: v).
  rewrite find_byte_app by apply H. rewrite take_app_length, <-drop_drop, drop_app_length.
  change (drop 1 (Byte.x3a :: Byte.x20 :: v)) with (Byte.x20 :: v).
  rewrite trim_space, (fs_trim _ _ H), (trim_visible k) by apply H.
  assert (L : to_lowercase k = to_ascii_lowercase k)
    by (unfold to_lowercase; by rewrite (visible_ascii k (fs_visible _ _ H))).
  by rewrite L.
Qed.

(** All of them. *)
Lemma parse_header_lines_spec st fs :
  forallb field_ok fs = true ->
  reads_as (mkHead [] st [] fs) (fold_left parse_header_line (map field_text fs) (mkHeaders st None false None [])).
Proof.
  induction fs as [|[k v] fs IH] using rev_ind; intros Hok; [split; (done || constructor)|].
  rewrite forallb_app in Hok. apply andb_prop in Hok as [Hfs Hkv]. cbn in Hkv. rewrite andb_true_r in Hkv.
  destruct (IH Hfs) as [Hs Hct Hch Hcl Hso Hh]. cbn [code fields] in *.
  rewrite map_app, fold_left_app. cbn [map fold_left].
  set (p := fold_left _ _ _) in *. rewrite parse_header_line_field by (by apply field_ok_spec). cbv zeta.
  split; cbn [status content_type chunked content_length headers code fields]; rewrite ?values_snoc.
  - done.
  - destruct (eqs _ _); [by rewrite last_snoc|by rewrite app_nil_r].
  - destruct (eqs _ _); cbn [andb]; [|by rewrite app_nil_r].
    rewrite existsb_app, <-Hch. cbn [existsb]. destruct (contains _ _); by rewrite ?orb_true_r, ?orb_false_r.
  - destruct (eqs _ _); [by rewrite last_snoc|by rewrite app_nil_r].
  - destruct (bget _ _); by apply sorted_bins.
  - intros k'. rewrite values_snoc. unfold eqs at 1. case_bool_decide as E.
    + subst k'. rewrite Hh. destruct (values (to_ascii_lowercase k) fs) as [|x vs] eqn:Ev.
      * cbv iota. by rewrite bget_bins_eq.
      * cbv iota. rewrite bget_bins_eq, <-join_snoc by done. done.
    + rewrite app_nil_r. destruct (bget (to_ascii_lowercase k) (headers p)); rewrite bget_bins_ne by done; apply Hh.
Qed.

(** The lines of a text are found again. *)
Lemma split_on2_join ls :
  ls <> [] -> Forall (fun l => ~ In Byte.x0d l) ls -> split_on2 Byte.x0d Byte.x0a (join crlf ls) = ls.
Proof.
  intros Hne H. induction H as [|l [|l' ls] Hl _ IH]; [done| |].
  - cbn [join]. clear -Hl. induction l as [|b [|b' l] IH]; [done|done|].
    change (split_on2 Byte.x0d Byte.x0a (b :: b' :: l)) with
      (if Byte.eqb b Byte.x0d && Byte.eqb b' Byte.x0a then [] :: split_on2 Byte.x0d Byte.x0a l
       else match split_on2 Byte.x0d Byte.x0a (b' :: l) with p :: ps => (b :: p) :: ps | [] => [[b]] end).
    rewrite IH by (cbn in *; tauto). rewrite byte_eqb_ne by (cbn in Hl; intuition congruence). done.
  - change (join crlf (l :: l' :: ls)) with (l ++ crlf ++ join crlf (l' :: ls)).
    rewrite split_on2_line by done. by rewrite IH.
Qed.

(** The blank line that ends them is the first one. *)
Lemma no_blank_before ls rest j :
  ls <> [] -> Forall (fun l => l <> [] /\ ~ In Byte.x0d l) ls -> j < length (join crlf ls) ->
  (join crlf ls ++ rest) !! j = Some Byte.x0d -> (join crlf ls ++ rest) !! (j + 2) <> Some Byte.x0d.
Proof.
  intros Hne H. revert j. induction H as [|l [|l' ls] [Hl Hcr] Hls IH]; intros j Hj H0; [done| |].
  - cbn [join] in *. rewrite lookup_app_l in H0 by done. exfalso. apply Hcr.
    by apply list_elem_of_lookup_2, list_elem_of_In in H0.
  - change (join crlf (l :: l' :: ls)) with (l ++ crlf ++ join crlf (l' :: ls)) in *.
    rewrite <-!app_assoc in *. rewrite !length_app in Hj. change (length crlf) with 2 in Hj.
    destruct (Nat.lt_ge_cases j (length l)) as [Hlt|Hge].
    { rewrite lookup_app_l in H0 by done. exfalso. apply Hcr. by apply list_elem_of_lookup_2, list_elem_of_In in H0. }
    rewrite lookup_app_r in H0 |- * by lia. replace (j + 2 - length l) with (S (S (j - length l))) by lia.
    destruct (j - length l) as [|[|i]] eqn:Ei; cbn [app lookup list_lookup crlf] in *.
    + apply Forall_cons_1 in Hls as [[Hl' Hcr'] _]. destruct l' as [|b l']; [done|].
      assert (Hb : b <> Byte.x0d) by (intros ->; apply Hcr'; by left).
      destruct ls; cbn; congruence.
    + done.
    + replace (S (S i)) with (i + 2) by lia. apply IH; (done || lia).
Qed.

Lemma find_blank ls rest :
  ls <> [] -> Forall (fun l => l <> [] /\ ~ In Byte.x0d l) ls ->
  find (join crlf ls ++ blank_line ++ rest) blank_line = Some (length (join crlf ls)).
Proof.
  intros Hne H. apply find_Some; [done|]. split.
  - apply occurs_split. exists rest. rewrite take_app_length, length_app. split; [lia|done].
  - intros j Hj (r & _ & E)%occurs_split.
    assert (L : forall i b, blank_line !! i = Some b -> (join crlf ls ++ blank_line ++ rest) !! (j + i) = Some b).
    { intros i b Hi. rewrite E. rewrite lookup_app_r; rewrite length_take_le by (rewrite length_app; lia); [|lia].
      replace (j + i - j) with i by lia. by apply lookup_app_l_Some. }
    eapply no_blank_before; [done|exact H|exact Hj| |exact (L 2 Byte.x0d eq_refl)].
    rewrite <-(Nat.add_0_r j). by apply L.
Qed.

(** What [head_ok] says. *)
Record head_spec (h : Head) : Prop := {
  hs_version : version h <> [];
  hs_visible : forallb visible (version h) = true;
  hs_code : (0 <= code h <= u16_max)%Z;
  hs_reason_cr : ~ In Byte.x0d (reason h);
  hs_reason_utf8 : is_utf8 (reason h) = true;
  hs_fields : forallb field_ok (fields h) = true;
}.

Lemma head_ok_spec h : head_ok h = true -> head_spec h.
Proof.
  unfold head_ok. rewrite !andb_true_iff, !negb_true_iff, !bool_decide_eq_false, !Z.leb_le.
  intros [[[[[Hv Hvis] Hc] Hcr] Hu] Hf]. by split.
Qed.

Lemma visible_no_cr s : forallb visible s = true -> ~ In Byte.x0d s.
Proof. rewrite forallb_forall. intros H Hin%H. done. Qed.

Lemma is_utf8_join ls : Forall (fun l => is_utf8 l = true) ls -> is_utf8 (join crlf ls) = true.
Proof.
  induction 1 as [|l [|l' ls] Hl _ IH]; [done|done|].
  change (join crlf (l :: l' :: ls)) with (l ++ crlf ++ join crlf (l' :: ls)).
  apply is_utf8_app; [done|]. by apply is_utf8_app.
Qed.

Lemma head_lines_ok h :
  head_ok h = true ->
  Forall (fun l => (l <> [] /\ ~ In Byte.x0d l) /\ is_utf8 l = true) (status_line h :: map field_text (fields h)).
Proof.
  intros H%head_ok_spec. destruct (show_Z_spec (code h)) as [_ Hd%digit_visible]; [apply H|]. constructor.
  - unfold status_line. split; [split|].
    + destruct (version h) eqn:E; [by destruct (hs_version _ H)|done].
    + pose proof (visible_no_cr _ (hs_visible _ H)). pose proof (visible_no_cr _ Hd). pose proof (hs_reason_cr _ H).
      rewrite !in_app_iff. cbn. intuition congruence.
    + repeat apply is_utf8_app; try done; try (by apply is_ascii_utf8, visible_ascii; try apply H).
      apply H.
  - pose proof (hs_fields _ H) as Hf. rewrite forallb_forall in Hf. apply Forall_forall.
    intros l ([k v] & <- & Hin%Hf)%in_map_iff. apply field_ok_spec in Hin as [Hk Hvis Hcol Hcr Hu _].
    unfold field_text. cbn [fst snd]. split; [split|].
    + by destruct k.
    + pose proof (visible_no_cr _ Hvis). rewrite !in_app_iff. cbn. intuition congruence.
    + repeat apply is_utf8_app; try done. by apply is_ascii_utf8, visible_ascii.
Qed.

(** The head is read as it was meant. *)
Lemma head_text_parsed h : head_ok h = true -> exists p, parse_headers (head_text h) = Ok p /\ reads_as h p.
Proof.
  intros Hok. pose proof (head_lines_ok h Hok) as Hl. apply head_ok_spec in Hok as H.
  destruct (show_Z_spec (code h)) as [_ Hd%digit_visible]; [apply H|].
  unfold parse_headers, head_text. rewrite from_utf8_lossy_valid.
  2: { apply is_utf8_join. eapply Forall_impl; [|exact Hl]; cbn; tauto. }
  rewrite split_on2_join; [|done|eapply Forall_impl; [|exact Hl]; cbn; tauto].
  replace (split_whitespace (status_line h) !! 1) with (Some (show_Z (code h))).
  2: { unfold status_line.
       change (version h ++ " " ++ ?x) with (version h ++ Byte.x20 :: x).
       rewrite (split_whitespace_word (version h)) by apply H.
       change (show_Z (code h) ++ " " ++ reason h) with (show_Z (code h) ++ Byte.x20 :: reason h).
       rewrite split_whitespace_word; [done|done|apply show_Z_not_nil, H]. }
  cbn [mbind option_bind]. rewrite from_str_radix_show by apply H. cbn [ok].
  eexists. split; [reflexivity|]. destruct (parse_header_lines_spec (code h) (fields h) (hs_fields _ H)) as [].
  by split.
Qed.

(** The head is split off from what follows it. *)
Lemma head_text_split h payload tls :
  head_ok h = true -> (zlen (head_text h) + 4 <= MAX_HEAD)%Z -> delivers tls ->
  content tls = head_text h ++ blank_line ++ payload ->
  exists tls' left, read_until_headers tls = (tls', Ok (head_text h, left))
    /\ left ++ content tls' = payload /\ delivers tls'.
Proof.
  intros Hok Hmax Hd Hc. pose proof (head_lines_ok h Hok) as Hl.
  destruct (read_until_headers_loop_spec (S (S (S (script_size tls)))) [] tls (length (head_text h)) Hd)
    as (tls' & left & E & Ec & Hd'); [lia| |exact Hmax|].
  - cbn [app]. rewrite Hc. apply find_blank; [done|]. eapply Forall_impl; [|exact Hl]; cbn; tauto.
  - exists tls', left. cbn [app] in *. rewrite Hc in *. rewrite take_app_length in E. split; [exact E|].
    rewrite <-drop_drop, drop_app_length in Ec. by split.
Qed.

(** * Property *)

(** C18. A response head is read as its sender means it, whatever way the
    connection cuts it: the status is the sender's, the content type and the
    content length are the last ones given, the body is chunked exactly when a
    transfer coding says so, every header is there under its lower-case name
    with the values joined in their order, and not a byte of the body is lost. *)
Theorem response_head_read h payload tls :
  head_ok h = true -> (zlen (head_text h) + 4 <= MAX_HEAD)%Z -> delivers tls ->
  content tls = head_text h ++ blank_line ++ payload ->
  exists tls' left p, read_until_headers tls = (tls', Ok (head_text h, left))
    /\ left ++ content tls' = payload /\ delivers tls'
    /\ parse_headers (head_text h) = Ok p /\ reads_as h p.
Proof.
  intros Hok Hmax Hd Hc. destruct (head_text_split h payload tls Hok Hmax Hd Hc) as (tls' & left & H1 & H2 & H3).
  destruct (head_text_parsed h Hok) as (p & H4 & H5). by exists tls', left, p.
Qed.
End Parsed.

(** * Witness *)

(** Repeated and mixed-case headers, and a value in UTF-8. *)
Definition sample_head : Head :=
  mkHead "HTTP/1.1" 200 "OK"
    [("Content-Type", "text/html"); ("X-A", "1"); ("content-type", "text/plain"); ("x-a", "é"); ("Content-Length", "4")].

Definition sample_head_script : script :=
  [Data (take 20 (head_text sample_head)); Data (drop 20 (head_text sample_head) ++ [Byte.x0d; Byte.x0a; Byte.x0d]);
   Data (Byte.x0a :: "bo"); Data "dy"].

Lemma response_head_read_witness :
  exists p, parse_headers (head_text sample_head) = Ok p /\ status p = 200%Z
    /\ content_type p = Some ("text/plain"%bs : bytes) /\ content_length p = Some 4%Z /\ chunked p = false
    /\ bget ("x-a"%bs : bytes) (headers p) = Some "1, é".
Proof.
  assert (D : delivers sample_head_script) by (repeat constructor; done).
  assert (C : content sample_head_script = head_text sample_head ++ blank_line ++ "body") by (vm_compute; reflexivity).
  destruct (response_head_read sample_head "body" sample_head_script eq_refl ltac:(vm_compute; discriminate) D C)
    as (tls' & left & p & _ & _ & _ & E & [H1 H2 H3 H4 _ H6]).
  exists p. split; [exact E|]. split; [exact H1|]. split; [exact H2|]. split; [exact H4|]. split; [exact H3|].
  exact (H6 _).
Defined.
