(* ===== verification/Base64.v ===== *)
(** The [base64] crate's [STANDARD] engine: a parameter of the development
    with the two facts the source relies on, and the RFC 4648 functions as an
    instance the witnesses run on. *)

From S2P Require Import Prelude RustStr.
Local Open Scope Z_scope.

(** A symbol of the standard alphabet, or padding. *)
Definition is_base64_byte (b : byte) : bool :=
  in_range 65 90 b || in_range 97 122 b || in_range 48 57 b
  || bool_decide (In b [Byte.x2b; Byte.x2f; Byte.x3d]).

Class Base64 := {
  b64_encode : bytes -> bytes;
  (** [Err] carries the [Display] text of the [DecodeError]. *)
  b64_decode : bytes -> result bytes bytes;
}.

(** Decoding gives back what was encoded, and only text of the alphabet is
    decoded. *)
Class Base64Laws `{Base64} : Prop := {
  b64_decode_encode b : b64_decode (b64_encode b) = Ok b;
  b64_decode_alphabet s b : b64_decode s = Ok b -> forallb is_base64_byte s = true;
}.

Lemma b64_no_byte `{Base64Laws} c s b : b64_decode s = Ok b -> is_base64_byte c = false -> ~ In c s.
Proof.
  intros D Hc Hin. apply b64_decode_alphabet in D. rewrite forallb_forall in D.
  specialize (D c Hin). congruence.
Qed.

(** * An instance *)

(** The symbol of six bits. *)
Definition symbol (n : Z) : byte :=
  if n <? 26 then byte_of_Z (65 + n)
  else if n <? 52 then byte_of_Z (71 + n)
  else if n <? 62 then byte_of_Z (n - 4)
  else if n =? 62 then Byte.x2b else Byte.x2f.

Definition unsymbol (b : byte) : option Z :=
  if in_range 65 90 b then Some (bv b - 65)
  else if in_range 97 122 b then Some (bv b - 71)
  else if in_range 48 57 b then Some (bv b + 4)
  else if Byte.eqb b Byte.x2b then Some 62
  else if Byte.eqb b Byte.x2f then Some 63
  else None.

Definition pad : byte := Byte.x3d.

Fixpoint rfc_encode (b : bytes) : bytes :=
  match b with
  | [] => []
  | [x] => [symbol (bv x / 4); symbol (bv x mod 4 * 16); pad; pad]
  | [x; y] => [symbol (bv x / 4); symbol (bv x mod 4 * 16 + bv y / 16); symbol (bv y mod 16 * 4); pad]
  | x :: y :: z :: b =>
      symbol (bv x / 4) :: symbol (bv x mod 4 * 16 + bv y / 16)
      :: symbol (bv y mod 16 * 4 + bv z / 64) :: symbol (bv z mod 64) :: rfc_encode b
  end.

(** Padding ends the text, and the bits it leaves over must be zero. *)
Fixpoint rfc_decode (s : bytes) : option bytes :=
  match s with
  | [] => Some []
  | c0 :: c1 :: c2 :: c3 :: s =>
      a ← unsymbol c0; b ← unsymbol c1;
      match unsymbol c2, unsymbol c3 with
      | Some c, Some d =>
          rest ← rfc_decode s;
          Some (byte_of_Z (a * 4 + b / 16) :: byte_of_Z (b mod 16 * 16 + c / 4)
                :: byte_of_Z (c mod 4 * 64 + d) :: rest)
      | Some c, None =>
          if Byte.eqb c3 pad && eqs s [] && (c mod 4 =? 0) then
            Some [byte_of_Z (a * 4 + b / 16); byte_of_Z (b mod 16 * 16 + c / 4)]
          else None
      | None, _ =>
          if Byte.eqb c2 pad && Byte.eqb c3 pad && eqs s [] && (b mod 16 =? 0) then
            Some [byte_of_Z (a * 4 + b / 16)]
          else None
      end
  | _ => None
  end.

#[export] Instance SampleBase64 : Base64 := {|
  b64_encode := rfc_encode;
  b64_decode s := ok_or (rfc_decode s) "Invalid symbol"%bs;
|}.

(** ** Its laws *)

Lemma unsymbol_symbol n : 0 <= n < 64 -> unsymbol (symbol n) = Some n /\ Byte.eqb (symbol n) pad = false.
Proof.
  intros H.
  assert (G : forallb (fun k => match unsymbol (symbol k) with Some m => (m =? k) | None => false end
    && negb (Byte.eqb (symbol k) pad)) (map Z.of_nat (seq 0 64)) = true) by (vm_compute; reflexivity).
  rewrite forallb_forall in G. specialize (G n). destruct (unsymbol (symbol n)) as [m|], (Byte.eqb (symbol n) pad);
    cbn in G; rewrite ?andb_false_r in G; (split; [|]);
    (assert (X : In n (map Z.of_nat (seq 0 64))) by
       (apply in_map_iff; exists (Z.to_nat n); rewrite in_seq; lia); specialize (G X));
    try done. apply andb_prop in G as [G _]. apply Z.eqb_eq in G. congruence.
Qed.

Lemma unsymbol_alphabet b n : unsymbol b = Some n -> is_base64_byte b = true.
Proof.
  assert (G : match unsymbol b with Some _ => is_base64_byte b | None => true end = true) by (by destruct b).
  intros E. by rewrite E in G.
Qed.

Lemma byte_of_bv_eq x z : z = bv x -> byte_of_Z z = x.
Proof. intros ->. apply byte_of_bv. Qed.

(** Induction three bytes at a time. *)
Lemma bytes_ind3 (P : bytes -> Prop) :
  P [] -> (forall x, P [x]) -> (forall x y, P [x; y]) -> (forall x y z b, P b -> P (x :: y :: z :: b)) ->
  forall b, P b.
Proof.
  intros H0 H1 H2 H3. induction b as [b IH] using list_length_ind.
  destruct b as [|x [|y [|z b]]]; auto. apply H3, IH. cbn. lia.
Qed.

Ltac six_bits :=
  repeat match goal with
  | |- context [unsymbol (symbol ?n)] =>
      rewrite (proj1 (unsymbol_symbol n ltac:(Z.div_mod_to_equations; lia)))
  | |- context [Byte.eqb (symbol ?n) pad] =>
      rewrite (proj2 (unsymbol_symbol n ltac:(Z.div_mod_to_equations; lia)))
  end.

Lemma rfc_decode_encode b : rfc_decode (rfc_encode b) = Some b.
Proof.
  induction b as [|x|x y|x y z b IH] using bytes_ind3; [done|..];
    pose proof (bv_range x) as Hx; try (pose proof (bv_range y) as Hy); try (pose proof (bv_range z) as Hz);
    cbn [rfc_encode rfc_decode]; six_bits; cbn [mbind option_bind].
  - change (unsymbol pad) with (@None Z). rewrite !byte_eqb_refl. change (eqs [] []) with true. cbn [andb]. rewrite (proj2 (Z.eqb_eq _ _)) by (Z.div_mod_to_equations; lia).
    f_equal. f_equal. apply byte_of_bv_eq. Z.div_mod_to_equations; lia.
  - change (unsymbol pad) with (@None Z). rewrite byte_eqb_refl. change (eqs [] []) with true. cbn [andb]. rewrite (proj2 (Z.eqb_eq _ _)) by (Z.div_mod_to_equations; lia).
    repeat f_equal; apply byte_of_bv_eq; Z.div_mod_to_equations; lia.
  - rewrite IH. cbn [mbind option_bind].
    repeat f_equal; apply byte_of_bv_eq; Z.div_mod_to_equations; lia.
Qed.

Lemma rfc_decode_alphabet s b : rfc_decode s = Some b -> forallb is_base64_byte s = true.
Proof.
  revert b. induction s as [s IH] using list_length_ind. intros b.
  destruct s as [|c0 [|c1 [|c2 [|c3 s]]]]; try done. cbn [rfc_decode forallb].
  destruct (unsymbol c0) as [a0|] eqn:E0; [|done]. destruct (unsymbol c1) as [a1|] eqn:E1; [|done].
  apply unsymbol_alphabet in E0, E1. rewrite E0, E1. cbn [mbind option_bind andb].
  assert (Pd : forall c, Byte.eqb c pad = true -> is_base64_byte c = true) by (by intros []).
  destruct (unsymbol c2) as [a2|] eqn:E2; [apply unsymbol_alphabet in E2; rewrite E2|];
    [destruct (unsymbol c3) as [a3|] eqn:E3; [apply unsymbol_alphabet in E3; rewrite E3|]|]; cbn [andb].
  - destruct (rfc_decode s) as [r|] eqn:Er; [|done]. intros _. apply (IH s) with (b := r); [cbn; lia|done].
  - destruct (Byte.eqb c3 pad) eqn:P3; [|done]. destruct (eqs s []) eqn:Es; [|done].
    apply bool_decide_eq_true in Es as ->. intros _. by rewrite (Pd c3).
  - destruct (Byte.eqb c2 pad) eqn:P2; [|done]. destruct (Byte.eqb c3 pad) eqn:P3; [|done].
    destruct (eqs s []) eqn:Es; [|done]. apply bool_decide_eq_true in Es as ->. intros _.
    by rewrite (Pd c2), (Pd c3).
Qed.

#[export] Instance SampleBase64Laws : Base64Laws.
Proof.
  split.
  - intros b. cbn. by rewrite rfc_decode_encode.
  - intros s b. cbn. destruct (rfc_decode s) eqn:E; [|done]. intros _. by eapply rfc_decode_alphabet.
Qed.
