(* ===== verification/BlockingIo.v ===== *)
(** [BlockingIo] of [h2_client.rs]: a blocking stream behind the poll interface
    the HTTP/2 crate drives.  A read or a write that runs into the short
    time-out of the socket is [Pending], with the task woken so that it is
    polled again; anything else is [Ready]. *)

From S2P Require Import Prelude RustStr Io.

(** [Poll<io::Result<A>>]. *)
Inductive poll (A : Type) :=
  | Ready (r : result A io_error)
  | Pending.
Arguments Ready {A} r.
Arguments Pending {A}.

Definition would_wait (e : io_error) : bool :=
  match kind e with Io.WouldBlock | Io.TimedOut => true | _ => false end.

(** What a method makes of the answer of the stream; the flag says whether the
    waker has been called. *)
Definition poll_answer {A} (answer : result A io_error) : bool * poll A :=
  match answer with
  | Ok n => (false, Ready (Ok n))
  | Err e => if would_wait e then (true, Pending) else (false, Ready (Err e))
  end.

Definition poll_read (limit : nat) (r : script) : script * (bool * poll bytes) :=
  let '(r, answer) := read limit r in (r, poll_answer answer).

(** The stream's answer to the write, or to the flush. *)
Definition poll_write (answer : result Z io_error) : bool * poll Z := poll_answer answer.
Definition poll_flush (answer : result unit io_error) : bool * poll unit := poll_answer answer.
Definition poll_shutdown : bool * poll unit := (false, Ready (Ok tt)).

(** The executor: a task that is pending runs again if it was woken, and never
    otherwise. *)
Fixpoint block_on_read (fuel : nat) (limit : nat) (r : script) : option (script * result bytes io_error) :=
  match fuel with
  | O => None
  | S fuel =>
      match poll_read limit r with
      | (r, (_, Ready x)) => Some (r, x)
      | (r, (true, Pending)) => block_on_read fuel limit r
      | (r, (false, Pending)) => None
      end
  end.

Fixpoint block_on_write (answers : list (result Z io_error)) : option (list (result Z io_error) * result Z io_error) :=
  match answers with
  | [] => None
  | answer :: answers =>
      match poll_write answer with
      | (_, Ready x) => Some (answers, x)
      | (true, Pending) => block_on_write answers
      | (false, Pending) => None
      end
  end.

(** The errors a socket with a time-out gives when nothing has happened in its
    time: [WouldBlock] on Unix, [TimedOut] on other systems. *)
Definition time_out (e : io_error) : Prop := kind e = Io.WouldBlock \/ kind e = Io.TimedOut.

#[export] Instance error_kind_eq_dec : EqDecision ErrorKind.
Proof. solve_decision. Defined.

#[export] Instance time_out_dec e : Decision (time_out e).
Proof. unfold time_out. apply _. Defined.

(** The same stream without its time-outs. *)
Definition untimed (r : script) : script :=
  List.filter (fun event => match event with Fail e => bool_decide (~ time_out e) | Data _ => true end) r.
Definition untimed_answers (answers : list (result Z io_error)) : list (result Z io_error) :=
  List.filter (fun answer => match answer with Err e => bool_decide (~ time_out e) | Ok _ => true end) answers.

Lemma would_wait_spec e : would_wait e = negb (bool_decide (~ time_out e)).
Proof. unfold would_wait. by destruct (kind e) eqn:E; case_bool_decide as H; unfold time_out in H; rewrite E in H; intuition congruence. Qed.

Lemma block_on_read_untimed limit r :
  exists r', block_on_read (S (length r)) limit r = Some (r', (read limit (untimed r)).2)
    /\ untimed r' = (read limit (untimed r)).1.
Proof.
  induction r as [|[b|e] r IH].
  - by exists [].
  - cbn [untimed List.filter]. fold (untimed r). cbn [block_on_read poll_read read].
    unfold poll_read. cbn [read]. destruct (length b <=? limit)%nat; by eexists.
  - cbn [untimed List.filter]. fold (untimed r). change (length (Fail e :: r)) with (S (length r)).
    cbn [block_on_read]. unfold poll_read at 1. cbn [read poll_answer].
    rewrite would_wait_spec. destruct (bool_decide _); [by eexists|exact IH].
Qed.

Lemma block_on_write_untimed answers :
  match untimed_answers answers with
  | [] => block_on_write answers = None
  | a :: rest => exists answers', block_on_write answers = Some (answers', a) /\ untimed_answers answers' = rest
  end.
Proof.
  induction answers as [|[n|e] answers IH]; [done|by exists answers|].
  cbn [untimed_answers List.filter block_on_write]. fold (untimed_answers answers). unfold poll_write, poll_answer.
  rewrite would_wait_spec. destruct (bool_decide _); [by exists answers|exact IH].
Qed.

(** C37. Time-outs of the socket, the errors [WouldBlock] and [TimedOut] and no
    others, are invisible to the HTTP/2 connection: driven
    by an executor that runs a pending task only when it has been woken, a read
    of a stream gives what a read of the same stream without its time-outs
    gives, and leaves the rest of that stream, and a write gets the first
    answer that is not a time-out.  No poll is lost: every [Pending] comes with
    a wake-up, so a read always ends. *)
Theorem timeouts_invisible limit r answers :
  (exists r', block_on_read (S (length r)) limit r = Some (r', (read limit (untimed r)).2)
     /\ untimed r' = (read limit (untimed r)).1)
  /\ match untimed_answers answers with
     | [] => block_on_write answers = None
     | a :: rest => exists answers', block_on_write answers = Some (answers', a) /\ untimed_answers answers' = rest
     end.
Proof. split; [apply block_on_read_untimed|apply block_on_write_untimed]. Qed.
