(* ===== verification/H2Client.v ===== *)
(** The HTTP/2 client: [execute] of [h2_client.rs].  The [h2], [http] and
    [tokio] crates are parameters: what the peer and the crates answer is the
    record [H2Peer], what is handed to them is the list of [h2_out]. *)

From S2P Require Import Prelude RustStr TlsProfile Io.
Local Open Scope bytes_scope.

(** * What the crates answer *)

(** [http]: parsing of the request's parts, with the [Display] text of the
    errors. *)
Class HttpCrate := {
  Uri : Type;
  Method : Type;
  uri_parse : bytes -> result Uri bytes;
  method_parse : bytes -> result Method bytes;
  request_body : Method -> Uri -> result unit bytes;
  header_name_from_bytes : bytes -> result bytes bytes;
  header_value_from_str : bytes -> result bytes bytes;
}.

(** One answer of [poll_capacity], with the answer of the [send_data] that
    follows when there is capacity. *)
Inductive capacity_event :=
  | CapacityClosed
  | CapacityErr (e : bytes)
  | Capacity (n : Z) (sent : result unit bytes).

(** One answer of [recv.data()]: a chunk, with the answer of the
    [release_capacity] for it, or an error. *)
Inductive data_event :=
  | DataChunk (chunk : bytes) (released : result unit bytes)
  | DataErr (e : bytes).

Inductive driver_end := DriverOk | DriverErr (e : bytes) | DriverPanicked.

Record H2Peer := mkH2Peer {
  runtime : result unit bytes;
  handshake : result unit bytes;
  send_request : result unit bytes;
  capacities : list capacity_event;
  response : result (Z * list (bytes * bytes)) bytes;
  datas : list data_event;
  driver : driver_end;
}.

(** How an exchange fails: with an error, or with a panic of the [h2] crate,
    which unwinds through [execute] and [handle]. *)
Inductive failure :=
  | Fails (message : bytes)
  | Panics.

(** * What the crates are given *)

(** The settings of [h2::client::Builder]; [None] is the crate's default. *)
Record H2Builder := mkH2Builder {
  enable_push : option bool;
  initial_window_size : option Z;
  max_frame_size : option Z;
  max_header_list_size : option Z;
}.

(** A header with its [set_sensitive] mark. *)
Record H2Header := mkH2Header {
  h_name : bytes;
  h_value : bytes;
  h_sensitive : bool;
}.

Inductive h2_out `{HttpCrate} :=
  | Preface (b : H2Builder) (connection_window : Z)
  | RequestHead (method : Method) (uri : Uri) (headers : list H2Header) (end_of_stream : bool)
  | DataFrame (data : bytes) (end_of_stream : bool).

Record H2ResponseSummary := mkSummary {
  status : Z;
  body_bytes : Z;
}.

(** The trait [H2ResponseSink], over a state. *)
Class H2ResponseSink (St : Type) := {
  on_head : Z -> list (bytes * bytes) -> St -> St * result unit bytes;
  on_chunk : bytes -> St -> St * result unit bytes;
}.

(** * The preface *)

Definition PSEUDO_ORDER : list bytes := [":method"; ":scheme"; ":authority"; ":path"].

Definition builder_new : H2Builder := mkH2Builder None None None None.

(** The documented panics of the crate: [max_frame_size] takes the sizes a
    SETTINGS frame may announce, and a handshake the windows a connection may
    have. *)
Definition legal_frame_size (size : Z) : bool := ((16384 <=? size) && (size <=? 2 ^ 24 - 1))%Z.
Definition MAX_WINDOW_SIZE : Z := 2 ^ 31 - 1.

Definition apply_setting (b : H2Builder) (setting : Z * Z) : result H2Builder failure :=
  let '(id, value) := setting in
  match id with
  | 2 => Ok (mkH2Builder (Some (negb (value =? 0))) (initial_window_size b) (max_frame_size b) (max_header_list_size b))
  | 4 => Ok (mkH2Builder (enable_push b) (Some value) (max_frame_size b) (max_header_list_size b))
  | 5 => if legal_frame_size value then
           Ok (mkH2Builder (enable_push b) (initial_window_size b) (Some value) (max_header_list_size b))
         else Err Panics
  | 6 => Ok (mkH2Builder (enable_push b) (initial_window_size b) (max_frame_size b) (Some value))
  | _ => Err (Fails ("unsupported Grok h2 setting id " ++ show_Z id))
  end%Z.

Fixpoint apply_settings (b : H2Builder) (settings : list (Z * Z)) : result H2Builder failure :=
  match settings with
  | [] => Ok b
  | s :: settings => let? b := apply_setting b s in apply_settings b settings
  end.

(** [65_535u32.checked_add(window_update)]. *)
Definition connection_window (fingerprint : H2Settings) : result Z bytes :=
  let w := (65535 + window_update fingerprint)%Z in
  if (w <=? u32_max)%Z then Ok w else Err "Grok h2 connection window overflow".

(** * The request *)

Definition h2_hop_headers : list bytes :=
  ["host"; "connection"; "transfer-encoding"; "te"; "trailer"; "upgrade"; "proxy-connection"; "keep-alive"].

(** What becomes of one header of the template: its lower-case name, its value
    and whether it is sensitive; [None] when it is skipped. *)
Definition h2_header_value (token : option bytes) (body_len : Z) (kv : bytes * bytes) : option H2Header :=
  let '(name, original_value) := kv in
  let lower := to_ascii_lowercase name in
  if bool_decide (In lower h2_hop_headers) then None
  else if eqs lower "authorization" then
    option_map (fun token => mkH2Header lower ("Bearer " ++ token) true) token
  else if eqs lower "content-length" then Some (mkH2Header lower (show_Z body_len) false)
  else Some (mkH2Header lower original_value false).

Section Execute.
Context `{HC : HttpCrate}.

Definition header_append (h : H2Header) : result H2Header bytes :=
  let lower := h_name h in
  let? name := map_err (fun e => "h2 header name " ++ lower ++ ": " ++ e) (header_name_from_bytes lower) in
  let? value := map_err (fun e => "h2 header " ++ lower ++ ": " ++ e) (header_value_from_str (h_value h)) in
  Ok (mkH2Header name value (h_sensitive h)).

(** The loop over the template: the headers appended so far and whether an
    authorization and a content-length entry has been seen. *)
Fixpoint h2_headers_loop (token : option bytes) (body_len : Z) (ordered : list (bytes * bytes))
    (out : list H2Header) (auth_seen content_length_seen : bool)
    : result (list H2Header * bool * bool) bytes :=
  match ordered with
  | [] => Ok (out, auth_seen, content_length_seen)
  | kv :: ordered =>
      let lower := to_ascii_lowercase kv.1 in
      let auth_seen := if eqs lower "authorization" then true else auth_seen in
      let content_length_seen := if eqs lower "content-length" then true else content_length_seen in
      match h2_header_value token body_len kv with
      | None => h2_headers_loop token body_len ordered out auth_seen content_length_seen
      | Some h =>
          let? h := header_append h in
          h2_headers_loop token body_len ordered (out ++ [h]) auth_seen content_length_seen
      end
  end.

Definition h2_headers (token : option bytes) (body_len : Z) (ordered : list (bytes * bytes))
    : result (list H2Header) bytes :=
  let? (out, auth_seen, content_length_seen) := h2_headers_loop token body_len ordered [] false false in
  let? out :=
    match auth_seen, token with
    | false, Some token =>
        let? value := map_err (fun e => "h2 authorization: " ++ e) (header_value_from_str ("Bearer " ++ token)) in
        Ok (out ++ [mkH2Header "authorization" value true])
    | _, _ => Ok out
    end in
  if content_length_seen then Ok out
  else
    let? value := map_err (fun e => "h2 content-length: " ++ e) (header_value_from_str (show_Z body_len)) in
    Ok (out ++ [mkH2Header "content-length" value false]).

(** * The body *)

(** [while offset < body.len()]; every answer of [poll_capacity] is one turn.
    A peer whose answers are used up has closed the stream. *)
Fixpoint send_body (capacities : list capacity_event) (offset : Z) (body : bytes)
    : list h2_out * result unit bytes :=
  if (offset <? zlen body)%Z then
    let wanted := Z.min (zlen body - offset) 16384 in
    match capacities with
    | [] | CapacityClosed :: _ => ([], Err "h2 request stream closed before body")
    | CapacityErr e :: _ => ([], Err ("h2 request capacity: " ++ e))
    | Capacity capacity sent :: capacities =>
        if (capacity =? 0)%Z then send_body capacities offset body
        else
          let n := Z.min wanted capacity in
          let end_ := (offset + n =? zlen body)%Z in
          match sent with
          | Err e => ([], Err ("h2 send body: " ++ e))
          | Ok _ =>
              let '(out, r) := send_body capacities (offset + n)%Z body in
              (DataFrame (take (Z.to_nat n) (drop (Z.to_nat offset) body)) end_ :: out, r)
          end
    end
  else ([], Ok tt).

(** * The response *)

Section Response.
Context {St : Type} `{SK : H2ResponseSink St}.

(** [while let Some(chunk) = recv.data()]; [total] is a [usize]. *)
Fixpoint recv_body (max_response_bytes : Z) (datas : list data_event) (total : Z) (st : St)
    : St * result Z bytes :=
  match datas with
  | [] => (st, Ok total)
  | DataErr e :: _ => (st, Err ("h2 response body: " ++ e))
  | DataChunk chunk released :: datas =>
      let total := (total + zlen chunk)%Z in
      if (u64_max <? total)%Z then (st, Err "h2 response size overflow")
      else if (max_response_bytes <? total)%Z then (st, Err "h2 response body exceeds limit")
      else
        match on_chunk chunk st with
        | (st, Err e) => (st, Err e)
        | (st, Ok _) =>
            match released with
            | Err e => (st, Err ("h2 release response capacity: " ++ e))
            | Ok _ => recv_body max_response_bytes datas total st
            end
        end
  end.

(** The closure that yields [result]. *)
Definition exchange (peer : H2Peer) (body : bytes) (max_response_bytes : Z) (st : St)
    : list h2_out * St * result H2ResponseSummary bytes :=
  match send_body (capacities peer) 0 body with
  | (out, Err e) => (out, st, Err e)
  | (out, Ok _) =>
      match response peer with
      | Err e => (out, st, Err ("h2 response: " ++ e))
      | Ok (status, headers) =>
          let headers := map (fun kv => (kv.1, from_utf8_lossy kv.2)) headers in
          match on_head status headers st with
          | (st, Err e) => (out, st, Err e)
          | (st, Ok _) =>
              match recv_body max_response_bytes (datas peer) 0 st with
              | (st, Err e) => (out, st, Err e)
              | (st, Ok total) => (out, st, Ok (mkSummary status total))
              end
          end
      end
  end.

(** Joining the driver thread: its failure counts only when all else went
    well. *)
Definition join_driver {A} (d : driver_end) (r : result A bytes) : result A bytes :=
  match r, d with
  | Ok _, DriverErr e => Err e
  | Ok _, DriverPanicked => Err "h2 connection driver panicked"
  | _, _ => r
  end.

Definition execute (peer : H2Peer) (fingerprint : H2Settings) (host method path : bytes)
    (ordered_headers : list (bytes * bytes)) (token : option bytes) (body : bytes)
    (max_response_bytes : Z) (st : St) : list h2_out * St * result H2ResponseSummary failure :=
  if negb (bool_decide (pseudo_header_order fingerprint = PSEUDO_ORDER)) then
    ([], st, Err (Fails "Grok h2 pseudo-header order must be :method,:scheme,:authority,:path"))
  else
  match apply_settings builder_new (settings fingerprint) with
  | Err e => ([], st, Err e)
  | Ok builder =>
  match connection_window fingerprint with
  | Err e => ([], st, Err (Fails e))
  | Ok window =>
  match runtime peer with
  | Err e => ([], st, Err (Fails ("h2 runtime: " ++ e)))
  | Ok _ =>
  match handshake peer with
  | Err e => ([Preface builder window], st, Err (Fails ("h2 handshake: " ++ e)))
  | Ok _ =>
  if (MAX_WINDOW_SIZE <? window)%Z then ([Preface builder window], st, Err Panics)
  else
  let head : result (Method * Uri * list H2Header) bytes :=
    let? uri := map_err (fun e => "h2 URI: " ++ e) (uri_parse ("https://" ++ host ++ path)) in
    let? method := map_err (fun e => "h2 method: " ++ e) (method_parse method) in
    let? _ := map_err (fun e => "h2 request: " ++ e) (request_body method uri) in
    let? headers := h2_headers token (zlen body) ordered_headers in
    Ok (method, uri, headers) in
  match head with
  | Err e => ([Preface builder window], st, Err (Fails e))
  | Ok (method, uri, headers) =>
  match send_request peer with
  | Err e => ([Preface builder window], st, Err (Fails ("h2 send headers: " ++ e)))
  | Ok _ =>
      let '(out, st, result) := exchange peer body max_response_bytes st in
      (Preface builder window
         :: RequestHead method uri headers (bool_decide (body = [])) :: out,
       st, map_err Fails (join_driver (driver peer) result))
  end
  end
  end
  end
  end
  end.
End Response.
End Execute.

(** [http] keeps a lower-case name and a value as they are. *)
Class HttpCrateLaws `{HttpCrate} : Prop := {
  header_name_same s n : header_name_from_bytes s = Ok n -> s = to_ascii_lowercase s -> n = s;
  header_value_same s v : header_value_from_str s = Ok v -> v = s;
}.

(** * Lemmas *)

Section Lemmas.
Context `{HC : HttpCrate}.

(** The frames of a body, with the end mark on the last one only. *)
Fixpoint data_frames (pieces : list bytes) : list h2_out :=
  match pieces with
  | [] => []
  | [p] => [DataFrame p true]
  | p :: pieces => DataFrame p false :: data_frames pieces
  end.

(** A piece of the body that goes into one frame. *)
Definition frame_piece (p : bytes) : Prop := p <> [] /\ (zlen p <= 16384)%Z.

Definition capacity_nonneg (e : capacity_event) : Prop :=
  match e with Capacity n _ => (0 <= n)%Z | _ => True end.

Lemma data_frames_cons p pieces :
  data_frames (p :: pieces) = DataFrame p (bool_decide (pieces = [])) :: data_frames pieces.
Proof. by destruct pieces. Qed.

Lemma send_body_sent caps offset body out :
  Forall capacity_nonneg caps -> (0 <= offset <= zlen body)%Z ->
  send_body caps offset body = (out, Ok tt) ->
  exists pieces, out = data_frames pieces /\ concat pieces = drop (Z.to_nat offset) body
    /\ Forall frame_piece pieces.
Proof.
  intros Hc. revert offset out. induction Hc as [|e caps He Hc IH]; intros offset out Ho.
  - cbn [send_body]. destruct (Z.ltb_spec offset (zlen body)); [done|]. intros [= <-].
    exists []. rewrite drop_ge by (unfold zlen in *; lia). done.
  - cbn [send_body]. destruct (Z.ltb_spec offset (zlen body)) as [Hlt|].
    2:{ intros [= <-]. exists []. rewrite drop_ge by (unfold zlen in *; lia). done. }
    destruct e as [|e|n sent]; [done..|]. cbn [capacity_nonneg] in He.
    destruct (Z.eqb_spec n 0); [by apply IH|]. destruct sent as [[]|]; [|done].
    set (k := Z.min (Z.min (zlen body - offset) 16384) n).
    destruct (send_body caps (offset + k) body) as [out' [[]|]] eqn:E; [|done]. intros [= <-].
    apply IH in E as (pieces & -> & Ec & Hp); [|lia].
    exists (take (Z.to_nat k) (drop (Z.to_nat offset) body) :: pieces). split; [|split].
    + rewrite data_frames_cons. f_equal. f_equal.
      destruct (Z.eqb_spec (offset + k) (zlen body)) as [Hk|Hk]; symmetry.
      * apply bool_decide_eq_true. rewrite Hk in Ec. rewrite drop_ge in Ec by (unfold zlen; lia).
        destruct Hp as [|p pieces [Hne _]]; [done|]. cbn in Ec. apply app_eq_nil in Ec as [? _]. done.
      * apply bool_decide_eq_false. intros ->. cbn in Ec. apply (f_equal length) in Ec.
        rewrite length_drop in Ec. cbn in Ec. unfold zlen in *. lia.
    + cbn [concat]. rewrite Ec. replace (Z.to_nat (offset + k)) with (Z.to_nat offset + Z.to_nat k) by lia.
      rewrite <-drop_drop. apply take_drop.
    + constructor; [|done]. unfold frame_piece. unfold zlen. rewrite length_take, length_drop.
      split; [|unfold zlen in *; lia]. intros E. apply (f_equal length) in E.
      rewrite length_take, length_drop in E. cbn in E. unfold zlen in *. lia.
Qed.

(** Enough answers with capacity send the whole body. *)
Lemma send_body_enough caps offset body :
  Forall (fun e => exists n, e = Capacity n (Ok tt) /\ (0 < n)%Z) caps ->
  (0 <= offset)%Z -> (zlen body - offset <= zlen caps)%Z ->
  exists out, send_body caps offset body = (out, Ok tt).
Proof.
  intros Hc. revert offset. induction Hc as [|e caps (n & -> & Hn) Hc IH]; intros offset Ho Hl; cbn [send_body].
  - rewrite (proj2 (Z.ltb_ge _ _)) by (unfold zlen in *; cbn in *; lia). by eexists.
  - destruct (Z.ltb_spec offset (zlen body)); [|by eexists].
    rewrite (proj2 (Z.eqb_neq _ _)) by lia.
    set (k := Z.min (Z.min (zlen body - offset) 16384) n).
    destruct (IH (offset + k)%Z) as [out ->]; [lia|unfold zlen in *; cbn [length] in *; lia|]. by eexists.
Qed.

Section Response.
Context {St : Type} `{SK : H2ResponseSink St} (f : bytes -> St -> St).
Hypothesis sink_ok : forall chunk st, on_chunk chunk st = (f chunk st, Ok tt).

Definition released_ok (e : data_event) : Prop :=
  match e with DataChunk _ (Ok _) => True | _ => False end.

Definition chunk_of (e : data_event) : bytes := match e with DataChunk c _ => c | DataErr _ => [] end.

Lemma recv_body_spec max datas total st :
  Forall released_ok datas -> (0 <= max <= u64_max)%Z ->
  exists st' r, recv_body max datas total st = (st', r)
    /\ let whole := (total + zlen (concat (map chunk_of datas)))%Z in
       (r = Ok whole /\ (total <= max -> whole <= max)%Z
          /\ st' = fold_left (fun st c => f c st) (map chunk_of datas) st)
       \/ ((max < whole)%Z /\ exists e pre, r = Err e /\ pre `prefix_of` map chunk_of datas
          /\ st' = fold_left (fun st c => f c st) pre st
          /\ (total <= max -> total + zlen (concat pre) <= max)%Z).
Proof using sink_ok.
  intros Hd Hm. revert total st. induction Hd as [|e datas He Hd IH]; intros total st.
  - cbn. eexists _, _. split; [done|]. left. change (zlen (@nil byte)) with 0%Z. rewrite Z.add_0_r. done.
  - destruct e as [chunk [[]|]|]; try done. cbn [recv_body map chunk_of concat].
    rewrite zlen_app. pose proof (zlen_nonneg (concat (map chunk_of datas))) as Hr.
    destruct (Z.ltb_spec u64_max (total + zlen chunk)) as [H1|H1].
    { eexists _, _. split; [done|]. right. split; [lia|]. eexists _, []. split; [done|].
      split; [apply prefix_nil|]. split; [done|]. change (zlen (concat [])) with 0%Z. lia. }
    destruct (Z.ltb_spec max (total + zlen chunk)) as [H2|H2].
    { eexists _, _. split; [done|]. right. split; [lia|]. eexists _, []. split; [done|].
      split; [apply prefix_nil|]. split; [done|]. change (zlen (concat [])) with 0%Z. lia. }
    rewrite sink_ok. destruct (IH (total + zlen chunk)%Z (f chunk st)) as (st' & r & E & Hs).
    exists st', r. split; [done|]. cbv zeta in *. rewrite Z.add_assoc.
    destruct Hs as [(-> & Hw & ->)|(Hw & e & pre & -> & Hp & -> & Hpre)].
    + left. split; [done|]. split; [intros; by apply Hw|done].
    + right. split; [done|]. exists e, (chunk :: pre). split; [done|].
      split; [by apply prefix_cons|]. split; [done|]. cbn [concat]. rewrite zlen_app. intros. lia.
Qed.
End Response.

(** ** The header block *)

Section Headers.
Context `{HL : !HttpCrateLaws}.

Lemma to_ascii_lowercase_idemp s : to_ascii_lowercase (to_ascii_lowercase s) = to_ascii_lowercase s.
Proof.
  unfold to_ascii_lowercase. rewrite map_map. apply map_ext. by intros [].
Qed.

(** The header block of a request: the filled template, then what it lacks. *)
Definition h2_block (token : option bytes) (body_len : Z) (ordered : list (bytes * bytes)) : list H2Header :=
  let named name (kv : bytes * bytes) := eqs (to_ascii_lowercase kv.1) name in
  omap (h2_header_value token body_len) ordered
  ++ (if existsb (named "authorization") ordered then []
      else match token with Some t => [mkH2Header "authorization" ("Bearer " ++ t) true] | None => [] end)
  ++ (if existsb (named "content-length") ordered then []
      else [mkH2Header "content-length" (show_Z body_len) false]).

Lemma h2_header_value_name token body_len kv h :
  h2_header_value token body_len kv = Some h -> h_name h = to_ascii_lowercase kv.1.
Proof.
  destruct kv as [k v]. unfold h2_header_value. repeat case_match; intros E; simplify_eq; try done.
  destruct token; simplify_eq/=. done.
Qed.

Lemma header_append_same h h' :
  header_append h = Ok h' -> h_name h = to_ascii_lowercase (h_name h) -> h' = h.
Proof.
  unfold header_append. destruct (header_name_from_bytes (h_name h)) as [n|] eqn:En; [|done].
  destruct (header_value_from_str (h_value h)) as [v|] eqn:Ev; [|done]. cbn [map_err].
  intros [= <-] Hl. apply header_name_same in En; [|done]. apply header_value_same in Ev. subst. by destruct h.
Qed.

Lemma h2_headers_loop_block token body_len ordered out auth cl out' auth' cl' :
  h2_headers_loop token body_len ordered out auth cl = Ok (out', auth', cl') ->
  out' = out ++ omap (h2_header_value token body_len) ordered
  /\ auth' = auth || existsb (fun kv => eqs (to_ascii_lowercase kv.1) "authorization") ordered
  /\ cl' = cl || existsb (fun kv => eqs (to_ascii_lowercase kv.1) "content-length") ordered.
Proof.
  revert out auth cl. induction ordered as [|kv ordered IH]; intros out auth cl; cbn [h2_headers_loop].
  { intros [= <- <- <-]. cbn. by rewrite app_nil_r, !orb_false_r. }
  cbn [omap list_omap existsb]. destruct (h2_header_value token body_len kv) as [h|] eqn:Eh.
  - destruct (header_append h) as [h'|] eqn:Ea; [|done]. intros (-> & -> & ->)%IH.
    apply header_append_same in Ea as ->;
      [|by rewrite (h2_header_value_name _ _ _ _ Eh), to_ascii_lowercase_idemp].
    rewrite <-app_assoc. split; [done|]. split;
      match goal with |- context [eqs (to_ascii_lowercase kv.1) ?k] => destruct (eqs (to_ascii_lowercase kv.1) k) end;
      cbn [orb]; by rewrite ?orb_true_r.
  - intros (-> & -> & ->)%IH. split; [done|]. split;
      match goal with |- context [eqs (to_ascii_lowercase kv.1) ?k] => destruct (eqs (to_ascii_lowercase kv.1) k) end;
      cbn [orb]; by rewrite ?orb_true_r.
Qed.

Lemma h2_headers_block token body_len ordered hs :
  h2_headers token body_len ordered = Ok hs -> hs = h2_block token body_len ordered.
Proof.
  unfold h2_headers, h2_block.
  destruct (h2_headers_loop token body_len ordered [] false false) as [[[out auth] cl]|] eqn:E; [|done].
  apply h2_headers_loop_block in E as (-> & -> & ->). rewrite app_nil_l. cbn [orb].
  destruct (existsb _ ordered); [|destruct token as [t|]]; rewrite ?app_nil_l.
  - destruct (existsb _ ordered); [intros [= <-]; by rewrite app_nil_r|].
    destruct (header_value_from_str (show_Z body_len)) as [v|] eqn:Ev; [|done]. cbn [map_err].
    apply header_value_same in Ev as ->. by intros [= <-].
  - destruct (header_value_from_str ("Bearer " ++ t)) as [w|] eqn:Ew; [|done]. cbn [map_err].
    apply header_value_same in Ew as ->.
    destruct (existsb _ ordered); [intros [= <-]; by rewrite app_nil_r|].
    destruct (header_value_from_str (show_Z body_len)) as [v|] eqn:Ev; [|done]. cbn [map_err].
    apply header_value_same in Ev as ->. intros [= <-]. by rewrite <-app_assoc.
  - destruct (existsb _ ordered); [intros [= <-]; by rewrite app_nil_r|].
    destruct (header_value_from_str (show_Z body_len)) as [v|] eqn:Ev; [|done]. cbn [map_err].
    apply header_value_same in Ev as ->. by intros [= <-].
Qed.

(** What every header of the block satisfies. *)
Definition h2_header_ok (token : option bytes) (body_len : Z) (h : H2Header) : Prop :=
  h_name h = to_ascii_lowercase (h_name h) /\ ~ In (h_name h) h2_hop_headers
  /\ (h_name h = "content-length" -> h_value h = show_Z body_len)
  /\ (h_name h = "authorization" -> h_sensitive h = true /\ exists t, token = Some t /\ h_value h = "Bearer " ++ t).

Lemma h2_header_value_ok token body_len kv h :
  h2_header_value token body_len kv = Some h -> h2_header_ok token body_len h.
Proof.
  intros E. pose proof (h2_header_value_name _ _ _ _ E) as En. destruct kv as [k v].
  cbn [fst] in En. unfold h2_header_value in E. set (lower := to_ascii_lowercase k) in *.
  assert (Hl : lower = to_ascii_lowercase lower) by (symmetry; apply to_ascii_lowercase_idemp).
  destruct (bool_decide (In lower h2_hop_headers)) eqn:Ehop; [done|]. apply bool_decide_eq_false in Ehop.
  unfold h2_header_ok. rewrite En. split; [done|]. split; [done|].
  unfold eqs in E. destruct (bool_decide (lower = "authorization")) eqn:Ea.
  { apply bool_decide_eq_true in Ea. destruct token as [t|]; [|done]. injection E as <-. cbn.
    rewrite Ea. split; [done|]. intros _. split; [done|]. by exists t. }
  apply bool_decide_eq_false in Ea. destruct (bool_decide (lower = "content-length")) eqn:Ec.
  { injection E as <-. cbn. split; done. }
  apply bool_decide_eq_false in Ec. injection E as <-. cbn. split; done.
Qed.

Lemma h2_block_ok token body_len ordered : Forall (h2_header_ok token body_len) (h2_block token body_len ordered).
Proof.
  unfold h2_block. rewrite !Forall_app. split; [|split].
  - apply Forall_forall. intros h Hin. apply list_elem_of_In, list_elem_of_omap in Hin as (kv & _ & E).
    by eapply h2_header_value_ok.
  - case_match; [constructor|]. destruct token as [t|]; [|constructor]. constructor; [|constructor].
    split; [by vm_compute|]. split; [vm_compute; intuition congruence|]. split; [done|]. intros _.
    split; [done|]. by exists t.
  - case_match; constructor; [|constructor].
    split; [by vm_compute|]. split; [vm_compute; intuition congruence|]. by split.
Qed.

Lemma h2_block_length token body_len ordered :
  exists h, In h (h2_block token body_len ordered) /\ h_name h = "content-length".
Proof.
  unfold h2_block.
  destruct (existsb (fun kv => eqs (to_ascii_lowercase kv.1) "content-length") ordered) eqn:E.
  - apply existsb_exists in E as ([k v] & Hin & Hk). apply bool_decide_eq_true in Hk. cbn [fst] in Hk.
    exists (mkH2Header "content-length" (show_Z body_len) false). split; [|done].
    apply in_app_iff. left. apply list_elem_of_In, list_elem_of_omap. exists (k, v).
    split; [by apply list_elem_of_In|]. unfold h2_header_value. rewrite Hk. reflexivity.
  - eexists. split; [apply in_app_iff; right; apply in_app_iff; right; by left|done].
Qed.

Lemma h2_block_token t body_len ordered :
  exists h, In h (h2_block (Some t) body_len ordered) /\ h_name h = "authorization" /\ h_value h = "Bearer " ++ t.
Proof.
  unfold h2_block.
  destruct (existsb (fun kv => eqs (to_ascii_lowercase kv.1) "authorization") ordered) eqn:E.
  - apply existsb_exists in E as ([k v] & Hin & Hk). apply bool_decide_eq_true in Hk. cbn [fst] in Hk.
    exists (mkH2Header "authorization" ("Bearer " ++ t) true). split; [|done].
    apply in_app_iff. left. apply list_elem_of_In, list_elem_of_omap. exists (k, v).
    split; [by apply list_elem_of_In|]. unfold h2_header_value. rewrite Hk. reflexivity.
  - eexists. split; [apply in_app_iff; right; by left|done].
Qed.
End Headers.
End Lemmas.

(** * Properties *)

Lemma execute_ok `{HC : HttpCrate} {St} `{SK : H2ResponseSink St} peer fp host m path ordered token body max
    (st : St) out st' sum :
  execute peer fp host m path ordered token body max st = (out, st', Ok sum) ->
  exists b w method uri hs rest,
    out = Preface b w :: RequestHead method uri hs (bool_decide (body = [])) :: rest
    /\ uri_parse ("https://" ++ host ++ path) = Ok uri /\ method_parse m = Ok method
    /\ h2_headers token (zlen body) ordered = Ok hs
    /\ exchange peer body max st = (rest, st', Ok sum).
Proof.
  unfold execute. destruct (negb _); [done|].
  destruct (apply_settings _ _) as [b|]; [|done]. destruct (connection_window fp) as [w|]; [|done].
  destruct (runtime peer) as [[]|]; [|done]. destruct (handshake peer) as [[]|]; [|done].
  destruct (MAX_WINDOW_SIZE <? w)%Z; [done|]. destruct (uri_parse _) as [uri|]; [|done]. destruct (method_parse m) as [method|]; [|done]. cbn [map_err].
  destruct (request_body method uri) as [[]|]; [|done]. cbn [map_err].
  destruct (h2_headers token (zlen body) ordered) as [hs|]; [|done].
  destruct (send_request peer) as [[]|]; [|done].
  destruct (exchange peer body max st) as [[rest st1] r].
  intros E. exists b, w, method, uri, hs, rest. injection E as <- <- Er.
  split; [done|]. split; [done|]. split; [done|]. split; [done|]. f_equal.
  destruct r, (driver peer); try done; cbn in Er; congruence.
Qed.

(** ** The template *)

(** The headers a client may not forward (RFC 9110, section 7.6.1), [host], and
    the two the client fills in itself. *)
Definition hop_by_hop : list bytes :=
  ["connection"; "keep-alive"; "proxy-connection"; "te"; "trailer"; "transfer-encoding"; "upgrade"; "host"].
Definition ordinary (name : bytes) : bool :=
  negb (bool_decide (In name hop_by_hop)) && negb (eqs name "authorization") && negb (eqs name "content-length").

(** The ordinary headers of a template as they are to be sent. *)
Definition forwarded (ordered : list (bytes * bytes)) : list H2Header :=
  map (fun kv => mkH2Header (to_ascii_lowercase kv.1) kv.2 false)
    (List.filter (fun kv => ordinary (to_ascii_lowercase kv.1)) ordered).

Lemma hop_names name : In name h2_hop_headers <-> In name hop_by_hop.
Proof. unfold h2_hop_headers, hop_by_hop. cbn. tauto. Qed.

Lemma h2_header_value_ordinary token body_len kv :
  match h2_header_value token body_len kv with
  | Some h => if ordinary (h_name h) then Some h else None
  | None => None
  end = if ordinary (to_ascii_lowercase kv.1) then Some (mkH2Header (to_ascii_lowercase kv.1) kv.2 false) else None.
Proof.
  destruct kv as [k v]. unfold h2_header_value. cbn [fst snd]. set (n := to_ascii_lowercase k). unfold ordinary.
  rewrite (bool_decide_ext _ _ (hop_names n)). case_bool_decide as E; [done|]. cbn [negb andb].
  destruct (eqs n "authorization") eqn:Ea; cbn [negb andb].
  { destruct token; cbn [option_map]; [|done]. cbn [h_name]. by rewrite Ea, andb_false_r. }
  destruct (eqs n "content-length") eqn:Ec; cbn [h_name]; rewrite Ea, Ec; [by rewrite !andb_false_r|].
  by rewrite bool_decide_false.
Qed.

Lemma forwarded_block token body_len ordered :
  List.filter (fun h => ordinary (h_name h)) (h2_block token body_len ordered) = forwarded ordered.
Proof.
  unfold h2_block. rewrite !List.filter_app.
  assert (E : forall (b : bool) l, List.filter (fun h => ordinary (h_name h)) l = [] ->
    List.filter (fun h => ordinary (h_name h)) (if b then [] else l) = []) by (by intros []).
  rewrite (E _ (match token with Some _ => _ | None => _ end)) by (by destruct token). rewrite E by done.
  rewrite !app_nil_r. unfold forwarded. induction ordered as [|kv ordered IH]; [done|]. cbn [omap list_omap List.filter].
  pose proof (h2_header_value_ordinary token body_len kv) as H.
  destruct (h2_header_value token body_len kv) as [h|]; cbn [List.filter].
  - destruct (ordinary (h_name h)), (ordinary (to_ascii_lowercase kv.1)); try done.
    cbn [map]. rewrite IH. by injection H as ->.
  - destruct (ordinary (to_ascii_lowercase kv.1)); [done|exact IH].
Qed.

(** C33. A successful exchange has sent one request head for the URI, and the
    body whole and in order: data frames of at most 16384 bytes, none empty,
    the end of the stream marked exactly on the last frame (on the head when
    there is no body).  Of the headers put into the head the ordinary ones are
    exactly those of the template, in order, under lower-case names and with
    their values; hop-by-hop headers are dropped, every content-length gives the
    length of the body and there is at least one, and every authorization header
    carries the token and is marked sensitive. *)
Theorem h2_request_sent `{HC : HttpCrate} `{HL : !HttpCrateLaws} {St} `{SK : H2ResponseSink St}
    peer fp host m path ordered token body max (st : St) out st' sum :
  execute peer fp host m path ordered token body max st = (out, st', Ok sum) ->
  Forall capacity_nonneg (capacities peer) ->
  exists b w method uri hs pieces,
    out = Preface b w :: RequestHead method uri hs (bool_decide (body = [])) :: data_frames pieces
    /\ uri_parse ("https://" ++ host ++ path) = Ok uri /\ method_parse m = Ok method
    /\ concat pieces = body /\ Forall frame_piece pieces
    /\ List.filter (fun h => ordinary (h_name h)) hs = forwarded ordered
    /\ Forall (h2_header_ok token (zlen body)) hs
    /\ (exists h, In h hs /\ h_name h = "content-length")
    /\ (forall t, token = Some t -> exists h, In h hs /\ h_name h = "authorization" /\ h_value h = "Bearer " ++ t).
Proof.
  intros (b & w & method & uri & hs & rest & -> & Hu & Hm & Hh & He)%execute_ok Hc.
  apply h2_headers_block in Hh as ->. unfold exchange in He.
  destruct (send_body (capacities peer) 0 body) as [o [[]|]] eqn:Es; [|done].
  apply send_body_sent in Es as (pieces & -> & Ep & Hp); [|done|pose proof (zlen_nonneg body); lia].
  exists b, w, method, uri, (h2_block token (zlen body) ordered), pieces. split; [f_equal; f_equal|].
  { repeat case_match; by simplify_eq. }
  repeat split; try done.
  - apply forwarded_block.
  - apply h2_block_ok.
  - apply h2_block_length.
  - intros t ->. apply h2_block_token.
Qed.

(** The response is relayed whole or refused: on success the sink has
    been given the head and then every chunk in order, the number of bytes
    reported is theirs and within the limit. *)
Theorem h2_response_relayed `{HC : HttpCrate} {St} `{SK : H2ResponseSink St} (f : bytes -> St -> St)
    (g : Z -> list (bytes * bytes) -> St -> St) peer fp host m path ordered token body max (st : St) out st' sum :
  (forall chunk st, on_chunk chunk st = (f chunk st, Ok tt)) ->
  (forall status hs st, on_head status hs st = (g status hs st, Ok tt)) ->
  Forall released_ok (datas peer) -> (0 <= max <= u64_max)%Z ->
  execute peer fp host m path ordered token body max st = (out, st', Ok sum) ->
  exists headers, response peer = Ok (status sum, headers)
    /\ st' = fold_left (fun st c => f c st) (map chunk_of (datas peer))
               (g (status sum) (map (fun kv => (kv.1, from_utf8_lossy kv.2)) headers) st)
    /\ body_bytes sum = zlen (concat (map chunk_of (datas peer))) /\ (body_bytes sum <= max)%Z.
Proof.
  intros Hf Hg Hd Hmax (b & w & method & uri & hs & rest & _ & _ & _ & _ & He)%execute_ok.
  unfold exchange in He. destruct (send_body _ 0 body) as [o [[]|]]; [|done].
  destruct (response peer) as [[s headers]|]; [|done]. rewrite Hg in He.
  destruct (recv_body_spec f Hf max (datas peer) 0
    (g s (map (fun kv => (kv.1, from_utf8_lossy kv.2)) headers) st) Hd Hmax) as (st1 & r & E & Hs).
  rewrite E in He. cbv zeta in Hs. rewrite Z.add_0_l in Hs.
  destruct Hs as [(-> & Hle & ->)|(_ & e & pre & -> & _)]; [|done]. injection He as _ <- <-.
  exists headers. cbn [status body_bytes]. split; [done|]. split; [done|]. split; [done|]. apply Hle. lia.
Qed.

(** ** The fingerprint *)

(** The value the settings end with for an identifier. *)
Definition last_value (id : Z) (settings : list (Z * Z)) : option Z :=
  snd <$> list.last (List.filter (fun s => s.1 =? id)%Z settings).

Lemma last_value_cons id x settings :
  last_value id (x :: settings)
    = match last_value id settings with Some v => Some v | None => if (x.1 =? id)%Z then Some x.2 else None end.
Proof.
  unfold last_value. cbn [List.filter]. destruct (x.1 =? id)%Z; [|by destruct (list.last _)].
  rewrite last_cons. by destruct (list.last _).
Qed.

Lemma apply_settings_last b settings b' :
  apply_settings b settings = Ok b' ->
  enable_push b' = match last_value 2 settings with Some v => Some (negb (v =? 0)%Z) | None => enable_push b end
  /\ initial_window_size b' = match last_value 4 settings with Some v => Some v | None => initial_window_size b end
  /\ max_frame_size b' = match last_value 5 settings with Some v => Some v | None => max_frame_size b end
  /\ max_header_list_size b' = match last_value 6 settings with Some v => Some v | None => max_header_list_size b end.
Proof.
  revert b. induction settings as [|[id v] settings IH]; intros b; [by intros [= ->]|]. cbn [apply_settings].
  destruct (apply_setting b (id, v)) as [b1|] eqn:E; [|done]. cbn [apply_setting] in E. intros (I1 & I2 & I3 & I4)%IH.
  rewrite I1, I2, I3, I4, !last_value_cons. cbn [fst snd].
  repeat case_match; simplify_eq; done.
Qed.

Definition known_setting (s : Z * Z) : Prop := In s.1 [2; 4; 5; 6]%Z /\ (s.1 = 5%Z -> legal_frame_size s.2 = true).

Lemma apply_settings_known b settings :
  (exists b', apply_settings b settings = Ok b') <-> Forall known_setting settings.
Proof.
  revert b. induction settings as [|[id v] settings IH]; intros b; cbn [apply_settings].
  - split; [constructor|by exists b].
  - rewrite Forall_cons_iff.
    assert (K : known_setting (id, v) <-> exists b', apply_setting b (id, v) = Ok b').
    { unfold known_setting. cbn [fst snd]. split.
      - intros [Hin Hl]. cbn [In] in Hin. destruct Hin as [<-|[<-|[<-|[<-|[]]]]]; try by eexists.
        cbn [apply_setting]. rewrite Hl by done. by eexists.
      - intros [b' E]. cbn [apply_setting] in E. cbn [In].
        repeat case_match; try done; (split; [tauto|]); intros; try lia; done. }
    split.
    + intros [b' E]. destruct (apply_setting b (id, v)) as [b1|] eqn:E1; [|done].
      split; [apply K; by exists b1|]. apply (IH b1). by exists b'.
    + intros [[b1 E1]%K Hs]. rewrite E1. by apply (IH b1).
Qed.

(** A panic of the settings is an illegal frame size. *)
Lemma apply_settings_panics b settings :
  apply_settings b settings = Err Panics -> exists v, In (5%Z, v) settings /\ legal_frame_size v = false.
Proof.
  revert b. induction settings as [|[id v] settings IH]; intros b; [done|]. cbn [apply_settings].
  destruct (apply_setting b (id, v)) as [b1|e] eqn:E.
  - intros (w & Hin & Hw)%IH. exists w. split; [by right|done].
  - intros [= ->]. cbn [apply_setting] in E. exists v. repeat case_match; try done; by (split; [left|]).
Qed.

(** C34. The connection begins only with a fingerprint the client supports and
    says what the fingerprint says.  The preface is handed to the crate exactly
    when the profile has the one supported pseudo-header order, only known
    settings, frame sizes that are legal, and a connection window that fits a
    [u32]; it carries, for every setting, the last value given, and that window.
    Over a window HTTP/2 does not allow no request follows.  The crate panics
    only on an illegal frame size or such a window. *)
Theorem h2_fingerprint_checked `{HC : HttpCrate} {St} `{SK : H2ResponseSink St}
    peer fp host m path ordered token body max (st : St) out st' r :
  execute peer fp host m path ordered token body max st = (out, st', r) ->
  let window := (65535 + window_update fp)%Z in
  (out <> [] <->
    pseudo_header_order fp = PSEUDO_ORDER /\ Forall known_setting (settings fp)
    /\ (window <= u32_max)%Z /\ runtime peer = Ok tt)
  /\ (forall first rest, out = first :: rest ->
        exists b, first = Preface b window
          /\ enable_push b = (fun v => negb (v =? 0)%Z) <$> last_value 2 (settings fp)
          /\ initial_window_size b = last_value 4 (settings fp)
          /\ max_frame_size b = last_value 5 (settings fp)
          /\ max_header_list_size b = last_value 6 (settings fp)
          /\ ((MAX_WINDOW_SIZE < window)%Z -> rest = [] /\ exists e, r = Err e))
  /\ (r = Err Panics ->
        (exists size, In (5%Z, size) (settings fp) /\ legal_frame_size size = false) \/ (MAX_WINDOW_SIZE < window)%Z).
Proof.
  cbv zeta. unfold execute.
  destruct (decide (pseudo_header_order fp = PSEUDO_ORDER)) as [Ho|Ho].
  2:{ rewrite bool_decide_false by done. intros [= <- _ <-].
      split; [split; [done|by intros [? _]]|done]. }
  rewrite bool_decide_true by done. cbn [negb]. pose proof (apply_settings_known builder_new (settings fp)) as A.
  destruct (apply_settings builder_new (settings fp)) as [b|e] eqn:Eb.
  2:{ intros [= <- _ <-]. split; [split; [done|]; intros (_ & [? ?]%A & _); done|]. split; [done|].
      intros [= ->]. left. by eapply apply_settings_panics. }
  assert (Hs : Forall known_setting (settings fp)) by (apply A; by exists b).
  unfold connection_window. destruct (Z.leb_spec (65535 + window_update fp) u32_max) as [Hw|Hw].
  2:{ intros [= <- _ <-]. split; [split; [done|]; lia|]. done. }
  destruct (runtime peer) as [[]|e]; [|intros [= <- _ <-]; split; [split; [done|]; by intros (_ & _ & _ & ?)|done]].
  apply apply_settings_last in Eb. intros E.
  assert (F : exists rest, out = Preface b (65535 + window_update fp) :: rest
    /\ ((MAX_WINDOW_SIZE < 65535 + window_update fp)%Z -> rest = [] /\ exists e, r = Err e)
    /\ (r = Err Panics -> (MAX_WINDOW_SIZE < 65535 + window_update fp)%Z)).
  { destruct (handshake peer) as [[]|e]; [|injection E as <- _ <-; exists []; split; [done|split; [by intros _; split; [|eexists]|done]]].
    destruct (Z.ltb_spec MAX_WINDOW_SIZE (65535 + window_update fp)) as [Hb|Hb]; [injection E as <- _ <-; exists []; split; [done|split; [by intros _; split; [|eexists]|by intros _]]|].
    repeat case_match; simplify_eq; eexists; (split; [reflexivity|]); (split; [lia|]);
      intros; try done; match goal with H : map_err Fails ?x = Err Panics |- _ => by destruct x end. }
  destruct F as (rest & -> & F1 & F2). split; [done|]. split; [|auto].
  intros first rest' [= <- <-]. exists b. destruct Eb as (-> & -> & -> & ->). split; [done|].
  split; [by destruct (last_value 2 _)|]. split; [by destruct (last_value 4 _)|]. split; [by destruct (last_value 5 _)|].
  split; [by destruct (last_value 6 _)|]. exact F1.
Qed.

(** * Witnesses *)

Section Witnesses.
#[local] Instance sample_http : HttpCrate := {|
  Uri := bytes; Method := bytes; uri_parse u := Ok u; method_parse m := Ok m; request_body _ _ := Ok tt;
  header_name_from_bytes s := Ok (to_ascii_lowercase s); header_value_from_str s := Ok s |}.

#[local] Instance sample_http_laws : HttpCrateLaws.
Proof. split; cbn; intros; congruence. Qed.

(** A sink that keeps what it is given. *)
#[local] Instance recording_sink : H2ResponseSink (list bytes) := {|
  on_head status hs st := (st ++ [show_Z status], Ok tt);
  on_chunk chunk st := (st ++ [chunk], Ok tt) |}.

Definition sample_peer : H2Peer :=
  mkH2Peer (Ok tt) (Ok tt) (Ok tt) [Capacity 3 (Ok tt); Capacity 0 (Ok tt); Capacity 100 (Ok tt)]
    (Ok (200%Z, [("content-type", "text/plain")])) [DataChunk "first" (Ok tt); DataChunk "second" (Ok tt)] DriverOk.

Definition sample_fingerprint : H2Settings :=
  {| settings := [(2, 0); (4, 2097152); (5, 16384); (6, 16384)]%Z; window_update := 5177345;
     pseudo_header_order := PSEUDO_ORDER |}.

Definition sample_template : list (bytes * bytes) :=
  [("Content-Type", "application/json"); ("Connection", "close"); ("Authorization", "")].

Abbreviation sample_execute :=
  (execute sample_peer sample_fingerprint "api.x.ai" "POST" "/v1/responses" sample_template (Some "tok") "hello" 1024 []).

Example sample_execute_runs :
  sample_execute
    = ([Preface (mkH2Builder (Some false) (Some 2097152) (Some 16384) (Some 16384))%Z 5242880%Z;
        RequestHead ("POST" : Method) ("https://api.x.ai/v1/responses" : Uri)
          [mkH2Header "content-type" "application/json" false; mkH2Header "authorization" "Bearer tok" true;
           mkH2Header "content-length" "5" false] false;
        DataFrame "hel" false; DataFrame "lo" true],
       ["200"; "first"; "second"], Ok (mkSummary 200 11)).
Proof. vm_compute. reflexivity. Qed.

Lemma h2_request_sent_witness :
  exists out st' sum b w method uri hs pieces,
    sample_execute = (out, st', Ok sum)
    /\ out = Preface b w :: RequestHead method uri hs false :: data_frames pieces
    /\ concat pieces = "hello" /\ Forall frame_piece pieces.
Proof.
  destruct sample_execute as [[out st'] r] eqn:E. pose proof E as R. rewrite sample_execute_runs in R.
  assert (Er : r = Ok (mkSummary 200 11)) by congruence. rewrite Er in E. rewrite Er.
  assert (C : Forall capacity_nonneg (capacities sample_peer)) by (repeat constructor; cbn; lia).
  destruct (h2_request_sent _ _ _ _ _ _ _ _ _ _ _ _ _ E C)
    as (b & w & method & uri & hs & pieces & Eo & _ & _ & Ec & Hp & _).
  exists out, st', (mkSummary 200 11), b, w, method, uri, hs, pieces.
  split; [reflexivity|]. split; [exact Eo|]. split; [exact Ec|exact Hp].
Defined.

Lemma h2_fingerprint_checked_witness :
  exists b rest, sample_execute.1.1 = Preface b 5242880 :: rest
    /\ initial_window_size b = Some 2097152%Z /\ max_frame_size b = Some 16384%Z.
Proof.
  destruct sample_execute as [[out st'] r] eqn:E. cbn [fst].
  destruct (h2_fingerprint_checked _ _ _ _ _ _ _ _ _ _ _ _ _ E) as (F1 & F2 & _). cbv zeta in F1, F2.
  assert (N : out <> []).
  { apply F1. split; [reflexivity|]. split; [|split; [vm_compute; discriminate|reflexivity]].
    repeat (constructor; [split; [cbn; tauto|by vm_compute]|]). constructor. }
  destruct out as [|first rest]; [by destruct N|].
  destruct (F2 first rest eq_refl) as (b & Ef & _ & E4 & E5 & _). exists b, rest.
  split; [by rewrite Ef|]. split; [rewrite E4|rewrite E5]; vm_compute; reflexivity.
Defined.

Lemma h2_response_relayed_witness :
  exists out st' sum, sample_execute = (out, st', Ok sum)
    /\ st' = ["200"; "first"; "second"] /\ body_bytes sum = 11%Z.
Proof.
  destruct sample_execute as [[out st'] r] eqn:E. pose proof E as R. rewrite sample_execute_runs in R.
  assert (Er : r = Ok (mkSummary 200 11)) by congruence. rewrite Er in E. rewrite Er.
  assert (M : (0 <= 1024 <= u64_max)%Z) by (unfold u64_max; lia).
  assert (D : Forall released_ok (datas sample_peer)) by repeat constructor.
  destruct (h2_response_relayed (SK := recording_sink) (fun c st => st ++ [c]) (fun s _ st => st ++ [show_Z s])
    _ _ _ _ _ _ _ _ _ _ _ _ _ (fun _ _ => eq_refl) (fun _ _ _ => eq_refl)
    D M E) as (headers & _ & Est & Eb & _).
  exists out, st', (mkSummary 200 11). split; [reflexivity|]. split; [rewrite Est; vm_compute; reflexivity|].
  rewrite Eb. vm_compute. reflexivity.
Defined.
End Witnesses.
