(* ===== verification/Egress.v ===== *)
(** The way out of the enclave: the choice of the egress socket
    ([parse_egress_mode], [parent_cid_candidates], [connect_egress] of
    [main.rs]), the TLS profile of a request ([decode_profile]) and the TLS
    clients that render it ([egress_boring.rs], [egress_openssl.rs],
    [egress_rustls_aws_lc.rs]).  Sockets and TLS libraries are parameters. *)

From S2P Require Import Prelude RustStr Paths Base64 TlsProfile Protocol Io H2Client.
Local Open Scope bytes_scope.

(** * The socket *)

Inductive EgressMode := ModeDirectVsock | ModeQProxyTcp.

Definition DEFAULT_PARENT_CID : Z := 3.

(** [VsockStream] and [TcpStream]: [connect], with the text of its errors, and
    the socket after its time-outs have been set, in milliseconds. *)
Class Sockets := {
  Socket : Type;
  vsock_connect : Z -> Z -> result Socket bytes;
  tcp_connect : bytes -> Z -> result Socket bytes;
  set_read_timeout : Socket -> Z -> Socket;
  set_write_timeout : Socket -> Z -> Socket;
}.

Inductive EgressStream `{Sockets} :=
  | DirectVsock (s : Socket)
  | QProxyTcp (s : Socket).

(** Both time-outs of the socket; [.ok()] drops the errors. *)
Definition set_egress_timeouts `{Sockets} (sock : EgressStream) (timeout : Z) : EgressStream :=
  match sock with
  | DirectVsock s => DirectVsock (set_write_timeout (set_read_timeout s timeout) timeout)
  | QProxyTcp s => QProxyTcp (set_write_timeout (set_read_timeout s timeout) timeout)
  end.

Definition parse_egress_mode (raw : option bytes) : result EgressMode bytes :=
  let mode := to_ascii_lowercase (trim (default "direct-vsock" raw)) in
  if eqs mode "qproxy" || eqs mode "qproxy-tcp" then Ok ModeQProxyTcp
  else if eqs mode "direct-vsock" || eqs mode "vsock" || eqs mode "" then Ok ModeDirectVsock
  else Err ("unsupported POO_EGRESS_MODE=" ++ mode ++ "; supported: direct-vsock, qproxy").

(** [Display] of [ParseIntError]. *)
Definition parse_int_text (e : parse_int_error) : bytes :=
  match e with
  | PIEmpty => "cannot parse integer from empty string"
  | PIInvalidDigit => "invalid digit found in string"
  | PIPosOverflow => "number too large to fit in target type"
  end.

(** The loop over the comma-separated parts. *)
Fixpoint collect_cids (parts : list bytes) (cids : list Z) : result (list Z) bytes :=
  match parts with
  | [] => Ok cids
  | part :: parts =>
      let item := trim part in
      if eqs item "" then collect_cids parts cids
      else
        let? cid := map_err (fun e => "invalid parent CID `" ++ item ++ "` in POO_PARENT_CIDS: " ++ parse_int_text e)
                      (from_str_radix 10 u32_max item) in
        collect_cids parts (if bool_decide (In cid cids) then cids else cids ++ [cid])
  end.

Definition parse_parent_cid_candidates (raw : option bytes) : result (list Z) bytes :=
  match raw with
  | None => Ok [DEFAULT_PARENT_CID]
  | Some raw =>
      let? cids := collect_cids (split_on Byte.x2c raw) [] in
      match cids with
      | [] => Err "POO_PARENT_CIDS/POO_PARENT_CID did not contain any CID"
      | _ => Ok cids
      end
  end.

Section Connect.
Context `{EN : Env} `{SO : Sockets}.

Definition egress_mode : result EgressMode bytes := parse_egress_mode (env_var "POO_EGRESS_MODE").

Definition parent_cid_candidates : result (list Z) bytes :=
  parse_parent_cid_candidates (opt_or (env_var "POO_PARENT_CIDS") (env_var "POO_PARENT_CID")).

(** The candidates are tried in order; the errors so far are kept. *)
Fixpoint try_cids (port : Z) (cids : list Z) (errors : list bytes) : result Socket (list bytes) :=
  match cids with
  | [] => Err errors
  | cid :: cids =>
      match vsock_connect cid port with
      | Ok sock => Ok sock
      | Err e => try_cids port cids (errors ++ [show_Z cid ++ ": " ++ e])
      end
  end.

Definition connect_parent_vsock (port : Z) : result Socket bytes :=
  let? cids := parent_cid_candidates in
  map_err (fun errors =>
      "连 vsock-proxy 失败: tried parent CID(s) [" ++ join "," (map show_Z cids) ++ "] on port " ++ show_Z port
      ++ "; " ++ join "; " errors)
    (try_cids port cids []).

Definition qproxy_host : bytes :=
  match env_var "POO_QPROXY_HOST" with
  | Some v => if eqs (trim v) "" then "127.0.0.1" else v
  | None => "127.0.0.1"
  end.

Definition connect_qproxy_tcp (port : Z) : result Socket bytes :=
  if (u16_max <? port)%Z then Err ("qproxy local TCP port out of range: " ++ show_Z port)
  else
    map_err (fun e => "连 qproxy enclave 失败: " ++ qproxy_host ++ ":" ++ show_Z port ++ "; " ++ e)
      (tcp_connect qproxy_host port).

Definition connect_egress (port : Z) : result EgressStream bytes :=
  let? mode := egress_mode in
  match mode with
  | ModeQProxyTcp => let? s := connect_qproxy_tcp port in Ok (QProxyTcp s)
  | ModeDirectVsock => let? s := connect_parent_vsock port in Ok (DirectVsock s)
  end.
End Connect.

(** * The profile of a request *)

Definition decode_profile `{Base64} (head : ReqHead) : option TlsProfile :=
  spec ← tls_spec head;
  match b64_decode spec with
  | Ok raw => match decode raw with Ok p => Some p | Err _ => None end
  | Err _ => None
  end.

(** * TLS clients *)

(** [alpn_wire] of [egress_boring.rs]: the length of a name is sent [as u8]. *)
Definition alpn_wire (protos : list bytes) : bytes :=
  fold_left (fun v p => (v ++ [byte_of_Z (zlen p)]) ++ p) protos [].

(** The same function in [egress_openssl.rs]. *)
Definition openssl_alpn_wire (protos : list bytes) : bytes :=
  fold_left (fun v p => (v ++ [byte_of_Z (zlen p)]) ++ p) protos [].

(** The calls made on the connector's builder. *)
Inductive SslOption :=
  | SetCipherList (l : bytes)
  | SetGroups (l : bytes)
  | SetSigalgs (l : bytes)
  | SetAlpnProtos (wire : bytes)
  | EnableOcspStapling
  | EnableSignedCertTimestamps
  | SetMinProtoVersion (v : TlsVersion)
  | SetMaxProtoVersion (v : TlsVersion)
  | SetVerifyPeer
  | ParseCaBundle
  | AddCaRoots.

Inductive SslLibrary := Btls | OpenSslLib.

Inductive handshake_error :=
  | SetupFailure (e : bytes)
  | Failure (e : bytes)
  | WouldBlock.

Inductive KxGroup := X25519 | SECP256R1 | SECP384R1.

(** The signature algorithms of a [rustls] provider: implementations, by name,
    and for every scheme (by its TLS code point) those that verify it. *)
Record WebPkiSupportedAlgorithms := mkAlgorithms {
  all : list bytes;
  mapping : list (Z * list bytes);
}.

Definition ECDSA_NISTP521_SHA512 : Z := 1539.

(** What a [rustls] client is configured with: [None] is the default of the
    provider. *)
Record RustlsConfig := mkRustlsConfig {
  rc_aws_lc : bool;
  rc_kx_groups : option (list KxGroup);
  rc_signature_algorithms : option WebPkiSupportedAlgorithms;
  rc_versions : option (list TlsVersion);
  rc_alpn : list bytes;
}.

(** A [rustls] connection: the answers of [complete_io] while it is
    handshaking, the protocol negotiated, the stream, the socket under it, and
    the HTTP/2 peer behind it as it is met over that socket. *)
Record RustlsStream `{Sockets} := mkRustlsStream {
  rs_handshake : list (result unit bytes);
  rs_alpn : option bytes;
  rs_stream : Tls;
  rs_sock : EgressStream;
  rs_peer : EgressStream -> H2Peer;
}.
Arguments mkRustlsStream {_} _ _ _ _ _.

Class TlsLibraries `{Sockets} := {
  ssl_builder : SslLibrary -> result unit bytes;
  ssl_set : SslLibrary -> list SslOption -> SslOption -> result unit bytes;
  ssl_configure : SslLibrary -> list SslOption -> result unit bytes;
  ssl_connect : SslLibrary -> list SslOption -> bytes -> EgressStream -> result Tls handshake_error;
  (** of [aws_lc_rs::default_provider()] *)
  default_signature_algorithms : WebPkiSupportedAlgorithms;
  rustls_versions : RustlsConfig -> result unit bytes;
  server_name : bytes -> result unit bytes;
  rustls_new : RustlsConfig -> bytes -> result unit bytes;
  rustls_stream : RustlsConfig -> bytes -> EgressStream -> RustlsStream;
}.

Section Clients.
Context `{TL : TlsLibraries}.

(** One fallible call on the builder. *)
Definition ssl_step (lib : SslLibrary) (b : list SslOption) (o : SslOption) (prefix : bytes)
    : result (list SslOption) bytes :=
  let? _ := map_err (fun e => prefix ++ e) (ssl_set lib b o) in Ok (b ++ [o]).

(** A call made [if !empty]. *)
Definition ssl_step_unless (empty : bool) (lib : SslLibrary) (b : list SslOption) (o : SslOption) (prefix : bytes)
    : result (list SslOption) bytes :=
  if empty then Ok b else ssl_step lib b o prefix.

(** The part the two clients share: version floor, certificate policy and the
    handshake.  [set_max_proto_version(..).ok()] ignores a failure. *)
Definition ssl_finish (lib : SslLibrary) (name : bytes) (profile : TlsProfile) (b : list SslOption)
    (sni : bytes) (sock : EgressStream) : result Tls bytes :=
  let? b := ssl_step lib b (SetMinProtoVersion (min_negotiated profile)) "set_min_proto_version: " in
  let b := match ssl_set lib b (SetMaxProtoVersion Tls13) with
           | Ok _ => b ++ [SetMaxProtoVersion Tls13]
           | Err _ => b
           end in
  let? b :=
    match cert_policy profile with
    | WebpkiRoots =>
        let b := b ++ [SetVerifyPeer] in
        let? b := ssl_step lib b ParseCaBundle "解析 ca-bundle: " in
        ssl_step lib b AddCaRoots "加 CA root: "
    end in
  let? _ := map_err (fun e => name ++ " configure: " ++ e) (ssl_configure lib b) in
  map_err (fun e =>
      match e with
      | SetupFailure e => name ++ " TLS 握手初始化失败: " ++ e
      | Failure e => name ++ " TLS 握手失败: " ++ e
      | WouldBlock => name ++ " TLS 握手未完成"
      end) (ssl_connect lib b sni sock).

(** [egress_boring::connect]. *)
Definition boring_connect (profile : TlsProfile) (sock : EgressStream) (sni : bytes) : result Tls bytes :=
  let? _ := map_err (fun e => "btls builder: " ++ e) (ssl_builder Btls) in
  let? b := ssl_step Btls [] (SetCipherList (cipher_list profile)) "set_cipher_list: " in
  let? b := ssl_step_unless (bool_decide (groups profile = [])) Btls b
              (SetGroups (join ":" (groups profile))) "set_curves_list: " in
  let? b := ssl_step_unless (bool_decide (sigalgs profile = [])) Btls b
              (SetSigalgs (join ":" (sigalgs profile))) "set_sigalgs_list: " in
  let? b := ssl_step Btls b (SetAlpnProtos (alpn_wire (alpn profile))) "set_alpn_protos: " in
  let b := b ++ [EnableOcspStapling; EnableSignedCertTimestamps] in
  match grease profile with
  | GreaseEnabled => Err "grease=Enabled 渲染未实现"
  | GreaseDisabled =>
  match ext_order profile with
  | PermutePerSession => Err "ext_order=PermutePerSession 渲染未实现"
  | Fixed => ssl_finish Btls "btls" profile b sni sock
  end
  end.

(** [egress_openssl::connect]. *)
Definition openssl_connect (profile : TlsProfile) (sock : EgressStream) (sni : bytes) : result Tls bytes :=
  let? _ := map_err (fun e => "openssl builder: " ++ e) (ssl_builder OpenSslLib) in
  let? b := ssl_step_unless (bool_decide (cipher_list profile = [])) OpenSslLib []
              (SetCipherList (cipher_list profile)) "set_cipher_list: " in
  let? b := ssl_step_unless (bool_decide (groups profile = [])) OpenSslLib b
              (SetGroups (join ":" (groups profile))) "set_groups_list: " in
  let? b := ssl_step_unless (bool_decide (sigalgs profile = [])) OpenSslLib b
              (SetSigalgs (join ":" (sigalgs profile))) "set_sigalgs_list: " in
  let? b := ssl_step_unless (bool_decide (alpn profile = [])) OpenSslLib b
              (SetAlpnProtos (openssl_alpn_wire (alpn profile))) "set_alpn_protos: " in
  match grease profile with
  | GreaseEnabled => Err "grease=Enabled 在 OpenSSL 后端不支持"
  | GreaseDisabled =>
  match ext_order profile with
  | PermutePerSession => Err "ext_order=PermutePerSession 在 OpenSSL 后端不支持"
  | Fixed => ssl_finish OpenSslLib "openssl" profile b sni sock
  end
  end.

(** [egress_rustls_aws_lc.rs]. *)
Definition validate_shape (profile : TlsProfile) : result unit bytes :=
  if negb (bool_decide (cipher_list profile = [])) || negb (bool_decide (sigalgs profile = []))
     || negb (bool_decide (groups profile = [])) then
    Err "rustls/aws-lc 画像只允许固定 provider 默认 cipher/sigalg/group"
  else if negb (bool_decide (grease profile = GreaseDisabled))
          || negb (bool_decide (ext_order profile = PermutePerSession)) then
    Err "Grok rustls/aws-lc 画像要求 GREASE=Disabled + 每连接扩展随机序"
  else Ok tt.

(** The default table without the P-521 scheme; the list of implementations
    stays as it is. *)
Definition grok_signature_algorithms : WebPkiSupportedAlgorithms :=
  let base := default_signature_algorithms in
  mkAlgorithms (all base)
    (List.filter (fun entry => negb (entry.1 =? ECDSA_NISTP521_SHA512)%Z) (mapping base)).

Definition aws_lc_config (profile : TlsProfile) : RustlsConfig :=
  mkRustlsConfig true (Some [X25519; SECP256R1; SECP384R1]) (Some grok_signature_algorithms)
    (Some match min_negotiated profile with Tls12 => [Tls13; Tls12] | Tls13 => [Tls13] end)
    (alpn profile).

Definition aws_lc_connect (profile : TlsProfile) (sock : EgressStream) (sni : bytes)
    : result RustlsStream bytes :=
  let? _ := validate_shape profile in
  let config := aws_lc_config profile in
  let? _ := map_err (fun e => "rustls/aws-lc protocol versions: " ++ e) (rustls_versions config) in
  let? _ := map_err (fun e => "SNI 非法: " ++ e) (server_name sni) in
  let? _ := map_err (fun e => "rustls/aws-lc TLS 初始化失败: " ++ e) (rustls_new config sni) in
  Ok (rustls_stream config sni sock).

(** The fallback of [handle] for requests without a profile. *)
Definition ring_config : RustlsConfig := mkRustlsConfig false None None None [].

Definition ring_connect (sock : EgressStream) (sni : bytes) : result Tls bytes :=
  let? _ := map_err (fun e => "rustls/ring versions: " ++ e) (rustls_versions ring_config) in
  let? _ := map_err (fun e => "SNI 非法: " ++ e) (server_name sni) in
  let? _ := map_err (fun e => "TLS 初始化失败: " ++ e) (rustls_new ring_config sni) in
  Ok (rs_stream (rustls_stream ring_config sni sock)).

(** [while tls.conn.is_handshaking()]. *)
Fixpoint complete_handshake (steps : list (result unit bytes)) : result unit bytes :=
  match steps with
  | [] => Ok tt
  | Ok _ :: steps => complete_handshake steps
  | Err e :: _ => Err ("rustls/aws-lc handshake: " ++ e)
  end.
End Clients.

(** * Lemmas *)

(** The CIDs a list of parts names. *)
Definition names_cid (parts : list bytes) (c : Z) : Prop :=
  exists part, In part parts /\ trim part <> [] /\ from_str_radix 10 u32_max (trim part) = Ok c.

Lemma collect_cids_spec parts cids out :
  collect_cids parts cids = Ok out -> NoDup cids ->
  NoDup out /\ cids `prefix_of` out /\ forall c, In c out <-> In c cids \/ names_cid parts c.
Proof.
  unfold names_cid. revert cids. induction parts as [|part parts IH]; intros cids; cbn [collect_cids].
  { intros [= <-] Hn. split; [done|]. split; [done|]. intros c. split; [by left|].
    intros [?|(p & [] & _)]. done. }
  destruct (eqs (trim part) []) eqn:E0.
  - apply bool_decide_eq_true in E0. intros Hout Hn. destruct (IH cids Hout Hn) as (H1 & H2 & H3).
    split; [done|]. split; [done|]. intros c. rewrite H3. split; (intros [?|(p & Hin & Hne & Hp)]; [by left|right]).
    + exists p. split; [by right|done].
    + destruct Hin as [->|Hin]; [done|]. by exists p.
  - apply bool_decide_eq_false in E0.
    destruct (from_str_radix 10 u32_max (trim part)) as [cid|] eqn:Ec; [|done]. cbn [map_err].
    intros Hout Hn.
    destruct (IH _ Hout) as (H1 & H2 & H3).
    { case_bool_decide as Hin; [done|]. apply list.NoDup_app. split; [done|]. split; [|apply NoDup_singleton].
      intros x Hx ->%list_elem_of_singleton. by apply Hin, list_elem_of_In. }
    split; [done|]. split.
    { etrans; [|exact H2]. case_bool_decide; [done|]. by eexists. }
    intros c. rewrite H3. split.
    + intros [Hin|(p & Hin & Hne & Hp)]; [|right; exists p; split; [by right|done]].
      case_bool_decide; [by left|]. apply in_app_iff in Hin as [?|[<-|[]]]; [by left|].
      right. exists part. split; [by left|done].
    + intros [Hin|(p & [<-|Hin] & Hne & Hp)].
      * left. case_bool_decide; [done|]. apply in_app_iff. by left.
      * left. rewrite Ec in Hp. injection Hp as <-. case_bool_decide; [done|]. apply in_app_iff. right. by left.
      * right. by exists p.
Qed.

Section ConnectLemmas.
Context `{EN : Env} `{SO : Sockets}.

Lemma try_cids_spec port cids errors :
  match try_cids port cids errors with
  | Ok sock => exists i cid, cids !! i = Some cid /\ vsock_connect cid port = Ok sock
      /\ forall j c, (j < i)%nat -> cids !! j = Some c -> exists e, vsock_connect c port = Err e
  | Err es => length es = length errors + length cids
      /\ Forall (fun c => exists e, vsock_connect c port = Err e) cids
  end.
Proof.
  revert errors. induction cids as [|cid cids IH]; intros errors; cbn [try_cids]; [cbn; split; [lia|done]|].
  destruct (vsock_connect cid port) as [sock|e] eqn:E.
  { exists 0, cid. split; [done|]. split; [done|]. lia. }
  specialize (IH (errors ++ [show_Z cid ++ ": " ++ e])). destruct (try_cids _ _ _) as [sock|es].
  - destruct IH as (i & c & Hi & Hc & Hj). exists (S i), c. split; [done|]. split; [done|].
    intros [|j] x Hjx Hx; [injection Hx as <-; by eexists|]. apply (Hj j x); [lia|done].
  - destruct IH as [Hl Hf]. split; [rewrite Hl, length_app; cbn; lia|]. constructor; [by eexists|done].
Qed.
End ConnectLemmas.

Section ClientLemmas.
Context `{TL : TlsLibraries}.

Lemma ssl_step_ok lib b o prefix b' : ssl_step lib b o prefix = Ok b' -> b' = b ++ [o].
Proof. unfold ssl_step. destruct (ssl_set lib b o) as [[]|]; [|done]. by intros [= <-]. Qed.

Lemma ssl_step_unless_ok empty lib b o prefix b' :
  ssl_step_unless empty lib b o prefix = Ok b' ->
  exists l, b' = b ++ l /\ (empty = false -> In o l) /\ forall x, In x l -> x = o.
Proof.
  unfold ssl_step_unless. destruct empty.
  - intros [= <-]. exists []. rewrite app_nil_r. done.
  - intros ->%ssl_step_ok. exists [o]. split; [done|]. split; [by left|]. by intros x [->|[]].
Qed.

(** What the handshake is made with. *)
Definition ssl_options_ok (profile : TlsProfile) (b : list SslOption) : Prop :=
  In (SetMinProtoVersion (min_negotiated profile)) b /\ In SetVerifyPeer b /\ In AddCaRoots b
  /\ (forall v, In (SetMinProtoVersion v) b -> v = min_negotiated profile).

Lemma ssl_finish_ok lib name profile b sni sock tls :
  ssl_finish lib name profile b sni sock = Ok tls ->
  (forall v, ~ In (SetMinProtoVersion v) b) ->
  exists tail, ssl_connect lib (b ++ tail) sni sock = Ok tls /\ ssl_options_ok profile (b ++ tail).
Proof.
  unfold ssl_finish. intros E Hb.
  destruct (ssl_step lib b _ _) as [b1|] eqn:E1; [|done]. apply ssl_step_ok in E1 as ->.
  set (b2 := match ssl_set lib _ (SetMaxProtoVersion Tls13) with Ok _ => _ | Err _ => _ end) in E.
  assert (exists t, b2 = b ++ SetMinProtoVersion (min_negotiated profile) :: t /\ forall v, ~ In (SetMinProtoVersion v) t)
    as (t & E2 & Ht).
  { unfold b2. destruct (ssl_set _ _ _); [exists [SetMaxProtoVersion Tls13]|exists []]; rewrite <-?app_assoc;
      (split; [done|]); intros v; cbn; intuition discriminate. }
  rewrite E2 in E. destruct (cert_policy profile).
  destruct (ssl_step lib _ ParseCaBundle _) as [b3|] eqn:E3; [|done]. apply ssl_step_ok in E3 as ->.
  destruct (ssl_step lib _ AddCaRoots _) as [b4|] eqn:E4; [|done]. apply ssl_step_ok in E4 as ->.
  destruct (ssl_configure lib _) as [[]|]; [|done]. cbn [map_err] in E.
  destruct (ssl_connect lib _ sni sock) as [tls'|] eqn:Ec; [|done]. injection E as ->.
  exists (SetMinProtoVersion (min_negotiated profile) :: t ++ [SetVerifyPeer; ParseCaBundle; AddCaRoots]).
  rewrite <-!app_assoc in Ec. cbn [app] in Ec.
  split; [done|]. unfold ssl_options_ok. split; [|split; [|split]].
  - apply in_app_iff. right. by left.
  - rewrite in_app_iff; cbn [In]; rewrite in_app_iff; cbn [In]. auto 10.
  - rewrite in_app_iff; cbn [In]; rewrite in_app_iff; cbn [In]. auto 10.
  - intros v. rewrite in_app_iff; cbn [In]; rewrite in_app_iff; cbn [In].
    intros [?|[[= <-]|[?|[?|[?|[?|[]]]]]]]; try done; [by destruct (Hb v)|by destruct (Ht v)].
Qed.
End ClientLemmas.

(** ** ALPN wire format *)

(** The reader of the wire format (RFC 7301): length-prefixed names. *)
Fixpoint alpn_names (fuel : nat) (wire : bytes) : option (list bytes) :=
  match wire, fuel with
  | [], _ => Some []
  | _, O => None
  | n :: rest, S fuel =>
      if (zlen rest <? bv n)%Z then None
      else
        names ← alpn_names fuel (drop (Z.to_nat (bv n)) rest);
        Some (take (Z.to_nat (bv n)) rest :: names)
  end.

Lemma alpn_wire_cons p ps : alpn_wire (p :: ps) = byte_of_Z (zlen p) :: p ++ alpn_wire ps.
Proof.
  assert (G : forall ps acc, fold_left (fun v p => (v ++ [byte_of_Z (zlen p)]) ++ p) ps acc = acc ++ alpn_wire ps).
  { clear. unfold alpn_wire. induction ps as [|q ps IH]; intros acc; cbn [fold_left]; [by rewrite app_nil_r|].
    rewrite IH. rewrite (IH (([] ++ _) ++ _)). by rewrite <-!app_assoc. }
  unfold alpn_wire at 1. cbn [fold_left app]. apply (G ps).
Qed.

Lemma alpn_names_wire ps fuel :
  Forall (fun p => (zlen p < 256)%Z) ps -> (length (alpn_wire ps) <= fuel)%nat ->
  alpn_names fuel (alpn_wire ps) = Some ps.
Proof.
  intros H. revert fuel. induction H as [|p ps Hp H IH]; intros fuel Hf; [by destruct fuel|].
  rewrite alpn_wire_cons in *. destruct fuel as [|fuel]; [cbn in Hf; lia|]. cbn [alpn_names].
  rewrite bv_of_Z, Z.mod_small by (pose proof (zlen_nonneg p); lia).
  rewrite zlen_app, (proj2 (Z.ltb_ge _ _)) by (pose proof (zlen_nonneg (alpn_wire ps)); lia).
  rewrite zlen_to_nat, drop_app_length, take_app_length. rewrite IH; [done|].
  cbn [length] in Hf. rewrite length_app in Hf. lia.
Qed.

(** * Properties *)

(** The parent CIDs of the environment are exactly the CIDs the parts of
    the list name, each once, in range, and there is at least one. *)
Theorem parent_cids_exact raw cids :
  parse_parent_cid_candidates (Some raw) = Ok cids ->
  cids <> [] /\ NoDup cids /\ Forall (fun c => (0 <= c <= u32_max)%Z) cids
  /\ forall c, In c cids <-> names_cid (split_on Byte.x2c raw) c.
Proof.
  unfold parse_parent_cid_candidates. destruct (collect_cids _ []) as [out|] eqn:E; [|done].
  apply collect_cids_spec in E as (Hn & _ & Hin); [|constructor].
  assert (Hc : forall c, In c out <-> names_cid (split_on Byte.x2c raw) c) by (intros c; rewrite Hin; cbn; tauto).
  destruct out as [|c0 outs] eqn:Eo; [done|]. intros [= <-].
  split; [done|]. split; [done|]. split; [|done].
  apply Forall_forall. intros c (p & _ & _ & Hp)%Hc. eapply from_str_radix_bounds; [| |done]; unfold u32_max; lia.
Qed.

(** The parents are tried in order: the connection made is to the first
    candidate that accepts it, and the attempt fails only when the candidates
    are not readable or every one of them refused. *)
Theorem parent_vsock_first_reachable `{EN : Env} `{SO : Sockets} port cids :
  parent_cid_candidates = Ok cids ->
  match connect_parent_vsock port with
  | Ok sock => exists i cid, cids !! i = Some cid /\ vsock_connect cid port = Ok sock
      /\ forall j c, (j < i)%nat -> cids !! j = Some c -> exists e, vsock_connect c port = Err e
  | Err _ => Forall (fun c => exists e, vsock_connect c port = Err e) cids
  end.
Proof.
  intros E. unfold connect_parent_vsock. rewrite E. pose proof (try_cids_spec port cids []) as S.
  destruct (try_cids port cids []) as [sock|es]; cbn [map_err]; [done|]. by destruct S.
Qed.

(** C35. No profile weakens the connection: when either OpenSSL-style client
    connects, the handshake was made with peer verification on, the bundled
    roots loaded and the version floor of the profile, after every fallible
    call has succeeded, for a profile that asks for neither GREASE nor permuted
    extensions. *)
Theorem ssl_connections_verified `{TL : TlsLibraries} profile sock sni tls :
  (boring_connect profile sock sni = Ok tls ->
     grease profile = GreaseDisabled /\ ext_order profile = Fixed
     /\ exists b, ssl_connect Btls b sni sock = Ok tls /\ ssl_options_ok profile b
          /\ In (SetAlpnProtos (alpn_wire (alpn profile))) b /\ In (SetCipherList (cipher_list profile)) b)
  /\ (openssl_connect profile sock sni = Ok tls ->
     grease profile = GreaseDisabled /\ ext_order profile = Fixed
     /\ exists b, ssl_connect OpenSslLib b sni sock = Ok tls /\ ssl_options_ok profile b
          /\ (alpn profile <> [] -> In (SetAlpnProtos (alpn_wire (alpn profile))) b)).
Proof.
  split; intros Hc.
  - unfold boring_connect in Hc. destruct (ssl_builder Btls) as [[]|]; [|done]. cbn [map_err] in Hc.
    destruct (ssl_step Btls [] _ _) eqn:E; [apply ssl_step_ok in E as ->|done].
    destruct (ssl_step_unless _ _ _ _ _) eqn:E1 in Hc; [apply ssl_step_unless_ok in E1 as (l1 & -> & _ & H1)|done].
    destruct (ssl_step_unless _ _ _ _ _) eqn:E2 in Hc; [apply ssl_step_unless_ok in E2 as (l2 & -> & _ & H2)|done].
    destruct (ssl_step Btls _ _ _) eqn:E in Hc; [apply ssl_step_ok in E as ->|done].
    destruct (grease profile); [|done]. destruct (ext_order profile); [|done].
    split; [done|]. split; [done|]. apply ssl_finish_ok in Hc as (tail & Hc & Ho).
    + eexists. split; [exact Hc|]. split; [exact Ho|]. rewrite !in_app_iff. cbn [In]. tauto.
    + intros v. rewrite !in_app_iff. cbn [In]. intros Hin.
      destruct_or! Hin; (done || by apply H1 in Hin || by apply H2 in Hin).
  - unfold openssl_connect in Hc. destruct (ssl_builder OpenSslLib) as [[]|]; [|done]. cbn [map_err] in Hc.
    destruct (ssl_step_unless _ _ _ _ _) eqn:E1 in Hc; [apply ssl_step_unless_ok in E1 as (l1 & -> & _ & H1)|done].
    destruct (ssl_step_unless _ _ _ _ _) eqn:E2 in Hc; [apply ssl_step_unless_ok in E2 as (l2 & -> & _ & H2)|done].
    destruct (ssl_step_unless _ _ _ _ _) eqn:E3 in Hc; [apply ssl_step_unless_ok in E3 as (l3 & -> & _ & H3)|done].
    destruct (ssl_step_unless _ _ _ _ _) eqn:E4 in Hc; [apply ssl_step_unless_ok in E4 as (l4 & -> & G4 & H4)|done].
    destruct (grease profile); [|done]. destruct (ext_order profile); [|done].
    split; [done|]. split; [done|]. apply ssl_finish_ok in Hc as (tail & Hc & Ho).
    + eexists. split; [exact Hc|]. split; [exact Ho|]. intros Hne.
      apply (bool_decide_eq_false_2 _) in Hne. apply G4 in Hne. rewrite !in_app_iff. tauto.
    + intros v. rewrite !in_app_iff. cbn [In]. intros Hin.
      destruct_or! Hin; (done || by apply H1 in Hin || by apply H2 in Hin || by apply H3 in Hin || by apply H4 in Hin).
Qed.

(** Protocol names of less than 256 bytes are read back from the ALPN
    extension exactly. *)
Theorem alpn_wire_roundtrip ps :
  Forall (fun p => (zlen p < 256)%Z) ps -> alpn_names (length (alpn_wire ps)) (alpn_wire ps) = Some ps.
Proof. intros. by apply alpn_names_wire. Qed.

(** A longer name is announced with the low byte of its length
    ([len as u8]): the extension is then the one of another list of
    protocols, the rest of the name read as further protocols. *)
Theorem alpn_wire_truncates a ps :
  (zlen a < 256)%Z -> (zlen (alpn_wire ps) mod 256 = 0)%Z ->
  alpn_wire [a ++ alpn_wire ps] = alpn_wire (a :: ps).
Proof.
  intros Ha Hp. rewrite !alpn_wire_cons. change (alpn_wire []) with (@nil byte). rewrite app_nil_r.
  f_equal. apply bv_inj. rewrite !bv_of_Z, zlen_app, Z.add_mod, Hp by lia. by rewrite Z.add_0_r, Z.mod_mod.
Qed.

(** * Witnesses *)

Section Witnesses.
#[local] Instance cids_env : Env := fun name =>
  if eqs name "POO_PARENT_CIDS" then Some " 16, 3,,16 ,4" else None.

(** Only CID 4 answers. *)
#[local] Instance sample_sockets : Sockets := {|
  Socket := Z;
  vsock_connect cid _ := if (cid =? 4)%Z then Ok cid else Err "Connection reset by peer (os error 104)";
  tcp_connect _ _ := Err "Connection refused (os error 111)";
  set_read_timeout s _ := s; set_write_timeout s _ := s |}.

(** Libraries that accept everything. *)
#[local] Instance sample_libraries : TlsLibraries := {|
  ssl_builder _ := Ok tt; ssl_set _ _ _ := Ok tt; ssl_configure _ _ := Ok tt;
  ssl_connect _ _ _ _ := Ok (mkTls [] [] []);
  default_signature_algorithms := mkAlgorithms [] [];
  rustls_versions _ := Ok tt; server_name _ := Ok tt; rustls_new _ _ := Ok tt;
  rustls_stream _ _ sock := mkRustlsStream [] None (mkTls [] [] []) sock
    (fun _ => mkH2Peer (Ok tt) (Ok tt) (Ok tt) [] (Err "no peer") [] DriverOk) |}.

Lemma parent_cids_exact_witness :
  parse_parent_cid_candidates (Some " 16, 3,,16 ,4") = Ok [16; 3; 4]%Z
  /\ NoDup [16; 3; 4]%Z.
Proof.
  assert (E : parse_parent_cid_candidates (Some " 16, 3,,16 ,4") = Ok [16; 3; 4]%Z) by (vm_compute; reflexivity).
  split; [exact E|]. exact (proj1 (proj2 (parent_cids_exact _ _ E))).
Defined.

Lemma parent_vsock_first_reachable_witness :
  parent_cid_candidates = Ok [16; 3; 4]%Z /\ connect_parent_vsock 8443 = Ok (4%Z : Socket)
  /\ exists i cid, [16; 3; 4]%Z !! i = Some cid /\ vsock_connect cid 8443 = Ok (4%Z : Socket).
Proof.
  assert (E : parent_cid_candidates = Ok [16; 3; 4]%Z) by (vm_compute; reflexivity).
  assert (F : connect_parent_vsock 8443 = Ok (4%Z : Socket)) by (vm_compute; reflexivity).
  split; [exact E|]. split; [exact F|].
  pose proof (parent_vsock_first_reachable 8443 _ E) as P. rewrite F in P.
  destruct P as (i & cid & H1 & H2 & _). exists i, cid. split; [exact H1|exact H2].
Defined.

Lemma ssl_connections_verified_witness :
  boring_connect example_profile (DirectVsock (4%Z : Socket)) "api.example.com" = Ok (mkTls [] [] [])
  /\ openssl_connect example_profile (DirectVsock (4%Z : Socket)) "api.example.com" = Ok (mkTls [] [] [])
  /\ ext_order example_profile = Fixed.
Proof.
  assert (E : boring_connect example_profile (DirectVsock (4%Z : Socket)) "api.example.com" = Ok (mkTls [] [] []))
    by reflexivity.
  split; [exact E|]. split; [reflexivity|].
  exact (proj1 (proj2 (proj1 (ssl_connections_verified _ _ _ _) E))).
Defined.

Lemma alpn_wire_roundtrip_witness :
  alpn_names (length (alpn_wire ["h2"; "http/1.1"])) (alpn_wire ["h2"; "http/1.1"]) = Some ["h2"; "http/1.1"].
Proof. apply alpn_wire_roundtrip. repeat constructor. Defined.

Lemma alpn_wire_truncates_witness :
  alpn_wire ["h2" ++ alpn_wire [replicate 255 Byte.x61]] = alpn_wire ["h2"; replicate 255 Byte.x61].
Proof. apply alpn_wire_truncates; vm_compute; reflexivity. Defined.
End Witnesses.
