(* ===== verification/Evidence.v ===== *)
(** Hardware evidence: the [EvidenceProvider] interface of [evidence.rs] and
    its two implementations, [evidence_nitro.rs] and [evidence_qingtian.rs].
    The devices behind them are parameters. *)

From S2P Require Import Prelude RustStr.
Local Open Scope bytes_scope.

Record Evidence := mkEvidence {
  profile : bytes;
  attestation : bytes;
  pcr0 : option bytes;
  pcr8 : option bytes;
  measurements : list (bytes * bytes);
}.

(** The trait [EvidenceProvider]. *)
Record EvidenceProvider := mkProvider {
  provider_profile : bytes;
  attest : bytes -> bytes -> result Evidence bytes;
}.

(** What a client of the trait relies on: the evidence is marked with the
    provider's own profile. *)
Class EvidenceProviderLaws (p : EvidenceProvider) : Prop := {
  attest_profile spki nonce ev : attest p spki nonce = Ok ev -> profile ev = provider_profile p;
}.

(** * Nitro *)

(** [nsm_process_request]: an attestation document for a key and a nonce, or
    some other response, by its [Debug] text. *)
Inductive NsmResponse :=
  | NsmAttestation (document : bytes)
  | NsmOther (debug : bytes).

Class Nsm := {
  nsm_init : Z;
  nsm_process_request : Z -> bytes -> bytes -> NsmResponse;
}.

Definition nitro_attest `{Nsm} (fd : Z) (public_key_spki_der nonce : bytes) : result Evidence bytes :=
  match nsm_process_request fd nonce public_key_spki_der with
  | NsmAttestation document => Ok (mkEvidence "nitro" document None None [])
  | NsmOther other => Err ("nsm: " ++ other)
  end.

Definition NitroEvidenceProvider `{Nsm} (fd : Z) : EvidenceProvider :=
  mkProvider "nitro" (nitro_attest fd).

(** [NitroEvidenceProvider::new]; the descriptor is not looked at. *)
Definition nitro_new `{Nsm} : EvidenceProvider := NitroEvidenceProvider nsm_init.

(** * QingTian *)

Definition QTSM_ATTESTATION_DOC_MAX_SIZE : Z := 64 * 1024.
Definition QTSM_PUBLIC_KEY_MAX_SIZE : Z := 1024.
Definition QTSM_NONCE_MAX_SIZE : Z := 512.

(** The C library: [qtsm_get_attestation] gives its return code, the buffer
    after the call (its size does not change) and the length it wrote. *)
Class Qtsm := {
  qtsm_lib_init : Z;
  qtsm_get_attestation : Z -> bytes -> bytes -> bytes -> Z * bytes * Z;
}.

Section QingTian.
Context `{QT : Qtsm}.

(** [Display] of a [c_int]. *)
Definition show_c_int (z : Z) : bytes := if (z <? 0)%Z then "-" ++ show_Z (- z) else show_Z z.

Definition qingtian_new : result Z bytes :=
  if (qtsm_lib_init <? 0)%Z then Err ("qtsm_lib_init failed: " ++ show_c_int qtsm_lib_init)
  else Ok qtsm_lib_init.

(** [vec![0u8; QTSM_ATTESTATION_DOC_MAX_SIZE]]. *)
Definition qtsm_buffer : bytes := replicate (Z.to_nat QTSM_ATTESTATION_DOC_MAX_SIZE) Byte.x00.

Definition qingtian_attest (fd : Z) (public_key_spki_der nonce : bytes) : result Evidence bytes :=
  if (QTSM_PUBLIC_KEY_MAX_SIZE <? zlen public_key_spki_der)%Z then
    Err ("qtsm public_key too large: " ++ show_Z (zlen public_key_spki_der) ++ " > " ++ show_Z QTSM_PUBLIC_KEY_MAX_SIZE)
  else if (QTSM_NONCE_MAX_SIZE <? zlen nonce)%Z then
    Err ("qtsm nonce too large: " ++ show_Z (zlen nonce) ++ " > " ++ show_Z QTSM_NONCE_MAX_SIZE)
  else
    let '(rc, attestation, actual_len) := qtsm_get_attestation fd nonce public_key_spki_der qtsm_buffer in
    if negb (rc =? 0)%Z then Err ("qtsm_get_attestation failed: " ++ show_c_int rc)
    else if (actual_len =? 0)%Z || (zlen attestation <? actual_len)%Z then
      Err ("qtsm_get_attestation returned invalid length: " ++ show_Z actual_len ++ " (capacity "
           ++ show_Z (zlen attestation) ++ ")")
    else Ok (mkEvidence "qingtian" (take (Z.to_nat actual_len) attestation) None None []).

Definition QingTianEvidenceProvider (fd : Z) : EvidenceProvider :=
  mkProvider "qingtian" (qingtian_attest fd).
End QingTian.

(** * Both implement the interface *)

#[export] Instance nitro_laws `{Nsm} fd : EvidenceProviderLaws (NitroEvidenceProvider fd).
Proof. split. cbn. unfold nitro_attest. intros spki nonce ev. case_match; [by intros [= <-]|done]. Qed.

#[export] Instance qingtian_laws `{Qtsm} fd : EvidenceProviderLaws (QingTianEvidenceProvider fd).
Proof.
  split. cbn. unfold qingtian_attest. intros spki nonce ev. repeat case_match; try done. by intros [= <-].
Qed.

(** * Properties *)

(** C39. The QingTian provider stays within the limits of its C library: it
    yields evidence only for a key and a nonce within theirs, when the library
    reported success, and the document is the part of the buffer the library
    says it wrote, neither empty nor longer than the buffer. *)
Theorem qingtian_attest_bounds `{Qtsm} fd spki nonce ev :
  (forall fd n k buf, zlen (qtsm_get_attestation fd n k buf).1.2 = zlen buf /\ (0 <= (qtsm_get_attestation fd n k buf).2)%Z) ->
  qingtian_attest fd spki nonce = Ok ev ->
  (zlen spki <= QTSM_PUBLIC_KEY_MAX_SIZE)%Z /\ (zlen nonce <= QTSM_NONCE_MAX_SIZE)%Z
  /\ (0 < zlen (attestation ev) <= QTSM_ATTESTATION_DOC_MAX_SIZE)%Z
  /\ exists buf, qtsm_get_attestation fd nonce spki qtsm_buffer = (0, buf, zlen (attestation ev))%Z
       /\ attestation ev `prefix_of` buf.
Proof.
  intros Hq. unfold qingtian_attest.
  destruct (Z.ltb_spec QTSM_PUBLIC_KEY_MAX_SIZE (zlen spki)); [done|].
  destruct (Z.ltb_spec QTSM_NONCE_MAX_SIZE (zlen nonce)); [done|].
  specialize (Hq fd nonce spki qtsm_buffer).
  destruct (qtsm_get_attestation fd nonce spki qtsm_buffer) as [[rc buf] n]. cbn [fst snd] in Hq.
  assert (B : zlen qtsm_buffer = QTSM_ATTESTATION_DOC_MAX_SIZE)
    by (unfold zlen, qtsm_buffer; rewrite length_replicate; unfold QTSM_ATTESTATION_DOC_MAX_SIZE; lia).
  rewrite B in Hq. destruct Hq as [Hb Hn]. destruct (Z.eqb_spec rc 0) as [->|]; [|done]. cbn [negb].
  destruct (Z.eqb_spec n 0); [done|]. destruct (Z.ltb_spec (zlen buf) n); [done|]. cbn [orb].
  intros [= <-]. cbn [attestation].
  assert (L : zlen (take (Z.to_nat n) buf) = n) by (unfold zlen in *; rewrite length_take; lia).
  rewrite L. split; [done|]. split; [done|]. split; [lia|].
  exists buf. split; [done|]. exists (drop (Z.to_nat n) buf). by rewrite take_drop.
Qed.

(** * Witnesses *)

Section Witnesses.
#[local] Instance sample_qtsm : Qtsm := {|
  qtsm_lib_init := 3;
  qtsm_get_attestation _ nonce _ buf := (0, take (length buf) (nonce ++ buf), 2)%Z |}.

Lemma qingtian_attest_bounds_witness :
  qingtian_attest 3 "key" "nonce" = Ok (mkEvidence "qingtian" "no" None None [])
  /\ (zlen "nonce" <= QTSM_NONCE_MAX_SIZE)%Z.
Proof.
  assert (E : qingtian_attest 3 "key" "nonce" = Ok (mkEvidence "qingtian" "no" None None []))
    by (vm_compute; reflexivity).
  split; [exact E|]. refine (proj1 (proj2 (qingtian_attest_bounds 3 "key" "nonce" _ _ E))).
  intros fd n k buf. cbn [qtsm_get_attestation sample_qtsm fst snd]. split; [|lia].
  unfold zlen. rewrite length_take, length_app. lia.
Defined.
End Witnesses.
