(* ===== verification/AliyunHelper.v ===== *)
(** The client of the Aliyun proof helper ([aliyun_helper.rs]): a request and a
    response, each one length-prefixed JSON frame over a Unix socket.  The
    helper itself is a separate program; the deserialiser [serde] derives for
    its response is a parameter. *)

From S2P Require Import Prelude RustStr BTree Json Io.
Local Open Scope bytes_scope.

Definition PROTOCOL_VERSION : Z := 1.
Definition MAX_REQUEST_PAYLOAD : Z := 64 * 1024.
Definition MAX_RESPONSE_PAYLOAD : Z := 4 * 1024 * 1024.

Record HelperError := mkHelperError {
  code : bytes;
  message : bytes;
}.

(** [proof] is a [RawValue]: the text of the member as it was sent. *)
Record HelperResponse := mkHelperResponse {
  resp_v : Z;
  ok : bool;
  proof : option bytes;
  error : option HelperError;
}.

(** [serde_json::from_slice::<HelperResponse>], with the text of its error. *)
Class HelperJson := helper_response : bytes -> result HelperResponse bytes.

(** [UnixStream::connect]. *)
Class UnixSockets := unix_connect : bytes -> result Control bytes.

Section Helper.
Context `{SJ : SerdeJson}.

Record ProofRequest := mkProofRequest {
  v : Z;
  nonce_b64 : bytes;
  upstream_host : bytes;
  upstream_path : bytes;
  http_method : bytes;
  http_status : Z;
  resp_content_type : bytes;
  request_body_sha256 : bytes;
  response_body_sha256 : bytes;
  field_claims : option (value number);
}.

Definition proof_request_new (nonce_b64 upstream_host upstream_path http_method : bytes) (http_status : Z)
    (resp_content_type request_body_sha256 response_body_sha256 : bytes)
    (field_claims : option (value number)) : ProofRequest :=
  mkProofRequest PROTOCOL_VERSION nonce_b64 upstream_host upstream_path http_method http_status
    resp_content_type request_body_sha256 response_body_sha256 field_claims.

(** [serde_json::to_vec] of the request: the members in the order of the
    struct, [field_claims] skipped when it is [None]. *)
Definition member (k text : bytes) : bytes := quote k ++ ":" ++ text.

Definition proof_request_json (r : ProofRequest) : bytes :=
  "{" ++ join "," ([
    member "v" (to_string (json_int (v r)));
    member "nonce_b64" (quote (nonce_b64 r));
    member "upstream_host" (quote (upstream_host r));
    member "upstream_path" (quote (upstream_path r));
    member "http_method" (quote (http_method r));
    member "http_status" (to_string (json_int (http_status r)));
    member "resp_content_type" (quote (resp_content_type r));
    member "request_body_sha256" (quote (request_body_sha256 r));
    member "response_body_sha256" (quote (response_body_sha256 r))]
    ++ match field_claims r with
       | Some c => [member "field_claims" (to_string c)]
       | None => []
       end) ++ "}".

(** * Frames *)

Definition helper_read_frame (max : Z) (c : Control) : Control * result bytes io_error :=
  match read_exact 4 c with
  | (c, Err e) => (c, Err e)
  | (c, Ok hdr) =>
      let n := from_be_bytes hdr in
      if (max <? n)%Z then (c, Err (mkIoError InvalidData "helper response exceeds limit"))
      else read_exact n c
  end.

Definition helper_write_frame (payload : bytes) (max : Z) (c : Control) : Control * result unit io_error :=
  if (max <? zlen payload)%Z then (c, Err (mkIoError InvalidData "helper request exceeds limit"))
  else
    match write_all (to_be_bytes 4 (zlen payload mod 2 ^ 32)) c with
    | (c, Err e) => (c, Err e)
    | (c, Ok _) => write_all payload c
    end.

(** * The exchange *)

(** What the response says. *)
Definition accept_response (response : HelperResponse) : result bytes bytes :=
  if negb (resp_v response =? PROTOCOL_VERSION)%Z then
    Err ("aliyun helper response version " ++ show_Z (resp_v response))
  else if negb (ok response) then
    match error response with
    | Some err => Err ("aliyun helper " ++ code err ++ ": " ++ message err)
    | None => Err "aliyun helper failed without error detail"
    end
  else ok_or (proof response) "aliyun helper success response missing proof".

(** [request_proof] over the socket it has connected: the socket after the
    call, for what has been written to it. *)
Definition exchange_proof `{HelperJson} (request : ProofRequest) (stream : Control) : Control * result bytes bytes :=
  match helper_write_frame (proof_request_json request) MAX_REQUEST_PAYLOAD stream with
  | (stream, Err e) => (stream, Err ("write aliyun proof helper request: " ++ display e))
  | (stream, Ok _) =>
      match helper_read_frame MAX_RESPONSE_PAYLOAD stream with
      | (stream, Err e) => (stream, Err ("read aliyun proof helper response: " ++ display e))
      | (stream, Ok raw) =>
          (stream,
           let? response := map_err (fun e => "aliyun helper response JSON: " ++ e) (helper_response raw) in
           accept_response response)
      end
  end.

Definition request_proof `{HelperJson, UnixSockets} (socket_path : bytes) (request : ProofRequest) : result bytes bytes :=
  let? stream := map_err (fun e => "connect aliyun proof helper: " ++ e) (unix_connect socket_path) in
  (exchange_proof request stream).2.
End Helper.

(** * Lemmas *)

(** A frame as the helper sends it. *)
Definition helper_frame (b : bytes) : bytes := to_be_bytes 4 (zlen b) ++ b.

Lemma helper_read_sent max b rest out lim :
  (zlen b < 2 ^ 32)%Z ->
  helper_read_frame max (mkControl (helper_frame b ++ rest) out lim)
    = if (max <? zlen b)%Z
      then (mkControl (b ++ rest) out lim, Err (mkIoError InvalidData "helper response exceeds limit"))
      else (mkControl rest out lim, Ok b).
Proof.
  intros Hb. unfold helper_read_frame, helper_frame. rewrite <-app_assoc.
  pose proof (read_exact_app (to_be_bytes 4 (zlen b)) (b ++ rest) out lim) as R.
  unfold zlen in R at 1. rewrite length_to_be_bytes in R. change (Z.of_nat 4) with 4%Z in R. rewrite R.
  rewrite from_to_be_bytes_small by (pose proof (zlen_nonneg b); lia).
  destruct (max <? zlen b)%Z; [done|]. apply read_exact_app.
Qed.

Lemma helper_read_ok max c c' b :
  helper_read_frame max c = (c', Ok b) <->
  (zlen b <= max)%Z /\ (zlen b < 2 ^ 32)%Z /\ inbox c = helper_frame b ++ inbox c'
  /\ outbox c' = outbox c /\ write_limit c' = write_limit c.
Proof.
  split.
  - unfold helper_read_frame. destruct (read_exact 4 c) as [c1 [hdr|]] eqn:E1; [|done].
    apply read_exact_ok in E1 as (L & I1 & O1 & W1); [|done].
    destruct (Z.ltb_spec max (from_be_bytes hdr)); [done|]. intros E2.
    apply read_exact_ok in E2 as (L2 & I2 & O2 & W2); [|apply from_be_bytes_nonneg].
    pose proof (from_be_bytes_bound hdr) as B. rewrite L in B.
    split; [lia|]. split; [lia|]. split; [|split; congruence].
    rewrite I1, I2. unfold helper_frame. rewrite L2, <-app_assoc.
    replace 4%nat with (length hdr) by (unfold zlen in L; lia). by rewrite to_from_be_bytes.
  - intros (Hm & Hb & Hi & Ho & Hw). destruct c as [i o l], c' as [i' o' l']. cbn [inbox outbox write_limit] in *. subst.
    rewrite helper_read_sent by done. by rewrite (proj2 (Z.ltb_ge _ _)).
Qed.

Lemma helper_write_ok payload max c c' :
  (max < 2 ^ 32)%Z ->
  helper_write_frame payload max c = (c', Ok tt) <->
  (zlen payload <= max)%Z /\ takes (4 + zlen payload) (write_limit c)
  /\ c' = mkControl (inbox c) (outbox c ++ helper_frame payload) (less (4 + zlen payload) (write_limit c)).
Proof.
  intros Hmax. unfold helper_write_frame, helper_frame.
  destruct (Z.ltb_spec max (zlen payload)) as [Hl|Hl]; [split; [done|lia]|].
  pose proof (zlen_nonneg payload) as Hp. rewrite Z.mod_small by lia. set (hdr := to_be_bytes 4 (zlen payload)).
  assert (Lh : zlen hdr = 4%Z) by (unfold zlen, hdr; by rewrite length_to_be_bytes).
  assert (X : less (zlen payload) (less 4 (write_limit c)) = less (4 + zlen payload) (write_limit c)).
  { destruct (write_limit c) as [|[room e] more]; [done|]. cbn [less]. do 2 f_equal. pose proof (zlen_nonneg payload). lia. }
  split.
  - destruct (write_all hdr c) as [c1 [[]|]] eqn:E1; [|done]. apply write_all_ok in E1 as [T1 ->]. intros E2.
    apply write_all_ok in E2 as [T2 ->]. cbn [inbox outbox write_limit] in *. rewrite Lh in *.
    split; [lia|]. rewrite X, <-app_assoc. split; [|done]. destruct (write_limit c) as [|[]]; [done|cbn in *; lia].
  - intros (_ & T & ->).
    assert (E1 : write_all hdr c = (mkControl (inbox c) (outbox c ++ hdr) (less 4 (write_limit c)), Ok tt)).
    { apply write_all_ok. rewrite Lh. split; [|done]. destruct (write_limit c) as [|[]]; [done|cbn in *; lia]. }
    rewrite E1. apply write_all_ok. cbn [inbox outbox write_limit]. rewrite X, <-app_assoc. split; [|done].
    destruct (write_limit c) as [|[]]; [done|cbn in *; lia].
Qed.

(** * Properties *)

(** C38. A proof is passed on exactly when the helper vouched for it: the whole
    request, of at most 64 KiB, was written, one response frame of at most 4
    MiB was read, and it is of protocol version 1, says ok and holds the
    proof.  Otherwise the caller gets an error. *)
Theorem helper_proof_iff `{SJ : SerdeJson} `{HJ : HelperJson} request stream stream' proof_text :
  exchange_proof request stream = (stream', Ok proof_text) <->
  let payload := proof_request_json request in
  (zlen payload <= MAX_REQUEST_PAYLOAD)%Z /\ takes (4 + zlen payload) (write_limit stream)
  /\ outbox stream' = outbox stream ++ helper_frame payload
  /\ write_limit stream' = less (4 + zlen payload) (write_limit stream)
  /\ exists raw response, inbox stream = helper_frame raw ++ inbox stream'
       /\ (zlen raw <= MAX_RESPONSE_PAYLOAD)%Z /\ helper_response raw = Ok response
       /\ resp_v response = PROTOCOL_VERSION /\ ok response = true /\ proof response = Some proof_text.
Proof.
  cbv zeta. unfold exchange_proof.
  assert (A : forall response, accept_response response = Ok proof_text <->
    resp_v response = PROTOCOL_VERSION /\ ok response = true /\ proof response = Some proof_text).
  { intros [v0 o p e]. unfold accept_response. cbn [resp_v ok proof error].
    destruct (Z.eqb_spec v0 PROTOCOL_VERSION); cbn [negb]; [|intuition congruence].
    destruct o; cbn [negb]; [|destruct e; intuition congruence].
    destruct p; cbn [ok_or]; intuition congruence. }
  split.
  - destruct (helper_write_frame _ _ stream) as [s1 [[]|]] eqn:E1; [|done].
    apply helper_write_ok in E1 as (H1 & H2 & ->); [|done].
    destruct (helper_read_frame _ _) as [s2 [raw|]] eqn:E2; [|done].
    apply helper_read_ok in E2 as (H3 & H4 & H5 & H6 & H7). cbn [inbox outbox write_limit] in *.
    destruct (helper_response raw) as [response|] eqn:E3; [|done]. cbn [map_err]. intros [= <- Hacc].
    repeat (split; [done|]). exists raw, response. repeat (split; [done|]). by apply A.
  - intros (H1 & H2 & H3 & H4 & raw & response & H5 & H6 & H7 & H8).
    rewrite (proj2 (helper_write_ok _ MAX_REQUEST_PAYLOAD stream _ eq_refl) (conj H1 (conj H2 eq_refl))).
    rewrite (proj2 (helper_read_ok _ _ stream' raw)).
    + rewrite H7. cbn [map_err]. f_equal. by apply A.
    + cbn [inbox outbox write_limit]. repeat (split; [unfold MAX_RESPONSE_PAYLOAD in *; (done || lia)|]). done.
Qed.
