(* ===== verification/Metrics.v ===== *)
(** The counters of [main.rs]: the [Metrics] record of atomics with their
    [fetch_add] and [fetch_sub].  ([bump_max], a loop other threads can
    interfere with, is part of Server.v.) *)

From S2P Require Import Prelude.
Local Open Scope Z_scope.

Record Metrics := mkMetrics {
  accepted : Z;
  shed : Z;
  completed : Z;
  failed : Z;
  panicked : Z;
  in_flight : Z;
  in_flight_max : Z;
  queue_depth : Z;
  queue_depth_max : Z;
  handle_ns_total : Z;
  nsm_ns_total : Z;
  nsm_calls : Z;
  resp_bytes_total : Z;
}.

(** [Metrics::default()]. *)
Definition metrics_default : Metrics := mkMetrics 0 0 0 0 0 0 0 0 0 0 0 0 0.

(** The atomics are 64 bits wide ([AtomicU64], and [AtomicUsize] on the
    enclave's targets) and wrap around. *)
Definition fetch_add (z n : Z) : Z := (z + n) mod 2 ^ 64.
Definition fetch_sub (z n : Z) : Z := (z - n) mod 2 ^ 64.

(** One counter changed. *)
Definition on_accepted (f : Z -> Z) (m : Metrics) : Metrics :=
  mkMetrics (f (accepted m)) (shed m) (completed m) (failed m) (panicked m) (in_flight m) (in_flight_max m)
    (queue_depth m) (queue_depth_max m) (handle_ns_total m) (nsm_ns_total m) (nsm_calls m) (resp_bytes_total m).
Definition on_shed (f : Z -> Z) (m : Metrics) : Metrics :=
  mkMetrics (accepted m) (f (shed m)) (completed m) (failed m) (panicked m) (in_flight m) (in_flight_max m)
    (queue_depth m) (queue_depth_max m) (handle_ns_total m) (nsm_ns_total m) (nsm_calls m) (resp_bytes_total m).
Definition on_completed (f : Z -> Z) (m : Metrics) : Metrics :=
  mkMetrics (accepted m) (shed m) (f (completed m)) (failed m) (panicked m) (in_flight m) (in_flight_max m)
    (queue_depth m) (queue_depth_max m) (handle_ns_total m) (nsm_ns_total m) (nsm_calls m) (resp_bytes_total m).
Definition on_failed (f : Z -> Z) (m : Metrics) : Metrics :=
  mkMetrics (accepted m) (shed m) (completed m) (f (failed m)) (panicked m) (in_flight m) (in_flight_max m)
    (queue_depth m) (queue_depth_max m) (handle_ns_total m) (nsm_ns_total m) (nsm_calls m) (resp_bytes_total m).
Definition on_panicked (f : Z -> Z) (m : Metrics) : Metrics :=
  mkMetrics (accepted m) (shed m) (completed m) (failed m) (f (panicked m)) (in_flight m) (in_flight_max m)
    (queue_depth m) (queue_depth_max m) (handle_ns_total m) (nsm_ns_total m) (nsm_calls m) (resp_bytes_total m).
Definition on_in_flight (f : Z -> Z) (m : Metrics) : Metrics :=
  mkMetrics (accepted m) (shed m) (completed m) (failed m) (panicked m) (f (in_flight m)) (in_flight_max m)
    (queue_depth m) (queue_depth_max m) (handle_ns_total m) (nsm_ns_total m) (nsm_calls m) (resp_bytes_total m).
Definition on_in_flight_max (f : Z -> Z) (m : Metrics) : Metrics :=
  mkMetrics (accepted m) (shed m) (completed m) (failed m) (panicked m) (in_flight m) (f (in_flight_max m))
    (queue_depth m) (queue_depth_max m) (handle_ns_total m) (nsm_ns_total m) (nsm_calls m) (resp_bytes_total m).
Definition on_queue_depth (f : Z -> Z) (m : Metrics) : Metrics :=
  mkMetrics (accepted m) (shed m) (completed m) (failed m) (panicked m) (in_flight m) (in_flight_max m)
    (f (queue_depth m)) (queue_depth_max m) (handle_ns_total m) (nsm_ns_total m) (nsm_calls m) (resp_bytes_total m).
Definition on_queue_depth_max (f : Z -> Z) (m : Metrics) : Metrics :=
  mkMetrics (accepted m) (shed m) (completed m) (failed m) (panicked m) (in_flight m) (in_flight_max m)
    (queue_depth m) (f (queue_depth_max m)) (handle_ns_total m) (nsm_ns_total m) (nsm_calls m) (resp_bytes_total m).
Definition on_handle_ns_total (f : Z -> Z) (m : Metrics) : Metrics :=
  mkMetrics (accepted m) (shed m) (completed m) (failed m) (panicked m) (in_flight m) (in_flight_max m)
    (queue_depth m) (queue_depth_max m) (f (handle_ns_total m)) (nsm_ns_total m) (nsm_calls m) (resp_bytes_total m).
Definition on_nsm_ns_total (f : Z -> Z) (m : Metrics) : Metrics :=
  mkMetrics (accepted m) (shed m) (completed m) (failed m) (panicked m) (in_flight m) (in_flight_max m)
    (queue_depth m) (queue_depth_max m) (handle_ns_total m) (f (nsm_ns_total m)) (nsm_calls m) (resp_bytes_total m).
Definition on_nsm_calls (f : Z -> Z) (m : Metrics) : Metrics :=
  mkMetrics (accepted m) (shed m) (completed m) (failed m) (panicked m) (in_flight m) (in_flight_max m)
    (queue_depth m) (queue_depth_max m) (handle_ns_total m) (nsm_ns_total m) (f (nsm_calls m)) (resp_bytes_total m).
Definition on_resp_bytes_total (f : Z -> Z) (m : Metrics) : Metrics :=
  mkMetrics (accepted m) (shed m) (completed m) (failed m) (panicked m) (in_flight m) (in_flight_max m)
    (queue_depth m) (queue_depth_max m) (handle_ns_total m) (nsm_ns_total m) (nsm_calls m) (f (resp_bytes_total m)).

(** The counters the handling of a connection leaves alone: all but the times,
    the attestations and the bytes of responses. *)
Definition same_server_counters (m m' : Metrics) : Prop :=
  accepted m' = accepted m /\ shed m' = shed m /\ completed m' = completed m /\ failed m' = failed m
  /\ panicked m' = panicked m /\ in_flight m' = in_flight m /\ in_flight_max m' = in_flight_max m
  /\ queue_depth m' = queue_depth m /\ queue_depth_max m' = queue_depth_max m.

Lemma fetch_add_small z n : 0 <= z + n < 2 ^ 64 -> fetch_add z n = z + n.
Proof. apply Z.mod_small. Qed.

Lemma fetch_sub_small z n : 0 <= z - n < 2 ^ 64 -> fetch_sub z n = z - n.
Proof. apply Z.mod_small. Qed.
