(* ===== verification/Trailer.v ===== *)
(** The proof trailer of an exchange: [write_attested_trailer],
    [write_local_attested_trailer], [write_aliyun_vtpm_trailer],
    [write_proof_unavailable_trailer] and [build_proof_unavailable_payload] of
    [main.rs], with the proof backends they use. *)

From S2P Require Import Prelude RustStr BTree Json Digest Paths Protocol.
From S2P Require Import Statement Io Frames Base64 Evidence Metrics Sample.
From S2P Require AliyunHelper.
Local Open Scope bytes_scope.

(** * Backends *)

(** [ed25519_dalek]: keys from a seed, their public part, signatures, and the
    verification a reader of the trailer runs. *)
Class Ed25519 := {
  SigningKey : Type;
  sk_from_bytes : bytes -> SigningKey;
  verifying_key : SigningKey -> bytes;
  sk_sign : SigningKey -> bytes -> bytes;
  ed_verify : bytes -> bytes -> bytes -> bool;
}.

(** What the key pair's owner signs verifies under the public part, which has
    32 bytes. *)
Class Ed25519Laws `{Ed25519} : Prop := {
  ed_verify_sign sk msg : ed_verify (verifying_key sk) msg (sk_sign sk msg) = true;
  verifying_key_length sk : length (verifying_key sk) = 32;
}.

Record LocalEvidenceBackend `{Ed25519} := mkLocal {
  sk : SigningKey;
  spki : bytes;
  evidence_provider : EvidenceProvider;
}.

Record AliyunBackend := mkAliyun {
  socket_path : bytes;
}.

Inductive ProofBackend `{Ed25519} :=
  | LocalEvidence (local : LocalEvidenceBackend)
  | AliyunVtpm (aliyun : AliyunBackend).

(** The DER prefix of an Ed25519 [SubjectPublicKeyInfo]. *)
Definition spki_prefix : bytes :=
  map byte_of_Z [48; 42; 48; 5; 6; 3; 43; 101; 112; 3; 33; 0]%Z.

(** [build_local_evidence_backend], from the random seed and the provider. *)
Definition build_local_evidence_backend `{Ed25519} (seed : bytes) (provider : EvidenceProvider) : LocalEvidenceBackend :=
  let sk := sk_from_bytes seed in
  mkLocal _ sk (spki_prefix ++ verifying_key sk) provider.

Section Trailer.
Context `{SJ : SerdeJson} `{SH : Sha256} `{UC : UnicodeCase} `{ED : Ed25519} `{B64 : Base64}
  `{HJ : AliyunHelper.HelperJson} `{US : AliyunHelper.UnixSockets}.
Abbreviation json := (value number).

(** What every trailer speaks of. *)
Record Exchange := mkExchange {
  x_head : ReqHead;
  x_norm_method : bytes;
  x_status : Z;
  x_content_type : bytes;
  x_req_body_hex : bytes;
  x_resp_body_hex : bytes;
  x_field_claims : option json;
}.

(** * Without a proof *)

Definition build_proof_unavailable_payload (head : ReqHead) (norm_method : bytes) (status : Z)
    (content_type req_body_hex resp_body_hex code message : bytes) : json :=
  json_object [
    ("type", Str "tee.proof_unavailable");
    ("code", Str code);
    ("message", Str message);
    ("attested", Bool false);
    ("upstream_host", Str (to_ascii_lowercase (host (upstream head))));
    ("upstream_path", Str (path_no_query (path (upstream head))));
    ("http_method", Str (to_ascii_uppercase norm_method));
    ("http_status", json_int status);
    ("resp_content_type", Str content_type);
    ("request_body_sha256", Str req_body_hex);
    ("response_body_sha256", Str resp_body_hex)].

Definition unavailable (x : Exchange) (code message : bytes) : json :=
  build_proof_unavailable_payload (x_head x) (x_norm_method x) (x_status x) (x_content_type x)
    (x_req_body_hex x) (x_resp_body_hex x) code message.

(** [write_frame(..).map_err(|e| format!("{what}: {e}"))]. *)
Definition write_frame_err (what : bytes) (t : byte) (data : bytes) (s : Control) : Control * result unit bytes :=
  let '(s, r) := write_frame t data s in (s, map_err (fun e => what ++ ": " ++ display e) r).

Definition write_proof_unavailable_trailer (s : Control) (x : Exchange) (code message : bytes)
    : Control * result unit bytes :=
  write_frame_err "写 proof_unavailable RESP_TRAILER" RESP_TRAILER (to_string (unavailable x code message)) s.

(** * With local evidence *)

Definition exchange_statement (x : Exchange) (norm_host norm_path : bytes) : bytes :=
  build_v2_statement (nonce (x_head x)) norm_host norm_path (x_norm_method x) (x_status x) (x_content_type x)
    (x_req_body_hex x) (x_resp_body_hex x) (x_field_claims x).

(** [trailer_obj.insert(..)], made [if let Some(..)]. *)
Definition insert_opt (k : bytes) (v : option json) (obj : list (bytes * json)) : list (bytes * json) :=
  match v with Some v => bins k v obj | None => obj end.

(** The members every trailer has. *)
Definition trailer_members (local : LocalEvidenceBackend) (x : Exchange) (norm_host norm_path : bytes)
    (sig : bytes) (evidence : Evidence) : list (bytes * json) :=
  [
   ("v", json_int 2);
   ("alg", Str "ed25519");
   ("public_key", Str (b64_encode (spki local)));
   ("nonce", Str (nonce (x_head x)));
   ("upstream_host", Str norm_host);
   ("upstream_path", Str norm_path);
   ("http_method", Str (x_norm_method x));
   ("http_status", json_int (x_status x));
   ("resp_content_type", Str (x_content_type x));
   ("request_body_sha256", Str (x_req_body_hex x));
   ("response_body_sha256", Str (x_resp_body_hex x));
   ("signature", Str (b64_encode sig));
   ("attestation", Str (b64_encode (attestation evidence)))].

Definition local_trailer (local : LocalEvidenceBackend) (x : Exchange) (norm_host norm_path : bytes)
    (sig : bytes) (evidence : Evidence) : json :=
  let trailer := bextend [] (trailer_members local x norm_host norm_path sig evidence) in
  let trailer := if eqs (profile evidence) "nitro" then trailer
                 else bins "profile" (Str (profile evidence)) trailer in
  let trailer := insert_opt "pcr0" (option_map Str (pcr0 evidence)) trailer in
  let trailer := insert_opt "pcr8" (option_map Str (pcr8 evidence)) trailer in
  let trailer := match measurements evidence with
                 | [] => trailer
                 | ms => bins "measurements" (Object (map (fun kv => (kv.1, Str kv.2)) ms)) trailer
                 end in
  Object (insert_opt "field_claims" (x_field_claims x) trailer).

(** [elapsed] is what [t_nsm.elapsed()] gives in nanoseconds. *)
Definition write_local_attested_trailer (s : Control) (local : LocalEvidenceBackend) (m : Metrics) (x : Exchange)
    (nonce_bytes norm_host norm_path : bytes) (elapsed : Z) : Control * Metrics * result unit bytes :=
  let statement := exchange_statement x norm_host norm_path in
  let sig := sk_sign (sk local) statement in
  match attest (evidence_provider local) (spki local) nonce_bytes with
  | Err e =>
      let '(s, r) := write_proof_unavailable_trailer s x "attestation_failed" e in (s, m, r)
  | Ok evidence =>
      let m := on_nsm_ns_total (fun z => fetch_add z (elapsed mod 2 ^ 64)) m in
      let m := on_nsm_calls (fun z => fetch_add z 1) m in
      let trailer := local_trailer local x norm_host norm_path sig evidence in
      let '(s, r) := write_frame_err "写 RESP_TRAILER" RESP_TRAILER (to_string trailer) s in (s, m, r)
  end.

(** * With the Aliyun helper *)

Definition aliyun_request (x : Exchange) (norm_host norm_path : bytes) : AliyunHelper.ProofRequest :=
  AliyunHelper.proof_request_new (nonce (x_head x)) norm_host norm_path (x_norm_method x) (x_status x)
    (x_content_type x) (x_req_body_hex x) (x_resp_body_hex x) (x_field_claims x).

Definition write_aliyun_vtpm_trailer (s : Control) (aliyun : AliyunBackend) (x : Exchange)
    (norm_host norm_path : bytes) : Control * result unit bytes :=
  match AliyunHelper.request_proof (socket_path aliyun) (aliyun_request x norm_host norm_path) with
  | Err e => write_proof_unavailable_trailer s x "attestation_failed" e
  | Ok proof => write_frame_err "写 RESP_TRAILER" RESP_TRAILER proof s
  end.

(** * The choice *)

Definition write_attested_trailer (s : Control) (backend : ProofBackend) (m : Metrics) (x : Exchange)
    (nonce_bytes : bytes) (elapsed : Z) : Control * Metrics * result unit bytes :=
  if negb (no_crlf (x_content_type x)) then
    let '(s, r) := write_proof_unavailable_trailer s x "invalid_content_type" "上游 content-type 含非法 CR/LF" in
    (s, m, r)
  else
    let norm_host := to_lowercase (host (upstream (x_head x))) in
    let norm_path := path_no_query (path (upstream (x_head x))) in
    match backend with
    | LocalEvidence local => write_local_attested_trailer s local m x nonce_bytes norm_host norm_path elapsed
    | AliyunVtpm aliyun =>
        let '(s, r) := write_aliyun_vtpm_trailer s aliyun x norm_host norm_path in (s, m, r)
    end.
End Trailer.

(** * Lemmas *)

Section Lemmas.
Context `{SJ : SerdeJson} `{SH : Sha256} `{UC : UnicodeCase} `{ED : Ed25519} `{B64 : Base64}
  `{HJ : AliyunHelper.HelperJson} `{US : AliyunHelper.UnixSockets}.
Abbreviation json := (value number).

(** The data of the one frame [write_attested_trailer] writes. *)
Definition trailer_payload (backend : ProofBackend) (x : Exchange) (nonce_bytes : bytes) : bytes :=
  let norm_host := to_lowercase (host (upstream (x_head x))) in
  let norm_path := path_no_query (path (upstream (x_head x))) in
  if negb (no_crlf (x_content_type x)) then
    to_string (unavailable x "invalid_content_type" "上游 content-type 含非法 CR/LF")
  else
    match backend with
    | LocalEvidence local =>
        match attest (evidence_provider local) (spki local) nonce_bytes with
        | Ok ev => to_string (local_trailer local x norm_host norm_path
                     (sk_sign (sk local) (exchange_statement x norm_host norm_path)) ev)
        | Err e => to_string (unavailable x "attestation_failed" e)
        end
    | AliyunVtpm aliyun =>
        match AliyunHelper.request_proof (socket_path aliyun) (aliyun_request x norm_host norm_path) with
        | Ok proof => proof
        | Err e => to_string (unavailable x "attestation_failed" e)
        end
    end.

Lemma write_frame_err_spec what t data s s' r :
  write_frame_err what t data s = (s', r) ->
  exists r0, write_frame t data s = (s', r0) /\ (r = Ok tt <-> r0 = Ok tt).
Proof.
  unfold write_frame_err. destruct (write_frame t data s) as [s1 r0] eqn:E. intros [= <- <-].
  exists r0. split; [done|]. destruct r0 as [[]|]; cbn; split; (done || congruence).
Qed.

Lemma write_attested_trailer_frame s backend m x nonce_bytes elapsed s' m' r :
  write_attested_trailer s backend m x nonce_bytes elapsed = (s', m', r) ->
  exists r0, write_frame RESP_TRAILER (trailer_payload backend x nonce_bytes) s = (s', r0)
    /\ (r = Ok tt <-> r0 = Ok tt).
Proof.
  unfold write_attested_trailer, trailer_payload, write_local_attested_trailer, write_aliyun_vtpm_trailer,
    write_proof_unavailable_trailer.
  destruct (negb (no_crlf (x_content_type x))).
  { destruct (write_frame_err _ _ _ s) as [s1 r1] eqn:E. intros [= <- _ <-]. by eapply write_frame_err_spec. }
  destruct backend as [local|aliyun].
  - destruct (attest _ _ _) as [ev|e]; destruct (write_frame_err _ _ _ s) as [s1 r1] eqn:E; intros [= <- _ <-];
      by eapply write_frame_err_spec.
  - destruct (AliyunHelper.request_proof _ _) as [p|e]; destruct (write_frame_err _ _ _ s) as [s1 r1] eqn:E;
      intros [= <- _ <-]; by eapply write_frame_err_spec.
Qed.

(** Lookups through the optional members. *)
Lemma bget_insert_opt k k' v (obj : list (bytes * json)) :
  k <> k' -> bget k (insert_opt k' v obj) = bget k obj.
Proof. intros. destruct v; cbn; [by apply bget_bins_ne|done]. Qed.

(** The members that may be missing. *)
Definition optional_members : list bytes := ["profile"; "pcr0"; "pcr8"; "measurements"; "field_claims"].

Lemma local_trailer_get local x nh np sig ev k v :
  bool_decide (In k optional_members) = false ->
  bget k (bextend [] (trailer_members local x nh np sig ev)) = v ->
  value_get k (local_trailer local x nh np sig ev) = v.
Proof.
  intros Hk%bool_decide_eq_false <-. unfold local_trailer. cbn [value_get].
  assert (N : forall k', In k' optional_members -> k <> k')
    by (intros k' Hin ->; by apply Hk).
  rewrite bget_insert_opt by (apply N; cbn; tauto).
  destruct (measurements ev); [|rewrite bget_bins_ne by (apply N; cbn; tauto)];
    rewrite !bget_insert_opt by (apply N; cbn; tauto);
    destruct (eqs (profile ev) "nitro"); try rewrite bget_bins_ne by (apply N; cbn; tauto); done.
Qed.

Lemma local_trailer_profile local x nh np sig ev :
  value_get "profile" (local_trailer local x nh np sig ev)
    = if eqs (profile ev) "nitro" then None else Some (Str (profile ev)).
Proof.
  unfold local_trailer. cbn [value_get].
  rewrite bget_insert_opt by done.
  destruct (measurements ev); [|rewrite bget_bins_ne by done]; rewrite !bget_insert_opt by done;
    (destruct (eqs (profile ev) "nitro"); [reflexivity|by rewrite bget_bins_eq]).
Qed.

Lemma local_trailer_claims local x nh np sig ev :
  value_get "field_claims" (local_trailer local x nh np sig ev) = x_field_claims x.
Proof.
  unfold local_trailer. cbn [value_get]. destruct (x_field_claims x) as [c|]; cbn [insert_opt]; [apply bget_bins_eq|].
  destruct (measurements ev); [|rewrite bget_bins_ne by done]; rewrite !bget_insert_opt by done;
    destruct (eqs (profile ev) "nitro"); try rewrite bget_bins_ne by done; reflexivity.
Qed.
End Lemmas.

(** * Samples *)

(** A keyed digest in the place of the signature scheme. *)
#[export] Instance SampleEd25519 : Ed25519 := {|
  SigningKey := bytes;
  sk_from_bytes seed := seed;
  verifying_key k := sha_digest k;
  sk_sign k msg := sha_digest (sha_digest k ++ msg);
  ed_verify pub msg sig := eqs sig (sha_digest (pub ++ msg)) |}.

#[export] Instance SampleEd25519Laws : Ed25519Laws.
Proof.
  split; [|intros k; apply sha_length]. intros k msg. by apply bool_decide_eq_true.
Qed.

(** A provider that puts the nonce into its document. *)
Definition sample_provider : EvidenceProvider :=
  mkProvider "qingtian" (fun spki nonce =>
    if eqs nonce "bad" then Err "device busy" else Ok (mkEvidence "qingtian" ("doc:" ++ nonce) None None [])).

Definition sample_exchange : Exchange :=
  mkExchange (mkReqHead "bm9uY2U=" 443 (mkUpstream "API.example.com" "post" "/v1/chat?x=1" [] None) None None None None None None)
    "POST" 200 "text/plain" (sha256_hex "req") (sha256_hex "resp") (Some (json_object [("v", json_int 1)])).
