(* ===== verification/Sink.v ===== *)
(** What the readers of a response body do to their sink, for every connection
    and every sink: they feed it pieces one by one and stop at the first call
    that fails.  The readers are [stream_chunked] and [stream_plain] of
    [Http1.v] and [execute] of [H2Client.v]. *)

From S2P Require Import Prelude RustStr TlsProfile Io Http1 H2Client.
Local Open Scope bytes_scope.

Section Feed.
Context {S : Type} (sink : bytes -> S -> S * result unit bytes).

Fixpoint feed (pieces : list bytes) (st : S) : S * result unit bytes :=
  match pieces with
  | [] => (st, Ok tt)
  | b :: pieces =>
      match sink b st with
      | (st, Err e) => (st, Err e)
      | (st, Ok _) => feed pieces st
      end
  end.

(** A reader has fed its sink: the state it leaves is that of feeding some
    pieces, all of them without an error when the reader succeeds. *)
Definition has_fed (st st' : S) (r : result unit bytes) : Prop :=
  exists pieces r', feed pieces st = (st', r') /\ (r = Ok tt -> r' = Ok tt).

Lemma has_fed_nil st r : has_fed st st r.
Proof. exists [], (Ok tt). done. Qed.

Lemma has_fed_cons b st st1 st' r :
  sink b st = (st1, Ok tt) -> has_fed st1 st' r -> has_fed st st' r.
Proof. intros E (ps & r' & H & Hr). exists (b :: ps), r'. cbn. by rewrite E. Qed.

Lemma has_fed_err b st st1 e r :
  sink b st = (st1, Err e) -> r <> Ok tt -> has_fed st st1 r.
Proof. intros E Hr. exists [b], (Err e). cbn. rewrite E. done. Qed.

(** An invariant of the calls that succeed holds after feeding. *)
Lemma feed_inv (P : list bytes -> S -> Prop) pieces st st' :
  (forall ps b st st1, P ps st -> sink b st = (st1, Ok tt) -> P (ps ++ [b]) st1) ->
  forall seen, P seen st -> feed pieces st = (st', Ok tt) -> P (seen ++ pieces) st'.
Proof.
  intros HP. revert st. induction pieces as [|b pieces IH]; intros st seen Hs; cbn [feed].
  { intros [= <-]. by rewrite app_nil_r. }
  destruct (sink b st) as [st1 [[]|]] eqn:E; [|done]. intros Hf.
  replace (seen ++ b :: pieces) with ((seen ++ [b]) ++ pieces) by (by rewrite <-app_assoc).
  eapply IH; [|done]. by eapply HP.
Qed.

(** The same, up to a call that fails. *)
Lemma feed_inv_err (P : list bytes -> S -> Prop) pieces st st' r :
  (forall ps b st st1, P ps st -> sink b st = (st1, Ok tt) -> P (ps ++ [b]) st1) ->
  forall seen, P seen st -> feed pieces st = (st', r) ->
  exists done, done `prefix_of` pieces /\
    ((r = Ok tt /\ P (seen ++ pieces) st')
     \/ exists b e st1, r = Err e /\ P (seen ++ done) st1 /\ sink b st1 = (st', Err e)).
Proof.
  intros HP. revert st. induction pieces as [|b pieces IH]; intros st seen Hs; cbn [feed].
  { intros [= <- <-]. exists []. split; [apply prefix_nil|]. left. by rewrite app_nil_r. }
  destruct (sink b st) as [st1 [[]|e]] eqn:E; intros Hf.
  - destruct (IH st1 (seen ++ [b]) (HP _ _ _ _ Hs E) Hf) as (dn & Hd & H).
    rewrite <-!app_assoc in H. cbn [app] in H.
    exists (b :: dn). split; [by apply prefix_cons|]. destruct H as [H|(b' & e' & st2 & H)]; [by left|right].
    exists b', e', st2. rewrite <-?app_assoc in H. exact H.
  - injection Hf as <- <-. exists []. split; [apply prefix_nil|]. right. exists b, e, st. by rewrite app_nil_r.
Qed.

(** What no call changes. *)
Lemma feed_const {B} (g : S -> B) pieces st st' r :
  (forall b st st1 w, sink b st = (st1, w) -> g st1 = g st) -> feed pieces st = (st', r) -> g st' = g st.
Proof.
  intros Hg. revert st. induction pieces as [|b pieces IH]; intros st; cbn [feed]; [by intros [= <- <-]|].
  destruct (sink b st) as [st1 [[]|e]] eqn:E; apply Hg in E.
  - intros H%IH. congruence.
  - intros [= <- <-]. done.
Qed.

(** ** The readers of HTTP/1.1 *)

Lemma stream_chunked_loop_feeds fuel total buf tls st tls' st' r :
  stream_chunked_loop sink fuel total buf tls st = (tls', st', r) -> has_fed st st' r.
Proof.
  revert total buf tls st. induction fuel as [|fuel IH]; intros total buf tls st; cbn [stream_chunked_loop].
  { intros [= _ <- <-]. apply has_fed_nil. }
  destruct (fill_line _ buf tls) as [t1 [[p buf1]|e]]; [|intros [= _ <- <-]; apply has_fed_nil].
  destruct (chunk_size (take p buf1)) as [size|e]; [|intros [= _ <- <-]; apply has_fed_nil].
  destruct (size =? 0)%Z; [intros [= _ <- <-]; apply has_fed_nil|].
  destruct (MAX_RESP <? _)%Z; [intros [= _ <- <-]; apply has_fed_nil|].
  destruct (fill_chunk _ _ _ t1) as [t2 [buf2|e]]; [|intros [= _ <- <-]; apply has_fed_nil].
  destruct (sink _ st) as [st1 [[]|e]] eqn:E.
  - intros H%IH. by eapply has_fed_cons.
  - intros [= _ <- <-]. by eapply has_fed_err.
Qed.

Lemma plain_length_loop_feeds fuel cl total tls st tls' st' r :
  plain_length_loop sink fuel cl total tls st = (tls', st', r) -> has_fed st st' r.
Proof.
  revert total tls st. induction fuel as [|fuel IH]; intros total tls st; cbn [plain_length_loop];
    destruct (total <? cl)%Z; try (intros [= _ <- <-]; apply has_fed_nil).
  destruct (read _ tls) as [t1 [[|b bs]|e]].
  - intros [= _ <- <-]. apply has_fed_nil.
  - destruct (sink _ st) as [st1 [[]|e]] eqn:E; [intros H%IH; by eapply has_fed_cons|].
    intros [= _ <- <-]. by eapply has_fed_err.
  - destruct (is_eof_kind e); intros [= _ <- <-]; apply has_fed_nil.
Qed.

Lemma plain_eof_loop_feeds fuel total tls st tls' st' r :
  plain_eof_loop sink fuel total tls st = (tls', st', r) -> has_fed st st' r.
Proof.
  revert total tls st. induction fuel as [|fuel IH]; intros total tls st; cbn [plain_eof_loop].
  { intros [= _ <- <-]. apply has_fed_nil. }
  destruct (read _ tls) as [t1 [[|b bs]|e]].
  - intros [= _ <- <-]. apply has_fed_nil.
  - destruct (MAX_RESP <? _)%Z; [intros [= _ <- <-]; apply has_fed_nil|].
    destruct (sink _ st) as [st1 [[]|e]] eqn:E; [intros H%IH; by eapply has_fed_cons|].
    intros [= _ <- <-]. by eapply has_fed_err.
  - destruct (is_eof_kind e); intros [= _ <- <-]; apply has_fed_nil.
Qed.

Lemma stream_plain_feeds initial tls cl st tls' st' r :
  stream_plain sink initial tls cl st = (tls', st', r) -> has_fed st st' r.
Proof.
  unfold stream_plain. destruct cl as [cl|].
  - destruct (MAX_RESP <? cl)%Z; [intros [= _ <- <-]; apply has_fed_nil|].
    destruct (0 <? _)%Z; [|apply plain_length_loop_feeds].
    destruct (sink _ st) as [st1 [[]|e]] eqn:E.
    + intros H%plain_length_loop_feeds. by eapply has_fed_cons.
    + intros [= _ <- <-]. by eapply has_fed_err.
  - destruct initial as [|b bs]; [apply plain_eof_loop_feeds|].
    destruct (MAX_RESP <? _)%Z; [intros [= _ <- <-]; apply has_fed_nil|].
    destruct (sink _ st) as [st1 [[]|e]] eqn:E.
    + intros H%plain_eof_loop_feeds. by eapply has_fed_cons.
    + intros [= _ <- <-]. by eapply has_fed_err.
Qed.

(** The body reader the response head asks for. *)
Lemma body_reader_feeds (ch : bool) cl buf tls st tls' st' r :
  (if ch then stream_chunked sink buf tls st else stream_plain sink buf tls cl st) = (tls', st', r) ->
  has_fed st st' r.
Proof. destruct ch; [apply stream_chunked_loop_feeds|apply stream_plain_feeds]. Qed.
End Feed.

(** ** Sinks that agree

    Two sinks that agree on the states of an invariant are not told apart by a
    reader that starts in one of them. *)

Section Agree.
Context {S : Type} (P : S -> Prop) (sink1 sink2 : bytes -> S -> S * result unit bytes).
Hypothesis agree : forall b st, P st -> sink1 b st = sink2 b st.
Hypothesis keeps : forall b st, P st -> P (sink1 b st).1.

Ltac agree_step :=
  match goal with
  | Hst : P ?st |- context [sink2 ?b ?st] =>
      rewrite <-(agree b st Hst); pose proof (keeps b st Hst); destruct (sink1 b st) as [? [[]|?]]; [|done]; cbn [fst] in *
  end.

Lemma stream_chunked_loop_agree fuel total buf tls st :
  P st -> stream_chunked_loop sink1 fuel total buf tls st = stream_chunked_loop sink2 fuel total buf tls st.
Proof.
  revert total buf tls st. induction fuel as [|fuel IH]; intros total buf tls st Hst; cbn [stream_chunked_loop]; [done|].
  destruct (fill_line _ buf tls) as [t1 [[p buf1]|e]]; [|done].
  destruct (chunk_size _) as [size|e]; [|done]. destruct (size =? 0)%Z; [done|].
  destruct (MAX_RESP <? _)%Z; [done|]. destruct (fill_chunk _ _ _ t1) as [t2 [buf2|e]]; [|done].
  agree_step. by apply IH.
Qed.

Lemma plain_length_loop_agree fuel cl total tls st :
  P st -> plain_length_loop sink1 fuel cl total tls st = plain_length_loop sink2 fuel cl total tls st.
Proof.
  revert total tls st. induction fuel as [|fuel IH]; intros total tls st Hst; cbn [plain_length_loop]; [done|].
  destruct (total <? cl)%Z; [|done]. destruct (read _ tls) as [t1 [[|b bs]|e]]; [done| |done].
  agree_step. by apply IH.
Qed.

Lemma plain_eof_loop_agree fuel total tls st :
  P st -> plain_eof_loop sink1 fuel total tls st = plain_eof_loop sink2 fuel total tls st.
Proof.
  revert total tls st. induction fuel as [|fuel IH]; intros total tls st Hst; cbn [plain_eof_loop]; [done|].
  destruct (read _ tls) as [t1 [[|b bs]|e]]; [done| |done]. destruct (MAX_RESP <? _)%Z; [done|].
  agree_step. by apply IH.
Qed.

Lemma stream_plain_agree initial tls cl st :
  P st -> stream_plain sink1 initial tls cl st = stream_plain sink2 initial tls cl st.
Proof.
  intros Hst. unfold stream_plain. destruct cl as [cl|].
  - destruct (MAX_RESP <? cl)%Z; [done|]. destruct (0 <? _)%Z; [|by apply plain_length_loop_agree].
    agree_step. by apply plain_length_loop_agree.
  - destruct initial; [by apply plain_eof_loop_agree|]. destruct (MAX_RESP <? _)%Z; [done|].
    agree_step. by apply plain_eof_loop_agree.
Qed.
End Agree.

(** ** The reader of HTTP/2 *)

Section H2.
Context `{HC : HttpCrate} {St : Type} (oh : Z -> list (bytes * bytes) -> St -> St * result unit bytes)
  (oc : bytes -> St -> St * result unit bytes).
#[local] Instance the_sink : H2ResponseSink St := {| on_head := oh; on_chunk := oc |}.

Lemma recv_body_feeds max datas total st st' r :
  recv_body max datas total st = (st', r) ->
  exists pieces r', feed oc pieces st = (st', r')
    /\ forall n, r = Ok n -> r' = Ok tt /\ n = (total + zlen (concat pieces))%Z /\ (total <= max -> n <= max)%Z.
Proof.
  revert total st. induction datas as [|[chunk released|e] datas IH]; intros total st; cbn [recv_body].
  - intros [= <- <-]. exists [], (Ok tt). split; [done|]. intros n [= <-].
    change (zlen (concat [])) with 0%Z. rewrite Z.add_0_r. done.
  - destruct (u64_max <? _)%Z; [intros [= <- <-]; by exists [], (Ok tt)|].
    destruct (Z.ltb_spec max (total + zlen chunk)); [intros [= <- <-]; by exists [], (Ok tt)|].
    cbn [on_chunk the_sink]. destruct (oc chunk st) as [st1 [[]|e]] eqn:E.
    + destruct released as [[]|e].
      * intros (ps & r' & Hf & Hr)%IH. exists (chunk :: ps), r'. cbn [feed]. rewrite E. split; [done|].
        intros n Hn. destruct (Hr n Hn) as (-> & -> & Hle). cbn [concat]. rewrite zlen_app. split; [done|]. lia.
      * intros [= <- <-]. exists [chunk], (Ok tt). cbn [feed]. by rewrite E.
    + intros [= <- <-]. exists [chunk], (Err e). cbn [feed]. by rewrite E.
  - intros [= <- <-]. by exists [], (Ok tt).
Qed.

(** The sink of an exchange is left alone, or given the head, or given the head
    and some chunks; on success the head and chunks of the size reported. *)
Lemma execute_feeds peer fp host m path ordered token body max st out st' r :
  execute peer fp host m path ordered token body max st = (out, st', r) ->
  (st' = st /\ exists e, r = Err e)
  \/ exists status hs headers, response peer = Ok (status, hs)
       /\ headers = map (fun kv => (kv.1, from_utf8_lossy kv.2)) hs /\
       ((exists e, oh status headers st = (st', Err e) /\ r = Err (Fails e))
       \/ exists st1 pieces r', oh status headers st = (st1, Ok tt) /\ feed oc pieces st1 = (st', r')
            /\ forall sum, r = Ok sum -> r' = Ok tt /\ H2Client.status sum = status
                 /\ body_bytes sum = zlen (concat pieces) /\ (0 <= max -> body_bytes sum <= max)%Z).
Proof.
  unfold execute. intros E.
  repeat match type of E with
  | ((_, st, Err _) = _) => injection E as _ <- <-; left; split; [done|by eexists]
  | (if ?b then _ else _) = _ => destruct b
  | (match ?x with Ok _ => _ | Err _ => _ end) = _ => destruct x as [?|?]
  end.
  destruct a3 as [[method uri] hs]. destruct (send_request peer) as [?|?].
  2:{ injection E as _ <- <-. left. split; [done|by eexists]. }
  unfold exchange in E. destruct (send_body _ 0 body) as [o [[]|e]].
  2:{ injection E as _ <- <-. left. split; [done|]. by destruct (driver peer); eexists. }
  destruct (response peer) as [[status headers]|e] eqn:Eresp.
  2:{ injection E as _ <- <-. left. split; [done|]. by destruct (driver peer); eexists. }
  right. exists status, headers, (map (fun kv => (kv.1, from_utf8_lossy kv.2)) headers).
  split; [done|]. split; [done|].
  cbn [on_head the_sink] in E. destruct (oh _ _ st) as [st1 [[]|e]] eqn:Eh.
  2:{ injection E as _ <- <-. left. exists e. split; [done|]. by destruct (driver peer). }
  right. destruct (recv_body max (datas peer) 0 st1) as [st2 r2] eqn:Er.
  apply recv_body_feeds in Er as (ps & r' & Hf & Hr).
  exists st1, ps, r'. split; [done|].
  destruct r2 as [total|e]; injection E as _ <- <-.
  - split; [done|]. intros sum Hs. destruct (Hr total eq_refl) as (-> & -> & Hle).
    destruct (driver peer); try done. cbn in Hs. injection Hs as <-. cbn [H2Client.status body_bytes]. split; [done|]. split; [done|].
    split; [lia|]. done.
  - split; [done|]. intros sum Hs. by destruct (driver peer).
Qed.
End H2.
