(* ===== verification/Handle.v ===== *)
(** One connection of the enclave: [handle] of [main.rs], from the request
    frames to the proof trailer, with the two sinks that relay a response
    ([AttestedH2Sink] and the closure of the HTTP/1.1 path). *)

From S2P Require Import Prelude RustStr BTree Json Digest Paths Base64 TlsProfile Protocol.
From S2P Require Import Collector Statement Io Frames Http1 H2Client Egress Evidence Metrics Trailer.
From S2P Require AliyunHelper.
Local Open Scope bytes_scope.

(** [serde_json::from_slice::<ReqHead>], the deserialiser [serde] derives, with
    the text of its error. *)
Class ReqHeadJson := req_head_from_slice : bytes -> result ReqHead bytes.

(** [{:#x}] of a [u8]. *)
Definition show_hex (b : byte) : bytes :=
  "0x" ++ (if (bv b <? 16)%Z then [hex_digit (bv b)] else hex_byte b).

(** [{:?}] of an [Option<&[u8]>]. *)
Definition show_alpn (p : option bytes) : bytes :=
  match p with
  | None => "None"
  | Some p => "Some([" ++ join ", " (map (fun b => show_Z (bv b)) p) ++ "])"
  end.

Section Handle.
Context `{SJ : SerdeJson} `{SH : Sha256} `{UC : UnicodeCase} `{EN : Env} `{B64 : Base64}
  `{ED : Ed25519} `{HJ : AliyunHelper.HelperJson} `{US : AliyunHelper.UnixSockets}
  `{HC : HttpCrate} `{SO : Sockets} `{TL : !TlsLibraries} `{RH : ReqHeadJson}.
Abbreviation json := (value number).

(** * Relaying a response *)

(** What both sinks keep. *)
Record Relay := mkRelay {
  r_control : Control;
  r_hasher : hasher;
  r_collector : option FieldResponseCollector;
}.

(** One chunk of the body: hashed, collected, framed. *)
Definition relay_chunk (what : bytes) (chunk : bytes) (r : Relay) : Relay * result unit bytes :=
  let h := sha_update (r_hasher r) chunk in
  let c := option_map (fun c => collector_push c chunk) (r_collector r) in
  let '(s, w) := write_frame_err what RESP_CHUNK chunk (r_control r) in
  (mkRelay s h c, w).

(** [json!({ "status": status, "headers": headers })]. *)
Definition resp_head_json (status : Z) (headers : list (bytes * bytes)) : json :=
  json_object [("status", json_int status); ("headers", Object (map (fun kv => (kv.1, Str kv.2)) headers))].

(** [AttestedH2Sink], over the fields it changes. *)
Record AttestedH2Sink := mkH2Sink {
  s_relay : Relay;
  s_content_type : bytes;
}.

Definition h2_on_head (head : ReqHead) (req_body : bytes) (status : Z) (headers : list (bytes * bytes))
    (s : AttestedH2Sink) : AttestedH2Sink * result unit bytes :=
  let '(content_type, response_headers) :=
    fold_left (fun acc kv =>
      let '(ct, hs) := acc in
      (if eq_ignore_ascii_case kv.1 "content-type" then kv.2 else ct, bins kv.1 kv.2 hs))
      headers (s_content_type s, []) in
  let collector := collector_new head req_body content_type in
  let '(control, w) :=
    write_frame_err "写 h2 RESP_HEAD" RESP_HEAD (to_string (resp_head_json status response_headers))
      (r_control (s_relay s)) in
  (mkH2Sink (mkRelay control (r_hasher (s_relay s)) collector) content_type, w).

Definition h2_on_chunk (chunk : bytes) (s : AttestedH2Sink) : AttestedH2Sink * result unit bytes :=
  let '(r, w) := relay_chunk "写 h2 RESP_CHUNK" chunk (s_relay s) in
  (mkH2Sink r (s_content_type s), w).

(** * The request *)

(** The two frames of a request. *)
Definition read_request (s : Control) : Control * result (ReqHead * bytes) bytes :=
  match read_frame MAX_REQ_HEAD s with
  | (s, Err e) => (s, Err ("读 HEAD 帧: " ++ display e))
  | (s, Ok (t1, head_buf)) =>
      if negb (Byte.eqb t1 REQ_HEAD) then (s, Err ("期望 REQ_HEAD，收到 " ++ show_hex t1))
      else
        match req_head_from_slice head_buf with
        | Err e => (s, Err ("HEAD JSON: " ++ e))
        | Ok head =>
            match read_frame MAX_REQ_FRAME s with
            | (s, Err e) => (s, Err ("读 BODY 帧: " ++ display e))
            | (s, Ok (t2, body)) =>
                if negb (Byte.eqb t2 REQ_BODY) then (s, Err ("期望 REQ_BODY，收到 " ++ show_hex t2))
                else (s, Ok (head, body))
            end
        end
  end.

(** The guards on the request head, with the nonce they decode. *)
Definition check_head (head : ReqHead) : result bytes bytes :=
  let? nonce_bytes := map_err (fun e => "nonce base64: " ++ e) (b64_decode (nonce head)) in
  if negb (no_crlf (host (upstream head))) || negb (no_crlf (method (upstream head)))
     || negb (no_crlf (path (upstream head))) then
    Err "upstream host/method/path 含非法 CR/LF"
  else if existsb (fun kv => negb (no_crlf kv.1) || negb (no_crlf kv.2)) (Protocol.headers (upstream head)) then
    Err "请求头含非法 CR/LF"
  else
    match token head with
    | Some tok => if negb (no_crlf tok) then Err "token 含非法 CR/LF" else Ok nonce_bytes
    | None => Ok nonce_bytes
    end.

(** The HTTP/1.1 request head. *)
Definition request_head (head : ReqHead) (norm_method : bytes) (body : bytes) : bytes :=
  match parse_headers_ordered (headers_ordered (upstream head)) with
  | Some ordered =>
      build_request_head_ordered norm_method (path (upstream head)) (host (upstream head)) ordered (token head) (zlen body)
  | None =>
      build_request_head_map norm_method (path (upstream head)) (host (upstream head))
        (Protocol.headers (upstream head)) (token head) (zlen body)
  end.

(** * HTTP/2 *)

(** The trailer of an exchange over the relay it was made with. *)
Definition exchange_of (head : ReqHead) (norm_method : bytes) (status : Z) (content_type : bytes)
    (body : bytes) (r : Relay) : Exchange :=
  mkExchange head norm_method status content_type (hex (sha_finalize (sha_update sha_new body)))
    (hex (sha_finalize (r_hasher r)))
    (r_collector r ≫= fun c => collector_finish c head norm_method status).

(** The time-outs of the upstream socket, 300 seconds, and of an HTTP/2
    connection, 250 milliseconds. *)
Definition UPSTREAM_IO_TIMEOUT : Z := 300 * 1000.
Definition H2_IO_TIMEOUT : Z := 250.

Definition upstream_socket (port : Z) : result EgressStream bytes :=
  let? sock := connect_egress port in Ok (set_egress_timeouts sock UPSTREAM_IO_TIMEOUT).

(** The peer of an HTTP/2 connection, met over its socket with the shorter
    time-outs set. *)
Definition h2_peer (tls : RustlsStream) : H2Peer := rs_peer tls (set_egress_timeouts (rs_sock tls) H2_IO_TIMEOUT).

(** The error of a step as the error of the connection. *)
Definition fails {A} (x : A * result unit bytes) : A * result unit failure := (x.1, map_err Fails x.2).

Definition handle_h2 (s : Control) (backend : ProofBackend) (m : Metrics) (elapsed : Z) (head : ReqHead) (body : bytes)
    (nonce_bytes : bytes) (profile : TlsProfile) (sock : EgressStream) (norm_method : bytes)
    : Control * Metrics * result unit failure :=
  match map_err (fun e => "rustls/aws-lc 出口: " ++ e) (aws_lc_connect profile sock (host (upstream head))) with
  | Err e => (s, m, Err (Fails e))
  | Ok tls =>
  match complete_handshake (rs_handshake tls) with
  | Err e => (s, m, Err (Fails e))
  | Ok _ =>
  if negb (bool_decide (rs_alpn tls = Some "h2")) then
    (s, m, Err (Fails ("Grok upstream did not negotiate h2: " ++ show_alpn (rs_alpn tls))))
  else
  match h2 profile with
  | None => (s, m, Err (Fails "Grok profile missing h2 fingerprint"))
  | Some fingerprint =>
      let ordered := default (Protocol.headers (upstream head)) (parse_headers_ordered (headers_ordered (upstream head))) in
      let sink := mkH2Sink (mkRelay s sha_new None) [] in
      let SK : H2ResponseSink AttestedH2Sink := {| on_head := h2_on_head head body; on_chunk := h2_on_chunk |} in
      let '(_, sink, r) :=
        execute (h2_peer tls) fingerprint (host (upstream head)) norm_method (path (upstream head)) ordered
          (token head) body MAX_RESP sink in
      let s := r_control (s_relay sink) in
      match r with
      | Err e => (s, m, Err e)
      | Ok response =>
          let m := on_resp_bytes_total (fun z => fetch_add z (body_bytes response)) m in
          fails (write_attested_trailer s backend m
            (exchange_of head norm_method (H2Client.status response) (s_content_type sink) body (s_relay sink))
            nonce_bytes elapsed)
      end
  end
  end
  end.

(** * HTTP/1.1 *)

(** The TLS stream of a request, by the stack of its profile. *)
Definition connect_tls (profile : option TlsProfile) (sock : EgressStream) (host : bytes) : result Tls bytes :=
  match profile with
  | Some p =>
      match stack p with
      | Boring => map_err (fun e => "btls 出口: " ++ e) (boring_connect p sock host)
      | OpenSsl => map_err (fun e => "openssl 出口: " ++ e) (openssl_connect p sock host)
      | _ => ring_connect sock host
      end
  | None => ring_connect sock host
  end.

(** The closure [sink], over the relay and [streamed]. *)
Definition h1_sink (chunk : bytes) (st : Relay * Z) : (Relay * Z) * result unit bytes :=
  let '(r, w) := relay_chunk "写 RESP_CHUNK" chunk st.1 in
  ((r, fetch_add st.2 (zlen chunk)), w).

Definition handle_h1 (s : Control) (backend : ProofBackend) (m : Metrics) (elapsed : Z) (head : ReqHead) (body : bytes)
    (nonce_bytes : bytes) (tls : Tls) (norm_method : bytes) : Control * Metrics * result unit bytes :=
  match tls_write_all (request_head head norm_method body) tls with
  | (_, Err e) => (s, m, Err ("TLS 写请求头失败: " ++ display e))
  | (tls, Ok _) =>
  match tls_write_all body tls with
  | (_, Err e) => (s, m, Err ("TLS 写请求体失败: " ++ display e))
  | (tls, Ok _) =>
  match read_until_headers (reads tls) with
  | (_, Err e) => (s, m, Err e)
  | (rest, Ok (head_bytes, leftover)) =>
  match parse_headers head_bytes with
  | Err e => (s, m, Err e)
  | Ok h =>
  match write_frame_err "写 RESP_HEAD" RESP_HEAD (to_string (resp_head_json (Http1.status h) (Http1.headers h))) s with
  | (s, Err e) => (s, m, Err e)
  | (s, Ok _) =>
      let content_type := default [] (content_type h) in
      let relay := mkRelay s sha_new (collector_new head body content_type) in
      let '(_, (relay, streamed), r) :=
        if chunked h then stream_chunked h1_sink leftover rest (relay, 0%Z)
        else stream_plain h1_sink leftover rest (content_length h) (relay, 0%Z) in
      let s := r_control relay in
      match r with
      | Err e => (s, m, Err e)
      | Ok _ =>
          let m := on_resp_bytes_total (fun z => fetch_add z streamed) m in
          write_attested_trailer s backend m
            (exchange_of head norm_method (Http1.status h) content_type body relay) nonce_bytes elapsed
      end
  end
  end
  end
  end
  end.

(** * The connection *)

(** [p.stack == RustlsAwsLc], or nothing. *)
Definition h2_profile_of (profile : option TlsProfile) : option TlsProfile :=
  match profile with
  | Some p => if bool_decide (stack p = RustlsAwsLc) then Some p else None
  | None => None
  end.

(** [elapsed] is the time the evidence takes. *)
Definition handle (s : Control) (backend : ProofBackend) (m : Metrics) (elapsed : Z)
    : Control * Metrics * result unit failure :=
  match read_request s with
  | (s, Err e) => (s, m, Err (Fails e))
  | (s, Ok (head, body)) =>
  match check_head head with
  | Err e => (s, m, Err (Fails e))
  | Ok nonce_bytes =>
  let profile := decode_profile head in
  match upstream_socket (egress_port head) with
  | Err e => (s, m, Err (Fails e))
  | Ok sock =>
      let norm_method := to_uppercase (method (upstream head)) in
      match h2_profile_of profile with
      | Some p => handle_h2 s backend m elapsed head body nonce_bytes p sock norm_method
      | None =>
          match connect_tls profile sock (host (upstream head)) with
          | Err e => (s, m, Err (Fails e))
          | Ok tls => fails (handle_h1 s backend m elapsed head body nonce_bytes tls norm_method)
          end
      end
  end
  end
  end.
End Handle.
