(* ===== verification/Transcript.v ===== *)
(** What a connection promises its peer, and the proof that [handle] keeps it:
    a complete transcript (response head, the body in chunks, one proof trailer
    over exactly those bytes) when it succeeds, and no trailer when it
    fails. *)

From S2P Require Import Prelude RustStr BTree Json Digest Paths Base64 TlsProfile Protocol Collector Statement.
From S2P Require Import Io Frames Http1 H2Client Sink Egress Evidence Metrics Trailer Handle Sample.
From S2P Require AliyunHelper.
Local Open Scope bytes_scope.

(** The frames of a body relayed in [pieces]. *)
Definition chunk_frames (pieces : list bytes) : bytes := concat (map (frame RESP_CHUNK) pieces).

Section Transcript.
Context `{SJ : SerdeJson} `{SH : Sha256} `{SL : !Sha256Laws} `{UC : UnicodeCase} `{EN : Env} `{B64 : Base64}
  `{ED : Ed25519} `{HJ : AliyunHelper.HelperJson} `{US : AliyunHelper.UnixSockets}
  `{HC : HttpCrate} `{SO : Sockets} `{TL : !TlsLibraries} `{RH : ReqHeadJson}.

(** The exchange a trailer speaks of when [pieces] have been relayed. *)
Definition relayed_exchange (head : ReqHead) (body : bytes) (status : Z) (content_type : bytes) (pieces : list bytes)
    : Exchange :=
  let norm_method := to_uppercase (method (upstream head)) in
  mkExchange head norm_method status content_type (sha256_hex body) (sha256_hex (concat pieces))
    (collect head body content_type norm_method status pieces).

(** What has been written when [head] and [pieces] have been relayed. *)
Definition relayed (status : Z) (headers : list (bytes * bytes)) (pieces : list bytes) : bytes :=
  frame RESP_HEAD (to_string (resp_head_json status headers)) ++ chunk_frames pieces.

(** ** Relays *)

(** [r] is the relay [r0] after it has relayed [pieces]. *)
Record relay_after (r0 : Relay) (pieces : list bytes) (r : Relay) : Prop := {
  ra_hasher : r_hasher r = fold_left sha_update pieces (r_hasher r0);
  ra_collector : r_collector r = option_map (fold_left collector_push pieces) (r_collector r0);
  ra_outbox : outbox (r_control r) = outbox (r_control r0) ++ chunk_frames pieces;
  ra_limit : write_limit (r_control r0) = [] -> write_limit (r_control r) = [];
}.

Lemma relay_after_nil r : relay_after r [] r.
Proof. split; [done|by destruct (r_collector r)|by rewrite app_nil_r|done]. Qed.

Lemma write_frame_limit t data s s' r :
  write_frame t data s = (s', r) -> write_limit s = [] -> r = Ok tt /\ write_limit s' = [].
Proof.
  unfold write_frame, write_all. intros E Hl. rewrite Hl in E. cbn [write_limit inbox outbox] in E.
  by injection E as <- <-.
Qed.

Lemma write_frame_err_ok what t data s s' :
  write_frame_err what t data s = (s', Ok tt) -> outbox s' = outbox s ++ frame t data.
Proof.
  intros (r0 & E & Hr)%write_frame_err_spec. apply write_frame_outbox in E as (_ & w & -> & Hw).
  by rewrite (Hw (proj1 Hr eq_refl)).
Qed.

Lemma write_frame_err_limit what t data s s' r :
  write_frame_err what t data s = (s', r) -> write_limit s = [] -> r = Ok tt /\ write_limit s' = [].
Proof.
  intros (r0 & E & Hr)%write_frame_err_spec Hl. apply write_frame_limit in E as [-> ?]; [|done]. split; [by apply Hr|done].
Qed.

Lemma relay_chunk_after what r0 pieces chunk r r1 :
  relay_after r0 pieces r -> relay_chunk what chunk r = (r1, Ok tt) -> relay_after r0 (pieces ++ [chunk]) r1.
Proof.
  intros [Hh Hc Ho Hl]. unfold relay_chunk.
  destruct (write_frame_err what RESP_CHUNK chunk (r_control r)) as [s w] eqn:E. intros [= <- ->].
  split; cbn [r_hasher r_collector r_control].
  - by rewrite Hh, fold_left_app.
  - rewrite Hc. destruct (r_collector r0); cbn; [|done]. by rewrite fold_left_app.
  - apply write_frame_err_ok in E. rewrite E, Ho. unfold chunk_frames.
    by rewrite map_app, concat_app, <-app_assoc; cbn [map concat]; rewrite app_nil_r.
  - intros ?. by apply write_frame_err_limit in E as [_ ?]; [|auto].
Qed.

(** The beginning of a frame of the response, not all of it. *)
Definition unfinished (part : bytes) : Prop :=
  part = [] \/ exists t data rest, In t [RESP_HEAD; RESP_CHUNK; RESP_TRAILER] /\ rest <> [] /\ frame t data = part ++ rest.

Lemma write_frame_err_cut what t data s s' e :
  In t [RESP_HEAD; RESP_CHUNK; RESP_TRAILER] -> write_frame_err what t data s = (s', Err e) ->
  write_limit s <> [] /\ exists part, outbox s' = outbox s ++ part /\ unfinished part.
Proof.
  intros Ht (r0 & E & Hr)%write_frame_err_spec. destruct r0 as [[]|e0]; [by apply proj2 in Hr; specialize (Hr eq_refl)|].
  apply write_frame_cut in E as (Hl & w & rest & Ho & Hne & Hf). split; [done|]. exists w. split; [done|].
  right. by exists t, data, rest.
Qed.

(** A relay that has passed on [pieces], and [part] of one more frame if the
    connection has failed. *)
Record relay_left (r0 : Relay) (pieces : list bytes) (part : bytes) (r : Relay) : Prop := {
  rl_outbox : outbox (r_control r) = outbox (r_control r0) ++ chunk_frames pieces ++ part;
  rl_part : unfinished part;
  rl_limit : write_limit (r_control r0) = [] -> part = [] /\ write_limit (r_control r) = [];
}.

Lemma relay_after_left r0 pieces r : relay_after r0 pieces r -> relay_left r0 pieces [] r.
Proof. intros [_ _ Ho Hl]. split; [by rewrite app_nil_r|by left|auto]. Qed.

Lemma relay_chunk_left what r0 pieces chunk r r1 e :
  relay_after r0 pieces r -> relay_chunk what chunk r = (r1, Err e) -> exists part, relay_left r0 pieces part r1.
Proof.
  intros [_ _ Ho Hl]. unfold relay_chunk. destruct (write_frame_err what RESP_CHUNK chunk (r_control r)) as [s w] eqn:E.
  intros [= <- ->]. apply write_frame_err_cut in E as (Hne & part & Hp & Hu); [|cbn; tauto].
  exists part. split; cbn [r_control]; [by rewrite Hp, Ho, <-app_assoc|done|]. intros E. by destruct Hne; auto.
Qed.

(** The exchange of a relay that started empty. *)
Lemma exchange_of_relayed head status ct body r0 pieces r :
  relay_after r0 pieces r -> r_hasher r0 = sha_new -> r_collector r0 = collector_new head body ct ->
  exchange_of head (to_uppercase (method (upstream head))) status ct body r
    = relayed_exchange head body status ct pieces.
Proof.
  intros [Hh Hc _ _] H0 C0. unfold exchange_of, relayed_exchange, collect.
  rewrite Hh, H0, Hc, C0. f_equal; [|by destruct (collector_new head body ct)].
  unfold sha256_hex, sha_digest. by rewrite sha_fold_update.
Qed.

(** Feeding a sink whose relay part is updated by [relay_chunk]: [proj] is that
    part. *)
Lemma feed_relay {St} (sink : bytes -> St -> St * result unit bytes) (proj : St -> Relay) what st0 st' r :
  (forall b st st1 w, sink b st = (st1, w) -> relay_chunk what b (proj st) = (proj st1, w)) ->
  has_fed sink st0 st' r ->
  (r = Ok tt -> exists pieces, relay_after (proj st0) pieces (proj st'))
  /\ exists pieces part, relay_left (proj st0) pieces part (proj st').
Proof.
  intros Hs (pieces & r' & Hf & Hr).
  destruct (feed_inv_err sink (fun ps st => relay_after (proj st0) ps (proj st)) pieces st0 st' r') with (seen := @nil bytes)
    as (dn & _ & [[-> Ha]|(b & e & st1 & -> & Ha & Hb)]); [|apply relay_after_nil|done|..].
  - intros ps b st st1 Ha Hb. eapply relay_chunk_after; [done|]. by apply Hs.
  - split; [intros _; by eexists|]. eexists _, []. by eapply relay_after_left.
  - split; [by intros ->; specialize (Hr eq_refl)|]. eapply Hs, relay_chunk_left in Hb as [part Hp]; [|exact Ha].
    by exists dn, part.
Qed.

(** ** Handling a request *)

(** The whole transcript of a request. *)
Definition complete (backend : ProofBackend) (head : ReqHead) (body nonce_bytes : bytes) (s s' : Control)
    (status : Z) (ct : bytes) (pieces : list bytes) : Prop :=
  exists headers,
    outbox s' = outbox s ++ relayed status headers pieces
      ++ frame RESP_TRAILER (trailer_payload backend (relayed_exchange head body status ct pieces) nonce_bytes).

(** What is left of it when the request fails: nothing, or the response head
    and some whole chunks; and, if a write has failed, the beginning of the next
    frame.  No trailer is complete. *)
Definition incomplete (s s' : Control) : Prop :=
  exists whole part, outbox s' = outbox s ++ whole ++ part
    /\ (whole = [] \/ exists status headers pieces, whole = relayed status headers pieces)
    /\ unfinished part
    /\ (write_limit s = [] -> part = [] /\ write_limit s' = []).

Lemma incomplete_same s : incomplete s s.
Proof. exists [], []. split; [by rewrite app_nil_r|]. split; [by left|]. split; [by left|done]. Qed.

Lemma write_trailer_complete backend head body nb s0 s s' status headers ct pieces m x elapsed m' :
  outbox s = outbox s0 ++ relayed status headers pieces ->
  x = relayed_exchange head body status ct pieces ->
  write_attested_trailer s backend m x nb elapsed = (s', m', Ok tt) ->
  complete backend head body nb s0 s' status ct pieces.
Proof.
  intros Ho -> (r0 & E & Hr)%write_attested_trailer_frame.
  apply write_frame_outbox in E as (_ & w & E & Hw). exists headers.
  by rewrite E, (Hw (proj1 Hr eq_refl)), Ho, <-app_assoc.
Qed.

Lemma write_trailer_incomplete backend s0 s m x nb elapsed s' m' e status headers pieces :
  outbox s = outbox s0 ++ relayed status headers pieces -> (write_limit s0 = [] -> write_limit s = []) ->
  write_attested_trailer s backend m x nb elapsed = (s', m', Err e) -> incomplete s0 s'.
Proof.
  intros Ho Hl (r0 & E & Hr)%write_attested_trailer_frame. destruct r0 as [[]|e0]; [by apply proj2 in Hr; specialize (Hr eq_refl)|].
  apply write_frame_cut in E as (Hne & w & rest & Hw & Hrest & Hf). exists (relayed status headers pieces), w.
  split; [by rewrite Hw, Ho, <-app_assoc|]. split; [right; by eexists _, _, _|]. split; [|intros E; by destruct Hne; auto].
  right. eexists RESP_TRAILER, _, rest. split; [cbn; tauto|]. by split.
Qed.

Lemma h1_sink_relay b st st1 w :
  h1_sink b st = (st1, w) -> relay_chunk "写 RESP_CHUNK" b st.1 = (st1.1, w).
Proof. unfold h1_sink. destruct (relay_chunk _ b st.1) as [r w0]. by intros [= <- <-]. Qed.

Lemma h2_on_chunk_relay b st st1 w :
  h2_on_chunk b st = (st1, w) -> relay_chunk "写 h2 RESP_CHUNK" b (s_relay st) = (s_relay st1, w).
Proof. unfold h2_on_chunk. destruct (relay_chunk _ b _) as [r w0]. by intros [= <- <-]. Qed.

Lemma feed_relayed {St} (sink : bytes -> St -> St * result unit bytes) (proj : St -> Relay) what s0 s1 st0 st' r
    status headers :
  (forall b st st1 w, sink b st = (st1, w) -> relay_chunk what b (proj st) = (proj st1, w)) ->
  has_fed sink st0 st' r -> r_control (proj st0) = s1 ->
  outbox s1 = outbox s0 ++ frame RESP_HEAD (to_string (resp_head_json status headers)) ->
  (r = Ok tt -> exists pieces, relay_after (proj st0) pieces (proj st')
     /\ outbox (r_control (proj st')) = outbox s0 ++ relayed status headers pieces
     /\ (write_limit s1 = [] -> write_limit (r_control (proj st')) = []))
  /\ ((write_limit s0 = [] -> write_limit s1 = []) -> incomplete s0 (r_control (proj st'))).
Proof.
  intros Hs Hf <- Ho. destruct (feed_relay sink proj what st0 st' r Hs Hf) as [H1 H2].
  assert (G : forall pieces, relay_after (proj st0) pieces (proj st') ->
    outbox (r_control (proj st')) = outbox s0 ++ relayed status headers pieces).
  { intros pieces Ha. rewrite (ra_outbox _ _ _ Ha), Ho. unfold relayed. by rewrite <-app_assoc. }
  split.
  - intros (ps & Ha)%H1. exists ps. split; [done|]. split; [auto|apply Ha].
  - intros Hl. destruct H2 as (ps & part & [Hout Hu Hp]). exists (relayed status headers ps), part.
    split; [rewrite Hout, Ho; unfold relayed; by rewrite <-!app_assoc|]. split; [right; by eexists _, _, _|]. auto.
Qed.

Lemma write_head_incomplete what data s s' e :
  write_frame_err what RESP_HEAD data s = (s', Err e) -> incomplete s s'.
Proof.
  intros (Hne & part & Ho & Hu)%write_frame_err_cut; [|cbn; tauto]. exists [], part. rewrite app_nil_l.
  split; [done|]. split; [by left|]. by split.
Qed.

Lemma handle_h1_transcript s backend m elapsed head body nb tls s' m' r :
  handle_h1 s backend m elapsed head body nb tls (to_uppercase (method (upstream head))) = (s', m', r) ->
  (r = Ok tt -> exists status ct pieces, (0 <= status <= u16_max)%Z /\ complete backend head body nb s s' status ct pieces)
  /\ (r <> Ok tt -> incomplete s s').
Proof.
  unfold handle_h1. intros E.
  assert (Fail : forall e, (s, m, @Err unit bytes e) = (s', m', r) ->
    (r = Ok tt -> exists status ct pieces, (0 <= status <= u16_max)%Z /\ complete backend head body nb s s' status ct pieces)
    /\ (r <> Ok tt -> incomplete s s')).
  { intros e [= <- _ <-]. split; [done|]. intros _. apply incomplete_same. }
  destruct (tls_write_all (request_head _ _ _) tls) as [tls1 [[]|e]]; [|by apply Fail in E].
  destruct (tls_write_all body tls1) as [tls2 [[]|e]]; [|by apply Fail in E].
  destruct (read_until_headers _) as [rest [[hb leftover]|e]]; [|by apply Fail in E].
  destruct (parse_headers hb) as [h|e] eqn:Eh; [|by apply Fail in E].
  assert (Hst : (0 <= Http1.status h <= u16_max)%Z) by (by eapply parse_headers_status). clear Fail.
  destruct (write_frame_err _ RESP_HEAD _ s) as [s1 [[]|e]] eqn:Ew.
  2:{ injection E as <- _ <-. split; [done|]. intros _. by eapply write_head_incomplete. }
  pose proof (write_frame_err_ok _ _ _ _ _ Ew) as Ho.
  destruct (if chunked h then _ else _) as [[rest' [relay streamed]] r1] eqn:Es.
  apply body_reader_feeds in Es.
  destruct (feed_relayed h1_sink fst _ s s1 _ _ _ _ _ h1_sink_relay Es eq_refl Ho) as [F1 F2]. cbn [fst] in F1, F2.
  destruct r1 as [[]|e].
  - destruct (F1 eq_refl) as (ps & Ha & Hout & Hlim). split.
    + intros ->. exists (Http1.status h), (default [] (content_type h)), ps. split; [done|].
      eapply write_trailer_complete; [exact Hout| |exact E]. by eapply exchange_of_relayed.
    + intros Hr. destruct r as [[]|e]; [done|]. eapply write_trailer_incomplete in E; [done|exact Hout|].
      intros Hl. apply Hlim. by apply write_frame_err_limit in Ew as [_ ?].
  - injection E as <- _ <-. split; [done|]. intros _. apply F2. intros Hl. by apply write_frame_err_limit in Ew as [_ ?].
Qed.

Lemma h2_on_head_spec head body status hs st st1 w :
  h2_on_head head body status hs st = (st1, w) ->
  exists headers, write_frame_err "写 h2 RESP_HEAD" RESP_HEAD (to_string (resp_head_json status headers))
      (r_control (s_relay st)) = (r_control (s_relay st1), w)
    /\ r_hasher (s_relay st1) = r_hasher (s_relay st)
    /\ r_collector (s_relay st1) = collector_new head body (s_content_type st1).
Proof.
  unfold h2_on_head. destruct (fold_left _ hs _) as [ct headers].
  destruct (write_frame_err _ _ _ _) as [c w0] eqn:E. intros [= <- <-]. exists headers. by rewrite E.
Qed.

Lemma h2_on_chunk_content_type b st st1 w : h2_on_chunk b st = (st1, w) -> s_content_type st1 = s_content_type st.
Proof. unfold h2_on_chunk. destruct (relay_chunk _ _ _) as [r w0]. by intros [= <- <-]. Qed.

(** The status of a response is a [u16]. *)
Definition h2_status_typed (peer : H2Peer) : Prop :=
  match response peer with Ok (status, _) => (0 <= status <= u16_max)%Z | Err _ => True end.

Lemma handle_h2_transcript s backend m elapsed head body nb p sock s' m' r :
  (forall config sni sock, h2_status_typed (h2_peer (rustls_stream config sni sock))) ->
  handle_h2 s backend m elapsed head body nb p sock (to_uppercase (method (upstream head))) = (s', m', r) ->
  (r = Ok tt -> exists status ct pieces, (0 <= status <= u16_max)%Z /\ complete backend head body nb s s' status ct pieces)
  /\ (r <> Ok tt -> incomplete s s').
Proof.
  unfold handle_h2. intros Hty E.
  assert (Fail : forall e, (s, m, @Err unit failure e) = (s', m', r) ->
    (r = Ok tt -> exists status ct pieces, (0 <= status <= u16_max)%Z /\ complete backend head body nb s s' status ct pieces)
    /\ (r <> Ok tt -> incomplete s s')).
  { intros e [= <- _ <-]. split; [done|]. intros _. apply incomplete_same. }
  destruct (map_err _ (aws_lc_connect p sock _)) as [tls|e] eqn:Ec; [|by apply Fail in E].
  assert (Hst : h2_status_typed (h2_peer tls)).
  { unfold aws_lc_connect in Ec. repeat case_match; simplify_eq/=; apply Hty. }
  destruct (complete_handshake _) as [[]|e]; [|by apply Fail in E].
  destruct (negb _); [by apply Fail in E|].
  destruct (h2 p) as [fp|]; [|by apply Fail in E]. clear Fail Ec.
  destruct (execute _ _ _ _ _ _ _ _ _ _) as [[out sink] r1] eqn:Ex in E.
  apply execute_feeds in Ex as [[-> [e ->]]|(status & hs & headers0 & Hr & _ & H)].
  { injection E as <- _ <-. split; [done|]. intros _. apply incomplete_same. }
  unfold h2_status_typed in Hst. rewrite Hr in Hst.
  destruct H as [(e & Hh & ->)|(st1 & ps & r' & Hh & Hf & Hsum)];
    apply h2_on_head_spec in Hh as (headers & Hw & Hhash & Hcol); cbn [s_relay r_control r_hasher] in Hw, Hhash.
  { injection E as <- _ <-. split; [done|]. intros _. by eapply (write_head_incomplete _ _ s). }
  pose proof (write_frame_err_ok _ _ _ _ _ Hw) as Ho.
  assert (Hfed : has_fed h2_on_chunk st1 sink r') by (exists ps, r'; done).
  destruct (feed_relayed h2_on_chunk s_relay _ s _ st1 sink r' status headers h2_on_chunk_relay Hfed eq_refl Ho)
    as [F1 F2].
  apply (feed_const h2_on_chunk s_content_type) in Hf as Hct; [|apply h2_on_chunk_content_type].
  destruct r1 as [sum|e].
  - destruct (Hsum sum eq_refl) as (-> & <- & _ & _). destruct (F1 eq_refl) as (qs & Ha & Hout & Hlim). split.
    + intros ->. exists (H2Client.status sum), (s_content_type sink), qs. split; [done|].
      destruct (write_attested_trailer _ _ _ _ _ _) as [[s2 m2] [[]|e2]] eqn:Et in E; [|done]. injection E as <- <-.
      eapply write_trailer_complete; [exact Hout| |exact Et].
      eapply exchange_of_relayed; [exact Ha|done|]. by rewrite Hct.
    + intros Hne. destruct r as [[]|e]; [done|].
      destruct (write_attested_trailer _ _ _ _ _ _) as [[s2 m2] [[]|e2]] eqn:Et in E; [done|]. injection E as <- _ _.
      eapply write_trailer_incomplete in Et; [done|exact Hout|].
      intros Hl. apply Hlim. by apply write_frame_err_limit in Hw as [_ ?].
  - injection E as <- _ <-. split; [done|]. intros _. apply F2. intros Hl. by apply write_frame_err_limit in Hw as [_ ?].
Qed.

Lemma read_exact_keeps n c c' r :
  read_exact n c = (c', r) -> outbox c' = outbox c /\ write_limit c' = write_limit c.
Proof. unfold read_exact. case_match; by intros [= <- _]. Qed.

Lemma read_frame_keeps max c c' r :
  read_frame max c = (c', r) -> outbox c' = outbox c /\ write_limit c' = write_limit c.
Proof.
  unfold read_frame. destruct (read_exact 5 c) as [c1 [hdr|e]] eqn:E1; apply read_exact_keeps in E1 as [O1 W1].
  - destruct (max <? _)%Z; [intros [= <- _]; done|].
    destruct (read_exact _ c1) as [c2 [b|e]] eqn:E2; apply read_exact_keeps in E2 as [O2 W2];
      intros [= <- _]; split; congruence.
  - intros [= <- _]. done.
Qed.

Lemma read_request_keeps c c' r :
  read_request c = (c', r) -> outbox c' = outbox c /\ write_limit c' = write_limit c.
Proof.
  unfold read_request. destruct (read_frame MAX_REQ_HEAD c) as [c1 [[t1 hb]|e]] eqn:E1;
    apply read_frame_keeps in E1 as [O1 W1]; [|intros [= <- _]; done].
  destruct (negb _); [intros [= <- _]; done|]. destruct (req_head_from_slice hb); [|intros [= <- _]; done].
  destruct (read_frame MAX_REQ_FRAME c1) as [c2 [[t2 b]|e]] eqn:E2; apply read_frame_keeps in E2 as [O2 W2].
  - destruct (negb _); intros [= <- _]; split; congruence.
  - intros [= <- _]; split; congruence.
Qed.

Lemma incomplete_kept s s1 s' :
  outbox s1 = outbox s -> write_limit s1 = write_limit s -> incomplete s1 s' -> incomplete s s'.
Proof. intros Ho Hl (whole & part & H). rewrite Ho, Hl in H. by exists whole, part. Qed.

(** What [handle] does, in the two outcomes. *)
Lemma handle_transcript s backend m elapsed s' m' r :
  (forall config sni sock, h2_status_typed (h2_peer (rustls_stream config sni sock))) ->
  handle s backend m elapsed = (s', m', r) ->
  (r = Ok tt -> exists s1 head body nb status ct pieces,
     read_request s = (s1, Ok (head, body)) /\ check_head head = Ok nb /\ (0 <= status <= u16_max)%Z
     /\ complete backend head body nb s s' status ct pieces)
  /\ (r <> Ok tt -> incomplete s s').
Proof.
  unfold handle. intros Hty. destruct (read_request s) as [s1 [[head body]|e]] eqn:Er;
    apply read_request_keeps in Er as [O1 W1].
  2:{ intros [= <- _ <-]. split; [done|]. intros _. by apply (incomplete_kept _ s1), incomplete_same. }
  assert (Stop : forall e, (s1, m, @Err unit failure e) = (s', m', r) -> r <> Ok tt -> incomplete s s').
  { intros e [= <- _ _] _. by apply (incomplete_kept _ s1), incomplete_same. }
  assert (Bad : forall e, (s1, m, @Err unit failure e) = (s', m', r) -> r <> Ok tt) by (by intros e [= _ _ <-]).
  destruct (check_head head) as [nb|e] eqn:Ek; [|intros E; split; [by apply Bad in E|by eapply Stop]].
  destruct (upstream_socket _) as [sock|e]; [|intros E; split; [by apply Bad in E|by eapply Stop]].
  assert (G : (r = Ok tt -> exists status ct pieces, (0 <= status <= u16_max)%Z
        /\ complete backend head body nb s1 s' status ct pieces)
      /\ (r <> Ok tt -> incomplete s1 s') ->
    (r = Ok tt -> exists s2 head0 body0 nb0 status ct pieces,
       (s1, @Ok (ReqHead * bytes) bytes (head, body)) = (s2, Ok (head0, body0)) /\ check_head head0 = Ok nb0
       /\ (0 <= status <= u16_max)%Z /\ complete backend head0 body0 nb0 s s' status ct pieces)
    /\ (r <> Ok tt -> incomplete s s')).
  { intros [G1 G2]. split; [|intros Hr; by apply (incomplete_kept _ s1); auto]. unfold complete in *. rewrite O1 in G1.
    intros Hr. destruct (G1 Hr) as (status & ct & pieces & Hb & Hc).
    exists s1, head, body, nb, status, ct, pieces. done. }
  destruct (h2_profile_of _) as [p|].
  - intros H%handle_h2_transcript; auto.
  - destruct (connect_tls _ sock _) as [tls|e]; [|intros E; split; [by apply Bad in E|by eapply Stop]].
    unfold fails. destruct (handle_h1 _ _ _ _ _ _ _ _ _) as [[s2 m2] r2] eqn:E. intros [= <- _ <-]. apply G.
    apply handle_h1_transcript in E as [E1 E2]. cbn [snd].
    split; [intros Hr; apply E1|intros Hr; apply E2]; destruct r2 as [[]|]; done.
Qed.
End Transcript.

(** * Properties *)

Section Properties.
Context `{SJ : SerdeJson} `{SH : Sha256} `{SL : !Sha256Laws} `{UC : UnicodeCase} `{EN : Env} `{B64 : Base64}
  `{ED : Ed25519} `{HJ : AliyunHelper.HelperJson} `{US : AliyunHelper.UnixSockets}
  `{HC : HttpCrate} `{SO : Sockets} `{TL : !TlsLibraries} `{RH : ReqHeadJson}.

(** C2. A successful connection leaves a complete transcript: the response
    head, the body in chunk frames, and one trailer, and nothing else.  The
    trailer is made for the digest of the request body that was received, the
    digest of exactly the bytes that were relayed, and the field claims of
    those bytes, whatever protocol, stack and chunking the response came
    with. *)
Theorem handle_attests_relayed s backend m elapsed s' m' :
  (forall config sni sock, h2_status_typed (h2_peer (rustls_stream config sni sock))) ->
  handle s backend m elapsed = (s', m', Ok tt) ->
  exists s1 head body nonce_bytes status headers ct pieces,
    read_request s = (s1, Ok (head, body)) /\ check_head head = Ok nonce_bytes
    /\ outbox s' = outbox s
         ++ frame RESP_HEAD (to_string (resp_head_json status headers))
         ++ concat (map (frame RESP_CHUNK) pieces)
         ++ frame RESP_TRAILER (trailer_payload backend
              (mkExchange head (to_uppercase (method (upstream head))) status ct
                 (sha256_hex body) (sha256_hex (concat pieces))
                 (collect head body ct (to_uppercase (method (upstream head))) status pieces)) nonce_bytes).
Proof.
  intros Hty H. apply handle_transcript in H as [H _]; [|done].
  destruct (H eq_refl) as (s1 & head & body & nb & status & ct & pieces & Hr & Hk & _ & headers & Ho).
  exists s1, head, body, nb, status, headers, ct, pieces. split; [done|]. split; [done|].
  rewrite Ho. unfold relayed, chunk_frames, relayed_exchange. by rewrite <-!app_assoc.
Qed.

(** C28. A failed connection leaves no complete trailer, in whatever way it
    fails.  What has been written is nothing, or the response head and some
    whole chunks; if a write to the client has failed, the beginning of the next
    frame follows, with at least a byte of that frame missing; if no write
    fails, nothing follows. *)
Theorem handle_failure_no_trailer s backend m elapsed s' m' e :
  (forall config sni sock, h2_status_typed (h2_peer (rustls_stream config sni sock))) ->
  handle s backend m elapsed = (s', m', Err e) ->
  exists whole part, outbox s' = outbox s ++ whole ++ part
    /\ (whole = [] \/ exists status headers pieces, whole =
          frame RESP_HEAD (to_string (resp_head_json status headers)) ++ concat (map (frame RESP_CHUNK) pieces))
    /\ (part = [] \/ exists t data rest, In t [RESP_HEAD; RESP_CHUNK; RESP_TRAILER]
          /\ rest <> [] /\ frame t data = part ++ rest)
    /\ (write_limit s = [] -> part = []).
Proof.
  intros Hty H. apply handle_transcript in H as [_ H]; [|done]. destruct (H ltac:(done)) as (whole & part & Ho & Hw & Hp & Hl).
  exists whole, part. split; [done|]. split; [exact Hw|]. split; [exact Hp|]. intros E. by apply Hl.
Qed.

(** What the guards of [handle] say of the request head. *)
Lemma check_head_ok head nb :
  check_head head = Ok nb ->
  b64_decode (nonce head) = Ok nb
  /\ no_crlf (host (upstream head)) = true /\ no_crlf (method (upstream head)) = true
  /\ no_crlf (path (upstream head)) = true
  /\ Forall (fun kv => no_crlf kv.1 = true /\ no_crlf kv.2 = true) (Protocol.headers (upstream head))
  /\ (forall t, token head = Some t -> no_crlf t = true).
Proof.
  unfold check_head. destruct (b64_decode (nonce head)) as [b|e]; [|done]. cbn [map_err].
  destruct (no_crlf (host (upstream head))); [|done]. destruct (no_crlf (method (upstream head))); [|done].
  destruct (no_crlf (path (upstream head))); [|done]. cbn [negb orb].
  destruct (existsb _ _) eqn:Ex; [done|]. intros H. assert (b = nb /\ forall t, token head = Some t -> no_crlf t = true)
    as [-> Ht].
  { destruct (token head) as [t|].
    - destruct (no_crlf t) eqn:Et; [|done]. cbn [negb] in H. injection H as <-. split; [done|]. by intros t' [= <-].
    - injection H as <-. done. }
  repeat (split; [done|]). split; [|done]. apply Forall_forall. intros kv Hin.
  destruct (no_crlf kv.1 && no_crlf kv.2) eqn:E; [by apply andb_prop in E|]. exfalso.
  apply not_true_iff_false in Ex. apply Ex, existsb_exists. exists kv. split; [done|].
  by rewrite <-negb_andb, E.
Qed.

(** A request as the upstream reads it, line by line. *)
Definition lines_of (request : bytes) : list bytes := split_on2 Byte.x0d Byte.x0a request.

(** C29. Nothing in the header map can forge a line of the request: when the
    guards have passed and no ordered template is given, the request head reads
    back as the request line, the host, the headers of the map without the
    hop-by-hop ones, the token, the length of the body and [connection:
    close], one line each. *)
Theorem guarded_request_lines head nb norm_method body :
  check_head head = Ok nb -> headers_ordered (upstream head) = None -> no_crlf norm_method = true ->
  lines_of (request_head head norm_method body)
    = (norm_method ++ " " ++ path (upstream head) ++ " HTTP/1.1")
      :: map (fun kv => kv.1 ++ ": " ++ kv.2)
           (map_headers (host (upstream head)) (Protocol.headers (upstream head)) (token head) (zlen body)) ++ [[]; []].
Proof.
  intros (_ & Hh & _ & Hp & Hhs & Ht)%check_head_ok Ho Hm. unfold lines_of, request_head. rewrite Ho. cbn [parse_headers_ordered].
  rewrite build_request_head_map_sent. rewrite no_crlf_spec in Hh, Hp, Hm. unfold request_line.
  set (hs := map_headers _ _ _ _).
  replace ((norm_method ++ " " ++ path (upstream head) ++ " HTTP/1.1" ++ crlf) ++ render hs ++ crlf)
    with ((norm_method ++ " " ++ path (upstream head) ++ " HTTP/1.1") ++ crlf ++ render hs ++ crlf)
    by (by rewrite <-!app_assoc).
  rewrite split_on2_line by (rewrite !in_app_iff; cbn; intuition congruence).
  rewrite split_on2_render; [done|]. unfold hs, map_headers. constructor; [cbn; intuition congruence|].
  rewrite !Forall_app. split; [|split].
  - apply Forall_forall. intros kv [Hin _]%filter_In. rewrite Forall_forall in Hhs.
    specialize (Hhs kv Hin). rewrite !no_crlf_spec in Hhs. tauto.
  - destruct (token head) as [t|]; constructor; [|constructor]. specialize (Ht t eq_refl).
    rewrite no_crlf_spec in Ht. cbn. intuition congruence.
  - constructor; [|constructor; [cbn; intuition congruence|constructor]]. split; [cbn; intuition congruence|].
    apply show_Z_no_byte; [apply zlen_nonneg|done].
Qed.
End Properties.

(** * Witnesses *)

(** A world to run in: a deserialiser for request heads over the sample JSON
    parser, an upstream that answers one script, and no HTTP/2. *)
Section Witnesses.
#[local] Instance quiet_env : Env := fun _ => None.

Abbreviation json := (value number).

Definition get_str (k : bytes) (v : json) : option bytes := value_get k v ≫= as_str.

Definition get_pairs (v : json) : option (list (bytes * bytes)) :=
  m ← as_object v; mapM (fun kv => s ← as_str kv.2; Some (kv.1, s)) m.

Definition get_ordered (v : json) : option (list (list bytes)) :=
  l ← as_array v; mapM (fun item => parts ← as_array item; mapM as_str parts) l.

#[local] Instance sample_req_head : ReqHeadJson := fun b =>
  ok_or (v ← from_slice b;
         nonce ← get_str "nonce" v;
         port ← value_get "egress_port" v ≫= as_u64;
         up ← value_get "upstream" v;
         host ← get_str "host" up;
         method ← get_str "method" up;
         path ← get_str "path" up;
         headers ← value_get "headers" up ≫= get_pairs;
         Some (mkReqHead nonce port
                 (mkUpstream host method path headers (value_get "headersOrdered" up ≫= get_ordered))
                 (get_str "token" v) (get_str "client_protocol_family" v) (get_str "downstream_protocol_family" v)
                 (get_str "protocol_family" v) (get_str "tls_seed" v) (get_str "tls_spec" v)))
    "missing field".

#[local] Instance no_helper_json : AliyunHelper.HelperJson := fun _ => Err "expected value".
#[local] Instance no_unix : AliyunHelper.UnixSockets := fun _ => Err "No such file or directory (os error 2)".

#[local] Instance sample_sockets : Sockets := {|
  Socket := unit; vsock_connect _ _ := Ok tt; tcp_connect _ _ := Ok tt; set_read_timeout s _ := s;
  set_write_timeout s _ := s |}.

#[local] Instance sample_http : HttpCrate := {|
  Uri := bytes; H2Client.Method := bytes; uri_parse u := Ok u; method_parse m := Ok m; request_body _ _ := Ok tt;
  header_name_from_bytes s := Ok s; header_value_from_str s := Ok s |}.

Definition upstream_script : script :=
  [Data ("HTTP/1.1 200 OK" ++ crlf ++ "Content-Type: text/plain" ++ crlf ++ "Transfer-Encoding: chunked" ++ crlf);
   Data (crlf ++ "5" ++ crlf ++ "hel"); Data ("lo" ++ crlf ++ "6" ++ crlf ++ " world" ++ crlf ++ "0" ++ crlf ++ crlf)].

Definition sample_tls (reads : script) : TlsLibraries := {|
  ssl_builder _ := Err "not built"; ssl_set _ _ _ := Ok tt; ssl_configure _ _ := Ok tt;
  ssl_connect _ _ _ _ := Err WouldBlock;
  default_signature_algorithms := mkAlgorithms [] [];
  rustls_versions _ := Ok tt; server_name _ := Ok tt; rustls_new _ _ := Ok tt;
  rustls_stream _ _ sock := mkRustlsStream [] None (mkTls reads [] []) sock
    (fun _ => mkH2Peer (Ok tt) (Ok tt) (Ok tt) [] (Err "no peer") [] DriverOk) |}.

Definition sample_request_head : bytes :=
  js "{'nonce':'bm9uY2U=','egress_port':8443,'upstream':{'host':'API.example.com','method':'post','path':'/v1/x?y=1','headers':{'accept':'*/*'}},'token':'tok'}".

Definition sample_control : Control :=
  mkControl (frame REQ_HEAD sample_request_head ++ frame REQ_BODY "ping") [] [].

Definition sample_handle (reads : script) : Control * Metrics * result unit failure :=
  handle (TL := sample_tls reads) sample_control
    (LocalEvidence (build_local_evidence_backend "seed" sample_provider)) metrics_default 1000.

Lemma sample_typed reads config sni sock :
  h2_status_typed (h2_peer (rustls_stream (TlsLibraries := sample_tls reads) config sni sock)).
Proof. exact I. Qed.

Lemma sample_handle_ok : (sample_handle upstream_script).2 = Ok tt.
Proof. vm_compute. reflexivity. Qed.

Lemma handle_attests_relayed_witness :
  exists s' m', sample_handle upstream_script = (s', m', Ok tt)
    /\ exists s1 head body nb, read_request sample_control = (s1, Ok (head, body)) /\ check_head head = Ok nb.
Proof.
  destruct (sample_handle upstream_script) as [[s' m'] r] eqn:E.
  assert (Hr : r = Ok tt) by (pose proof sample_handle_ok as H; rewrite E in H; exact H).
  rewrite Hr in *. exists s', m'. split; [reflexivity|].
  destruct (handle_attests_relayed _ _ _ _ _ _ (sample_typed upstream_script) E)
    as (s1 & head & body & nb & status & headers & ct & pieces & H1 & H2 & _).
  exists s1, head, body, nb. split; [exact H1|exact H2].
Defined.

(** The same upstream, cut off inside a chunk, and a client that takes five
    bytes and then nothing. *)
Lemma handle_failure_no_trailer_witness :
  exists s' m' e whole part,
    handle (TL := sample_tls (take 2 upstream_script)) (mkControl (inbox sample_control) [] [(5, mkIoError TimedOut "timed out")])
      (LocalEvidence (build_local_evidence_backend "seed" sample_provider)) metrics_default 1000 = (s', m', Err e)
    /\ outbox s' = whole ++ part.
Proof.
  destruct (handle _ _ _ _) as [[s' m'] r] eqn:E.
  destruct r as [[]|e].
  { exfalso. apply (f_equal (fun x => match x.2 with Ok _ => true | Err _ => false end)) in E.
    vm_compute in E. discriminate. }
  destruct (handle_failure_no_trailer _ _ _ _ _ _ _ (sample_typed (take 2 upstream_script)) E) as (whole & part & Ho & _).
  exists s', m', e, whole, part. split; [reflexivity|exact Ho].
Defined.

Definition mapped_head : ReqHead :=
  mkReqHead "bm9uY2U=" 8443 (mkUpstream "h" "GET" "/p" [("accept", "*/*"); ("te", "trailers")] None)
    (Some "tok") None None None None None.

Lemma guarded_request_lines_witness :
  split_on2 Byte.x0d Byte.x0a (request_head mapped_head "GET" "ping")
    = ["GET /p HTTP/1.1"; "host: h"; "accept: */*"; "authorization: Bearer tok"; "content-length: 4";
       "connection: close"; []; []].
Proof. exact (guarded_request_lines mapped_head "nonce" "GET" "ping" eq_refl eq_refl eq_refl). Defined.

(** An ordered template with a line feed in a value. *)
Definition forged_head : ReqHead :=
  mkReqHead "bm9uY2U=" 8443
    (mkUpstream "h" "GET" "/p" [] (Some [["x"; "1" ++ crlf ++ crlf ++ "DELETE /admin HTTP/1.1"]]))
    None None None None None None.

(** The guards of [handle] look at the header map only: a head whose ordered
    template holds a line break passes them, and the request sent has a second
    request line. *)
Theorem ordered_template_unguarded :
  check_head forged_head = Ok "nonce"
  /\ split_on2 Byte.x0d Byte.x0a (request_head forged_head "GET" [])
     = ["GET /p HTTP/1.1"; "x: 1"; []; "DELETE /admin HTTP/1.1"; "host: h"; "content-length: 0"; []; []].
Proof. split; [reflexivity|vm_compute; reflexivity]. Qed.
End Witnesses.
