(* ===== verification/Delivery.v ===== *)
(** A connection that is given what it needs delivers: when the client sends a
    request the enclave takes, the way out opens, and the upstream answers with
    a complete response, [handle] succeeds, and the client has the whole
    response and its proof, over HTTP/1.1 and over HTTP/2. *)

From S2P Require Import Prelude RustStr BTree Json Digest Paths Base64 TlsProfile Protocol Collector Statement.
From S2P Require Import Io Frames Http1 ResponseHead H2Client Sink Egress Evidence Metrics Trailer Handle Transcript Sample.
From S2P Require AliyunHelper.
Local Open Scope bytes_scope.

(** * What the upstream sends *)

Section Framing.
Context `{UC : UnicodeCase}.

(** How the head of a response says its body is framed. *)
Definition says_chunked (h : Head) : bool :=
  existsb (fun v => contains (to_lowercase v) "chunked") (values "transfer-encoding" (fields h)).

Definition says_length (h : Head) : option Z :=
  v ← list.last (values "content-length" (fields h)); ok (from_str_radix 10 u64_max v).

(** [framed h payload body]: under the head [h], [payload] is a body of at most
    [MAX_RESP] bytes, with what may follow it on the connection. *)
Inductive framed (h : Head) : bytes -> bytes -> Prop :=
  | framed_chunks cs end_line rest :
      says_chunked h = true -> Forall chunk_ok cs -> ~ In Byte.x0d end_line -> chunk_size end_line = Ok 0%Z ->
      (chunk_total cs <= MAX_RESP)%Z ->
      framed h (concat (map encode_chunk cs) ++ end_line ++ crlf ++ rest) (concat (map snd cs))
  | framed_length body rest :
      says_chunked h = false -> says_length h = Some (zlen body) -> (zlen body <= MAX_RESP)%Z ->
      framed h (body ++ rest) body
  | framed_rest body :
      says_chunked h = false -> says_length h = None -> (zlen body <= MAX_RESP)%Z ->
      framed h body body.

(** A sink that takes everything is given the body. *)
Lemma body_read {St} (f : bytes -> St -> St) sink h p payload body buf tls st :
  (forall b st, sink b st = (f b st, Ok tt)) ->
  reads_as h p -> framed h payload body -> delivers tls -> buf ++ content tls = payload ->
  exists tls' pieces,
    (if chunked p then stream_chunked sink buf tls st else stream_plain sink buf tls (content_length p) st)
      = (tls', fed f pieces st, Ok tt)
    /\ concat pieces = body.
Proof.
  intros Hsink Hp Hf Hd Hall. rewrite (ra_chunked _ _ Hp), (ra_content_length _ _ Hp).
  fold (says_chunked h). fold (says_length h). destruct Hf as [cs el rest Hch Hcs Hel Hz Hmax|body rest Hch Hcl Hmax|body Hch Hcl Hmax];
    rewrite Hch.
  - destruct (stream_chunked_whole f sink cs el rest buf tls st) as [tls' E]; try done. by exists tls', (map snd cs).
  - rewrite Hcl. destruct (stream_plain_exact f sink buf tls (zlen body) st) as (pieces & tls' & r & E & Ep & Hr); [done| |done|].
    { pose proof (zlen_nonneg body). lia. }
    rewrite Hall in *. exists tls', pieces. rewrite E.
    rewrite (proj2 Hr) by (rewrite zlen_app; pose proof (zlen_nonneg rest); lia). split; [done|].
    by rewrite Ep, zlen_to_nat, take_app_length.
  - rewrite Hcl. destruct (stream_plain_rest f sink buf tls st) as (pieces & tls' & r & E & Hr & Ep & _); [done..|].
    rewrite Hall in *. exists tls', pieces. rewrite E. rewrite (proj2 Hr) by done. split; [done|]. apply Ep, Hr. done.
Qed.
End Framing.

Section Delivery.
Context `{SJ : SerdeJson} `{SH : Sha256} `{SL : !Sha256Laws} `{UC : UnicodeCase} `{EN : Env} `{B64 : Base64}
  `{ED : Ed25519} `{HJ : AliyunHelper.HelperJson} `{US : AliyunHelper.UnixSockets}
  `{HC : HttpCrate} `{SO : Sockets} `{TL : !TlsLibraries} `{RH : ReqHeadJson}.

(** * The client's side *)

(** The client has sent a request: its two frames, whatever comes after them,
    and it takes all that is written to it. *)
Record requested (s : Control) (head : ReqHead) (body nonce_bytes : bytes) : Prop := {
  rq_limit : write_limit s = [];
  rq_frames : exists text rest, inbox s = frame REQ_HEAD text ++ frame REQ_BODY body ++ rest
    /\ req_head_from_slice text = Ok head /\ (zlen text <= MAX_REQ_HEAD)%Z;
  rq_body : (zlen body <= MAX_REQ_FRAME)%Z;
  rq_head : check_head head = Ok nonce_bytes;
}.

Lemma read_request_sent s head body nb :
  requested s head body nb ->
  exists s1, read_request s = (s1, Ok (head, body)) /\ outbox s1 = outbox s /\ write_limit s1 = [].
Proof.
  intros [Hl (text & rest & Hin & Hjson & Htext) Hbody _]. destruct s as [inb out lim]. cbn [inbox outbox write_limit] in *.
  unfold MAX_REQ_HEAD, MAX_REQ_FRAME in *. unfold read_request. rewrite Hin.
  rewrite read_frame_sent by (unfold frame_ok; lia). unfold MAX_REQ_HEAD. rewrite (proj2 (Z.ltb_ge _ _)) by lia.
  cbn [negb]. change (Byte.eqb REQ_HEAD REQ_HEAD) with true. cbn [negb]. rewrite Hjson.
  rewrite read_frame_sent by (unfold frame_ok; lia). unfold MAX_REQ_FRAME. rewrite (proj2 (Z.ltb_ge _ _)) by lia.
  change (Byte.eqb REQ_BODY REQ_BODY) with true. cbn [negb]. by eexists.
Qed.

(** What the client has at the end: the head, a body in chunk frames, and the
    trailer over it. *)
Definition delivered (backend : ProofBackend) (head : ReqHead) (body nonce_bytes : bytes) (s s' : Control)
    (status : Z) (headers : list (bytes * bytes)) (ct resp_body : bytes) : Prop :=
  exists pieces, concat pieces = resp_body
    /\ outbox s' = outbox s ++ frame RESP_HEAD (to_string (resp_head_json status headers))
         ++ concat (map (frame RESP_CHUNK) pieces)
         ++ frame RESP_TRAILER (trailer_payload backend (relayed_exchange head body status ct pieces) nonce_bytes).

(** * Relays that cannot fail *)

Definition open_relay (r : Relay) : Prop := write_limit (r_control r) = [].

Lemma relay_chunk_err what chunk r r1 e :
  relay_chunk what chunk r = (r1, Err e) -> write_limit (r_control r) <> [].
Proof.
  unfold relay_chunk. destruct (write_frame_err what RESP_CHUNK chunk (r_control r)) as [s w] eqn:E.
  intros [= <- ->] Hl. by apply write_frame_err_limit in E as [? _].
Qed.

Lemma write_trailer_limit backend s m x nb elapsed s' m' e :
  write_attested_trailer s backend m x nb elapsed = (s', m', Err e) -> write_limit s <> [].
Proof.
  intros (r0 & E & Hr)%write_attested_trailer_frame Hl. apply write_frame_limit in E as [-> _]; [|done].
  by apply proj2 in Hr; specialize (Hr eq_refl).
Qed.

Lemma relay_chunk_open what chunk r :
  open_relay r -> exists r1, relay_chunk what chunk r = (r1, Ok tt) /\ relay_after r [chunk] r1 /\ open_relay r1.
Proof.
  intros Hr. destruct (relay_chunk what chunk r) as [r1 w] eqn:E. destruct w as [[]|e].
  - exists r1. pose proof (relay_chunk_after what r [] chunk r r1 (relay_after_nil r) E) as Ha.
    split; [done|]. split; [done|]. by apply Ha.
  - by apply relay_chunk_err in E.
Qed.

Lemma relay_after_trans r0 r1 r2 ps qs : relay_after r0 ps r1 -> relay_after r1 qs r2 -> relay_after r0 (ps ++ qs) r2.
Proof.
  intros [Hh Hc Ho Hl] [Hh' Hc' Ho' Hl']. split.
  - by rewrite Hh', Hh, fold_left_app.
  - rewrite Hc', Hc. destruct (r_collector r0); cbn; [|done]. by rewrite fold_left_app.
  - rewrite Ho', Ho. unfold chunk_frames. by rewrite map_app, concat_app, <-app_assoc.
  - auto.
Qed.

(** A sink over a relay, as a function. *)
Definition sunk {St} (sink : bytes -> St -> St * result unit bytes) (b : bytes) (st : St) : St := (sink b st).1.

Lemma fed_relay_after {St} (sink : bytes -> St -> St * result unit bytes) (proj : St -> Relay) what pieces st :
  (forall b st st1 w, sink b st = (st1, w) -> relay_chunk what b (proj st) = (proj st1, w)) ->
  open_relay (proj st) ->
  relay_after (proj st) pieces (proj (fed (sunk sink) pieces st)) /\ open_relay (proj (fed (sunk sink) pieces st)).
Proof.
  intros Hs. revert st. induction pieces as [|b pieces IH]; intros st Ho; [split; [apply relay_after_nil|done]|].
  cbn [fed fold_left]. unfold sunk at 2 4. destruct (sink b st) as [st1 w] eqn:E. cbn [fst]. apply Hs in E.
  destruct (relay_chunk_open what b (proj st) Ho) as (r1 & E' & Ha & Ho'). rewrite E in E'. injection E' as <- _.
  destruct (IH st1 Ho') as [Ha' Ho'']. split; [|done]. by eapply (relay_after_trans _ _ _ [b]).
Qed.

(** A write to a client that takes everything. *)
Lemma write_frame_err_open what t data s :
  write_limit s = [] ->
  exists s1, write_frame_err what t data s = (s1, Ok tt) /\ outbox s1 = outbox s ++ frame t data /\ write_limit s1 = [].
Proof.
  intros Hl. destruct (write_frame_err what t data s) as [s1 r] eqn:E.
  destruct (write_frame_err_limit _ _ _ _ _ _ E Hl) as [-> Hl']. exists s1.
  split; [done|]. split; [by apply write_frame_err_ok in E|done].
Qed.

Lemma write_trailer_open s backend m x nb elapsed :
  write_limit s = [] ->
  exists s' m', write_attested_trailer s backend m x nb elapsed = (s', m', Ok tt)
    /\ outbox s' = outbox s ++ frame RESP_TRAILER (trailer_payload backend x nb).
Proof.
  intros Hl. destruct (write_attested_trailer s backend m x nb elapsed) as [[s' m'] r] eqn:E.
  destruct r as [[]|e]; [|by apply write_trailer_limit in E]. exists s', m'. split; [done|].
  apply write_attested_trailer_frame in E as (r0 & E & Hr). apply write_frame_outbox in E as (_ & w & -> & Hw).
  by rewrite (Hw (proj1 Hr eq_refl)).
Qed.

(** The trailer after the body: both transports end this way. *)
Lemma deliver_trailer backend m elapsed head body nb s0 r0 pieces r status headers ct :
  open_relay r -> relay_after r0 pieces r -> r_hasher r0 = sha_new -> r_collector r0 = collector_new head body ct ->
  outbox (r_control r0) = outbox s0 ++ frame RESP_HEAD (to_string (resp_head_json status headers)) ->
  exists s' m', write_attested_trailer (r_control r) backend m
      (exchange_of head (to_uppercase (method (upstream head))) status ct body r) nb elapsed = (s', m', Ok tt)
    /\ delivered backend head body nb s0 s' status headers ct (concat pieces).
Proof.
  intros Hr Ha Hh Hc Ho. rewrite (exchange_of_relayed head status ct body r0 pieces r Ha Hh Hc).
  destruct (write_trailer_open (r_control r) backend m (relayed_exchange head body status ct pieces) nb elapsed Hr)
    as (s' & m' & E & Ho'). exists s', m'. split; [done|]. exists pieces. split; [done|].
  rewrite Ho', (ra_outbox _ _ _ Ha), Ho. unfold chunk_frames. by rewrite <-!app_assoc.
Qed.

(** * HTTP/1.1 *)

(** An upstream that takes the request and sends a complete response. *)
Record answers (tls : Tls) (h : Head) (resp_body : bytes) : Prop := {
  an_takes : send_limit tls = [];
  an_head : head_ok h = true;
  an_size : (zlen (head_text h) + 4 <= MAX_HEAD)%Z;
  an_delivers : delivers (reads tls);
  an_content : exists payload, content (reads tls) = head_text h ++ blank_line ++ payload /\ framed h payload resp_body;
}.

Lemma tls_write_all_open data tls :
  send_limit tls = [] -> exists tls', tls_write_all data tls = (tls', Ok tt) /\ reads tls' = reads tls /\ send_limit tls' = [].
Proof. intros Hl. unfold tls_write_all, write_all. rewrite Hl. cbn. by eexists. Qed.

Lemma handle_h1_delivers s backend m elapsed head body nb tls h resp_body :
  write_limit s = [] -> answers tls h resp_body ->
  exists s' m' p, handle_h1 s backend m elapsed head body nb tls (to_uppercase (method (upstream head))) = (s', m', Ok tt)
    /\ reads_as h p
    /\ delivered backend head body nb s s' (code h) (Http1.headers p) (default [] (content_type p)) resp_body.
Proof.
  intros Hl [Ht Hok Hsize Hd (payload & Hcont & Hframed)]. unfold handle_h1.
  destruct (tls_write_all_open (request_head head (to_uppercase (method (upstream head))) body) tls Ht) as (tls1 & -> & R1 & Ht1).
  destruct (tls_write_all_open body tls1 Ht1) as (tls2 & -> & R2 & _). rewrite R2, R1.
  destruct (head_text_split h payload (reads tls) Hok Hsize Hd Hcont) as (rest & left & -> & Hleft & Hd').
  destruct (head_text_parsed h Hok) as (p & -> & Hp).
  destruct (write_frame_err_open "写 RESP_HEAD" RESP_HEAD (to_string (resp_head_json (Http1.status p) (Http1.headers p))) s Hl)
    as (s1 & -> & Ho & Hl1).
  set (r0 := mkRelay s1 sha_new (collector_new head body (default [] (content_type p)))).
  destruct (body_read (sunk h1_sink) (fun b st => (sunk h1_sink b st, Ok tt)) h p payload resp_body left rest (r0, 0%Z)
    ltac:(done) Hp Hframed Hd' Hleft) as (rest' & pieces & E & <-).
  destruct (fed_relay_after h1_sink fst _ pieces (r0, 0%Z) h1_sink_relay Hl1) as [Ha Hopen].
  assert (Agree : forall b st, open_relay st.1 -> h1_sink b st = (sunk h1_sink b st, Ok tt)).
  { intros b st Hst. unfold sunk. destruct (h1_sink b st) as [st1 w] eqn:Es. apply h1_sink_relay in Es.
    destruct (relay_chunk_open "写 RESP_CHUNK" b st.1 Hst) as (r1 & Er & _). rewrite Es in Er. by injection Er as _ ->. }
  assert (Keep : forall b st, open_relay st.1 -> open_relay (h1_sink b st).1.1).
  { intros b st Hst. destruct (h1_sink b st) as [st1 w] eqn:Es. apply h1_sink_relay in Es.
    destruct (relay_chunk_open "写 RESP_CHUNK" b st.1 Hst) as (r1 & Er & _ & Ho1). rewrite Es in Er. by injection Er as <- _. }
  replace (if chunked p then stream_chunked h1_sink left rest (r0, 0%Z)
           else stream_plain h1_sink left rest (content_length p) (r0, 0%Z))
    with (rest', fed (sunk h1_sink) pieces (r0, 0%Z), @Ok unit bytes tt).
  2: { rewrite <-E. destruct (chunked p); symmetry;
       [apply (stream_chunked_loop_agree (fun st => open_relay st.1))|apply (stream_plain_agree (fun st => open_relay st.1))]; auto. }
  destruct (fed (sunk h1_sink) pieces (r0, 0%Z)) as [r streamed]. cbn [fst] in Ha, Hopen.
  destruct (deliver_trailer backend (on_resp_bytes_total (fun z => fetch_add z streamed) m) elapsed head body nb s r0 pieces r
    (Http1.status p) (Http1.headers p) (default [] (content_type p)) Hopen Ha eq_refl eq_refl Ho) as (s' & m' & -> & Hdel).
  exists s', m', p. split; [done|]. split; [done|]. by rewrite <-(ra_status _ _ Hp).
Qed.

(** * HTTP/2 *)

(** A fingerprint HTTP/2 allows and the client supports: the one supported
    order of the pseudo-headers, known settings with a legal frame size, and
    windows an HTTP/2 connection may have. *)
Record legal_fingerprint (fp : H2Settings) : Prop := {
  lf_order : pseudo_header_order fp = PSEUDO_ORDER;
  lf_settings : Forall known_setting (settings fp);
  lf_initial v : In (4%Z, v) (settings fp) -> (v <= MAX_WINDOW_SIZE)%Z;
  lf_window : (65535 + window_update fp <= MAX_WINDOW_SIZE)%Z;
}.

(** An HTTP/2 peer that takes the request and sends a whole response. *)
Record h2_answers (head : ReqHead) (body : bytes) (tls : RustlsStream) (fp : H2Settings) (status : Z)
    (headers : list (bytes * bytes)) (resp_body : bytes) : Prop := {
  h2_handshake : Forall (fun r => r = Ok tt) (rs_handshake tls);
  h2_alpn : rs_alpn tls = Some "h2";
  h2_legal : legal_fingerprint fp;
  h2_runtime : runtime (h2_peer tls) = Ok tt;
  h2_preface : handshake (h2_peer tls) = Ok tt;
  h2_request : exists uri m hs, uri_parse ("https://" ++ host (upstream head) ++ path (upstream head)) = Ok uri
    /\ method_parse (to_uppercase (method (upstream head))) = Ok m /\ request_body m uri = Ok tt
    /\ h2_headers (token head) (zlen body)
         (default (Protocol.headers (upstream head)) (parse_headers_ordered (headers_ordered (upstream head)))) = Ok hs;
  h2_sent : send_request (h2_peer tls) = Ok tt;
  h2_capacity : Forall (fun e => exists n, e = Capacity n (Ok tt) /\ (0 < n)%Z) (capacities (h2_peer tls))
    /\ (zlen body <= zlen (capacities (h2_peer tls)))%Z;
  h2_response : exists raw, response (h2_peer tls) = Ok (status, raw)
    /\ headers = map (fun kv => (kv.1, from_utf8_lossy kv.2)) raw;
  h2_data : Forall released_ok (datas (h2_peer tls)) /\ concat (map chunk_of (datas (h2_peer tls))) = resp_body
    /\ (zlen resp_body <= MAX_RESP)%Z;
  h2_driver : driver (h2_peer tls) = DriverOk;
}.

Lemma complete_handshake_ok steps : Forall (fun r => r = Ok tt) steps -> complete_handshake steps = Ok tt.
Proof. induction 1 as [|r steps -> _ IH]; [done|]. exact IH. Qed.

Lemma h2_on_chunk_open b st :
  open_relay (s_relay st) ->
  h2_on_chunk b st = (sunk h2_on_chunk b st, Ok tt) /\ open_relay (s_relay (sunk h2_on_chunk b st)).
Proof.
  intros Hst. unfold sunk. destruct (h2_on_chunk b st) as [st1 w] eqn:Es. apply h2_on_chunk_relay in Es.
  destruct (relay_chunk_open "写 h2 RESP_CHUNK" b (s_relay st) Hst) as (r1 & Er & _ & Ho). rewrite Es in Er.
  by injection Er as <- ->.
Qed.

Lemma recv_body_open head body max evs total st :
  Forall released_ok evs -> (max <= u64_max)%Z -> (total + zlen (concat (map chunk_of evs)) <= max)%Z ->
  open_relay (s_relay st) ->
  recv_body (SK := {| on_head := h2_on_head head body; on_chunk := h2_on_chunk |}) max evs total st
    = (fed (sunk h2_on_chunk) (map chunk_of evs) st, Ok (total + zlen (concat (map chunk_of evs)))%Z).
Proof.
  intros Hd Hmax. revert total st. induction Hd as [|e evs He Hd IH]; intros total st Ht Ho; cbn [recv_body].
  { cbn. change (zlen (@nil byte)) with 0%Z. by rewrite Z.add_0_r. }
  destruct e as [chunk [[]|]|]; [|done..]. cbn [map chunk_of concat] in *. rewrite zlen_app in *.
  pose proof (zlen_nonneg (concat (map chunk_of evs))).
  rewrite (proj2 (Z.ltb_ge _ _)) by lia. rewrite (proj2 (Z.ltb_ge _ _)) by lia. cbn [on_chunk].
  destruct (h2_on_chunk_open chunk st Ho) as [-> Ho']. rewrite IH by (done || lia). by rewrite Z.add_assoc.
Qed.

(** The loop of [on_head] keeps the last value of every name. *)
Lemma h2_on_head_open head body status headers st :
  open_relay (s_relay st) ->
  exists st1 shown, h2_on_head head body status headers st = (st1, Ok tt) /\ open_relay (s_relay st1)
    /\ (forall k, bget k shown = snd <$> list.last (List.filter (fun kv => eqs kv.1 k) headers))
    /\ s_content_type st1
         = default (s_content_type st) (snd <$> list.last (List.filter (fun kv => eq_ignore_ascii_case kv.1 "content-type") headers))
    /\ r_hasher (s_relay st1) = r_hasher (s_relay st)
    /\ r_collector (s_relay st1) = collector_new head body (s_content_type st1)
    /\ outbox (r_control (s_relay st1))
         = outbox (r_control (s_relay st)) ++ frame RESP_HEAD (to_string (resp_head_json status shown)).
Proof.
  intros Ho. unfold h2_on_head.
  match goal with |- context [fold_left ?f headers ?i] =>
    assert (F : let '(ct, shown) := fold_left f headers i in
      (forall k, bget k shown = snd <$> list.last (List.filter (fun kv => eqs kv.1 k) headers))
      /\ ct = default (s_content_type st)
           (snd <$> list.last (List.filter (fun kv => eq_ignore_ascii_case kv.1 "content-type") headers)));
    [|destruct (fold_left f headers i) as [ct shown]]
  end.
  - induction headers as [|[k v] headers IH] using rev_ind; [done|]. rewrite fold_left_app. cbn [fold_left].
    destruct (fold_left _ headers _) as [ct shown]. destruct IH as [IH1 IH2]. cbn [fst snd]. split.
    + intros k'. rewrite List.filter_app. cbn [List.filter fst]. unfold eqs at 2. case_bool_decide as E.
      * subst k'. rewrite last_snoc. by rewrite bget_bins_eq.
      * rewrite app_nil_r, bget_bins_ne by done. apply IH1.
    + rewrite List.filter_app. cbn [List.filter fst]. destruct (eq_ignore_ascii_case k "content-type").
      * by rewrite last_snoc.
      * by rewrite app_nil_r.
  - destruct F as [F1 F2].
    destruct (write_frame_err_open "写 h2 RESP_HEAD" RESP_HEAD (to_string (resp_head_json status shown)) _ Ho)
      as (c & -> & Hout & Hl). eexists _, shown. split; [reflexivity|]. cbn [s_relay s_content_type r_control r_hasher r_collector].
    done.
Qed.

Lemma handle_h2_delivers s backend m elapsed head body nb p sock tls fp status headers resp_body :
  write_limit s = [] -> aws_lc_connect p sock (host (upstream head)) = Ok tls -> h2 p = Some fp ->
  h2_answers head body tls fp status headers resp_body ->
  exists s' m' shown ct, handle_h2 s backend m elapsed head body nb p sock (to_uppercase (method (upstream head))) = (s', m', Ok tt)
    /\ (forall k, bget k shown = snd <$> list.last (List.filter (fun kv => eqs kv.1 k) headers))
    /\ ct = default [] (snd <$> list.last (List.filter (fun kv => eq_ignore_ascii_case kv.1 "content-type") headers))
    /\ delivered backend head body nb s s' status shown ct resp_body.
Proof.
  intros Hl Hc Hfp A. unfold handle_h2. rewrite Hc. cbn [map_err]. rewrite complete_handshake_ok by apply A.
  rewrite bool_decide_true by apply A. cbn [negb]. rewrite Hfp.
  set (SK := {| on_head := _; on_chunk := _ |}). unfold execute.
  destruct (h2_legal _ _ _ _ _ _ _ A) as [Lo Ls _ Lw].
  rewrite bool_decide_true by done. cbn [negb]. destruct (proj2 (apply_settings_known builder_new _) Ls) as [b ->].
  unfold connection_window. rewrite (proj2 (Z.leb_le _ u32_max)) by (unfold MAX_WINDOW_SIZE, u32_max in *; lia).
  rewrite (h2_runtime _ _ _ _ _ _ _ A), (h2_preface _ _ _ _ _ _ _ A), (proj2 (Z.ltb_ge _ _)) by lia.
  destruct (h2_request _ _ _ _ _ _ _ A) as (uri & mth & hs & -> & -> & Hrb & Hhs). cbn [map_err]. rewrite Hrb. cbn [map_err].
  rewrite Hhs, (h2_sent _ _ _ _ _ _ _ A). unfold exchange.
  destruct (h2_capacity _ _ _ _ _ _ _ A) as [Hcap Hlen].
  destruct (send_body_enough (capacities (h2_peer tls)) 0 body Hcap) as [out ->]; [lia..|].
  destruct (h2_response _ _ _ _ _ _ _ A) as (raw & -> & Hraw). rewrite <-Hraw.
  destruct (h2_data _ _ _ _ _ _ _ A) as (Hrel & Hbody & Hmax).
  cbn [on_head SK]. subst SK.
  destruct (h2_on_head_open head body status headers (mkH2Sink (mkRelay s sha_new None) []) Hl)
    as (st1 & shown & -> & Ho1 & Hshown & Hct & Hhash & Hcol & Hout).
  rewrite (recv_body_open head body MAX_RESP (datas (h2_peer tls)) 0 st1 Hrel) by (unfold MAX_RESP, u64_max in *; rewrite ?Hbody; (done || lia)).
  rewrite (h2_driver _ _ _ _ _ _ _ A). cbn [join_driver map_err H2Client.status body_bytes].
  set (evs := map chunk_of (datas (h2_peer tls))) in *.
  destruct (fed_relay_after h2_on_chunk s_relay _ evs st1 h2_on_chunk_relay Ho1) as [Ha Hopen].
  assert (Hct1 : s_content_type (fed (sunk h2_on_chunk) evs st1) = s_content_type st1).
  { clear. revert st1. induction evs as [|e evs IH]; intros st1; [done|]. cbn [fed fold_left]. unfold fed in IH. rewrite IH.
    unfold sunk. destruct (h2_on_chunk e st1) as [st2 w] eqn:E. by apply h2_on_chunk_content_type in E. }
  rewrite Hct1. set (st2 := fed _ evs st1) in *.
  destruct (deliver_trailer backend (on_resp_bytes_total (fun z => fetch_add z (0 + zlen (concat evs))%Z) m) elapsed head body nb s (s_relay st1) evs (s_relay st2) status shown (s_content_type st1)
    Hopen Ha Hhash Hcol Hout) as (s' & m' & -> & Hdel).
  exists s', m', shown, (s_content_type st1). rewrite Hbody in Hdel. split; [done|]. split; [exact Hshown|]. split; [exact Hct|exact Hdel].
Qed.

(** * Properties *)

(** C4. A request over HTTP/1.1 succeeds whenever the parties do their part:
    for every client that sends a request the enclave takes and every upstream
    that sends a complete response of at most [MAX_RESP] bytes, chunked, with a
    length or up to the end of the connection, cut into reads in any way,
    [handle] returns [Ok], and the client has the upstream's status and
    headers, the whole body and nothing else of it, and one trailer over that
    body. *)
Theorem handle_delivers_http1 s backend m elapsed head body nb sock tls h resp_body :
  requested s head body nb -> upstream_socket (egress_port head) = Ok sock ->
  h2_profile_of (decode_profile head) = None ->
  connect_tls (decode_profile head) sock (host (upstream head)) = Ok tls ->
  answers tls h resp_body ->
  exists s' m' p, handle s backend m elapsed = (s', m', Ok tt)
    /\ reads_as h p
    /\ delivered backend head body nb s s' (code h) (Http1.headers p) (default [] (content_type p)) resp_body.
Proof.
  intros Hq He Hp Ht Ha. destruct (read_request_sent _ _ _ _ Hq) as (s1 & Er & Ho & Hl).
  unfold handle. rewrite Er, (rq_head _ _ _ _ Hq), He. cbv zeta. rewrite Hp, Ht.
  destruct (handle_h1_delivers s1 backend m elapsed head body nb tls h resp_body Hl Ha)
    as (s' & m' & p & -> & Hr & pieces & Hb & Hout).
  exists s', m', p. split; [done|]. split; [done|]. exists pieces. by rewrite <-Ho.
Qed.

(** C5. The same over HTTP/2: when the fingerprint of the profile is one the
    client supports and HTTP/2 allows ([legal_fingerprint]: the supported order
    of pseudo-headers, settings 2, 4, 5 and 6 only, a frame size within
    16384..2^24-1, windows of at most 2^31-1), the peer negotiates h2, takes the
    request with any flow-control window that keeps opening, and sends a
    response of at most [MAX_RESP] bytes, then [handle] returns [Ok] and the
    client has the status, the last value of every header, the whole body and
    one trailer over it. *)
Theorem handle_delivers_http2 s backend m elapsed head body nb sock p tls fp status headers resp_body :
  requested s head body nb -> upstream_socket (egress_port head) = Ok sock ->
  h2_profile_of (decode_profile head) = Some p -> h2 p = Some fp ->
  aws_lc_connect p sock (host (upstream head)) = Ok tls ->
  h2_answers head body tls fp status headers resp_body ->
  exists s' m' shown ct, handle s backend m elapsed = (s', m', Ok tt)
    /\ (forall k, bget k shown = snd <$> list.last (List.filter (fun kv => eqs kv.1 k) headers))
    /\ ct = default [] (snd <$> list.last (List.filter (fun kv => eq_ignore_ascii_case kv.1 "content-type") headers))
    /\ delivered backend head body nb s s' status shown ct resp_body.
Proof.
  intros Hq He Hp Hfp Ht Ha. destruct (read_request_sent _ _ _ _ Hq) as (s1 & Er & Ho & Hl).
  unfold handle. rewrite Er, (rq_head _ _ _ _ Hq), He. cbv zeta. rewrite Hp.
  destruct (handle_h2_delivers s1 backend m elapsed head body nb p sock tls fp status headers resp_body Hl Ht Hfp Ha)
    as (s' & m' & shown & ct & -> & Hs & Hct & pieces & Hb & Hout).
  exists s', m', shown, ct. split; [done|]. split; [done|]. split; [done|]. exists pieces. by rewrite <-Ho.
Qed.
End Delivery.

(** * Witnesses *)

Section Witnesses.
#[local] Existing Instance quiet_env.
#[local] Existing Instance sample_req_head.
#[local] Existing Instance no_helper_json.
#[local] Existing Instance no_unix.
#[local] Existing Instance Transcript.sample_sockets.
#[local] Existing Instance Transcript.sample_http.

(** The head a request text holds. *)
Definition head_of (text : bytes) : ReqHead :=
  match req_head_from_slice text with Ok h => h | Err _ => mapped_head end.

Definition backend_of (seed : bytes) : ProofBackend := LocalEvidence (build_local_evidence_backend seed sample_provider).

Definition plain_request : ReqHead := head_of sample_request_head.

Definition chunked_head : Head :=
  mkHead "HTTP/1.1" 200 "OK" [("Content-Type", "text/plain"); ("Transfer-Encoding", "chunked")].

Lemma plain_requested : requested sample_control plain_request "ping" "nonce".
Proof.
  split; [reflexivity| |vm_compute; discriminate|reflexivity]. exists sample_request_head, [].
  split; [reflexivity|]. split; [vm_compute; reflexivity|vm_compute; discriminate].
Qed.

Lemma upstream_answers : answers (mkTls upstream_script [] []) chunked_head "hello world".
Proof.
  split; [reflexivity|reflexivity|vm_compute; discriminate|repeat constructor; done|].
  exists (concat (map encode_chunk [("5", "hello"); ("6", " world")]) ++ "0" ++ crlf ++ crlf).
  split; [vm_compute; reflexivity|].
  apply (framed_chunks chunked_head [("5", "hello"); ("6", " world")]);
    [reflexivity| |cbn; intuition congruence|reflexivity|vm_compute; discriminate].
  repeat constructor; try done; cbn; intuition congruence.
Qed.

Lemma handle_delivers_http1_witness :
  exists s' m' p, handle (TL := sample_tls upstream_script) sample_control (backend_of "seed") metrics_default 1000
      = (s', m', Ok tt)
    /\ reads_as chunked_head p
    /\ delivered (backend_of "seed") plain_request "ping" "nonce" sample_control s' 200 (Http1.headers p)
         (default [] (content_type p)) "hello world".
Proof.
  exact (handle_delivers_http1 (TL := sample_tls upstream_script) sample_control (backend_of "seed") metrics_default 1000
    plain_request "ping" "nonce" (DirectVsock (tt : @Socket sample_sockets)) (mkTls upstream_script [] []) chunked_head "hello world"
    plain_requested eq_refl eq_refl eq_refl upstream_answers).
Defined.

(** A profile for HTTP/2, in the request. *)
Definition grok_profile : TlsProfile := {|
  spec_id := 4; issued_at := 0; label := "grok"; stack := RustlsAwsLc;
  cipher_list := ""; sigalgs := []; groups := []; alpn := ["h2"; "http/1.1"];
  grease := GreaseDisabled; ext_order := PermutePerSession; min_negotiated := Tls12; cert_policy := WebpkiRoots;
  h2 := Some {| settings := [(2, 0); (4, 2097152)]%Z; window_update := 5177345; pseudo_header_order := PSEUDO_ORDER |} |}.

Definition grok_fingerprint : H2Settings :=
  {| settings := [(2, 0); (4, 2097152)]%Z; window_update := 5177345; pseudo_header_order := PSEUDO_ORDER |}.

Definition h2_request_text : bytes :=
  to_string (json_object
    [("nonce", Str "bm9uY2U="); ("egress_port", json_int 8443);
     ("upstream", json_object [("host", Str "api.x.ai"); ("method", Str "POST"); ("path", Str "/v1");
                               ("headers", Object [("accept", Str "*/*")])]);
     ("tls_spec", Str (b64_encode (canonical_encode grok_profile)))]).

Definition h2_request_head : ReqHead := head_of h2_request_text.

Definition h2_control : Control := mkControl (frame REQ_HEAD h2_request_text ++ frame REQ_BODY "hi") [] [].

(** One byte of window at a time. *)
Definition h2_stream : RustlsStream :=
  mkRustlsStream [Ok tt; Ok tt] (Some "h2") (mkTls [] [] [])
    (@DirectVsock Transcript.sample_sockets tt)
    (fun _ => mkH2Peer (Ok tt) (Ok tt) (Ok tt) [Capacity 1 (Ok tt); Capacity 1 (Ok tt)]
       (Ok (200%Z, [("content-type", "text/html"); ("content-type", "text/plain")]))
       [DataChunk "first " (Ok tt); DataChunk "second" (Ok tt)] DriverOk).

Definition h2_tls : TlsLibraries := {|
  ssl_builder _ := Err "not built"; ssl_set _ _ _ := Ok tt; ssl_configure _ _ := Ok tt;
  ssl_connect _ _ _ _ := Err WouldBlock;
  default_signature_algorithms := mkAlgorithms [] [];
  rustls_versions _ := Ok tt; server_name _ := Ok tt; rustls_new _ _ := Ok tt;
  rustls_stream _ _ _ := h2_stream |}.

Lemma h2_requested : requested h2_control h2_request_head "hi" "nonce".
Proof.
  split; [reflexivity| |vm_compute; discriminate|vm_compute; reflexivity]. exists h2_request_text, [].
  split; [reflexivity|]. split; [vm_compute; reflexivity|vm_compute; discriminate].
Qed.

Lemma h2_stream_answers :
  h2_answers h2_request_head "hi" h2_stream grok_fingerprint 200
    [("content-type", "text/html"); ("content-type", "text/plain")] "first second".
Proof.
  split; try reflexivity.
  - repeat constructor.
  - split; [reflexivity| |cbn; intuition (simplify_eq; vm_compute; discriminate)|vm_compute; discriminate].
    repeat (constructor; [split; [cbn; tauto|done]|]). constructor.
  - eexists _, _, _. split; [reflexivity|]. split; [reflexivity|]. split; [reflexivity|]. vm_compute. reflexivity.
  - split; [repeat constructor; by exists 1%Z|vm_compute; discriminate].
  - eexists. split; reflexivity.
  - split; [repeat constructor|]. split; [reflexivity|vm_compute; discriminate].
Qed.

Lemma h2_profile_read : h2_profile_of (decode_profile h2_request_head) = Some grok_profile.
Proof. vm_compute. reflexivity. Qed.

Lemma h2_connects : upstream_socket (egress_port h2_request_head) = Ok (DirectVsock (tt : @Socket Transcript.sample_sockets)).
Proof. vm_compute. reflexivity. Qed.

Lemma handle_delivers_http2_witness :
  exists s' m' shown ct, handle (TL := h2_tls) h2_control (backend_of "seed") metrics_default 1000 = (s', m', Ok tt)
    /\ bget ("content-type" : bytes) shown = Some ("text/plain" : bytes) /\ ct = "text/plain"
    /\ delivered (backend_of "seed") h2_request_head "hi" "nonce" h2_control s' 200 shown ct "first second".
Proof.
  destruct (handle_delivers_http2 (TL := h2_tls) h2_control (backend_of "seed") metrics_default 1000
    h2_request_head "hi" "nonce" (DirectVsock (tt : @Socket sample_sockets)) grok_profile h2_stream grok_fingerprint 200
    [("content-type", "text/html"); ("content-type", "text/plain")] "first second"
    h2_requested h2_connects h2_profile_read eq_refl eq_refl h2_stream_answers)
    as (s' & m' & shown & ct & E & Hs & Hct & Hd).
  exists s', m', shown, ct. split; [exact E|]. split; [exact (Hs _)|]. split; [exact Hct|exact Hd].
Defined.
End Witnesses.
