(* ===== verification/JsJson.v ===== *)
(** JSON as the verifier handles it: JavaScript objects with their own order
    of properties, [sortJson], [canonicalJson] and [fieldClaimsSha256Hex] of
    [verifier/field-proof.ts], and where they agree with [canonical_json] of
    the enclave.

    A JavaScript object is the list of its own properties in the order they
    were created; [JSON.parse] and [JSON.stringify] are the standard library of
    the language, of which the texts of numbers and strings are parameters. *)

From S2P Require Import Prelude RustStr BTree Json Digest Sample.
Local Open Scope bytes_scope.

(** * Properties of an object *)

(** An array index: the decimal text of an integer below [2^32 - 1]. *)
Definition array_index (k : bytes) : option Z :=
  match from_str_radix 10 (2 ^ 32 - 2) k with
  | Ok n => if eqs (show_Z n) k then Some n else None
  | Err _ => None
  end.

Section Objects.
Context {V : Type}.
Abbreviation object := (list (bytes * V)).

Fixpoint insert_index (n : Z) (kv : bytes * V) (l : list (Z * (bytes * V))) : list (Z * (bytes * V)) :=
  match l with
  | [] => [(n, kv)]
  | (n', kv') :: l' => if (n <=? n')%Z then (n, kv) :: l else (n', kv') :: insert_index n kv l'
  end.

(** The order in which properties are listed: array indices first, in numeric
    order, then the others as they were created. *)
Definition property_order (m : object) : object :=
  let indexed := foldr (fun kv l => match array_index kv.1 with Some n => insert_index n kv l | None => l end) [] m in
  map snd indexed ++ List.filter (fun kv => match array_index kv.1 with Some _ => false | None => true end) m.

(** [Object.keys]. *)
Definition object_keys (m : object) : list bytes := map fst (property_order m).

(** [m[k] = v]: a property keeps its place; [__proto__] is a setter and makes no
    property. *)
Fixpoint assign_own (k : bytes) (v : V) (m : object) : object :=
  match m with
  | [] => [(k, v)]
  | kv :: m => if eqs kv.1 k then (k, v) :: m else kv :: assign_own k v m
  end.
Definition assign (m : object) (k : bytes) (v : V) : object :=
  if eqs k "__proto__" then m else assign_own k v m.
End Objects.

(** * Strings *)

(** The UTF-16 code units of a UTF-8 text. *)
Fixpoint utf16 (s : bytes) : list Z :=
  match s with
  | [] => []
  | b0 :: t0 =>
      if is_ascii_byte b0 then bv b0 :: utf16 t0
      else if in_range 194 223 b0 then
        match t0 with
        | b1 :: t1 => ((bv b0 - 192) * 64 + (bv b1 - 128))%Z :: utf16 t1
        | [] => []
        end
      else if in_range 224 239 b0 then
        match t0 with
        | b1 :: b2 :: t2 => ((bv b0 - 224) * 4096 + (bv b1 - 128) * 64 + (bv b2 - 128))%Z :: utf16 t2
        | _ => []
        end
      else
        match t0 with
        | b1 :: b2 :: b3 :: t3 =>
            let c := ((bv b0 - 240) * 262144 + (bv b1 - 128) * 4096 + (bv b2 - 128) * 64 + (bv b3 - 128) - 65536)%Z in
            (55296 + c / 1024)%Z :: (56320 + c mod 1024)%Z :: utf16 t3
        | _ => []
        end
  end.

Fixpoint units_cmp (a b : list Z) : comparison :=
  match a, b with
  | [], [] => Eq
  | [], _ :: _ => Lt
  | _ :: _, [] => Gt
  | x :: a, y :: b => match (x ?= y)%Z with Eq => units_cmp a b | c => c end
  end.

(** [Array.prototype.sort] of strings, by their code units. *)
Fixpoint insert_unit (k : bytes) (l : list bytes) : list bytes :=
  match l with
  | [] => [k]
  | k' :: l' => match units_cmp (utf16 k) (utf16 k') with Gt => k' :: insert_unit k l' | _ => k :: l end
  end.
Definition sort_units (l : list bytes) : list bytes := foldr insert_unit [] l.

(** * Text *)

(** What [JSON.parse] reads of the text of a number, written again by
    [String] or [JSON.stringify]; and [JSON.stringify] of a string. *)
Class JsText `{SerdeJson} := {
  js_number : number -> bytes;
  js_string : bytes -> bytes;
}.

(** Integers that a double holds exactly are written in decimal by both sides,
    and both escape the same characters of a string. *)
Class JsTextLaws `{JsText} : Prop := {
  js_number_int z : (0 <= z < 2 ^ 53)%Z -> js_number (number_from_i64 z) = show_Z z;
  number_to_string_int z : (0 <= z < 2 ^ 53)%Z -> number_to_string (number_from_i64 z) = show_Z z;
  js_string_quote s : js_string s = quote s;
}.

Section Canonical.
Context `{JT : JsText}.
Abbreviation json := (value number).

Fixpoint sortJson (v : json) : json :=
  match v with
  | Array l => Array (map sortJson l)
  | Object m =>
      let sorted := map (fun kv => (kv.1, sortJson kv.2)) m in
      Object (fold_left (fun out k =>
        match bget k sorted with
        | Some v => assign out k v
        | None => out
        end) (sort_units (object_keys m)) [])
  | _ => v
  end.

(** [JSON.stringify]. *)
Fixpoint stringify (v : json) : bytes :=
  match v with
  | Null => "null"
  | Bool b => if b then "true" else "false"
  | Number n => js_number n
  | Str s => js_string s
  | Array l => "[" ++ join "," (map stringify l) ++ "]"
  | Object m =>
      let texts := map (fun kv => (kv.1, stringify kv.2)) m in
      "{" ++ join "," (map (fun kv => js_string kv.1 ++ ":" ++ kv.2) (property_order texts)) ++ "}"
  end.

Definition canonicalJson (v : json) : bytes := stringify (sortJson v).

Definition fieldClaimsSha256Hex `{Sha256} (claims : json) : bytes := sha256_hex (canonicalJson claims).
End Canonical.

(** * Agreement *)

(** A key that JavaScript treats like any other and orders like Rust. *)
Definition plain_key (k : bytes) : bool :=
  is_ascii k && negb (eqs k "__proto__") && match array_index k with Some _ => false | None => true end.

Section Agreement.
Context `{JT : JsText}.
Abbreviation json := (value number).

(** Values with plain keys, none twice, and numbers both sides write alike. *)
#[warnings="-register-all"]
Inductive plain : json -> Prop :=
  | plain_null : plain Null
  | plain_bool b : plain (Bool b)
  | plain_number n : js_number n = number_to_string n -> plain (Number n)
  | plain_str s : plain (Str s)
  | plain_array l : Forall plain l -> plain (Array l)
  | plain_object m : NoDup (map fst m) -> Forall (fun kv => plain_key kv.1 = true /\ plain kv.2) m -> plain (Object m).

(** ** Orders *)

Lemma utf16_ascii s : is_ascii s = true -> utf16 s = map bv s.
Proof. induction s as [|b s IH]; cbn; [done|]. intros [-> ?]%andb_prop. by rewrite IH. Qed.

Lemma units_cmp_bytes a b : units_cmp (map bv a) (map bv b) = bytes_cmp a b.
Proof.
  revert b. induction a as [|x a IH]; intros [|y b]; cbn; try done. by rewrite IH.
Qed.

Lemma sort_units_ascii ks : Forall (fun k => is_ascii k = true) ks -> sort_units ks = sort_keys ks.
Proof.
  assert (G : forall k l, is_ascii k = true -> Forall (fun k => is_ascii k = true) l -> insert_unit k l = insert_key k l).
  { intros k l Hk. induction 1 as [|k' l Hk' Hl IH]; [done|]. cbn [insert_unit insert_key].
    rewrite !utf16_ascii, units_cmp_bytes by done. by rewrite IH. }
  assert (P : forall l, Forall (fun k => is_ascii k = true) l -> Forall (fun k => is_ascii k = true) (sort_keys l))
    by (intros l; by rewrite sort_keys_perm).
  induction 1 as [|k ks Hk Hks IH]; [done|]. cbn. fold (sort_units ks). fold (sort_keys ks). rewrite IH. by apply G, P.
Qed.

Lemma property_order_plain {V} (m : list (bytes * V)) :
  Forall (fun kv => array_index kv.1 = None) m -> property_order m = m.
Proof.
  unfold property_order. intros Hm.
  assert (E : foldr (fun kv l => match array_index kv.1 with Some n => insert_index n kv l | None => l end) [] m = []).
  { induction Hm as [|kv m Hk _ IH]; [done|]. cbn. by rewrite Hk. }
  rewrite E. cbn [map app]. clear E. induction Hm as [|kv m Hk _ IH]; [done|]. cbn. by rewrite Hk, IH.
Qed.

(** Building an object from plain keys, each one once. *)
Lemma assign_new {V} (m : list (bytes * V)) k v :
  k <> "__proto__" -> ~ In k (map fst m) -> assign m k v = m ++ [(k, v)].
Proof.
  intros Hp Hk. unfold assign, eqs. rewrite bool_decide_false by done.
  induction m as [|kv m IH]; [done|]. cbn [assign_own map] in *. unfold eqs. rewrite bool_decide_false by (cbn in Hk; tauto).
  rewrite IH; [done|]. cbn in Hk. tauto.
Qed.

Lemma assign_all {V} (f : bytes -> option V) ks m :
  NoDup ks -> Forall (fun k => k <> "__proto__" /\ is_Some (f k)) ks -> (forall k, In k ks -> ~ In k (map fst m)) ->
  fold_left (fun out k => match f k with Some v => assign out k v | None => out end) ks m
    = m ++ omap (fun k => v ← f k; Some (k, v)) ks.
Proof.
  intros Hnd. revert m. induction Hnd as [|k ks Hk Hnd IH]; intros m Hf Hm; [by rewrite app_nil_r|].
  apply Forall_cons_iff in Hf as [[Hp [v Hv]] Hf]. cbn [fold_left omap list_omap]. rewrite Hv. cbn [mbind option_bind].
  rewrite assign_new by (try done; apply Hm; by left). rewrite IH; [by rewrite <-app_assoc|done|].
  intros k' Hin. rewrite map_app, in_app_iff. cbn. intros [Hx|[<-|[]]]; [by apply (Hm k'); [right|]|].
  by apply Hk, list_elem_of_In.
Qed.

Lemma bget_map_values {V W} (f : V -> W) k (m : list (bytes * V)) :
  bget k (map (fun kv => (kv.1, f kv.2)) m) = f <$> bget k m.
Proof. induction m as [|[k' v] m IH]; [done|]. cbn. rewrite IH. by destruct (bytes_cmp k k'). Qed.

Lemma In_bget_some {V} k (m : list (bytes * V)) : In k (map fst m) -> exists v, bget k m = Some v.
Proof.
  induction m as [|[k' v] m IH]; [done|]. cbn [map fst In bget]. intros [->|Hin].
  - exists v. by rewrite kcmp_refl.
  - destruct (kcmp k k'); [by exists v|by apply IH..].
Qed.

Lemma plain_key_spec k : plain_key k = true -> is_ascii k = true /\ k <> "__proto__" /\ array_index k = None.
Proof.
  unfold plain_key, eqs. rewrite !andb_true_iff, negb_true_iff, bool_decide_eq_false.
  intros [[Ha Hp] Hi]. by destruct (array_index k).
Qed.

(** The members of an object in a given order of its keys. *)
Lemma stringify_members `{JL : !JsTextLaws} (m : list (bytes * json)) ks :
  Forall (fun k => exists v, bget k m = Some v /\ canonicalJson v = canonical_json v) ks ->
  map (fun kv => js_string kv.1 ++ ":" ++ kv.2)
    (map (fun kv => (kv.1, stringify kv.2))
       (omap (fun k => v ← bget k (map (fun kv => (kv.1, sortJson kv.2)) m); Some (k, v)) ks))
  = map (fun k => quote k ++ ":" ++ default [] (bget k (map (fun kv => (kv.1, canonical_json kv.2)) m))) ks.
Proof.
  induction 1 as [|k ks (v & Hv & E) _ IH]; [done|]. cbn [omap list_omap map].
  rewrite !bget_map_values, Hv. cbn [fmap option_fmap option_map mbind option_bind map fst snd default from_option].
  rewrite IH, js_string_quote. f_equal. by rewrite <-E.
Qed.

(** An object with plain keys, sorted. *)
Lemma sortJson_object (m : list (bytes * json)) :
  NoDup (map fst m) -> Forall (fun k => plain_key k = true) (map fst m) ->
  sortJson (Object m)
    = Object (omap (fun k => v ← bget k (map (fun kv => (kv.1, sortJson kv.2)) m); Some (k, v)) (sort_keys (map fst m))).
Proof.
  intros Hnd Hk. cbn [sortJson]. unfold object_keys. rewrite property_order_plain.
  2: { apply Forall_map in Hk. eapply Forall_impl; [|exact Hk]. intros kv Hp. by destruct (plain_key_spec _ Hp) as (_ & _ & ?). }
  rewrite sort_units_ascii by (eapply Forall_impl; [|exact Hk]; intros k Hp; by destruct (plain_key_spec _ Hp) as (? & _ & _)).
  f_equal. rewrite assign_all; [done|by rewrite sort_keys_perm| |by intros k _ []].
  rewrite sort_keys_perm. apply Forall_forall. intros k Hin. rewrite Forall_forall in Hk. split.
  - by destruct (plain_key_spec k (Hk k Hin)) as (_ & ? & _).
  - rewrite bget_map_values. destruct (In_bget_some k m Hin) as [v ->]. by eexists.
Qed.

Lemma canonicalJson_object `{JL : !JsTextLaws} (m : list (bytes * json)) :
  NoDup (map fst m) -> Forall (fun kv => plain_key kv.1 = true /\ canonicalJson kv.2 = canonical_json kv.2) m ->
  canonicalJson (Object m) = canonical_json (Object m).
Proof.
  intros Hnd Hm.
  assert (Hk : Forall (fun k => plain_key k = true) (map fst m))
    by (apply Forall_map; eapply Forall_impl; [|exact Hm]; cbn; tauto).
  unfold canonicalJson. rewrite sortJson_object by done. cbn [stringify canonical_json].
  rewrite property_order_plain.
  - rewrite stringify_members; [done|]. rewrite sort_keys_perm. apply Forall_forall. intros k Hin.
    destruct (In_bget_some k m Hin) as [v Hv]. exists v. split; [done|].
    rewrite Forall_forall in Hm. by apply (Hm (k, v)), In_bget.
  - apply Forall_map. apply Forall_forall. intros kv Hin%list_elem_of_In. apply list_elem_of_omap in Hin as (k & Hin & E).
    cbn [fst]. destruct (bget k _) as [v|] in E; [|done]. injection E as <-. cbn [fst].
    rewrite sort_keys_perm in Hin. apply list_elem_of_In in Hin. rewrite Forall_forall in Hk.
    by destruct (plain_key_spec k (Hk k Hin)) as (_ & _ & ?).
Qed.

(** The canonical texts agree on plain values. *)
Lemma canonicalJson_agrees `{JL : !JsTextLaws} (v : json) : plain v -> canonicalJson v = canonical_json v.
Proof.
  induction v as [|b|n|s|l IH|m IH] using value_ind'; intros Hv; inversion Hv as [| |n' Hn| |l' Hl|m' Hnd Hm]; subst.
  - done.
  - done.
  - exact Hn.
  - apply js_string_quote.
  - unfold canonicalJson. cbn [sortJson stringify canonical_json]. rewrite map_map. do 3 f_equal.
    clear Hv. induction Hl as [|v l Hv Hl IHl]; [done|]. apply Forall_cons_iff in IH as [IHv IH]. cbn [map].
    f_equal; [by apply IHv|by apply IHl].
  - apply canonicalJson_object; [done|]. clear Hv Hnd. induction Hm as [|kv m [Hk Hv] Hm IHm]; [constructor|].
    apply Forall_cons_iff in IH as [IHv IH]. constructor; [split; [done|by apply IHv]|by apply IHm].
Qed.
End Agreement.

(** * Property *)

(** C22. The two sides part on keys that are array indices: the enclave sorts
    ["10"] before ["2"], JavaScript lists ["2"] first whatever the order of
    insertion, so the same object has two canonical texts. *)
Theorem index_keys_diverge `{SJ : SerdeJson} `{SJL : !SerdeJsonLaws} `{JT : !JsText} `{JL : !JsTextLaws} :
  let v := json_object [("2", json_int 1); ("10", json_int 1)] in
  canonical_json v = "{" ++ quote "10" ++ ":1," ++ quote "2" ++ ":1}"
  /\ canonicalJson v = "{" ++ quote "2" ++ ":1," ++ quote "10" ++ ":1}"
  /\ canonical_json v <> canonicalJson v.
Proof.
  cbv zeta.
  assert (A : canonical_json (json_object [("2", json_int 1); ("10", json_int 1)])
    = "{" ++ quote "10" ++ ":1," ++ quote "2" ++ ":1}").
  { cbn -[quote json_int]. unfold json_int. cbn [canonical_json]. rewrite number_to_string_int by lia.
    change (show_Z 1) with ("1" : bytes). repeat (rewrite <-!app_assoc; cbn [app]). done. }
  assert (B : canonicalJson (json_object [("2", json_int 1); ("10", json_int 1)])
    = "{" ++ quote "2" ++ ":1," ++ quote "10" ++ ":1}").
  { change (canonicalJson (json_object [("2", json_int 1); ("10", json_int 1)]))
      with ("{" ++ ((js_string "2" ++ ":" ++ js_number (number_from_i64 1)) ++ ","
              ++ (js_string "10" ++ ":" ++ js_number (number_from_i64 1))) ++ "}").
    rewrite !js_string_quote, js_number_int by lia.
    change (show_Z 1) with ("1" : bytes). repeat (rewrite <-!app_assoc; cbn [app]). done. }
  split; [exact A|]. split; [exact B|]. rewrite A, B. cbn [app]. intros [= E]. by apply quote_prefix in E as [E _].
Qed.

(** * Sample and witness *)

(** JavaScript on the integers a double holds exactly. *)
#[export] Instance SampleJs : JsText := {| js_number := show_int; js_string := sample_quote |}.

#[export] Instance SampleJsLaws : JsTextLaws.
Proof.
  assert (E : forall z, (0 <= z < 2 ^ 53)%Z -> show_int z = show_Z z)
    by (intros z Hz; unfold show_int; by rewrite (proj2 (Z.ltb_ge _ _)) by lia).
  by split.
Qed.

Lemma index_keys_diverge_witness :
  canonical_json (json_object [("2", json_int 1); ("10", json_int 1)])
    <> canonicalJson (json_object [("2", json_int 1); ("10", json_int 1)]).
Proof. exact (proj2 (proj2 index_keys_diverge)). Defined.
