(* ===== verification/Verifier.v ===== *)
(** The verifier's side of a proof ([src/verifier], TypeScript): the wire
    envelope ([verifyWireEnvelope]), the statement built again
    ([buildV2Statement]), the signature check ([verifySignatureCheck]), the
    nonce, host and request checks of [verifyTeeExchange], and the envelope of
    the field claims ([validateFieldClaimsEnvelope]); and the proof that what
    the enclave writes passes them.

    A missing property of a JavaScript object reads as [undefined]: [None]
    here.  [String(n)] of two numbers agrees exactly when [===] does, so numbers
    are compared by their text.  [toLowerCase] and [toUpperCase] are the Unicode
    case conversions, as Rust's are. *)

From S2P Require Import Prelude RustStr BTree Json Digest Paths Base64 Protocol Collector Statement Sample.
From S2P Require Import Io Evidence Metrics Trailer JsJson.
From S2P Require AliyunHelper.
Local Open Scope bytes_scope.

(** [node:crypto] and [Buffer]: decoding base64 (never an error), and reading a
    public key in DER form ([None] when it throws). *)
Class NodeCrypto := {
  buffer_from_base64 : bytes -> bytes;
  create_public_key : bytes -> option bytes;
}.

Class NodeCryptoLaws `{NodeCrypto} `{Base64} : Prop := {
  buffer_from_base64_encode b : buffer_from_base64 (b64_encode b) = b;
  create_public_key_spki pk : length pk = 32 -> create_public_key (spki_prefix ++ pk) = Some pk;
}.

Section Verifier.
Context `{SJ : SerdeJson} `{JT : !JsText} `{SH : Sha256} `{UC : UnicodeCase} `{ED : Ed25519} `{B64 : Base64}
  `{NC : NodeCrypto}.
Abbreviation json := (value number).

(** * The statement *)

Definition pathWithoutQuery (path : bytes) : bytes :=
  match find_byte path Byte.x3f with
  | Some q => take q path
  | None => path
  end.

Record V2StatementFields := mkFields {
  nonceB64 : bytes;
  upstreamHost : bytes;
  upstreamPath : bytes;
  httpMethod : bytes;
  httpStatus : number;
  respContentType : bytes;
  requestBodySha256Hex : bytes;
  responseBodySha256Hex : bytes;
  fieldClaims : option json;
}.

Definition buildV2Statement (f : V2StatementFields) : bytes :=
  let lines := [
    "tee-exchange-v2";
    "nonce=" ++ nonceB64 f;
    "upstream-host=" ++ to_lowercase (upstreamHost f);
    "upstream-path=" ++ pathWithoutQuery (upstreamPath f);
    "http-method=" ++ to_uppercase (httpMethod f);
    "http-status=" ++ js_number (httpStatus f);
    "resp-content-type=" ++ respContentType f;
    "request-body-sha256=" ++ requestBodySha256Hex f;
    "response-body-sha256=" ++ responseBodySha256Hex f] in
  let lines := match fieldClaims f with
               | Some claims => lines ++ ["field-claims-sha256=" ++ fieldClaimsSha256Hex claims]
               | None => lines
               end in
  join [] (map (fun l => l ++ [Byte.x0a]) lines).

(** * The wire *)

Definition MAX_PROOF_STRING_BYTES : Z := 1024 * 1024.

Definition REQUIRED_PROOF_STRING_FIELDS : list bytes :=
  ["public_key"; "nonce"; "upstream_host"; "upstream_path"; "http_method"; "resp_content_type";
   "request_body_sha256"; "response_body_sha256"; "signature"; "attestation"].

Definition stringField (v : json) (field : bytes) : option bytes := value_get field v ≫= as_str.
Definition numberField (v : json) (field : bytes) : option number :=
  n ← value_get field v; match n with Number n => Some n | _ => None end.
Definition booleanField (v : json) (field : bytes) : option bool := value_get field v ≫= as_bool.

Definition isRecord (v : json) : bool := match v with Object _ => true | _ => false end.

(** [/^[0-9a-f]{64}$/]. *)
Definition is_sha256_hex (s : bytes) : bool :=
  (length s =? 64)%nat && forallb (fun b => is_digit b || in_range 97 102 b) s.

(** An integer status code: its text is that of an integer in the range. *)
Definition is_http_status (n : number) : bool :=
  match from_str_radix 10 u64_max (js_number n) with
  | Ok z => ((100 <=? z) && (z <=? 599))%Z
  | Err _ => false
  end.

(** [ok] of the check: no error has been pushed. *)
Definition verifyWireEnvelope (proof : json) : bool :=
  isRecord proof
  && match numberField proof "v" with Some n => eqs (js_number n) "2" | None => false end
  && match stringField proof "alg" with Some a => eqs a "ed25519" | None => false end
  && forallb (fun field =>
       match stringField proof field with
       | Some s => (zlen s <=? MAX_PROOF_STRING_BYTES)%Z
       | None => false
       end) REQUIRED_PROOF_STRING_FIELDS
  && match numberField proof "http_status" with Some n => is_http_status n | None => false end
  && match value_get "profile" proof with None | Some (Str _) => true | Some _ => false end
  && match value_get "evidence" proof with None => true | Some e => isRecord e end
  && match value_get "field_claims" proof with None => true | Some c => isRecord c end
  && match stringField proof "request_body_sha256" with Some h => is_sha256_hex h | None => true end
  && match stringField proof "response_body_sha256" with Some h => is_sha256_hex h | None => true end.

(** A proof that has passed it, as the type [TeeProofWire] has it. *)
Record TeeProofWire := mkWire {
  w_public_key : bytes;
  w_nonce : bytes;
  w_upstream_host : bytes;
  w_upstream_path : bytes;
  w_http_method : bytes;
  w_http_status : number;
  w_resp_content_type : bytes;
  w_request_body_sha256 : bytes;
  w_response_body_sha256 : bytes;
  w_signature : bytes;
  w_field_claims : option json;
}.

Definition wire_of (proof : json) : option TeeProofWire :=
  pk ← stringField proof "public_key"; n ← stringField proof "nonce";
  h ← stringField proof "upstream_host"; p ← stringField proof "upstream_path";
  m ← stringField proof "http_method"; st ← numberField proof "http_status";
  ct ← stringField proof "resp_content_type"; rq ← stringField proof "request_body_sha256";
  rs ← stringField proof "response_body_sha256"; sg ← stringField proof "signature";
  Some (mkWire pk n h p m st ct rq rs sg (value_get "field_claims" proof)).

(** * The checks of an exchange *)

Definition verifySignatureCheck (t : TeeProofWire) (response_body : bytes) (advisory_body_hash : bool) : bool :=
  let statement := buildV2Statement
    (mkFields (w_nonce t) (w_upstream_host t) (w_upstream_path t) (w_http_method t) (w_http_status t)
       (w_resp_content_type t) (w_request_body_sha256 t) (w_response_body_sha256 t) (w_field_claims t)) in
  match create_public_key (buffer_from_base64 (w_public_key t)) with
  | None => false
  | Some pub =>
      if negb (ed_verify pub statement (buffer_from_base64 (w_signature t))) then false
      else
        let body_ok := eqs (sha256_hex response_body) (w_response_body_sha256 t) in
        if negb body_ok then advisory_body_hash else true
  end.

(** The freshness of the nonce, when the caller gives one (a non-empty text). *)
Definition nonce_check (t : TeeProofWire) (expected : option bytes) : bool :=
  match expected with
  | Some ([] as e) => true
  | Some e => eqs (w_nonce t) e
  | None => true
  end.

(** The upstream host, when the caller expects one. *)
Definition host_check (t : TeeProofWire) (expected : option bytes) : bool :=
  match expected with
  | Some ([] as e) => true
  | Some e => eqs (to_lowercase (w_upstream_host t)) (to_lowercase e)
  | None => true
  end.

(** The request body, when the caller has it; advisory when there are claims. *)
Definition request_check (t : TeeProofWire) (request_body : option bytes) : bool :=
  match request_body with
  | Some b => match w_field_claims t with
              | Some _ => true
              | None => eqs (sha256_hex b) (w_request_body_sha256 t)
              end
  | None => true
  end.

(** * The envelope of the claims *)

Definition protocolFamilyFromValue (v : option json) : bytes :=
  let s := match v with Some (Str s) => s | _ => "unknown" end in
  if bool_decide (In s SUPPORTED_PROTOCOLS) then s else "unknown".

(** The registry is the file the enclave includes; [None] where it throws. *)
Definition fieldPolicyId (protocol : bytes) : option bytes :=
  if eqs protocol "unknown" then Some (protocol ++ "." ++ policy field_policy_registry ++ "@unknown")
  else match field_policy_version protocol with
       | None | Some [] => None
       | Some version => Some (protocol ++ "." ++ policy field_policy_registry ++ "@" ++ version)
       end.

(** [false] where it throws. *)
Definition validateFieldClaimsEnvelope (protocol : bytes) (claims : json) (proof : TeeProofWire) : bool :=
  let has field text := bool_decide (stringField claims field = Some text) in
  has "request_schema_version" (protocol ++ ".v1")
  && has "response_schema_version" (protocol ++ ".v1")
  && match fieldPolicyId protocol with Some id => has "field_policy_id" id | None => false end
  && has "assurance_level" "strong"
  && bool_decide (booleanField claims "cross_protocol" = Some false)
  && bool_decide (booleanField claims "semantic_equivalence_not_proven" = Some false)
  && has "body_hash_policy" "advisory"
  && has "request_body_sha256_severity" "advisory"
  && has "response_body_sha256_severity" "advisory"
  && has "nonce" (w_nonce proof)
  && has "upstream_host" (to_lowercase (w_upstream_host proof))
  && has "upstream_path" (pathWithoutQuery (w_upstream_path proof))
  && has "http_method" (to_uppercase (w_http_method proof))
  && match numberField claims "http_status" with
     | Some n => eqs (js_number n) (js_number (w_http_status proof))
     | None => false
     end.

(** The first steps of [verifyFieldClaims], up to the views of the bodies: the
    protocol they go on with, [None] where they throw. *)
Definition claims_protocol (claims : json) (proof : TeeProofWire) : option bytes :=
  if negb (isRecord claims) then None
  else
    let protocol := protocolFamilyFromValue (value_get "protocol_family" claims) in
    if eqs protocol "unknown" then None
    else if negb (bool_decide (stringField claims "proof_type" = Some "field-proof")) then None
    else if negb (bool_decide (stringField claims "verification_mode" = Some "field_claims")) then None
    else if negb (validateFieldClaimsEnvelope protocol claims proof) then None
    else Some protocol.

(** * Lemmas *)

Section Agreement.
Context `{JL : !JsTextLaws}.

Lemma sorted_NoDup {V} (m : list (bytes * V)) : sorted m -> NoDup (map fst m).
Proof.
  induction 1 as [|k v m Hk _ IH]; cbn [map fst]; constructor; [|done].
  intros Hin%list_elem_of_In. apply in_map_iff in Hin as ([k' v'] & <- & Hin). rewrite Forall_forall in Hk.
  specialize (Hk _ Hin). cbn [fst] in Hk. by rewrite kcmp_refl in Hk.
Qed.

Lemma plain_json_object (l : list (bytes * json)) :
  Forall (fun kv => plain_key kv.1 = true /\ plain kv.2) l -> plain (json_object l).
Proof.
  intros Hl. unfold json_object. constructor; [apply sorted_NoDup, sorted_bextend; constructor|].
  by apply Forall_bextend.
Qed.

Lemma plain_int z : (0 <= z < 2 ^ 53)%Z -> plain (json_int z).
Proof. intros Hz. constructor. by rewrite js_number_int, number_to_string_int. Qed.

(** The claims of the enclave are plain. *)
Lemma plain_claims head norm_method status protocol rq rs streaming c :
  (0 <= status <= u16_max)%Z ->
  build_field_claims_from_views head norm_method status protocol rq rs streaming = Some c -> plain c.
Proof.
  intros Hst. unfold build_field_claims_from_views.
  destruct (negb (has_required_presence protocol "request" rq)); [done|].
  destruct (negb (has_required_presence protocol "response" rs)); [done|]. cbv zeta.
  destruct (field_policy_version protocol) as [version|]; [|done]. intros [= <-].
  unfold u16_max in Hst. apply plain_json_object.
  repeat (constructor; [split; [reflexivity|first [apply plain_int; lia|constructor]]|]). constructor.
Qed.

(** ** The statement *)

Lemma join_nil ls : join [] ls = concat ls.
Proof.
  induction ls as [|l [|l' ls] IH]; [done|cbn; by rewrite app_nil_r|].
  change (join [] (l :: l' :: ls)) with (l ++ [] ++ join [] (l' :: ls)). by rewrite IH.
Qed.

Lemma buildV2Statement_agrees nonce host path method status ct rq rs claims :
  (0 <= status <= u16_max)%Z -> (forall c, claims = Some c -> plain c) ->
  buildV2Statement (mkFields nonce host path method (number_from_i64 status) ct rq rs claims)
    = build_v2_statement nonce host path method status ct rq rs claims.
Proof.
  intros Hst Hc. rewrite build_v2_statement_lines. unfold buildV2Statement, unlines, statement_lines.
  cbn [nonceB64 upstreamHost upstreamPath httpMethod httpStatus respContentType requestBodySha256Hex
       responseBodySha256Hex fieldClaims].
  rewrite join_nil, js_number_int by (unfold u16_max in Hst; lia).
  destruct claims as [c|]; [|done]. unfold fieldClaimsSha256Hex, field_claims_sha256_hex.
  by rewrite canonicalJson_agrees by auto.
Qed.

(** ** The wire *)

Lemma is_sha256_hex_digest `{SL : !Sha256Laws} b : is_sha256_hex (sha256_hex b) = true.
Proof.
  unfold is_sha256_hex. rewrite sha256_hex_length. cbn [Nat.eqb andb]. unfold sha256_hex, hex.
  generalize (sha_digest b). intros d. induction d as [|x d IH]; [done|]. cbn [map concat].
  rewrite forallb_app, IH, andb_true_r. by destruct x.
Qed.

(** The texts of a trailer that are not of a fixed length. *)
Definition wire_texts (local : LocalEvidenceBackend) (x : Exchange) (norm_host norm_path sig : bytes) (ev : Evidence)
    : list bytes :=
  [b64_encode (spki local); nonce (x_head x); norm_host; norm_path; x_norm_method x; x_content_type x;
   b64_encode sig; b64_encode (attestation ev)].

(** An exchange whose trailer the verifier can take. *)
Record verifiable (local : LocalEvidenceBackend) (x : Exchange) (norm_host norm_path sig : bytes) (ev : Evidence)
    (req_body resp_body : bytes) : Prop := {
  vf_status : (100 <= x_status x <= 599)%Z;
  vf_texts : Forall (fun s => (zlen s <= MAX_PROOF_STRING_BYTES)%Z) (wire_texts local x norm_host norm_path sig ev);
  vf_request : x_req_body_hex x = sha256_hex req_body;
  vf_response : x_resp_body_hex x = sha256_hex resp_body;
  vf_claims c : x_field_claims x = Some c -> plain c /\ isRecord c = true;
}.

Lemma local_trailer_number local x nh np sig ev k z :
  bool_decide (In k optional_members) = false ->
  bget k (bextend [] (trailer_members local x nh np sig ev)) = Some (json_int z) ->
  numberField (local_trailer local x nh np sig ev) k = Some (number_from_i64 z).
Proof. intros Hk E. unfold numberField. by rewrite (local_trailer_get _ _ _ _ _ _ _ _ Hk E). Qed.

Lemma local_trailer_text local x nh np sig ev k str :
  bool_decide (In k optional_members) = false ->
  bget k (bextend [] (trailer_members local x nh np sig ev)) = Some (Str str) ->
  stringField (local_trailer local x nh np sig ev) k = Some str.
Proof. intros Hk E. unfold stringField. by rewrite (local_trailer_get _ _ _ _ _ _ _ _ Hk E). Qed.

Lemma verifyWireEnvelope_trailer `{SL : !Sha256Laws} local x nh np sig ev rq rs :
  verifiable local x nh np sig ev rq rs -> verifyWireEnvelope (local_trailer local x nh np sig ev) = true.
Proof.
  intros [Hst Htexts Hrq Hrs Hcl]. set (t := local_trailer local x nh np sig ev).
  pose proof (local_trailer_text local x nh np sig ev) as Str_. fold t in Str_.
  unfold wire_texts in Htexts. rewrite !Forall_cons_iff in Htexts.
  destruct Htexts as (S1 & S2 & S3 & S4 & S5 & S6 & S7 & S8 & _).
  unfold verifyWireEnvelope.
  change (isRecord t) with true.
  rewrite (local_trailer_number local x nh np sig ev "v" 2 eq_refl eq_refl : numberField t "v" = _).
  rewrite js_number_int by lia. change (eqs (show_Z 2) "2") with true.
  rewrite (Str_ "alg" "ed25519" eq_refl eq_refl). change (eqs "ed25519" "ed25519") with true.
  assert (Texts : forallb (fun field => match stringField t field with
       | Some s => (zlen s <=? MAX_PROOF_STRING_BYTES)%Z | None => false end) REQUIRED_PROOF_STRING_FIELDS = true).
  { cbn [REQUIRED_PROOF_STRING_FIELDS forallb]. rewrite !andb_true_iff.
    repeat split; erewrite Str_ by reflexivity; apply Z.leb_le; try assumption;
      rewrite ?Hrq, ?Hrs; unfold zlen; rewrite sha256_hex_length; unfold MAX_PROOF_STRING_BYTES; lia. }
  rewrite Texts. clear Texts.
  rewrite (local_trailer_number local x nh np sig ev "http_status" (x_status x) eq_refl eq_refl : numberField t "http_status" = _).
  unfold is_http_status. rewrite js_number_int, from_str_radix_show by (unfold u64_max; lia).
  rewrite (proj2 (Z.leb_le 100 _)), (proj2 (Z.leb_le _ 599)) by lia.
  rewrite (local_trailer_profile local x nh np sig ev : value_get "profile" t = _).
  rewrite (local_trailer_get local x nh np sig ev "evidence" None eq_refl eq_refl : value_get "evidence" t = _).
  rewrite (local_trailer_claims local x nh np sig ev : value_get "field_claims" t = _).
  rewrite (Str_ "request_body_sha256" (x_req_body_hex x) eq_refl eq_refl).
  rewrite (Str_ "response_body_sha256" (x_resp_body_hex x) eq_refl eq_refl).
  rewrite Hrq, Hrs, !is_sha256_hex_digest.
  assert (C : match x_field_claims x with Some c => isRecord c | None => true end = true)
    by (destruct (x_field_claims x) as [c|]; [by apply Hcl|done]).
  rewrite C. by destruct (eqs (profile ev) "nitro").
Qed.

(** What the verifier reads of a trailer. *)
Lemma wire_of_trailer local x nh np sig ev :
  wire_of (local_trailer local x nh np sig ev)
    = Some (mkWire (b64_encode (spki local)) (nonce (x_head x)) nh np (x_norm_method x) (number_from_i64 (x_status x))
        (x_content_type x) (x_req_body_hex x) (x_resp_body_hex x) (b64_encode sig) (x_field_claims x)).
Proof.
  unfold wire_of.
  rewrite local_trailer_claims.
  do 5 (erewrite (local_trailer_text local x nh np sig ev) by reflexivity; cbn [mbind option_bind]).
  rewrite (local_trailer_number local x nh np sig ev "http_status" (x_status x)) by reflexivity. cbn [mbind option_bind].
  do 4 (erewrite (local_trailer_text local x nh np sig ev) by reflexivity; cbn [mbind option_bind]).
  done.
Qed.

(** ** The envelope of the claims *)

Lemma is_ascii_lower s : is_ascii s = true -> is_ascii (to_ascii_lowercase s) = true.
Proof.
  unfold is_ascii, to_ascii_lowercase. rewrite !forallb_forall. intros Hs b (x & <- & Hx%Hs)%in_map_iff. by destruct x.
Qed.

Lemma ascii_lower_again s : is_ascii s = true -> to_lowercase (to_lowercase s) = to_ascii_lowercase s.
Proof.
  intros Hs. unfold to_lowercase at 2. rewrite Hs. unfold to_lowercase. rewrite is_ascii_lower by done.
  unfold to_ascii_lowercase. rewrite map_map. apply map_ext. by intros [].
Qed.

Lemma ascii_upper_again s : is_ascii s = true ->
  to_uppercase (to_uppercase s) = to_ascii_uppercase s /\ to_ascii_uppercase (to_uppercase s) = to_ascii_uppercase s.
Proof.
  intros Hs. unfold to_uppercase at 2 3. rewrite Hs. unfold to_uppercase.
  assert (E : is_ascii (to_ascii_uppercase s) = true).
  { unfold is_ascii, to_ascii_uppercase in *. rewrite forallb_forall in *. intros b (x & <- & Hx%Hs)%in_map_iff. by destruct x. }
  rewrite E. unfold to_ascii_uppercase. rewrite !map_map. split; apply map_ext; by intros [].
Qed.

Lemma pathWithoutQuery_again p : pathWithoutQuery (path_no_query p) = path_no_query p.
Proof.
  assert (E : find_byte (path_no_query p) Byte.x3f = None); [|unfold pathWithoutQuery; by rewrite E].
  unfold path_no_query. induction p as [|b p IH]; [done|]. cbn [find_byte].
  destruct (Byte.eqb b Byte.x3f) eqn:E; [done|].
  destruct (find_byte p Byte.x3f) as [q|] eqn:Eq; cbn [option_map take find_byte]; rewrite E; [by rewrite IH|by rewrite Eq].
Qed.

(** The claims of the enclave go with its trailer. *)
Lemma claims_protocol_trailer head status protocol rq rs streaming c w :
  In protocol SUPPORTED_PROTOCOLS ->
  build_field_claims_from_views head (to_uppercase (method (upstream head))) status protocol rq rs streaming = Some c ->
  is_ascii (host (upstream head)) = true -> is_ascii (method (upstream head)) = true ->
  w_nonce w = nonce head -> w_upstream_host w = to_lowercase (host (upstream head)) ->
  w_upstream_path w = path_no_query (path (upstream head)) -> w_http_method w = to_uppercase (method (upstream head)) ->
  w_http_status w = number_from_i64 status ->
  isRecord c = true /\ claims_protocol c w = Some protocol.
Proof.
  intros Hin. unfold build_field_claims_from_views.
  destruct (negb (has_required_presence protocol "request" rq)); [done|].
  destruct (negb (has_required_presence protocol "response" rs)); [done|]. cbv zeta.
  rewrite (registry_covers protocol Hin). cbn [mbind option_bind].
  intros [= <-] Hh Hm Hn Hwh Hwp Hwm Hws. split; [reflexivity|]. unfold claims_protocol, protocolFamilyFromValue.
  match goal with |- context [isRecord ?o] => set (o' := o) end.
  change (isRecord o') with true. cbn [negb].
  change (value_get "protocol_family" o') with (Some (@Str number protocol)). cbv iota.
  rewrite bool_decide_true by done.
  assert (Hu : eqs protocol "unknown" = false).
  { unfold eqs. apply bool_decide_eq_false. intros ->. cbn in Hin. intuition discriminate. }
  rewrite Hu. change (stringField o' "proof_type") with (Some ("field-proof" : bytes)).
  change (stringField o' "verification_mode") with (Some ("field_claims" : bytes)).
  rewrite !bool_decide_true by done. cbn [negb].
  unfold validateFieldClaimsEnvelope, fieldPolicyId. rewrite Hu, (registry_covers protocol Hin). cbv iota.
  rewrite Hwh, Hwp, Hwm, Hws, Hn, ascii_lower_again, (proj1 (ascii_upper_again _ Hm)), pathWithoutQuery_again by done.
  change (numberField o' "http_status") with (Some (number_from_i64 status)).
  rewrite !bool_decide_true; [|first [reflexivity|unfold o'; cbn; f_equal; apply (proj2 (ascii_upper_again _ Hm))]..].
  cbn [andb]. unfold eqs. by rewrite bool_decide_true.
Qed.

(** ** Claims of a collector *)

Lemma registry_only protocol version : field_policy_version protocol = Some version -> In protocol SUPPORTED_PROTOCOLS.
Proof. intros H%In_bget. vm_compute in H. intuition (simplify_eq; cbn; tauto). Qed.

Lemma collect_claims `{EN : Env} head req_body ct m status pieces c :
  collect head req_body ct m status pieces = Some c ->
  exists protocol rq rs streaming, In protocol SUPPORTED_PROTOCOLS
    /\ build_field_claims_from_views head m status protocol rq rs streaming = Some c.
Proof.
  unfold collect, collector_finish. destruct (collector_new head req_body ct) as [c0|]; [|done]. cbn [mbind option_bind].
  set (c1 := fold_left _ _ _). destruct (body_finish _ _ _) as [[rs streaming]|]; [|done]. cbn [mbind option_bind].
  intros H. exists (protocol c1), (req_view c1), rs, streaming. split; [|done].
  unfold build_field_claims_from_views in H.
  destruct (negb (has_required_presence _ "request" _)); [done|].
  destruct (negb (has_required_presence _ "response" _)); [done|]. cbv zeta in H.
  destruct (field_policy_version (protocol c1)) as [version|] eqn:E; [|done]. by eapply registry_only.
Qed.

(** * Properties *)

(** C16. The enclave and the verifier hash the claims alike: for every claims
    object a collector makes, [fieldClaimsSha256Hex] of the verifier, over its
    own order of properties and its own sort, is [field_claims_sha256_hex] of
    the enclave, and so the verifier builds the very statement the enclave
    signed. *)
Theorem claims_hash_agrees `{EN : Env} head req_body ct m status pieces c :
  collect head req_body ct m status pieces = Some c -> (0 <= status <= u16_max)%Z ->
  fieldClaimsSha256Hex c = field_claims_sha256_hex c
  /\ forall nonce host path method rq rs,
       buildV2Statement (mkFields nonce host path method (number_from_i64 status) ct rq rs (Some c))
         = build_v2_statement nonce host path method status ct rq rs (Some c).
Proof.
  intros (protocol & rq & rs & streaming & _ & Hb)%collect_claims Hst.
  assert (Hp : plain c) by (by eapply plain_claims). split.
  - unfold fieldClaimsSha256Hex, field_claims_sha256_hex. f_equal. by apply canonicalJson_agrees.
  - intros. apply buildV2Statement_agrees; [done|]. by intros c' [= <-].
Qed.

(** What the signature check comes to for a proof signed with a key over the
    statement of an exchange. *)
Lemma verifySignatureCheck_signed `{EL : !Ed25519Laws} `{NL : !NodeCryptoLaws} key x norm_host norm_path b advisory :
  (0 <= x_status x <= u16_max)%Z -> (forall c, x_field_claims x = Some c -> plain c) ->
  verifySignatureCheck (mkWire (b64_encode (spki_prefix ++ verifying_key key)) (nonce (x_head x)) norm_host norm_path
      (x_norm_method x) (number_from_i64 (x_status x)) (x_content_type x) (x_req_body_hex x) (x_resp_body_hex x)
      (b64_encode (sk_sign key (exchange_statement x norm_host norm_path))) (x_field_claims x)) b advisory
    = eqs (sha256_hex b) (x_resp_body_hex x) || advisory.
Proof.
  intros Hst Hcl. unfold verifySignatureCheck.
  cbn [w_public_key w_nonce w_upstream_host w_upstream_path w_http_method w_http_status w_resp_content_type
       w_request_body_sha256 w_response_body_sha256 w_signature w_field_claims].
  rewrite !buffer_from_base64_encode, create_public_key_spki by apply verifying_key_length.
  rewrite buildV2Statement_agrees by done. unfold exchange_statement. rewrite ed_verify_sign. cbn [negb].
  by destruct (eqs _ _).
Qed.

Lemma verifySignatureCheck_trailer `{EL : !Ed25519Laws} `{NL : !NodeCryptoLaws} seed provider x ev rq_body resp_body b advisory :
  let local := build_local_evidence_backend seed provider in
  let norm_host := to_lowercase (host (upstream (x_head x))) in
  let norm_path := path_no_query (path (upstream (x_head x))) in
  let sig := sk_sign (sk local) (exchange_statement x norm_host norm_path) in
  verifiable local x norm_host norm_path sig ev rq_body resp_body ->
  verifySignatureCheck (mkWire (b64_encode (spki local)) (nonce (x_head x)) norm_host norm_path (x_norm_method x)
      (number_from_i64 (x_status x)) (x_content_type x) (x_req_body_hex x) (x_resp_body_hex x) (b64_encode sig)
      (x_field_claims x)) b advisory
    = eqs (sha256_hex b) (sha256_hex resp_body) || advisory.
Proof.
  cbv zeta. intros [Hst _ _ Hrs Hcl].
  etransitivity; [apply (verifySignatureCheck_signed (sk_from_bytes seed)); [unfold u16_max; lia|intros c Hc; by apply Hcl]|].
  by rewrite Hrs.
Qed.

(** The verifier accepts what the enclave writes: its trailer for an
    exchange with a status a verifier knows and texts within the limit passes
    the wire check, the signature check on the relayed body, the checks of the
    nonce and of the request body; and on any other body the signature check
    fails, unless SHA-256 has a collision. *)
Theorem verifier_accepts_trailer `{SL : !Sha256Laws} `{EL : !Ed25519Laws} `{NL : !NodeCryptoLaws}
    seed provider x ev rq_body resp_body :
  let local := build_local_evidence_backend seed provider in
  let norm_host := to_lowercase (host (upstream (x_head x))) in
  let norm_path := path_no_query (path (upstream (x_head x))) in
  let sig := sk_sign (sk local) (exchange_statement x norm_host norm_path) in
  let t := local_trailer local x norm_host norm_path sig ev in
  verifiable local x norm_host norm_path sig ev rq_body resp_body ->
  verifyWireEnvelope t = true
  /\ exists w, wire_of t = Some w
    /\ verifySignatureCheck w resp_body false = true
    /\ nonce_check w (Some (nonce (x_head x))) = true
    /\ request_check w (Some rq_body) = true
    /\ forall b, verifySignatureCheck w b false = true -> b = resp_body \/ sha_collision b resp_body.
Proof.
  cbv zeta. intros Hv. split; [by eapply verifyWireEnvelope_trailer|]. eexists. split; [apply wire_of_trailer|].
  split; [|split; [|split]].
  - rewrite (verifySignatureCheck_trailer _ _ _ _ _ _ _ _ Hv). unfold eqs. by rewrite bool_decide_true.
  - cbn [nonce_check w_nonce]. unfold eqs. destruct (nonce (x_head x)); [done|]. by rewrite bool_decide_true.
  - cbn [request_check w_field_claims w_request_body_sha256]. rewrite (vf_request _ _ _ _ _ _ _ _ Hv).
    destruct (x_field_claims x); [done|]. unfold eqs. by rewrite bool_decide_true.
  - intros b. rewrite (verifySignatureCheck_trailer _ _ _ _ _ _ _ _ Hv), orb_false_r.
    intros E%bool_decide_eq_true. by apply sha256_hex_inj.
Qed.
End Agreement.
End Verifier.

(** * Samples and witnesses *)

#[export] Instance SampleNode : NodeCrypto := {|
  buffer_from_base64 s := match rfc_decode s with Some b => b | None => [] end;
  create_public_key der := strip_prefix der spki_prefix |}.

#[export] Instance SampleNodeLaws : NodeCryptoLaws.
Proof.
  split.
  - intros b. pose proof (b64_decode_encode b) as H. cbn [b64_decode SampleBase64] in H.
    cbn [buffer_from_base64 SampleNode]. by destruct (rfc_decode (b64_encode b)) as [b'|]; [injection H as ->|].
  - intros pk _. by apply strip_prefix_spec.
Qed.

Section Witnesses.
#[local] Instance verifier_env : Env := fun _ => None.

Definition claimed_chunks : list bytes :=
  [js "{'model':'m','choices':[{'message':{'role':'assistant','content':'hi'}}]}"].

Lemma claims_hash_agrees_witness :
  exists c, collect (Collector.sample_head "/v1/chat/completions") sample_request "application/json" "POST" 200 claimed_chunks
      = Some c
    /\ fieldClaimsSha256Hex c = field_claims_sha256_hex c.
Proof.
  destruct (collect (Collector.sample_head "/v1/chat/completions") sample_request "application/json" "POST" 200 claimed_chunks)
    as [c|] eqn:E; [|vm_compute in E; discriminate].
  assert (B : (0 <= 200 <= u16_max)%Z) by (unfold u16_max; lia).
  exists c. split; [reflexivity|]. exact (proj1 (claims_hash_agrees _ _ _ _ _ _ _ E B)).
Defined.

Definition verified_exchange : Exchange :=
  mkExchange (x_head sample_exchange) "POST" 200 "text/plain" (sha256_hex "req") (sha256_hex "resp") None.

Definition verified_evidence : Evidence := mkEvidence "nitro" "document" None None [].

Lemma verified_exchange_ok :
  let local := build_local_evidence_backend ("seed" : bytes) sample_provider in
  verifiable local verified_exchange "api.example.com" "/v1/chat"
    (sk_sign (sk local) (exchange_statement verified_exchange "api.example.com" "/v1/chat")) verified_evidence "req" "resp".
Proof.
  cbv zeta. split; [cbn; lia| |reflexivity|reflexivity|done].
  unfold wire_texts. repeat (constructor; [apply (bool_decide_unpack _); vm_compute; exact I|]). constructor.
Qed.

Lemma verifier_accepts_trailer_witness :
  let local := build_local_evidence_backend ("seed" : bytes) sample_provider in
  verifyWireEnvelope (local_trailer local verified_exchange "api.example.com" "/v1/chat"
    (sk_sign (sk local) (exchange_statement verified_exchange "api.example.com" "/v1/chat")) verified_evidence) = true.
Proof.
  exact (proj1 (verifier_accepts_trailer "seed" sample_provider verified_exchange verified_evidence "req" "resp"
    verified_exchange_ok)).
Defined.
End Witnesses.
