(* ===== verification/JsViews.v ===== *)
(** The protocol views of the verifier ([verifier/field-proof.ts]): which
    members of a request or of a response count, and how the events of a
    streamed response are put together again, for the seven protocols.  The
    enclave has its own code for the same views (OpenAiChat.v to Cohere.v);
    JsAgree.v and JsStreams.v compare the two.

    Objects are the association lists of JsJson.v.  Reading an absent property
    gives [undefined], [None] here: the names read have no counterpart on
    [Object.prototype], and the prototype that a member [__proto__] would set is
    not modelled.  Every object these functions write to is one they made, so a
    write is an update of the one place that holds it.  A hole of an array and
    [undefined] in it are [Null]: no function tells them apart, nor does
    [JSON.stringify]. *)

From S2P Require Import Prelude RustStr BTree Json Digest Merge Paths Base64 Protocol Statement JsJson Verifier.
Local Open Scope bytes_scope.

(** * Numbers *)

(** Doubles as keys and indices: equality of the keys of a [Map], [a - b < 0],
    the array index a number names as a property key, [Number.isFinite]. *)
Class JsNumbers `{SerdeJson} := {
  js_same : number -> number -> bool;
  js_before : number -> number -> bool;
  js_array_index : number -> option nat;
  js_is_finite : number -> bool;
}.

Section Views.
Context `{SJ : SerdeJson} `{JN : !JsNumbers}.
Abbreviation json := (value number).
Abbreviation jmap := (list (bytes * value number)).

(** A count or a loop index as a number. *)
Definition js_int (z : Z) : number := number_from_i64 z.

Definition as_number (v : json) : option number := match v with Number n => Some n | _ => None end.

Definition numberOrDefault (v : option json) (fallback : number) : number :=
  match v ≫= as_number with
  | Some n => if js_is_finite n then n else fallback
  | None => fallback
  end.

(** * Objects and arrays *)

(** [Object.entries]. *)
Definition object_entries (m : jmap) : jmap := property_order m.

(** [{ ...target, ...source }]: own properties are copied, [__proto__] too. *)
Definition spread (target source : jmap) : jmap :=
  fold_left (fun t kv => assign_own kv.1 kv.2 t) (object_entries source) target.

(** A fresh copy [{ ...m }]. *)
Definition copy (m : jmap) : jmap := spread [] m.

Definition mergeObject (target source : jmap) : jmap :=
  fold_left (fun t kv => assign t kv.1 kv.2) (object_entries source) target.

(** [isRecord(o) ? { ...o } : {}]. *)
Definition record_or_new (o : option json) : jmap :=
  match o with Some (Object m) => copy m | _ => [] end.

(** [Array.isArray(o) ? o : []]. *)
Definition list_or_new (o : option json) : list json :=
  match o with Some (Array l) => l | _ => [] end.

(** [value !== null && value !== undefined]. *)
Definition present (v : json) : bool := negb (is_null v).

(** [[...].includes(key)]. *)
Definition includes (keys : list bytes) (key : bytes) : bool := existsb (eqs key) keys.

(** [l[index]] and [l[index] = v]; a number that is no array index makes a
    property that the copies of the array do not have. *)
Definition array_get (l : list json) (index : number) : option json :=
  i ← js_array_index index; l !! i.

Definition set_at (l : list json) (i : nat) (v : json) : list json :=
  <[i := v]> (l ++ repeat Null (S i - length l)).

Definition array_set (l : list json) (index : number) (v : json) : list json :=
  match js_array_index index with
  | Some i => set_at l i v
  | None => l
  end.

(** [items.map((item) => isRecord(item) ? { ...item } : item)]. *)
Definition copy_items (items : list json) : list json :=
  map (fun item => match item with Object m => Object (copy m) | _ => item end) items.

Fixpoint pick (v : json) (keys : list bytes) : json :=
  match v with
  | Array items => Array (map (fun item => pick item keys) items)
  | Object m =>
      Object (fold_left (fun out key =>
        match bget key m with
        | Some v => assign out key v
        | None => out
        end) keys [])
  | _ => v
  end.

Definition appendStringField (target : jmap) (field : bytes) (v : option json) : jmap :=
  match v ≫= as_str with
  | None => target
  | Some s =>
      assign target field (Str match bget field target ≫= as_str with
                               | Some existing => existing ++ s
                               | None => s
                               end)
  end.

Definition setStringField (target : jmap) (field : bytes) (v : option json) : jmap :=
  match v ≫= as_str with
  | None => target
  | Some s => assign target field (Str s)
  end.

Definition mergeNestedObject (target : jmap) (field : bytes) (v : option json) : jmap :=
  match v with
  | None => target
  | Some v =>
      match bget field target ≫= as_object, as_object v with
      | Some existing, Some incoming => assign target field (Object (spread (copy existing) incoming))
      | _, _ => assign target field v
      end
  end.

(** [if (source.key !== undefined) target.key = source.key]. *)
Definition copy_defined (key : bytes) (source target : jmap) : jmap :=
  match bget key source with
  | Some v => assign target key v
  | None => target
  end.

(** * Maps from numbers to objects *)

(** A [Map], in the order of insertion. *)
Abbreviation js_map := (list (number * list (bytes * value number))).

Definition map_get (n : number) (M : js_map) : option jmap :=
  snd <$> List.find (fun e => js_same e.1 n) M.

Fixpoint map_set (n : number) (o : jmap) (M : js_map) : js_map :=
  match M with
  | [] => [(n, o)]
  | e :: M => if js_same e.1 n then (e.1, o) :: M else e :: map_set n o M
  end.

(** [M.get(n) ?? fresh], changed by [f] and set again. *)
Definition map_update (n : number) (fresh : jmap) (f : jmap -> jmap) (M : js_map) : js_map :=
  map_set n (f (default fresh (map_get n M))) M.

(** [Array.prototype.sort], which is stable, by a comparison that is negative. *)
Fixpoint sort_insert {A} (negative : A -> A -> bool) (x : A) (l : list A) : list A :=
  match l with
  | [] => [x]
  | y :: l' => if negative y x then y :: sort_insert negative x l' else x :: l
  end.
Definition sort_by {A} (negative : A -> A -> bool) (l : list A) : list A := foldr (sort_insert negative) [] l.

(** [Array.from(M.entries()).sort(([a], [b]) => a - b).map(([, item]) => item)]. *)
Definition entries_by_key (M : js_map) : json :=
  Array (map (fun e => Object e.2) (sort_by (fun a b => js_before a.1 b.1) M)).

(** [Number(a.index) - Number(b.index)] is negative; the member is a number
    whenever it is compared. *)
Definition index_before (a b : jmap) : bool :=
  match bget "index" a ≫= as_number, bget "index" b ≫= as_number with
  | Some x, Some y => js_before x y
  | _, _ => false
  end.

(** [Array.from(M.values()).sort((a, b) => Number(a.index) - Number(b.index))]. *)
Definition values_by_index (M : js_map) : json :=
  Array (map Object (sort_by index_before (map snd M))).

(** * OpenAI chat completions *)

(** One member of a tool-call delta. *)
Definition toolCallMember (current : jmap) (kv : bytes * json) : jmap :=
  match (if eqs kv.1 "function" then as_object kv.2 else None) with
  | Some value =>
      let fn := record_or_new (bget "function" current) in
      let fn := appendStringField fn "name" (bget "name" value) in
      let fn := appendStringField fn "arguments" (bget "arguments" value) in
      assign current "function" (Object fn)
  | None => if negb (eqs kv.1 "index") then assign current kv.1 kv.2 else current
  end.

Definition mergeToolCall (out : list json) (raw : json) : list json :=
  match raw with
  | Object raw =>
      let index := default (js_int (zlen out)) (bget "index" raw ≫= as_number) in
      let current := record_or_new (array_get out index) in
      array_set out index (Object (fold_left toolCallMember (object_entries raw) current))
  | _ => out
  end.

Definition mergeToolCalls (existing : list json) (deltaValue : json) : list json :=
  match deltaValue with
  | Array deltas => fold_left mergeToolCall deltas (copy_items existing)
  | _ => existing
  end.

(** [if (source.tool_calls !== undefined) target.tool_calls = mergeToolCalls(..)]. *)
Definition merge_tool_calls_field (target source : jmap) : jmap :=
  match bget "tool_calls" source with
  | Some calls =>
      assign target "tool_calls" (Array (mergeToolCalls (list_or_new (bget "tool_calls" target)) calls))
  | None => target
  end.

Definition mergeOpenAIChatDelta (message delta : jmap) : jmap :=
  let message :=
    match bget "role" delta ≫= as_str with
    | Some role => if bhas "role" message then message else assign message "role" (Str role)
    | None => message
    end in
  let message := appendStringField message "content" (bget "content" delta) in
  let message := appendStringField message "reasoning_content" (bget "reasoning_content" delta) in
  merge_tool_calls_field message delta.

(** [{ index, message: {} }]. *)
Definition new_choice (index : number) : jmap := [("index", Number index); ("message", Object [])].

(** The object [choice.message], or a new one. *)
Definition message_of (choice : jmap) : jmap :=
  match bget "message" choice with Some (Object m) => m | _ => [] end.

Definition chat_choice (choice rawChoice : jmap) : jmap :=
  let message := message_of choice in
  let message := match bget "delta" rawChoice ≫= as_object with
                 | Some delta => mergeOpenAIChatDelta message delta
                 | None => message
                 end in
  let message := match bget "message" rawChoice ≫= as_object with
                 | Some m => mergeObject message m
                 | None => message
                 end in
  let choice := assign choice "message" (Object message) in
  let choice := match bget "finish_reason" rawChoice with
                | Some v => if present v then assign choice "finish_reason" v else choice
                | None => choice
                end in
  copy_defined "logprobs" rawChoice choice.

(** The loop body over [rawChoices]. *)
Definition chat_raw_choice (choices : js_map) (iraw : Z * json) : js_map :=
  match iraw.2 with
  | Object rawChoice =>
      let index := default (js_int iraw.1) (bget "index" rawChoice ≫= as_number) in
      map_update index (new_choice index) (fun choice => chat_choice choice rawChoice) choices
  | _ => choices
  end.

Definition chat_chunk (st : jmap * js_map) (chunk : json) : jmap * js_map :=
  match chunk with
  | Object chunk =>
      let out := match bget "model" chunk ≫= as_str with
                 | Some model => if bhas "model" st.1 then st.1 else assign st.1 "model" (Str model)
                 | None => st.1
                 end in
      let out := copy_defined "error" chunk (copy_defined "usage" chunk out) in
      (out, fold_left chat_raw_choice (enumerate (list_or_new (bget "choices" chunk))) st.2)
  | _ => st
  end.

(** [if (M.size > 0) out.key = ..]. *)
Definition close_map (key : bytes) (M : js_map) (sorted : json) (out : jmap) : jmap :=
  match M with
  | [] => out
  | _ => assign out key sorted
  end.

Definition aggregateOpenAIChatStream (chunks : list json) : json :=
  let '(out, choices) := fold_left chat_chunk chunks ([], []) in
  Object (close_map "choices" choices (values_by_index choices) out).

Definition openaiChatView (kind : bytes) (parsed : json) : json :=
  if eqs kind "request" then pick parsed ["model"; "messages"]
  else match parsed with
       | Array chunks => aggregateOpenAIChatStream chunks
       | _ => pick parsed ["model"; "choices"; "usage"; "error"]
       end.

(** * OpenAI responses *)

Definition responses_view_keys : list bytes := ["model"; "status"; "output"; "output_text"; "usage"; "error"].

(** The part is returned for the caller to write to, and it is the one in the
    content: those writes are [edit]. *)
Definition mergeOpenAIResponseContentPart (item : jmap) (rawIndex rawPart : option json) (edit : jmap -> jmap) : jmap :=
  let content := list_or_new (bget "content" item) in
  let index := numberOrDefault rawIndex (js_int (zlen content)) in
  let part := record_or_new (array_get content index) in
  let part := match rawPart ≫= as_object with
              | Some rawPart => mergeObject part rawPart
              | None => part
              end in
  assign item "content" (Array (array_set content index (Object (edit part)))).

(** [if (type.endsWith('.done')) setStringField(target, field, event[done]);
    else appendStringField(target, field, event.delta)]. *)
Definition done_or_delta (type field done_key : bytes) (event target : jmap) : jmap :=
  if ends_with type ".done" then setStringField target field (bget done_key event)
  else appendStringField target field (bget "delta" event).

(** The arms of [output_text], [refusal] and [reasoning_text]. *)
Definition responses_text (type part_type field : bytes) (event item : jmap) : jmap :=
  mergeOpenAIResponseContentPart item (bget "content_index" event) (Some (Object [("type", Str part_type)]))
    (done_or_delta type field field event).

Definition responses_event (st : jmap * js_map) (event : json) : jmap * js_map :=
  match event with
  | Object event =>
      let type := default "" (bget "type" event ≫= as_str) in
      let out := match bget "response" event with
                 | Some (Object _ as response) =>
                     match pick response responses_view_keys with
                     | Object picked => mergeObject st.1 picked
                     | _ => st.1
                     end
                 | _ => st.1
                 end in
      let items := st.2 in
      let index := numberOrDefault (bget "output_index" event) (js_int (zlen items)) in
      let on_item f := (out, map_update index [] f items) in
      if eqs type "response.output_item.added" || eqs type "response.output_item.done" then
        on_item (fun item => match bget "item" event ≫= as_object with
                             | Some raw => mergeObject item raw
                             | None => item
                             end)
      else if eqs type "response.content_part.added" || eqs type "response.content_part.done" then
        on_item (fun item =>
          mergeOpenAIResponseContentPart item (bget "content_index" event) (bget "part" event) (fun part => part))
      else if eqs type "response.output_text.delta" || eqs type "response.output_text.done" then
        on_item (responses_text type "output_text" "text" event)
      else if eqs type "response.refusal.delta" || eqs type "response.refusal.done" then
        on_item (responses_text type "refusal" "refusal" event)
      else if eqs type "response.reasoning_text.delta" || eqs type "response.reasoning_text.done" then
        on_item (responses_text type "reasoning_text" "text" event)
      else if eqs type "response.function_call_arguments.delta"
           || eqs type "response.function_call_arguments.done" then
        on_item (done_or_delta type "arguments" "arguments" event)
      else if eqs type "response.completed" && negb (bhas "status" out) then
        (assign out "status" (Str "completed"), items)
      else if eqs type "response.failed" then (copy_defined "error" event out, items)
      else (out, items)
  | _ => st
  end.

(** [!Array.isArray(out.output) || out.output.length === 0]. *)
Definition no_output (out : jmap) : bool :=
  match bget "output" out with
  | Some (Array (_ :: _)) => false
  | _ => true
  end.

Definition aggregateOpenAIResponsesStream (events : list json) : json :=
  let '(out, items) := fold_left responses_event events ([], []) in
  let out := if no_output out then close_map "output" items (entries_by_key items) out else out in
  pick (Object out) responses_view_keys.

Definition openaiResponsesView (kind : bytes) (parsed : json) : json :=
  if eqs kind "request" then pick parsed ["model"; "input"]
  else match parsed with
       | Array events => aggregateOpenAIResponsesStream events
       | _ => pick parsed responses_view_keys
       end.

(** * Anthropic messages *)

Definition anthropic_view_keys : list bytes :=
  ["type"; "role"; "model"; "content"; "stop_reason"; "usage"; "error"].

Definition map_has (n : number) (M : js_map) : bool := match map_get n M with Some _ => true | None => false end.

Definition seedAnthropicContentBlocks (blocks : js_map) (content : option json) : js_map :=
  fold_left (fun blocks ibl =>
    match ibl.2 with
    | Object b => if map_has (js_int ibl.1) blocks then blocks else map_set (js_int ibl.1) (copy b) blocks
    | _ => blocks
    end) (enumerate (list_or_new content)) blocks.

(** [text.replace(/_delta$/, '')]. *)
Definition drop_delta_suffix (s : bytes) : bytes :=
  match strip_prefix (rev s) (rev "_delta") with
  | Some r => rev r
  | None => s
  end.

Definition mergeAnthropicContentDelta (block delta : jmap) : jmap :=
  let block := match bget "type" delta ≫= as_str with
               | Some type => if bhas "type" block then block else assign block "type" (Str (drop_delta_suffix type))
               | None => block
               end in
  let block := appendStringField block "text" (bget "text" delta) in
  let block := appendStringField block "thinking" (bget "thinking" delta) in
  let block := appendStringField block "signature" (bget "signature" delta) in
  appendStringField block "input_json" (bget "partial_json" delta).

(** [mergeObject(out, pick(o, keys))] of an object. *)
Definition merge_picked (out o : jmap) (keys : list bytes) : jmap :=
  match pick (Object o) keys with
  | Object picked => mergeObject out picked
  | _ => out
  end.

(** [event.error ?? event]. *)
Definition error_or_event (event : jmap) : json :=
  match bget "error" event with
  | Some e => if is_null e then Object event else e
  | None => Object event
  end.

Definition anthropic_event (st : jmap * js_map) (event : json) : jmap * js_map :=
  match event with
  | Object event =>
      let '(out, blocks) := st in
      let type := default "" (bget "type" event ≫= as_str) in
      let index := default (js_int (zlen blocks)) (bget "index" event ≫= as_number) in
      let record key := bget key event ≫= as_object in
      match (if eqs type "message_start" then record "message" else None) with
      | Some message =>
          (merge_picked out message ["type"; "role"; "model"; "stop_reason"; "usage"],
           seedAnthropicContentBlocks blocks (bget "content" message))
      | None =>
      match (if eqs type "content_block_start" then record "content_block" else None) with
      | Some block => (out, map_set index (copy block) blocks)
      | None =>
      match (if eqs type "content_block_delta" then record "delta" else None) with
      | Some delta => (out, map_update index [] (fun block => mergeAnthropicContentDelta block delta) blocks)
      | None =>
      match (if eqs type "message_delta" then record "delta" else None) with
      | Some delta =>
          (mergeNestedObject (merge_picked out delta ["stop_reason"; "stop_sequence"]) "usage" (bget "usage" event), blocks)
      | None =>
          if eqs type "error" then (assign out "error" (error_or_event event), blocks) else (out, blocks)
      end end end end
  | _ => st
  end.

Definition aggregateAnthropicMessagesStream (events : list json) : json :=
  let '(out, blocks) := fold_left anthropic_event events ([], []) in
  pick (Object (close_map "content" blocks (entries_by_key blocks) out)) anthropic_view_keys.

Definition anthropicMessagesView (kind : bytes) (parsed : json) : json :=
  if eqs kind "request" then pick parsed ["model"; "messages"; "system"]
  else match parsed with
       | Array events => aggregateAnthropicMessagesStream events
       | _ => pick parsed anthropic_view_keys
       end.

(** * Gemini *)

(** [target[key] = value] unless [value] is [null]. *)
Definition assign_present (target : jmap) (kv : bytes * json) : jmap :=
  if present kv.2 then assign target kv.1 kv.2 else target.

Definition mergeSemanticPart (target source : jmap) : jmap :=
  fold_left (fun target kv =>
    if includes ["text"; "thinking"; "signature"] kv.1 then appendStringField target kv.1 (Some kv.2)
    else match bget kv.1 target ≫= as_object, as_object kv.2 with
         | Some existing, Some incoming => assign target kv.1 (Object (spread (copy existing) incoming))
         | _, _ => assign_present target kv
         end) (object_entries source) target.

Definition merge_indexed_part_js (out : list json) (iraw : Z * json) : list json :=
  let i := Z.to_nat iraw.1 in
  match iraw.2 with
  | Object raw => set_at out i (Object (mergeSemanticPart (record_or_new (out !! i)) raw))
  | raw => set_at out i raw
  end.

Definition mergeIndexedParts (existing incoming : list json) : list json :=
  fold_left merge_indexed_part_js (enumerate incoming) (copy_items existing).

Definition gemini_content_member (content : jmap) (kv : bytes * json) : jmap :=
  match (if eqs kv.1 "parts" then as_array kv.2 else None) with
  | Some parts => assign content "parts" (Array (mergeIndexedParts (list_or_new (bget "parts" content)) parts))
  | None => assign_present content kv
  end.

Definition mergeGeminiCandidate (target source : jmap) : jmap :=
  fold_left (fun target kv =>
    if eqs kv.1 "index" then target
    else match (if eqs kv.1 "content" then as_object kv.2 else None) with
         | Some value =>
             let content := record_or_new (bget "content" target) in
             assign target "content" (Object (fold_left gemini_content_member (object_entries value) content))
         | None => assign_present target kv
         end) (object_entries source) target.

Definition gemini_view_keys : list bytes :=
  ["candidates"; "promptFeedback"; "usageMetadata"; "error"; "modelVersion"].

Definition gemini_raw_candidate (candidates : js_map) (iraw : Z * json) : js_map :=
  match iraw.2 with
  | Object raw =>
      let index := numberOrDefault (bget "index" raw) (js_int iraw.1) in
      map_update index [("index", Number index)] (fun candidate => mergeGeminiCandidate candidate raw) candidates
  | _ => candidates
  end.

Definition gemini_chunk (st : jmap * js_map) (chunk : json) : jmap * js_map :=
  match chunk with
  | Object chunk =>
      let out := copy_defined "usageMetadata" chunk (copy_defined "promptFeedback" chunk st.1) in
      let out := copy_defined "modelVersion" chunk (copy_defined "error" chunk out) in
      (out, fold_left gemini_raw_candidate (enumerate (list_or_new (bget "candidates" chunk))) st.2)
  | _ => st
  end.

Definition aggregateGeminiGenerateContentStream (chunks : list json) : json :=
  let '(out, candidates) := fold_left gemini_chunk chunks ([], []) in
  pick (Object (close_map "candidates" candidates (values_by_index candidates) out)) gemini_view_keys.

(** [if (!path) return undefined]. *)
Definition path_parts (path : option bytes) : option (list bytes) :=
  match path with
  | None | Some [] => None
  | Some path => Some (split_on Byte.x2f (pathWithoutQuery path))
  end.

Definition geminiModelFromPath (path : option bytes) : option bytes :=
  parts ← path_parts path;
  modelIdx ← position (fun part => eqs part "models") parts;
  match parts !! (modelIdx + 1)%nat with
  | None | Some [] => None
  | Some raw => head (split_on Byte.x3a raw)
  end.

(** [if (isRecord(view) && view.key === undefined) { if (model) view.key = model }]. *)
Definition view_with_model (key : bytes) (view : json) (model : option bytes) : json :=
  match view with
  | Object m =>
      match model with
      | None | Some [] => view
      | Some model => if bhas key m then view else Object (assign m key (Str model))
      end
  | _ => view
  end.

Definition geminiGenerateContentView (kind : bytes) (parsed : json) (upstreamPath : option bytes) : json :=
  if eqs kind "request" then
    view_with_model "model" (pick parsed ["model"; "contents"; "systemInstruction"]) (geminiModelFromPath upstreamPath)
  else match parsed with
       | Array chunks => aggregateGeminiGenerateContentStream chunks
       | _ => pick parsed gemini_view_keys
       end.

(** * DashScope *)

Definition dashscope_view_keys : list bytes := ["output"; "usage"; "request_id"; "code"; "message"].

Definition mergeDashscopeMessage (target source : jmap) : jmap :=
  let target := appendStringField target "content" (bget "content" source) in
  let target := appendStringField target "reasoning_content" (bget "reasoning_content" source) in
  let target := merge_tool_calls_field target source in
  fold_left (fun target kv =>
    if negb (includes ["content"; "reasoning_content"; "tool_calls"] kv.1) then assign_present target kv else target)
    (object_entries source) target.

Definition dashscope_choice (choice rawChoice : jmap) : jmap :=
  let message := message_of choice in
  let message := match bget "message" rawChoice ≫= as_object with
                 | Some m => mergeDashscopeMessage message m
                 | None => message
                 end in
  let message := match bget "delta" rawChoice ≫= as_object with
                 | Some delta => mergeDashscopeMessage message delta
                 | None => message
                 end in
  let choice := assign choice "message" (Object message) in
  fold_left (fun choice kv =>
    if negb (includes ["index"; "message"; "delta"] kv.1) then assign_present choice kv else choice)
    (object_entries rawChoice) choice.

Definition dashscope_raw_choice (choices : js_map) (iraw : Z * json) : js_map :=
  match iraw.2 with
  | Object rawChoice =>
      let index := numberOrDefault (bget "index" rawChoice) (js_int iraw.1) in
      map_update index (new_choice index) (fun choice => dashscope_choice choice rawChoice) choices
  | _ => choices
  end.

(** [for (const [key, value] of Object.entries(..)) if (key !== 'choices') ..]. *)
Definition dashscope_output (output raw : jmap) : jmap :=
  fold_left (fun output kv => if negb (eqs kv.1 "choices") then assign output kv.1 kv.2 else output)
    (object_entries raw) output.

Definition dashscope_chunk (st : jmap * jmap * js_map) (chunk : json) : jmap * jmap * js_map :=
  match chunk with
  | Object chunk =>
      let '(out, output, choices) := st in
      let out := fold_left (fun out key => copy_defined key chunk out) ["usage"; "request_id"; "code"; "message"] out in
      match bget "output" chunk ≫= as_object with
      | Some raw =>
          (out, dashscope_output output raw,
           fold_left dashscope_raw_choice (enumerate (list_or_new (bget "choices" raw))) choices)
      | None => (out, output, choices)
      end
  | _ => st
  end.

Definition aggregateDashscopeGenerationStream (chunks : list json) : json :=
  let '(out, output, choices) := fold_left dashscope_chunk chunks ([], [], []) in
  let output := close_map "choices" choices (values_by_index choices) output in
  let out := match output with [] => out | _ => assign out "output" (Object output) end in
  pick (Object out) dashscope_view_keys.

Definition dashscopeGenerationView (kind : bytes) (parsed : json) : json :=
  if eqs kind "request" then pick parsed ["model"; "input"; "system"; "messages"]
  else match parsed with
       | Array chunks => aggregateDashscopeGenerationStream chunks
       | _ => pick parsed dashscope_view_keys
       end.

(** * Bedrock *)

Definition bedrock_view_keys : list bytes := ["output"; "stopReason"; "usage"; "error"].

Definition mergeNestedSemanticObject (existing : option json) (incoming : jmap) (appendFields : list bytes) : json :=
  Object (fold_left (fun out kv =>
    if includes appendFields kv.1 then appendStringField out kv.1 (Some kv.2)
    else match bget kv.1 out ≫= as_object, as_object kv.2 with
         | Some e, Some i => assign out kv.1 (Object (spread (copy e) i))
         | _, _ => assign_present out kv
         end) (object_entries incoming) (record_or_new existing)).

(** [if (isRecord(delta.key)) block.key = mergeNestedSemanticObject(block.key, ..)]. *)
Definition merge_nested_field (key : bytes) (appendFields : list bytes) (delta block : jmap) : jmap :=
  match bget key delta ≫= as_object with
  | Some incoming => assign block key (mergeNestedSemanticObject (bget key block) incoming appendFields)
  | None => block
  end.

Definition mergeBedrockContentDelta (block delta : jmap) : jmap :=
  let block := appendStringField block "text" (bget "text" delta) in
  let block := if bhas "text" delta && negb (bhas "type" block) then assign block "type" (Str "text") else block in
  let block := merge_nested_field "reasoningContent" ["text"; "signature"] delta block in
  let block := merge_nested_field "toolUse" ["input"] delta block in
  let block := merge_nested_field "citationsContent" ["text"] delta block in
  fold_left (fun block kv =>
    if negb (includes ["text"; "reasoningContent"; "toolUse"; "citationsContent"] kv.1)
    then assign_present block kv else block) (object_entries delta) block.

(** The arms on the content blocks: a member [key] of the event, with its
    index, merged by [f]. *)
Definition bedrock_block (key : bytes) (f : jmap -> jmap -> jmap) (event : jmap) (blocks : js_map) : js_map :=
  match bget key event ≫= as_object with
  | Some part =>
      map_update (numberOrDefault (bget "contentBlockIndex" part) (js_int (zlen blocks))) [] (f part) blocks
  | None => blocks
  end.

(** [if (isRecord(part.key)) merge(block, part.key)]. *)
Definition with_record (key : bytes) (merge : jmap -> jmap -> jmap) (part block : jmap) : jmap :=
  match bget key part ≫= as_object with
  | Some o => merge block o
  | None => block
  end.

Definition bedrock_out (out event : jmap) : jmap :=
  let out := match bget "messageStop" event ≫= as_object with
             | Some stop =>
                 copy_defined "additionalModelResponseFields" stop (copy_defined "stopReason" stop out)
             | None => out
             end in
  let out := match bget "metadata" event ≫= as_object with
             | Some metadata => copy_defined "usage" metadata out
             | None => out
             end in
  let out := match bget "output" event ≫= as_object with
             | Some _ => merge_picked out event bedrock_view_keys
             | None => out
             end in
  copy_defined "error" event out.

Definition bedrock_event (st : jmap * jmap * js_map) (event : json) : jmap * jmap * js_map :=
  match event with
  | Object event =>
      let '(out, message, blocks) := st in
      let message := match bget "messageStart" event ≫= as_object with
                     | Some start => copy_defined "role" start message
                     | None => message
                     end in
      let blocks := bedrock_block "contentBlockStart" (with_record "start" mergeObject) event blocks in
      let blocks := bedrock_block "contentBlockDelta" (with_record "delta" mergeBedrockContentDelta) event blocks in
      (bedrock_out out event, message, blocks)
  | _ => st
  end.

(** [if (Object.keys(m).length > 0 && out.key === undefined) out.key = v]. *)
Definition assign_unless_empty (key : bytes) (m : jmap) (v : json) (out : jmap) : jmap :=
  match m with
  | [] => out
  | _ => if bhas key out then out else assign out key v
  end.

Definition aggregateBedrockConverseStream (events : list json) : json :=
  let '(out, message, blocks) := fold_left bedrock_event events ([], [], []) in
  let message := close_map "content" blocks (entries_by_key blocks) message in
  pick (Object (assign_unless_empty "output" message (Object [("message", Object message)]) out)) bedrock_view_keys.

Definition bedrockModelIdFromPath `{UC : UnicodeCase} (path : option bytes) : option bytes :=
  parts ← path_parts path;
  modelIdx ← position (fun part => eqs part "model") parts;
  operation ← parts !! (modelIdx + 2)%nat;
  if negb (includes ["converse"; "converse-stream"] (to_lowercase operation)) then None
  else match parts !! (modelIdx + 1)%nat with
       | None | Some [] => None
       | Some model => Some model
       end.

Definition bedrockConverseView `{UC : UnicodeCase} (kind : bytes) (parsed : json) (upstreamPath : option bytes) : json :=
  if eqs kind "request" then
    view_with_model "modelId" (pick parsed ["modelId"; "messages"; "system"]) (bedrockModelIdFromPath upstreamPath)
  else match parsed with
       | Array events => aggregateBedrockConverseStream events
       | _ => pick parsed bedrock_view_keys
       end.

(** * Cohere *)

Definition cohere_view_keys : list bytes := ["message"; "text"; "finish_reason"; "usage"; "error"].

Definition mergeCohereContentBlock (blocks : js_map) (index : number) (rawBlock : json) : js_map :=
  match rawBlock with
  | Object raw => map_update index [] (fun block => mergeSemanticPart block raw) blocks
  | _ => blocks
  end.

Definition mergeCohereMessageDelta (message : jmap) (blocks : js_map) (rawMessage : json) : jmap * js_map :=
  match rawMessage with
  | Object raw =>
      let message := fold_left (fun message kv =>
        if negb (eqs kv.1 "content") then assign_present message kv else message) (object_entries raw) message in
      (message,
       match bget "content" raw with
       | Some (Array items) =>
           fold_left (fun blocks ib => mergeCohereContentBlock blocks (js_int ib.1) ib.2) (enumerate items) blocks
       | Some (Object content as rawContent) =>
           let fallback := match blocks with [] => js_int 0 | _ => js_int (zlen blocks - 1) end in
           mergeCohereContentBlock blocks (numberOrDefault (bget "index" content) fallback) rawContent
       | Some (Str s) =>
           map_update (js_int 0) [("type", Str "text")] (fun block => appendStringField block "text" (Some (Str s))) blocks
       | _ => blocks
       end)
  | _ => (message, blocks)
  end.

(** [stringValue(a) ?? stringValue(b) ?? stringValue(c) ?? '']. *)
Definition cohere_event_type (event : jmap) : bytes :=
  match bget "type" event ≫= as_str with
  | Some t => t
  | None =>
      match bget "event_type" event ≫= as_str with
      | Some t => t
      | None => default "" (bget "eventType" event ≫= as_str)
      end
  end.

Definition cohere_event (st : jmap * jmap * js_map * bytes) (event : json) : jmap * jmap * js_map * bytes :=
  match event with
  | Object event =>
      let '(out, message, blocks, text) := st in
      let type := cohere_event_type event in
      let out := match bget "response" event ≫= as_object with
                 | Some response => merge_picked out response cohere_view_keys
                 | None => out
                 end in
      let delta := bget "delta" event ≫= as_object in
      let '(message, blocks) :=
        match delta ≫= bget "message" with
        | Some raw => mergeCohereMessageDelta message blocks raw
        | None => (message, blocks)
        end in
      let text :=
        if eqs type "text-generation" then
          match bget "text" event ≫= as_str with Some piece => text ++ piece | None => text end
        else text in
      let '(out, message) :=
        match (if eqs type "message-end" then delta else None) with
        | Some delta =>
            (copy_defined "usage" delta (copy_defined "finish_reason" delta out), copy_defined "finish_reason" delta message)
        | None => (out, message)
        end in
      let out := copy_defined "finish_reason" event out in
      let message := copy_defined "finish_reason" event message in
      (copy_defined "error" event out, message, blocks, text)
  | _ => st
  end.

Definition aggregateCohereChatStream (events : list json) : json :=
  let '(out, message, blocks, text) := fold_left cohere_event events ([], [], [], []) in
  let '(out, message) :=
    match blocks, text with
    | _ :: _, _ => (out, assign message "content" (entries_by_key blocks))
    | [], [] => (out, message)
    | [], _ =>
        (assign out "text" (Str text),
         assign message "content" (Array [Object [("type", Str "text"); ("text", Str text)]]))
    end in
  pick (Object (assign_unless_empty "message" message (Object message) out)) cohere_view_keys.

Definition cohereChatView (kind : bytes) (parsed : json) : json :=
  if eqs kind "request" then pick parsed ["model"; "messages"; "message"]
  else match parsed with
       | Array events => aggregateCohereChatStream events
       | _ => pick parsed cohere_view_keys
       end.

(** * Presence *)

Definition hasPresentPath (v : json) (path : bytes) : bool :=
  match fold_left (fun current part => current ≫= value_get part) (split_on Byte.x2e path) (Some v) with
  | None | Some Null => false
  | Some (Array l) => match l with [] => false | _ => true end
  | Some (Str s) => match s with [] => false | _ => true end
  | Some _ => true
  end.

Definition isErrorResponseView (protocol : bytes) (view : json) : bool :=
  if eqs protocol "alibaba.dashscope.generation" then hasPresentPath view "code" && hasPresentPath view "message"
  else hasPresentPath view "error".

Definition requiredPresence (protocol kind : bytes) : list (list bytes) :=
  let by_kind request response := if eqs kind "request" then request else response in
  if eqs protocol "openai.chat_completions" then by_kind [["model"]; ["messages"]] [["choices"]]
  else if eqs protocol "openai.responses" then by_kind [["model"]; ["input"]] [["output"; "status"]]
  else if eqs protocol "anthropic.messages" then by_kind [["model"]; ["messages"]] [["content"]]
  else if eqs protocol "google.gemini.generate_content" then
    by_kind [["model"]; ["contents"]] [["candidates"; "promptFeedback"]]
  else if eqs protocol "alibaba.dashscope.generation" then by_kind [["model"]; ["input"]] [["output"]]
  else if eqs protocol "aws.bedrock.converse" then by_kind [["modelId"]; ["messages"]] [["output"]]
  else if eqs protocol "cohere.chat" then by_kind [["model"]; ["messages"; "message"]] [["message"; "text"]]
  else [].

Definition hasRequiredPresence (protocol kind : bytes) (view : json) : bool :=
  if eqs kind "response" && isErrorResponseView protocol view then true
  else forallb (fun alternatives => existsb (hasPresentPath view) alternatives) (requiredPresence protocol kind).
End Views.
