(* ===== verification/JsAgree.v ===== *)
(** Where the JavaScript objects of the verifier and the sorted maps of the
    enclave hold the same value ([sim]), and that every operation on objects
    and every merge function of JsViews.v keeps it with its counterpart of
    Json.v and Merge.v.

    [sim] says that both sides have the same text in the end: the JavaScript
    value is [plain], and the other one is the same value with its members
    sorted.  Loops over members run in different orders on the two sides; they
    agree because what they do to a member depends on that member only
    ([sim_members]). *)

From S2P Require Import Prelude RustStr BTree Json Merge JsJson Verifier JsViews.
Local Open Scope bytes_scope.

(** Laws of numbers, for the integers a double holds exactly: both sides read
    and compare them alike, and [serde_json] has one form of each. *)
Class JsNumbersLaws `{JsNumbers} : Prop := {
  number_of_as_i64 n z : number_as_i64 n = Some z -> number_from_i64 z = n;
  as_u64_of_as_i64 n z : number_as_i64 n = Some z -> (0 <= z)%Z -> number_as_u64 n = Some z;
  js_same_int a b : (0 <= a < 2 ^ 53)%Z -> (0 <= b < 2 ^ 53)%Z ->
    js_same (number_from_i64 a) (number_from_i64 b) = (a =? b)%Z;
  js_before_int a b : (0 <= a < 2 ^ 53)%Z -> (0 <= b < 2 ^ 53)%Z ->
    js_before (number_from_i64 a) (number_from_i64 b) = (a <? b)%Z;
  js_array_index_int a : (0 <= a < 2 ^ 32 - 1)%Z -> js_array_index (number_from_i64 a) = Some (Z.to_nat a);
  js_is_finite_int a : (0 <= a < 2 ^ 53)%Z -> js_is_finite (number_from_i64 a) = true;
}.

(** The plain keys of a list of literals. *)
Ltac plain_keys := repeat (constructor; [reflexivity|]); constructor.

Section Agree.
Context `{SJ : SerdeJson} `{SJL : !SerdeJsonLaws} `{JT : !JsText} `{JL : !JsTextLaws} `{JN : !JsNumbers}
  `{NL : !JsNumbersLaws}.
Abbreviation json := (value number).
Abbreviation jmap := (list (bytes * value number)).

(** * The same value on both sides *)

(** The value with the members of its objects sorted. *)
Fixpoint norm (v : json) : json :=
  match v with
  | Array l => Array (map norm l)
  | Object m => Object (bextend [] (map (fun kv => (kv.1, norm kv.2)) m))
  | _ => v
  end.
Definition norm_map (m : jmap) : jmap := bextend [] (map (fun kv => (kv.1, norm kv.2)) m).

Definition sim (v w : json) : Prop := plain v /\ w = norm v.
Definition sim_map (m r : jmap) : Prop := plain (Object m) /\ r = norm_map m.

Lemma sim_object m r : sim (Object m) (Object r) <-> sim_map m r.
Proof. unfold sim, sim_map. cbn [norm]. fold (norm_map m). split; intros [? E]; split; congruence. Qed.

Lemma sim_array l k : sim (Array l) (Array k) <-> Forall2 sim l k.
Proof.
  unfold sim. cbn [norm]. split.
  - intros [H [= ->]]. inversion H as [| | | |l' Hl|]; subst. clear H.
    induction Hl as [|v l Hv _ IH]; constructor; [by split|done].
  - intros H. assert (Forall plain l /\ k = map norm l) as [? ->].
    { induction H as [|v w l k [Hv ->] _ [Hl ->]]; [done|]. split; [by constructor|done]. }
    split; [by constructor|done].
Qed.

(** The other side, by the form of the JavaScript value. *)
Lemma sim_cases v w :
  sim v w -> match v with
             | Object m => exists r, w = Object r /\ sim_map m r
             | Array l => exists k, w = Array k /\ Forall2 sim l k
             | _ => w = v
             end.
Proof.
  intros H. pose proof H as [_ ->]. destruct v; try done; eexists; (split; [reflexivity|]);
    [by apply sim_array|by apply sim_object].
Qed.

(** ** Maps with the same lookups *)

Lemma bget_nodup `{OrdKey K} {V} k (v : V) (m : list (K * V)) : NoDup (map fst m) -> In (k, v) m -> bget k m = Some v.
Proof.
  induction m as [|[k' v'] m IH]; [done|]. cbn [map]. intros [Hk Hnd]%list.NoDup_cons [[= -> ->]|Hin]; cbn [bget].
  - by rewrite kcmp_refl.
  - cmp_cases k k'; [|by apply IH..]. exfalso. apply Hk, list_elem_of_In, in_map_iff. by exists (k', v).
Qed.

Lemma bget_bextend_nodup {V} k (s : list (bytes * V)) t :
  NoDup (map fst s) -> bget k (bextend t s) = match bget k s with Some v => Some v | None => bget k t end.
Proof.
  unfold bextend. revert t. induction s as [|[k' v'] s IH]; intros t; [done|]. cbn [map fst fold_left snd bget].
  intros [Hk Hnd]%list.NoDup_cons. rewrite IH by done. rewrite bget_bins. cmp_cases k k'; [|done..].
  destruct (bget k' s) as [v|] eqn:E; [|done]. exfalso. apply Hk, list_elem_of_In, in_map_iff.
  exists (k', v). split; [done|]. by apply In_bget.
Qed.

Lemma bget_norm_map k m : NoDup (map fst m) -> bget k (norm_map m) = norm <$> bget k m.
Proof.
  intros Hnd. unfold norm_map. rewrite bget_bextend_nodup by (by rewrite map_map).
  rewrite bget_map_values. by destruct (bget k m).
Qed.

Lemma sorted_norm_map m : sorted (norm_map m).
Proof. apply sorted_bextend. constructor. Qed.

(** A relation on options. *)
Definition opt_sim {A B} (R : A -> B -> Prop) (o : option A) (p : option B) : Prop :=
  match o, p with
  | Some a, Some b => R a b
  | None, None => True
  | _, _ => False
  end.

Record sim_keys (m : jmap) : Prop := {
  sk_nodup : NoDup (map fst m);
  sk_plain : Forall (fun k => plain_key k = true) (map fst m);
}.

Lemma plain_object_iff m :
  plain (Object m) <-> sim_keys m /\ forall k v, bget k m = Some v -> plain v.
Proof.
  split.
  - intros H. inversion H as [| | | | |m' Hnd Hm]; subst. split; [split; [done|]|].
    + apply Forall_map. eapply Forall_impl; [|exact Hm]. cbn. tauto.
    + intros k v Hin%In_bget. rewrite Forall_forall in Hm. by apply (Hm (k, v)).
  - intros [[Hnd Hk] Hv]. constructor; [done|]. apply Forall_forall. intros [k v] Hin. split.
    + rewrite Forall_forall in Hk. apply Hk, in_map_iff. by exists (k, v).
    + apply (Hv k). by apply bget_nodup.
Qed.

Lemma sim_map_intro m r :
  sim_keys m -> sorted r -> (forall k, opt_sim sim (bget k m) (bget k r)) -> sim_map m r.
Proof.
  intros Hk Hs Hl. split.
  - apply plain_object_iff. split; [done|]. intros k v E. specialize (Hl k). rewrite E in Hl.
    destruct (bget k r); [apply Hl|done].
  - apply btree_ext; [done|apply sorted_norm_map|]. intros k. rewrite bget_norm_map by apply Hk. specialize (Hl k).
    destruct (bget k m), (bget k r); try done. destruct Hl as [_ ->]. done.
Qed.

Lemma sim_map_keys m r : sim_map m r -> sim_keys m.
Proof. by intros [[? _]%plain_object_iff _]. Qed.
Lemma sim_map_sorted m r : sim_map m r -> sorted r.
Proof. intros [_ ->]. apply sorted_norm_map. Qed.

Lemma sim_get k m r : sim_map m r -> opt_sim sim (bget k m) (bget k r).
Proof.
  intros [[Hk Hv]%plain_object_iff ->]. rewrite bget_norm_map by apply Hk. specialize (Hv k).
  destruct (bget k m) as [v|]; [|done]. split; [by apply Hv|done].
Qed.

(** ** Reading a member *)

Lemma opt_sim_str o p : opt_sim sim o p -> o ≫= as_str = p ≫= as_str.
Proof. destruct o as [v|], p as [w|]; try done. intros [_ ->]. by destruct v. Qed.

Lemma opt_sim_object o p : opt_sim sim o p -> opt_sim sim_map (o ≫= as_object) (p ≫= as_object).
Proof.
  destruct o as [v|], p as [w|]; try done. intros [Hv ->]. by destruct v.
Qed.

Lemma opt_sim_array o p : opt_sim sim o p -> opt_sim (Forall2 sim) (o ≫= as_array) (p ≫= as_array).
Proof.
  destruct o as [v|], p as [w|]; try done. intros [Hv ->]. destruct v as [| | | |l|]; try done. cbn.
  by apply sim_array.
Qed.

Lemma sim_get_str k m r : sim_map m r -> bget k m ≫= as_str = bget k r ≫= as_str.
Proof. intros H. by apply opt_sim_str, sim_get. Qed.
Lemma sim_get_object k m r : sim_map m r -> opt_sim sim_map (bget k m ≫= as_object) (bget k r ≫= as_object).
Proof. intros H. by apply opt_sim_object, sim_get. Qed.
Lemma sim_has k m r : sim_map m r -> bhas k m = bhas k r.
Proof. intros H. pose proof (sim_get k _ _ H) as G. unfold bhas. by destruct (bget k m), (bget k r). Qed.
Lemma sim_null v w : sim v w -> is_null v = is_null w.
Proof. intros [_ ->]. by destruct v. Qed.

(** ** Building *)

Lemma sim_nil : sim_map [] [].
Proof. split; [by repeat constructor|done]. Qed.

Lemma sim_str s : sim (Str s) (Str s).
Proof. split; [constructor|done]. Qed.

Lemma plain_key_proto k : plain_key k = true -> k <> "__proto__".
Proof. by intros (_ & ? & _)%plain_key_spec. Qed.

Lemma bget_assign_own {V} k k' (v : V) m :
  bget k (assign_own k' v m) = match kcmp k k' with Eq => Some v | _ => bget k m end.
Proof.
  induction m as [|[k0 v0] m IH]; [done|]. cbn [assign_own fst]. unfold eqs. case_bool_decide as E.
  - subst k0. cbn [bget]. by destruct (kcmp k k').
  - cbn [bget]. rewrite IH. cmp_cases k k0; [|done..]. cmp_cases k0 k'; done.
Qed.

Lemma assign_plain {V} (m : list (bytes * V)) k v : plain_key k = true -> assign m k v = assign_own k v m.
Proof. intros H%plain_key_proto. unfold assign, eqs. by rewrite bool_decide_false. Qed.

Lemma keys_assign_own {V} k (v : V) m :
  map fst (assign_own k v m) = if bool_decide (In k (map fst m)) then map fst m else map fst m ++ [k].
Proof.
  induction m as [|[k0 v0] m IH]; [done|]. cbn [assign_own fst map]. unfold eqs.
  destruct (decide (k0 = k)) as [->|E].
  - rewrite (bool_decide_true (k = k)), bool_decide_true by (done || by left). done.
  - rewrite (bool_decide_false (k0 = k)) by done. cbn [map fst]. rewrite IH. destruct (decide (In k (map fst m))).
    + by rewrite !bool_decide_true by (done || by right).
    + rewrite !bool_decide_false; [done| |done]. intros [?|?]; done.
Qed.

Lemma sim_keys_assign m k v : sim_keys m -> plain_key k = true -> sim_keys (assign_own k v m).
Proof.
  intros [Hnd Hp] Hk. split; rewrite keys_assign_own; case_bool_decide as E; try done.
  - apply list.NoDup_app. split; [done|]. split; [|by apply NoDup_singleton].
    intros x Hx ->%list_elem_of_singleton. by apply E, list_elem_of_In.
  - apply Forall_app. by repeat constructor.
Qed.

Lemma sim_assign m r k v w : sim_map m r -> plain_key k = true -> sim v w -> sim_map (assign m k v) (bins k w r).
Proof.
  intros H Hk Hv. rewrite assign_plain by done. apply sim_map_intro.
  - by apply sim_keys_assign; [eapply sim_map_keys|].
  - by apply sorted_bins, (sim_map_sorted m).
  - intros k'. rewrite bget_assign_own, bget_bins. cmp_cases k' k; [done|by apply sim_get..].
Qed.

(** A singleton and longer literals, in the order the code writes them. *)
Lemma sim_literal k v w m r :
  sim_map m r -> plain_key k = true -> ~ In k (map fst m) -> sim v w -> sim_map (m ++ [(k, v)]) (bins k w r).
Proof.
  intros H Hk Hn Hv. rewrite <-(assign_new m k v) by (done || by apply plain_key_proto). by apply sim_assign.
Qed.
(** ** Loops over members *)

(** What a step does to a member: [h] gives what is put there, if anything. *)
Definition member_after (h : bytes -> option json -> json -> option json) (k : bytes) (o : option json) (v : json)
    : option json :=
  match h k o v with Some x => Some x | None => o end.

Lemma bget_members (step : jmap -> bytes * json -> jmap) h (s t : jmap) k :
  NoDup (map fst s) ->
  (forall t k v k', In k (map fst s) ->
     bget k' (step t (k, v)) = match kcmp k' k with Eq => member_after h k (bget k t) v | _ => bget k' t end) ->
  bget k (fold_left step s t) = match bget k s with Some v => member_after h k (bget k t) v | None => bget k t end.
Proof.
  revert t. induction s as [|[k0 v0] s IH]; intros t; [done|]. cbn [map fst fold_left bget].
  intros [Hk Hnd]%list.NoDup_cons Hs. rewrite IH; [|done|by intros; apply Hs; right].
  rewrite Hs by (by left). cmp_cases k k0; [|done..].
  destruct (bget k0 s) as [v|] eqn:E; [|done]. exfalso. apply Hk, list_elem_of_In, in_map_iff.
  exists (k0, v). split; [done|]. by apply In_bget.
Qed.

Lemma entries_plain m : sim_keys m -> object_entries m = m.
Proof.
  intros [_ Hp]. apply property_order_plain. apply Forall_map in Hp. eapply Forall_impl; [|exact Hp].
  intros kv H. by destruct (plain_key_spec _ H) as (_ & _ & ?).
Qed.

(** Two loops that treat each member by itself, and alike. *)
Lemma sim_members f g h h' s s' t t' :
  (forall t k v, f t (k, v) = match h k (bget k t) v with Some x => assign t k x | None => t end) ->
  (forall t k w, g t k w = match h' k (bget k t) w with Some x => bins k x t | None => t end) ->
  (forall k o p v w, bget k s = Some v -> plain_key k = true -> opt_sim sim o p -> sim v w ->
     opt_sim sim (h k o v) (h' k p w)) ->
  sim_map s s' -> sim_map t t' -> sim_map (fold_left f (object_entries s) t) (for_members g s' t').
Proof.
  intros Hf Hg Hh Hs Ht. pose proof (sim_map_keys _ _ Hs) as Ks. rewrite entries_plain by done.
  assert (P : forall k, In k (map fst s) -> plain_key k = true) by (apply Forall_forall, Ks).
  apply sim_map_intro.
  - assert (Kt := sim_map_keys _ _ Ht). clear Ht Hs Ks Hh Hg. revert t Kt. induction s as [|[k v] s IH]; intros t Kt; [done|].
    cbn [fold_left]. apply IH; [by intros; apply P; right|]. rewrite Hf. assert (Hk := P k (or_introl eq_refl)).
    destruct (h k (bget k t) v) as [x|]; [|done]. rewrite assign_plain by done. by apply sim_keys_assign.
  - unfold for_members. assert (St := sim_map_sorted _ _ Ht). clear Ht Hs Hh. revert t' St.
    induction s' as [|[k w] s' IH]; intros t' St; [done|]. cbn [fold_left fst snd]. apply IH. rewrite Hg.
    destruct (h' k (bget k t') w); [by apply sorted_bins|done].
  - intros k. unfold for_members. rewrite (bget_members f h), (bget_members (fun s kv => g s kv.1 kv.2) h').
    + pose proof (sim_get k _ _ Hs) as Gs. pose proof (sim_get k _ _ Ht) as Gt.
      destruct (bget k s) as [v|] eqn:Es, (bget k s') as [w|]; try done. cbn [opt_sim] in Gs.
      assert (Hk : plain_key k = true) by (apply P, in_map_iff; exists (k, v); split; [done|by apply In_bget]).
      specialize (Hh k _ _ v w Es Hk Gt Gs). unfold member_after. by destruct (h k _ _), (h' k _ _).
    + by eapply sorted_NoDup, sim_map_sorted.
    + intros t0 k0 v0 k1 _. cbn [fst snd]. rewrite Hg. unfold member_after.
      destruct (h' k0 (bget k0 t0) v0); [apply bget_bins|]. by cmp_cases k1 k0.
    + apply Ks.
    + intros t0 k0 v0 k1 Hin. rewrite Hf. unfold member_after.
      destruct (h k0 (bget k0 t0) v0); [rewrite assign_plain by (by apply P); apply bget_assign_own|]. by cmp_cases k1 k0.
Qed.

(** ** The operations on objects *)

Lemma sim_mergeObject t t' s s' : sim_map t t' -> sim_map s s' -> sim_map (mergeObject t s) (bextend t' s').
Proof.
  intros Ht Hs. change (bextend t' s') with (for_members (fun t k v => bins k v t) s' t').
  unfold mergeObject. by apply (sim_members _ _ (fun _ _ v => Some v) (fun _ _ v => Some v)).
Qed.

Lemma spread_plain t s : sim_keys s -> spread t s = mergeObject t s.
Proof.
  intros Ks. unfold spread, mergeObject. rewrite entries_plain by done. destruct Ks as [_ Hp].
  revert t. induction s as [|[k v] s IH]; intros t; [done|]. cbn [map fst] in Hp. apply Forall_cons_iff in Hp as [Hk Hp].
  cbn [fold_left fst snd]. rewrite <-assign_plain by done. by apply IH.
Qed.

Lemma sim_spread t t' s s' : sim_map t t' -> sim_map s s' -> sim_map (spread t s) (bextend t' s').
Proof. intros Ht Hs. rewrite spread_plain by (by eapply sim_map_keys). by apply sim_mergeObject. Qed.

Lemma bextend_nil (r : jmap) : sorted r -> bextend [] r = r.
Proof.
  intros Hr. apply btree_ext; [by apply sorted_bextend; constructor|done|]. intros k. rewrite bget_bextend by done.
  by destruct (bget k r).
Qed.

Lemma sim_copy m r : sim_map m r -> sim_map (copy m) r.
Proof.
  intros H. rewrite <-(bextend_nil r) by (by eapply sim_map_sorted). by apply sim_spread; [apply sim_nil|].
Qed.

Lemma sim_record_or_new o p : opt_sim sim o p -> sim_map (record_or_new o) (object_or_empty p).
Proof.
  intros H%opt_sim_object. unfold object_or_empty. destruct o as [[]|], (p ≫= as_object); cbn in *; try done;
    first [apply sim_nil|by apply sim_copy].
Qed.

Lemma sim_list_or_new o p : opt_sim sim o p -> Forall2 sim (list_or_new o) (array_or_empty p).
Proof.
  intros H%opt_sim_array. unfold array_or_empty. destruct o as [[]|], (p ≫= as_array); cbn in *; try done; constructor.
Qed.

Lemma copy_items_sim l k : Forall2 sim l k -> Forall2 sim (copy_items l) k.
Proof.
  unfold copy_items. induction 1 as [|v w l k Hv _ IH]; constructor; [|done].
  pose proof Hv as [_ ->]. destruct v; try done. apply sim_object, sim_copy, sim_object, Hv.
Qed.

Lemma sim_append m r f o p :
  sim_map m r -> plain_key f = true -> opt_sim sim o p -> sim_map (appendStringField m f o) (append_string_field r f p).
Proof.
  intros H Hf Ho%opt_sim_str. unfold appendStringField, append_string_field. rewrite <-Ho, <-(sim_get_str f _ _ H).
  destruct (o ≫= as_str); [|done]. apply sim_assign; [done..|apply sim_str].
Qed.

Lemma sim_set m r f o p :
  sim_map m r -> plain_key f = true -> opt_sim sim o p -> sim_map (setStringField m f o) (set_string_field r f p).
Proof.
  intros H Hf Ho%opt_sim_str. unfold setStringField, set_string_field. rewrite <-Ho.
  destruct (o ≫= as_str); [|done]. apply sim_assign; [done..|apply sim_str].
Qed.

(** [{ ...a, ...b }] when both are objects, [b] otherwise. *)
Lemma sim_merged o p v w :
  opt_sim sim o p -> sim v w ->
  opt_sim sim
    match o ≫= as_object, as_object v with
    | Some e, Some i => Some (Object (spread (copy e) i))
    | _, _ => None
    end
    match p ≫= as_object, as_object w with
    | Some e, Some i => Some (Object (bextend e i))
    | _, _ => None
    end.
Proof.
  intros Ho%opt_sim_object Hv. pose proof (opt_sim_object (Some v) (Some w) Hv) as Hv'. cbn in Hv'.
  destruct (o ≫= as_object), (p ≫= as_object); try done. destruct (as_object v), (as_object w); try done. cbn.
  apply sim_object, sim_spread; [by apply sim_copy|done].
Qed.

Lemma sim_mergeNested m r f o p :
  sim_map m r -> plain_key f = true -> opt_sim sim o p -> sim_map (mergeNestedObject m f o) (merge_nested_object r f p).
Proof.
  intros H Hf Ho. destruct o as [v|], p as [w|]; try done. cbn [mergeNestedObject merge_nested_object].
  pose proof (sim_merged _ _ v w (sim_get f _ _ H) Ho) as M.
  destruct (bget f m ≫= as_object), (bget f r ≫= as_object); try done; destruct (as_object v), (as_object w); try done;
    by apply sim_assign.
Qed.

Lemma sim_copy_defined k s s' t t' :
  sim_map s s' -> sim_map t t' -> plain_key k = true ->
  sim_map (copy_defined k s t) match bget k s' with Some v => bins k v t' | None => t' end.
Proof.
  intros Hs Ht Hk. unfold copy_defined. pose proof (sim_get k _ _ Hs) as G.
  destruct (bget k s), (bget k s'); try done. by apply sim_assign.
Qed.

Lemma sim_pick_map m r keys :
  sim_map m r -> Forall (fun k => plain_key k = true) keys ->
  sim_map (fold_left (fun out key => match bget key m with Some v => assign out key v | None => out end) keys [])
    (pick_map r keys).
Proof.
  intros H Hk. unfold pick_map. assert (G : forall t t', sim_map t t' ->
    sim_map (fold_left (fun out key => match bget key m with Some v => assign out key v | None => out end) keys t)
      (fold_left (fun out key => match bget key r with Some v => bins key v out | None => out end) keys t')).
  { induction Hk as [|k keys Hk _ IH]; intros t t' Ht; [done|]. cbn [fold_left]. apply IH.
    by apply (sim_copy_defined k m r). }
  apply G, sim_nil.
Qed.

Lemma sim_pick v w keys :
  sim v w -> Forall (fun k => plain_key k = true) keys -> sim (pick v keys) (pick_value w keys).
Proof.
  intros Hv Hk. revert w Hv. induction v as [| | | |l IH|m _] using value_ind'; intros w Hv; pose proof Hv as [_ ->];
    cbn [norm] in Hv; try done.
  - cbn [norm pick pick_value]. cbn [norm] in Hv. apply sim_array in Hv. apply sim_array.
    induction IH as [|v l Hv0 _ IH]; cbn [map] in *; [constructor|]. inversion Hv; subst. constructor; auto.
  - apply sim_object, sim_pick_map; [by apply sim_object|done].
Qed.
Lemma sim_map_nil m r : sim_map m r -> m = [] <-> r = [].
Proof.
  intros H. split; intros ->.
  - by destruct H as [_ ->].
  - destruct m as [|[k v] m]; [done|]. pose proof (sim_get k _ _ H) as G. cbn [bget] in G. by rewrite kcmp_refl in G.
Qed.

(** ** Objects the same but for one member

    Some objects of the verifier gather a member that its view drops at the
    end, and the enclave leaves it out from the start. *)

Definition sim_but (x : bytes) (m r : jmap) : Prop :=
  exists r', sim_map m r' /\ sorted r /\ forall k, k <> x -> bget k r' = bget k r.

Lemma sim_but_of x m r : sim_map m r -> sim_but x m r.
Proof. intros H. exists r. split; [done|]. split; [by eapply sim_map_sorted|done]. Qed.

Lemma sim_but_get x k m r : sim_but x m r -> k <> x -> opt_sim sim (bget k m) (bget k r).
Proof. intros (r' & H & _ & E) Hk. rewrite <-E by done. by apply sim_get. Qed.

Lemma sim_but_has x k m r : sim_but x m r -> k <> x -> bhas k m = bhas k r.
Proof. intros H Hk. pose proof (sim_but_get _ _ _ _ H Hk) as G. unfold bhas. by destruct (bget k m), (bget k r). Qed.

Lemma sim_but_assign x k m r v w : sim_but x m r -> plain_key k = true -> sim v w -> sim_but x (assign m k v) (bins k w r).
Proof.
  intros (r' & H & Hs & E) Hk Hv. exists (bins k w r'). split; [by apply sim_assign|]. split; [by apply sorted_bins|].
  intros k' Hne. rewrite !bget_bins, E by done. done.
Qed.

Lemma sim_but_extra x m r v w : sim_but x m r -> plain_key x = true -> sim v w -> sim_but x (assign m x v) r.
Proof.
  intros (r' & H & Hs & E) Hk Hv. exists (bins x w r'). split; [by apply sim_assign|]. split; [done|].
  intros k' Hne. rewrite bget_bins_ne by done. by apply E.
Qed.

Lemma sim_but_copy_defined x k s s' t t' :
  sim_map s s' -> sim_but x t t' -> plain_key k = true ->
  sim_but x (copy_defined k s t) match bget k s' with Some v => bins k v t' | None => t' end.
Proof.
  intros Hs Ht Hk. unfold copy_defined. pose proof (sim_get k _ _ Hs) as G.
  destruct (bget k s), (bget k s'); try done. by apply sim_but_assign.
Qed.

(** The source may have the member, and then the other one need not. *)
Lemma sim_but_merge x t t' s s' s1 :
  sim_but x t t' -> sim_map s s' -> sorted s1 -> (forall k, k <> x -> bget k s' = bget k s1) ->
  sim_but x (mergeObject t s) (bextend t' s1).
Proof.
  intros (r' & H & Ht & E) Hs S1 Es. exists (bextend r' s'). split; [by apply sim_mergeObject|].
  split; [by apply sorted_bextend|]. intros k Hk. rewrite !bget_bextend by (done || by eapply sim_map_sorted).
  by rewrite Es, E.
Qed.

Lemma sim_but_mergeNested x m r f o p :
  sim_but x m r -> f <> x -> plain_key f = true -> opt_sim sim o p ->
  sim_but x (mergeNestedObject m f o) (merge_nested_object r f p).
Proof.
  intros (r' & H & Hr & E) Hne Hf Ho. exists (merge_nested_object r' f p). split; [by apply sim_mergeNested|].
  destruct p as [w|]; [|done]. cbn [merge_nested_object]. rewrite <-(E f) by done.
  assert (B : forall u, sorted (bins f u r) /\ forall k, k <> x -> bget k (bins f u r') = bget k (bins f u r)).
  { intros u. split; [by apply sorted_bins|]. intros k Hk. rewrite !bget_bins, E by done. done. }
  destruct (bget f r' ≫= as_object), (as_object w); apply B.
Qed.

(** The view drops the member. *)
Lemma sim_but_pick x m r keys :
  sim_but x m r -> Forall (fun k => plain_key k = true) keys -> ~ In x keys ->
  sim (pick (Object m) keys) (pick_value (Object r) keys).
Proof.
  intros (r' & H & Hr & E) Hk Hx. cbn [pick pick_value]. apply sim_object.
  rewrite <-(pick_map_ext r' r keys); [by apply sim_pick_map|]. intros k Hin. apply E. by intros ->.
Qed.

(** ** Indices *)

(** The index both sides read: a number that is an integer a double holds, or
    the fallback when the member is not a number. *)
Definition index_at (o : option json) (fallback : Z) : option Z :=
  z ← match o ≫= as_number with Some n => number_as_i64 n | None => Some fallback end;
  if (0 <=? z)%Z && (z <? 2 ^ 53)%Z then Some z else None.

Lemma index_at_range o fallback z : index_at o fallback = Some z -> (0 <= z < 2 ^ 53)%Z.
Proof.
  unfold index_at. destruct (match _ with Some n => _ | None => _ end) as [x|]; [|done]. cbn [mbind option_bind].
  destruct (_ && _)%bool eqn:E; [|done]. intros [= <-]. lia.
Qed.

Lemma index_agrees o p fallback z :
  opt_sim sim o p -> index_at o fallback = Some z ->
  default (js_int fallback) (o ≫= as_number) = js_int z
  /\ numberOrDefault o (js_int fallback) = js_int z
  /\ default fallback (p ≫= as_i64) = z
  /\ default fallback (p ≫= as_u64) = z.
Proof.
  intros Ho Hz. pose proof (index_at_range _ _ _ Hz) as R.
  assert (C : (exists n, o = Some (Number n) /\ p = Some (Number n) /\ number_as_i64 n = Some z)
    \/ (o ≫= as_number = None /\ p ≫= as_i64 = None /\ p ≫= as_u64 = None /\ z = fallback)).
  { unfold index_at in Hz. destruct o as [v|], p as [w|]; try done; [destruct Ho as [_ ->]; destruct v|]; cbn in *;
      try (right; split; [done|]; split; [done|]; split; [done|]; destruct (_ && _)%bool; congruence).
    left. exists n. split; [done|]. split; [done|]. destruct (number_as_i64 n); [|done]. cbn in Hz.
    destruct (_ && _)%bool; congruence. }
  destruct C as [(n & -> & -> & E)|(E1 & E2 & E3 & ->)].
  - cbn. rewrite E, (as_u64_of_as_i64 n z) by (done || lia). unfold js_int. rewrite (number_of_as_i64 n z) by done.
    unfold numberOrDefault. cbn. rewrite <-(number_of_as_i64 n z), js_is_finite_int by done. done.
  - unfold numberOrDefault. by rewrite E1, E2, E3.
Qed.

(** ** Arrays *)

Lemma sim_set_at l k i v w :
  Forall2 sim l k -> i <= length l -> sim v w -> Forall2 sim (set_at l i v) (<[i := w]> (pad_objects k i)).
Proof.
  intros Hl Hi Hv. unfold set_at, pad_objects. assert (E : length l = length k) by (by eapply Forall2_length).
  destruct (decide (i < length l)) as [Hlt|Hge].
  - replace (S i - length l) with 0 by lia. replace (S i - length k) with 0 by lia. cbn [repeat]. rewrite !app_nil_r.
    by apply Forall2_insert.
  - replace i with (length l) by lia. replace (S (length l) - length l) with 1 by lia.
    replace (S (length l) - length k) with 1 by lia. cbn [repeat].
    rewrite E at 2. replace (length l) with (length l + 0) by lia. rewrite insert_app_r.
    replace (length k) with (length k + 0) by lia. rewrite insert_app_r. cbn. apply Forall2_app; [done|]. by constructor.
Qed.

Lemma sim_lookup_padded l k i : Forall2 sim l k -> i <= length l ->
  sim_map (record_or_new (l !! i)) (object_or_empty (pad_objects k i !! i)).
Proof.
  intros Hl Hi. assert (E : length l = length k) by (by eapply Forall2_length). unfold pad_objects.
  destruct (decide (i < length l)) as [Hlt|Hge].
  - replace (S i - length k) with 0 by lia. cbn [repeat]. rewrite app_nil_r. apply sim_record_or_new.
    destruct (lookup_lt_is_Some_2 l i Hlt) as [v Hv].
    destruct (Forall2_lookup_l _ _ _ _ _ Hl Hv) as (w & Hw & Hs). by rewrite Hv, Hw.
  - rewrite (lookup_ge_None_2 l) by lia. replace i with (length k) by lia.
    rewrite lookup_app_r, Nat.sub_diag by lia. replace (S (length k) - length k) with 1 by lia. apply sim_nil.
Qed.
End Agree.
