(* ===== verification/JsMerges.v ===== *)
(** The merge functions of the verifier against those of Merge.v: on values
    that are the same on both sides they give the same value, under conditions
    ([.._ok], decidable on the verifier's side) that name the inputs on which
    the two programs differ: tool calls and content parts that leave a gap, or
    members of an unexpected type. *)

From S2P Require Import Prelude RustStr BTree Json Merge JsJson Verifier JsViews JsAgree.
Local Open Scope bytes_scope.

(** * Loops with a condition on every step *)

Fixpoint tame_run {S E} (step : S -> E -> S) (ok : S -> E -> bool) (s : S) (l : list E) : bool :=
  match l with
  | [] => true
  | e :: l => ok s e && tame_run step ok (step s e) l
  end.

Lemma tame_fold {S S' E E'} (R : S -> S' -> Prop) (RE : E -> E' -> Prop) step step' ok l k :
  (forall s s' e e', R s s' -> RE e e' -> ok s e = true -> R (step s e) (step' s' e')) ->
  Forall2 RE l k -> forall s s', R s s' -> tame_run step ok s l = true -> R (fold_left step l s) (fold_left step' k s').
Proof.
  intros Hs. induction 1 as [|e e' l k He _ IH]; intros s s' H; [done|]. cbn [tame_run fold_left].
  intros [Ho Ht]%andb_prop. apply IH; [by apply Hs|done].
Qed.

(** Elements with their position, below [n]. *)
Definition at_index {A B} (n : Z) (R : A -> B -> Prop) (a : Z * A) (b : Z * B) : Prop :=
  a.1 = b.1 /\ (0 <= a.1 < n)%Z /\ R a.2 b.2.

Lemma enumerate_at {A B} (R : A -> B -> Prop) l k :
  Forall2 R l k -> Forall2 (at_index (zlen l) R) (enumerate l) (enumerate k).
Proof.
  intros H. unfold enumerate. assert (G : forall i n, (0 <= i)%Z -> (i + zlen l <= n)%Z ->
    Forall2 (at_index n R) (enumerate_from i l) (enumerate_from i k)); [|apply G; lia].
  induction H as [|a b l k Hab _ IH]; intros i n Hi Hn; cbn [enumerate_from]; [constructor|].
  unfold zlen in *. cbn [length] in Hn. constructor; [|apply IH; lia]. repeat split; cbn; (lia || done).
Qed.

Lemma enumerate_left {A B} (R : A -> B -> Prop) l k : Forall2 R l k -> Forall2 (fun a b => R a.2 b) (enumerate l) k.
Proof.
  unfold enumerate. intros H. generalize 0%Z. induction H as [|a b l k Hab _ IH]; intros z; cbn; constructor; [done|apply IH].
Qed.

Lemma includes_In keys k : includes keys k = bool_decide (In k keys).
Proof.
  unfold includes. induction keys as [|k' keys IH]; [done|]. cbn [existsb In]. rewrite IH. unfold eqs.
  destruct (decide (k = k')) as [->|H].
  - rewrite (bool_decide_true (k' = k')), (bool_decide_true (_ \/ _)) by tauto. done.
  - rewrite (bool_decide_false (k = k')) by done. cbn [orb]. apply bool_decide_ext. split; [tauto|]. intros [?|?]; congruence.
Qed.

Lemma eqs_true a b : eqs a b = true -> a = b.
Proof. unfold eqs. by intros ?%bool_decide_eq_true. Qed.

Section Merges.
Context `{SJ : SerdeJson} `{SJL : !SerdeJsonLaws} `{JT : !JsText} `{JL : !JsTextLaws} `{JN : !JsNumbers}
  `{NL : !JsNumbersLaws}.
Abbreviation json := (value number).
Abbreviation jmap := (list (bytes * value number)).

Lemma sim_int z : (0 <= z < 2 ^ 53)%Z -> sim (Number (js_int z)) (json_int z).
Proof. intros H. split; [|done]. constructor. unfold js_int. by rewrite js_number_int, number_to_string_int. Qed.

(** ** What the loops put at a member *)

Definition appended (o : option json) (v : json) : option json :=
  s ← as_str v; Some (Str match o ≫= as_str with Some e => e ++ s | None => s end).

Definition kept (v : json) : option json := if is_null v then None else Some v.

Definition merged_js (o : option json) (v : json) : option json :=
  match o ≫= as_object, as_object v with
  | Some e, Some i => Some (Object (spread (copy e) i))
  | _, _ => kept v
  end.
Definition merged_rs (o : option json) (v : json) : option json :=
  match o ≫= as_object, as_object v with
  | Some e, Some i => Some (Object (bextend e i))
  | _, _ => kept v
  end.

Lemma append_appended t k v :
  appendStringField t k (Some v) = match appended (bget k t) v with Some x => assign t k x | None => t end.
Proof. unfold appendStringField, appended. cbn. by destruct (as_str v). Qed.

Lemma append_appended_rs t k (v : json) :
  append_string_field t k (Some v) = match appended (bget k t) v with Some x => bins k x t | None => t end.
Proof. unfold append_string_field, appended. cbn. by destruct (as_str v). Qed.

Lemma assign_kept t k v : assign_present t (k, v) = match kept v with Some x => assign t k x | None => t end.
Proof. unfold assign_present, present, kept. cbn. by destruct (is_null v). Qed.

Lemma insert_kept t k (v : json) : insert_non_null k v t = match kept v with Some x => bins k x t | None => t end.
Proof. unfold insert_non_null, kept. by destruct (is_null v). Qed.

Lemma sim_appended o p v w : opt_sim sim o p -> sim v w -> opt_sim sim (appended o v) (appended p w).
Proof.
  intros Ho%opt_sim_str Hv. pose proof (opt_sim_str (Some v) (Some w) Hv) as E. cbn in E. unfold appended. rewrite E, Ho.
  destruct (as_str w); [|done]. apply sim_str.
Qed.

Lemma sim_kept v w : sim v w -> opt_sim sim (kept v) (kept w).
Proof. intros H. unfold kept. rewrite (sim_null _ _ H). by destruct (is_null w). Qed.

Lemma sim_merged_kept o p v w : opt_sim sim o p -> sim v w -> opt_sim sim (merged_js o v) (merged_rs p w).
Proof.
  intros Ho Hv. pose proof (sim_merged _ _ _ _ Ho Hv) as M. pose proof (sim_kept _ _ Hv) as K. unfold merged_js, merged_rs.
  destruct (o ≫= as_object), (p ≫= as_object), (as_object v), (as_object w); done.
Qed.

(** ** Tool calls *)

Definition call_ok (out : list json) (raw : json) : bool :=
  match raw with
  | Object raw =>
      match index_at (bget "index" raw) (zlen out) with
      | Some z => (z <=? zlen out)%Z && (z <? 2 ^ 32 - 1)%Z
      | None => false
      end && match bget "function" raw with None | Some (Object _) => true | _ => false end
  | _ => true
  end.

Lemma sim_tool_call_members m r raw raw' :
  sim_map m r -> sim_map raw raw' -> match bget "function" raw with None | Some (Object _) => true | _ => false end = true ->
  sim_map (fold_left toolCallMember (object_entries raw) m) (for_members merge_tool_call_member raw' r).
Proof.
  set (put o name (v : json) := appendStringField (appendStringField o "name" (bget "name" name)) "arguments" (bget "arguments" name)).
  intros Hm Hr Hf. eapply (sim_members _ _
    (fun k o v => if eqs k "index" then None
       else match (if eqs k "function" then as_object v else None) with
            | Some value => Some (Object (put (record_or_new o) value v))
            | None => Some v
            end)
    (fun k o v => if eqs k "index" then None
       else if eqs k "function" then
         fn ← as_object v;
         Some (Object (append_string_field (append_string_field (object_or_empty o) "name" (bget "name" fn))
                         "arguments" (bget "arguments" fn)))
       else Some v)); [| | |exact Hr|exact Hm].
  - intros t k v. unfold toolCallMember. cbn [fst snd]. destruct (eqs k "function") eqn:E.
    + apply eqs_true in E as ->. by destruct v.
    + by destruct (eqs k "index").
  - intros t k w. unfold merge_tool_call_member. destruct (eqs k "index"); [done|].
    destruct (eqs k "function") eqn:E; [apply eqs_true in E as ->|done]. by destruct (as_object w).
  - intros k o p v w Hk _ Ho Hv. destruct (eqs k "index"); [done|].
    destruct (eqs k "function") eqn:E; [apply eqs_true in E as ->|done]. rewrite Hk in Hf. destruct v as [| | | | |v]; try done.
    pose proof Hv as [_ ->]. cbn [as_object norm mbind option_bind]. apply sim_object in Hv. apply sim_object.
    apply sim_append; [apply sim_append; [by apply sim_record_or_new|done|by apply sim_get]|done|by apply sim_get].
Qed.

Lemma sim_mergeToolCall l k raw raw' :
  Forall2 sim l k -> sim raw raw' -> call_ok l raw = true -> Forall2 sim (mergeToolCall l raw) (merge_tool_call k raw').
Proof.
  intros Hl Hr Ho. apply sim_cases in Hr. destruct raw as [| | | | |raw]; try (by subst raw' || by destruct Hr as (? & -> & _)).
  destruct Hr as (r & -> & Hr). cbn [call_ok] in Ho.
  apply andb_prop in Ho as [Hi Hf]. destruct (index_at _ _) as [z|] eqn:Ez; [|done].
  assert (E : length l = length k) by (by eapply Forall2_length).
  pose proof (index_at_range _ _ _ Ez) as Rz.
  destruct (index_agrees _ _ _ _ (sim_get "index" _ _ Hr) Ez) as (E1 & _ & _ & E2).
  unfold merge_tool_call, mergeToolCall. cbn [as_object]. rewrite E1.
  assert (Ei : match bget "index" r ≫= as_u64 with Some v => Z.to_nat v | None => length k end = Z.to_nat z).
  { rewrite <-E2. unfold zlen. destruct (bget "index" r ≫= as_u64); cbn; [done|]. lia. }
  rewrite Ei. unfold array_set, array_get. unfold js_int at 2. unfold js_int. rewrite js_array_index_int by lia.
  cbn [mbind option_bind]. assert (Z.to_nat z <= length l) by (unfold zlen in Hi; lia).
  apply sim_set_at; [done|done|]. apply sim_object, sim_tool_call_members; [|done|done]. by apply sim_lookup_padded.
Qed.

(** The list of calls that a delta adds to a message. *)
Definition calls_ok (message delta : jmap) : bool :=
  match bget "tool_calls" delta with
  | None => true
  | Some (Array calls) => tame_run mergeToolCall call_ok (copy_items (list_or_new (bget "tool_calls" message))) calls
  | Some _ => false
  end.

Lemma sim_tool_calls_field m r d d' :
  sim_map m r -> sim_map d d' -> calls_ok m d = true ->
  sim_map (merge_tool_calls_field m d)
    match bget "tool_calls" d' ≫= as_array with
    | Some calls => bins "tool_calls" (Array (merge_tool_calls (array_or_empty (bget "tool_calls" r)) calls)) r
    | None => r
    end.
Proof.
  intros Hm Hd Ho. unfold merge_tool_calls_field, calls_ok in *. pose proof (sim_get "tool_calls" _ _ Hd) as G.
  destruct (bget "tool_calls" d) as [v|], (bget "tool_calls" d') as [w|]; try done. pose proof G as [_ ->].
  destruct v as [| | | |calls|]; try done. apply sim_array in G. cbn [mbind option_bind as_array norm].
  apply sim_assign; [done..|]. apply sim_array. cbn [mergeToolCalls]. unfold merge_tool_calls.
  eapply (tame_fold (Forall2 sim) sim); [|exact G| |exact Ho].
  - intros. by apply sim_mergeToolCall.
  - by apply copy_items_sim, sim_list_or_new, sim_get.
Qed.

(** ** OpenAI chat *)

Lemma sim_role m r d d' :
  sim_map m r -> sim_map d d' ->
  sim_map
    match bget "role" d ≫= as_str with
    | Some role => if bhas "role" m then m else assign m "role" (Str role)
    | None => m
    end
    (if bhas "role" r then r
     else match bget "role" d' ≫= as_str with Some role => bins "role" (Str role) r | None => r end).
Proof.
  intros Hm Hd. rewrite (sim_get_str "role" _ _ Hd), (sim_has "role" _ _ Hm).
  destruct (bget "role" d' ≫= as_str), (bhas "role" r); try done. apply sim_assign; [done..|apply sim_str].
Qed.

Lemma bget_assign_ne k k' (v : json) m : k <> k' -> bget k (assign m k' v) = bget k m.
Proof.
  intros H. unfold assign. destruct (eqs k' "__proto__"); [done|]. rewrite bget_assign_own. by cmp_cases k k'.
Qed.

Lemma bget_append_js_ne k f m o : k <> f -> bget k (appendStringField m f o) = bget k m.
Proof. intros H. unfold appendStringField. destruct (o ≫= as_str); [by apply bget_assign_ne|done]. Qed.

(** The condition on a delta is that its tool calls fit those of the message. *)
Lemma sim_chat_delta m r d d' :
  sim_map m r -> sim_map d d' -> calls_ok m d = true -> sim_map (mergeOpenAIChatDelta m d) (merge_openai_chat_delta r d').
Proof.
  intros Hm Hd Ho. unfold mergeOpenAIChatDelta, merge_openai_chat_delta. cbv zeta. apply sim_tool_calls_field; [|done|].
  - apply sim_append; [apply sim_append; [by apply sim_role|done|by apply sim_get]|done|by apply sim_get].
  - unfold calls_ok in *. rewrite !bget_append_js_ne by done.
    destruct (bget "role" d ≫= as_str), (bhas "role" m); [|rewrite bget_assign_ne by done|..]; exact Ho.
Qed.

(** ** OpenAI responses *)

(** A content part extends the content by one at most. *)
Definition part_ok (item : jmap) (rawIndex : option json) : bool :=
  let content := list_or_new (bget "content" item) in
  match index_at rawIndex (zlen content) with
  | Some z => (z <=? zlen content)%Z && (z <? 2 ^ 32 - 1)%Z
  | None => false
  end.

(** The edit of the part is one of the two writes of the enclave. *)
Lemma sim_content_part m r i i' p p' edit af av sf sv :
  sim_map m r -> opt_sim sim i i' -> opt_sim sim p p' -> part_ok m i = true ->
  (forall t t', sim_map t t' ->
     sim_map (edit t)
       (let t' := match af with Some f => append_string_field t' f av | None => t' end in
        match sf with Some f => set_string_field t' f sv | None => t' end)) ->
  sim_map (mergeOpenAIResponseContentPart m i p edit) (merge_openai_response_content_part r i' p' af av sf sv).
Proof.
  intros Hm Hi Hp Ho He. unfold part_ok in Ho. unfold mergeOpenAIResponseContentPart, merge_openai_response_content_part.
  pose proof (sim_list_or_new _ _ (sim_get "content" _ _ Hm)) as Hl. set (l := list_or_new _) in *.
  set (k := array_or_empty _) in *. assert (E : length l = length k) by (by eapply Forall2_length).
  destruct (index_at i (zlen l)) as [z|] eqn:Ez; [|done]. pose proof (index_at_range _ _ _ Ez) as Rz.
  destruct (index_agrees _ _ _ _ Hi Ez) as (_ & E1 & _ & E2). cbv zeta. rewrite E1.
  assert (Ei : match i' ≫= as_u64 with Some v => Z.to_nat v | None => length k end = Z.to_nat z).
  { rewrite <-E2. unfold zlen. destruct (i' ≫= as_u64); cbn; [done|]. lia. }
  rewrite Ei. unfold array_set, array_get, js_int. rewrite js_array_index_int by lia. cbn [mbind option_bind].
  assert (Z.to_nat z <= length l) by (unfold zlen in Ho; lia).
  apply sim_assign; [done..|]. apply sim_array, sim_set_at; [done|done|]. apply sim_object, He.
  pose proof (sim_lookup_padded _ _ (Z.to_nat z) Hl ltac:(lia)) as L. apply opt_sim_object in Hp.
  destruct (p ≫= as_object), (p' ≫= as_object); try done. by apply sim_mergeObject.
Qed.

(** ** Anthropic *)

(** Both sides cut the suffix of the type in the same way. *)
Definition delta_type_ok (delta : jmap) : bool :=
  match bget "type" delta ≫= as_str with
  | Some type => eqs (trim_end_delta (length type) type) (drop_delta_suffix type)
  | None => true
  end.

Lemma sim_anthropic_delta m r d d' :
  sim_map m r -> sim_map d d' -> delta_type_ok d = true ->
  sim_map (mergeAnthropicContentDelta m d) (merge_anthropic_content_delta r d').
Proof.
  intros Hm Hd Ho. unfold mergeAnthropicContentDelta, merge_anthropic_content_delta, delta_type_ok in *. cbv zeta.
  do 4 (apply sim_append; [|done|by apply sim_get]).
  rewrite <-(sim_get_str "type" _ _ Hd), (sim_has "type" _ _ Hm).
  destruct (bget "type" d ≫= as_str) as [type|]; [|by destruct (bhas "type" r)]. apply eqs_true in Ho as ->.
  destruct (bhas "type" r); [done|]. apply sim_assign; [done..|apply sim_str].
Qed.

(** ** Gemini *)

Lemma sim_semantic_part t t' s s' :
  sim_map t t' -> sim_map s s' -> sim_map (mergeSemanticPart t s) (merge_semantic_part t' s').
Proof.
  intros Ht Hs. eapply (sim_members _ _
    (fun k o v => if includes ["text"; "thinking"; "signature"] k then appended o v else merged_js o v)
    (fun k o v => if includes ["text"; "thinking"; "signature"] k then appended o v else merged_rs o v)); [| | |done|done].
  - intros m k v. cbn [fst snd]. destruct (includes _ k); [apply append_appended|]. unfold merged_js. rewrite assign_kept.
    destruct (bget k m ≫= as_object), (as_object v); done.
  - intros m k v. unfold includes. cbn [existsb]. rewrite orb_false_r, orb_assoc.
    destruct (_ || _)%bool; [apply append_appended_rs|]. unfold merged_rs. rewrite insert_kept.
    destruct (bget k m ≫= as_object), (as_object v); done.
  - intros k o p v w _ _ Ho Hv. destruct (includes _ k); [by apply sim_appended|by apply sim_merged_kept].
Qed.

Lemma sim_parts_from l l' i c e' :
  Forall2 sim l l' -> Forall2 sim c e' -> (0 <= i <= zlen c)%Z ->
  Forall2 sim (fold_left merge_indexed_part_js (enumerate_from i l) c) (fold_left merge_indexed_part (enumerate_from i l') e').
Proof.
  intros Hl. revert i c e'. induction Hl as [|v w l l' Hv _ IH]; intros i c e' He Hi; [done|]. cbn [enumerate_from fold_left].
  assert (Hn : Z.to_nat i <= length c) by (unfold zlen in Hi; lia).
  assert (S : forall x y, sim x y -> Forall2 sim (set_at c (Z.to_nat i) x) (<[Z.to_nat i := y]> (pad_objects e' (Z.to_nat i))))
    by (intros; by apply sim_set_at).
  assert (Hlen : forall x, (0 <= i + 1 <= zlen (set_at c (Z.to_nat i) x))%Z).
  { intros x. unfold zlen, set_at in *. rewrite length_insert, length_app, repeat_length. lia. }
  unfold merge_indexed_part_js at 2, merge_indexed_part at 2. cbn [fst snd]. cbv zeta. pose proof Hv as C. apply sim_cases in C.
  destruct v as [| | | | |m]; try (subst w; by apply IH; [apply S|]).
  - destruct C as (k & -> & C). apply IH; [by apply S|done].
  - destruct C as (r & -> & C). cbn [as_object]. apply IH; [|done].
    apply S, sim_object, sim_semantic_part; [|done]. by apply sim_lookup_padded.
Qed.

Lemma sim_indexed_parts e e' l l' :
  Forall2 sim e e' -> Forall2 sim l l' ->
  Forall2 sim (mergeIndexedParts e l) (fold_left merge_indexed_part (enumerate l') e').
Proof. intros He%copy_items_sim Hl. apply sim_parts_from; [done|done|unfold zlen; lia]. Qed.
(** The content of a candidate, when there is one, is an object, and its parts
    are an array. *)
Definition content_ok (raw : jmap) : bool :=
  match bget "content" raw with
  | None | Some Null => true
  | Some (Object c) => match bget "parts" c with None | Some Null | Some (Array _) => true | Some _ => false end
  | Some _ => false
  end.

Lemma sim_content_members c c' s s' :
  sim_map c c' -> sim_map s s' ->
  match bget "parts" s with None | Some Null | Some (Array _) => true | Some _ => false end = true ->
  sim_map (fold_left gemini_content_member (object_entries s) c) (for_members merge_gemini_content_member s' c').
Proof.
  intros Hc Hs Ho. eapply (sim_members _ _
    (fun k o v => match (if eqs k "parts" then as_array v else None) with
                  | Some parts => Some (Array (mergeIndexedParts (list_or_new o) parts))
                  | None => kept v
                  end)
    (fun k o v => if eqs k "parts" then
                    parts ← as_array v; Some (merge_indexed_parts o parts)
                  else kept v)); [| | |exact Hs|exact Hc].
  - intros t k v. unfold gemini_content_member. cbn [fst snd]. rewrite assign_kept.
    destruct (eqs k "parts") eqn:E; [apply eqs_true in E as ->|done]. by destruct (as_array v).
  - intros t k v. unfold merge_gemini_content_member. rewrite insert_kept.
    destruct (eqs k "parts") eqn:E; [apply eqs_true in E as ->|done]. by destruct (as_array v).
  - intros k o p v w Hk _ Hop Hv. destruct (eqs k "parts") eqn:E; [apply eqs_true in E as ->|by apply sim_kept].
    rewrite Hk in Ho. apply sim_cases in Hv. destruct v as [| | | |l|]; try done; [by subst w|].
    destruct Hv as (l' & -> & Hl). cbn. apply sim_array, sim_indexed_parts; [by apply sim_list_or_new|done].
Qed.

Lemma sim_gemini_candidate t t' s s' :
  sim_map t t' -> sim_map s s' -> content_ok s = true ->
  sim_map (mergeGeminiCandidate t s) (merge_gemini_candidate t' s').
Proof.
  intros Ht Hs Ho. eapply (sim_members _ _
    (fun k o v => if eqs k "index" then None
                  else match (if eqs k "content" then as_object v else None) with
                  | Some value => Some (Object (fold_left gemini_content_member (object_entries value) (record_or_new o)))
                  | None => kept v
                  end)
    (fun k o v => if eqs k "index" then None
                  else if eqs k "content" then
                    c ← as_object v; Some (Object (for_members merge_gemini_content_member c (object_or_empty o)))
                  else kept v)); [| | |done|done].
  - intros m k v. cbn [fst snd]. rewrite assign_kept. destruct (eqs k "index"); [done|].
    destruct (eqs k "content") eqn:E; [apply eqs_true in E as ->|done]. by destruct (as_object v).
  - intros m k v. rewrite insert_kept. destruct (eqs k "index"); [done|].
    destruct (eqs k "content") eqn:E; [apply eqs_true in E as ->|done]. by destruct (as_object v).
  - intros k o p v w Hk _ Hop Hv. destruct (eqs k "index"); [done|].
    destruct (eqs k "content") eqn:E; [apply eqs_true in E as ->|by apply sim_kept].
    unfold content_ok in Ho. rewrite Hk in Ho. apply sim_cases in Hv. destruct v as [| | | | |c]; try done; [by subst w|].
    destruct Hv as (c' & -> & Hc). cbn. apply sim_object, sim_content_members; [by apply sim_record_or_new|done|done].
Qed.

(** ** DashScope *)

(** A loop that copies the members not in a list and not [null]. *)
Lemma sim_copy_members skip t t' s s' f g :
  sim_map t t' -> sim_map s s' ->
  (forall t k v, f t (k, v) = if negb (skip k) then assign_present t (k, v) else t) ->
  (forall t k v, g t k v = if negb (skip k) then insert_non_null k v t else t) ->
  sim_map (fold_left f (object_entries s) t) (for_members g s' t').
Proof.
  intros Ht Hs Hf Hg.
  eapply (sim_members _ _ (fun k o v => if negb (skip k) then kept v else None)
    (fun k o v => if negb (skip k) then kept v else None)); [| | |done|done].
  - intros m k v. rewrite Hf, assign_kept. by destruct (skip k).
  - intros m k v. rewrite Hg, insert_kept. by destruct (skip k).
  - intros k o p v w _ _ _ Hv. destruct (skip k); [done|by apply sim_kept].
Qed.

Lemma sim_dashscope_message t t' s s' :
  sim_map t t' -> sim_map s s' -> calls_ok t s = true ->
  sim_map (mergeDashscopeMessage t s) (merge_dashscope_message t' s').
Proof.
  intros Ht Hs Ho. unfold mergeDashscopeMessage, merge_dashscope_message. cbv zeta.
  apply (sim_copy_members (includes ["content"; "reasoning_content"; "tool_calls"])); [|done|done|].
  - apply sim_tool_calls_field; [|done|by unfold calls_ok in *; rewrite !bget_append_js_ne].
    apply sim_append; [apply sim_append; [done..|by apply sim_get]|done|by apply sim_get].
  - intros m k v. unfold includes. cbn [existsb]. by rewrite orb_false_r, !negb_orb, andb_assoc.
Qed.

(** ** Bedrock *)

Lemma sim_nested_semantic o o' s s' keys :
  opt_sim sim o o' -> sim_map s s' -> sim (mergeNestedSemanticObject o s keys) (merge_nested_semantic_object o' s' keys).
Proof.
  intros Ho Hs. apply sim_object. eapply (sim_members _ _
    (fun k o v => if includes keys k then appended o v else merged_js o v)
    (fun k o v => if includes keys k then appended o v else merged_rs o v)); [| | |done|by apply sim_record_or_new].
  - intros m k v. cbn [fst snd]. destruct (includes _ k); [apply append_appended|]. unfold merged_js. rewrite assign_kept.
    destruct (bget k m ≫= as_object), (as_object v); done.
  - intros m k v. rewrite includes_In. destruct (bool_decide _); [apply append_appended_rs|]. unfold merged_rs.
    rewrite insert_kept. destruct (bget k m ≫= as_object), (as_object v); done.
  - intros k e p v w _ _ Hop Hv. destruct (includes _ k); [by apply sim_appended|by apply sim_merged_kept].
Qed.

Lemma sim_nested_field key keys d d' m r :
  sim_map d d' -> sim_map m r -> plain_key key = true ->
  sim_map (merge_nested_field key keys d m)
    match bget key d' ≫= as_object with
    | Some o => bins key (merge_nested_semantic_object (bget key r) o keys) r
    | None => r
    end.
Proof.
  intros Hd Hm Hk. unfold merge_nested_field. pose proof (sim_get_object key _ _ Hd) as G.
  destruct (bget key d ≫= as_object), (bget key d' ≫= as_object); try done.
  apply sim_assign; [done..|]. apply sim_nested_semantic; [by apply sim_get|done].
Qed.

Lemma sim_bedrock_delta m r d d' :
  sim_map m r -> sim_map d d' -> sim_map (mergeBedrockContentDelta m d) (merge_bedrock_content_delta r d').
Proof.
  intros Hm Hd. unfold mergeBedrockContentDelta, merge_bedrock_content_delta. cbv zeta.
  pose proof (sim_append _ _ "text" _ _ Hm eq_refl (sim_get "text" _ _ Hd)) as H1.
  rewrite (sim_has "text" _ _ Hd), (sim_has "type" _ _ H1).
  apply (sim_copy_members (includes ["text"; "reasoningContent"; "toolUse"; "citationsContent"])); [|done|done|].
  - apply (sim_nested_field "citationsContent"); [done| |done]. apply (sim_nested_field "toolUse"); [done| |done].
    apply (sim_nested_field "reasoningContent"); [done| |done].
    destruct (_ && _)%bool; [|done]. apply sim_assign; [done..|apply sim_str].
  - intros t k v. unfold includes. cbn [existsb]. by rewrite orb_false_r, !negb_orb, !andb_assoc.
Qed.
End Merges.
