(* ===== verification/JsTables.v ===== *)
(** The tables of the stream aggregators: a JavaScript [Map] from numbers to
    objects, in insertion order and sorted at the end, against the
    [BTreeMap<i64, Map>] of the enclave.  The two agree as long as the keys are
    integers a double holds exactly. *)

From S2P Require Import Prelude RustStr BTree Json Merge JsJson Verifier JsViews JsAgree JsMerges.
Local Open Scope bytes_scope.

(** * Sorting *)

Lemma sort_insert_perm {A} (R : A -> A -> bool) x l : sort_insert R x l ≡ₚ x :: l.
Proof. induction l as [|y l IH]; cbn; [done|]. destruct (R y x); [|done]. rewrite IH. apply Permutation_swap. Qed.

Lemma sort_by_perm {A} (R : A -> A -> bool) l : sort_by R l ≡ₚ l.
Proof. unfold sort_by. induction l as [|x l IH]; cbn; [done|]. by rewrite sort_insert_perm, IH. Qed.

(** Sorting commutes with a map that keeps the comparison. *)
Lemma sort_by_map {A B} (R : A -> A -> bool) (R' : B -> B -> bool) (g : A -> B) (P : A -> Prop) l :
  Forall P l -> (forall x y, P x -> P y -> R' (g x) (g y) = R x y) -> sort_by R' (map g l) = map g (sort_by R l).
Proof.
  intros Hl Hg.
  assert (I : forall x l, P x -> Forall P l -> sort_insert R' (g x) (map g l) = map g (sort_insert R x l)).
  { intros x k Hx. induction 1 as [|y k Hy _ IH]; [done|]. cbn. rewrite Hg by done. destruct (R y x); [|done]. cbn. by rewrite IH. }
  unfold sort_by. induction Hl as [|x l Hx Hl IH]; [done|]. cbn. rewrite IH. apply I; [done|].
  fold (sort_by R l). by rewrite sort_by_perm.
Qed.

Section Tables.
Context `{SJ : SerdeJson} `{SJL : !SerdeJsonLaws} `{JT : !JsText} `{JL : !JsTextLaws} `{JN : !JsNumbers}
  `{NL : !JsNumbersLaws}.
Abbreviation json := (value number).
Abbreviation jmap := (list (bytes * value number)).
Abbreviation js_map := (list (number * list (bytes * value number))).
Abbreviation table := (list (Z * list (bytes * value number))).

Definition exact (z : Z) : Prop := (0 <= z < 2 ^ 53)%Z.

(** A [Map] with integer keys as a list with those integers. *)
Definition key_of (n : number) : Z := default 0%Z (number_as_i64 n).
Definition by_key (M : js_map) : table := map (fun e => (key_of e.1, e.2)) M.

Lemma key_of_int z : exact z -> key_of (js_int z) = z.
Proof. unfold exact, key_of, js_int. intros H. by rewrite number_from_i64_as_i64 by lia. Qed.

(** The keys are exact, none twice, and each object is the one of the table. *)
Record sim_table (M : js_map) (T : table) : Prop := {
  st_exact : Forall (fun e => exists z, exact z /\ e.1 = js_int z) M;
  st_nodup : NoDup (map fst (by_key M));
  st_sorted : sorted T;
  st_get z : opt_sim sim_map (bget z (by_key M)) (bget z T);
}.

Lemma table_nil : sim_table [] [].
Proof. split; [constructor|constructor|constructor|done]. Qed.

(** ** Reading and writing *)

Lemma map_get_key z M : Forall (fun e => exists z, exact z /\ e.1 = js_int z) M -> exact z ->
  map_get (js_int z) M = bget z (by_key M).
Proof.
  intros HM Hz. unfold map_get. induction HM as [|[n o] M (x & Hx & E) _ IH]; [done|]. cbn in E. subst n.
  cbn [List.find by_key map fst snd bget]. rewrite key_of_int by done. unfold js_int at 1 2. rewrite js_same_int by done.
  destruct (Z.eqb_spec x z) as [->|Hne]; [by rewrite kcmp_refl|]. cmp_cases z x; [done|apply IH..].
Qed.

Lemma bget_map_set z o M k : Forall (fun e => exists z, exact z /\ e.1 = js_int z) M -> exact z ->
  bget k (by_key (map_set (js_int z) o M)) = match kcmp k z with Eq => Some o | _ => bget k (by_key M) end.
Proof.
  intros HM Hz. induction HM as [|[n o'] M (x & Hx & E) _ IH]; cbn [map_set by_key map fst snd bget].
  - by rewrite key_of_int.
  - cbn in E. subst n. unfold js_int at 1 2. rewrite js_same_int by done. destruct (Z.eqb_spec x z) as [->|Hne];
      cbn [map fst snd bget]; rewrite key_of_int by done.
    + by destruct (kcmp k z).
    + unfold by_key in IH. rewrite IH. cmp_cases k x; [|done..]. cmp_cases x z; done.
Qed.

Lemma keys_map_set z o M : Forall (fun e => exists z, exact z /\ e.1 = js_int z) M -> exact z ->
  map fst (by_key (map_set (js_int z) o M))
    = if bool_decide (In z (map fst (by_key M))) then map fst (by_key M) else map fst (by_key M) ++ [z].
Proof.
  intros HM Hz. induction HM as [|[n o'] M (x & Hx & E) _ IH]; cbn [map_set by_key map fst snd].
  - by rewrite key_of_int.
  - cbn in E. subst n. unfold js_int at 1 2. rewrite js_same_int by done. rewrite !key_of_int by done.
    unfold by_key in IH. destruct (Z.eqb_spec x z) as [->|Hne]; cbn [map fst snd]; rewrite key_of_int by done.
    + rewrite bool_decide_true by (by left). done.
    + rewrite IH. destruct (decide (In z (map fst (map (fun e => (key_of e.1, e.2)) M)))) as [Hin|Hin].
      * by rewrite !bool_decide_true by (done || by right).
      * rewrite !bool_decide_false; [done| |done]. intros [?|?]; done.
Qed.

Lemma exact_map_set z o M : Forall (fun e => exists z, exact z /\ e.1 = js_int z) M -> exact z ->
  Forall (fun e => exists z, exact z /\ e.1 = js_int z) (map_set (js_int z) o M).
Proof.
  intros HM Hz. induction HM as [|[n o'] M (x & Hx & E) HM IH]; cbn [map_set].
  - constructor; [by exists z|constructor].
  - cbn [fst]. destruct (js_same n (js_int z)); constructor; try done; by exists x.
Qed.

Lemma sim_map_set M T z o p : sim_table M T -> exact z -> sim_map o p -> sim_table (map_set (js_int z) o M) (bins z p T).
Proof.
  intros [He Hn Hs Hg] Hz Ho. split.
  - by apply exact_map_set.
  - rewrite keys_map_set by done. case_bool_decide as E; [done|]. apply list.NoDup_app.
    split; [done|]. split; [|by apply NoDup_singleton]. intros x Hx ->%list_elem_of_singleton. by apply E, list_elem_of_In.
  - by apply sorted_bins.
  - intros k. rewrite bget_map_set, bget_bins by done. cmp_cases k z; [done|apply Hg..].
Qed.

Lemma sim_map_get M T z : sim_table M T -> exact z -> opt_sim sim_map (map_get (js_int z) M) (bget z T).
Proof. intros [He _ _ Hg] Hz. rewrite map_get_key by done. apply Hg. Qed.

(** The entry written, made of the one read. *)
Lemma sim_map_update M T z fresh fresh' f f' :
  sim_table M T -> exact z -> sim_map fresh fresh' ->
  (forall p, sim_map (default fresh (map_get (js_int z) M)) p -> sim_map (f (default fresh (map_get (js_int z) M))) (f' p)) ->
  sim_table (map_update (js_int z) fresh f M) (bentry z fresh' f' T).
Proof.
  intros H Hz Hf Hs. unfold bentry. apply sim_map_set; [done|done|]. apply Hs. pose proof (sim_map_get _ _ _ H Hz) as G.
  by destruct (map_get _ _), (bget z T).
Qed.

(** ** Size *)

Lemma bget_is_some {V} z (m : list (Z * V)) : is_Some (bget z m) <-> In z (map fst m).
Proof.
  induction m as [|[k v] m IH]; cbn [bget map fst In]; [split; [by intros [? ?]|done]|].
  rewrite <-IH. cmp_cases z k; [split; [by left|by eexists]|..];
    (split; [by right|intros [->|?]; [by rewrite kcmp_refl in Ecmp|done]]).
Qed.

Lemma sorted_NoDup_Z {V} (m : list (Z * V)) : sorted m -> NoDup (map fst m).
Proof.
  induction 1 as [|k v m Hf _ IH]; [constructor|]. cbn. constructor; [|done].
  intros (kv & <- & Hin)%list_elem_of_In%in_map_iff. rewrite Forall_forall in Hf. specialize (Hf _ Hin). by rewrite kcmp_refl in Hf.
Qed.

Lemma sim_table_size M T : sim_table M T -> zlen M = zlen T.
Proof.
  intros [He Hn Hs Hg]. assert (P : map fst (by_key M) ≡ₚ map fst T).
  { apply NoDup_Permutation; [done|by apply sorted_NoDup_Z|]. intros z. rewrite !list_elem_of_In, <-!bget_is_some. specialize (Hg z).
    destruct (bget z (by_key M)), (bget z T); try done; split; intros [? ?]; (done || by eexists). }
  apply Permutation_length in P. unfold by_key in P. rewrite !length_map in P. unfold zlen. lia.
Qed.

Lemma sim_table_nil M T : sim_table M T -> M = [] <-> T = [].
Proof. intros H%sim_table_size. unfold zlen in H. split; intros ->; (destruct M || destruct T); cbn in *; done || lia. Qed.
(** ** The end of a stream *)

Definition key_before (a b : number * jmap) : bool := js_before a.1 b.1.

Lemma bget_perm {V} z (m m' : list (Z * V)) : NoDup (map fst m) -> m ≡ₚ m' -> bget z m = bget z m'.
Proof.
  intros Hn P. assert (Hn' : NoDup (map fst m')) by (by rewrite <-P). destruct (bget z m) as [v|] eqn:E.
  - apply In_bget in E. symmetry. apply bget_nodup; [done|]. by rewrite <-P.
  - destruct (bget z m') as [v|] eqn:E'; [|done]. apply In_bget in E'. rewrite <-P in E'. apply bget_nodup in E'; [congruence|done].
Qed.

Lemma bget_second {V W} (f : V -> W) z (m : list (Z * V)) : bget z (map (fun e => (e.1, f e.2)) m) = f <$> bget z m.
Proof. induction m as [|[k v] m IH]; cbn; [done|]. by destruct (z ?= k)%Z. Qed.

Lemma sort_insert_sorted e L :
  (exists z, exact z /\ e.1 = js_int z) -> Forall (fun e => exists z, exact z /\ e.1 = js_int z) L ->
  ~ In (key_of e.1) (map fst (by_key L)) -> sorted (by_key L) -> sorted (by_key (sort_insert key_before e L)).
Proof.
  intros (x & Hx & Ex) HL. induction HL as [|y L (k & Hk & Ey) HL IH]; intros Hin Hs; [by repeat constructor|].
  inversion Hs as [|k0 v0 m0 Hf Hs']; subst. cbn [by_key map fst snd] in *.
  cbn [sort_insert]. unfold key_before at 1. rewrite Ex, Ey in *. unfold js_int in * |-. unfold js_int at 1 2.
  rewrite js_before_int by done. fold (js_int x) (js_int k) in *. rewrite !key_of_int in * by done.
  destruct (Z.ltb_spec k x) as [Hlt|Hge]; cbn [by_key map fst snd]; rewrite Ey, ?Ex, ?key_of_int by done.
  - constructor; [|apply IH; [by intros ?; apply Hin; right|done]].
    change (Forall (fun kv => kcmp k kv.1 = Lt) (by_key (sort_insert key_before e L))). unfold by_key.
    rewrite sort_insert_perm. cbn [map]. constructor; [|done]. cbn. rewrite Ex, key_of_int by done. by apply Z.compare_lt_iff.
  - constructor; [|done]. assert (x < k)%Z by (destruct (decide (k = x)) as [->|]; [by destruct Hin; left|lia]).
    constructor; [by apply Z.compare_lt_iff|]. eapply Forall_impl; [|exact Hf]. intros [k1 v1]. cbn.
    rewrite !Z.compare_lt_iff. lia.
Qed.

Lemma sort_keys_by M : Forall (fun e => exists z, exact z /\ e.1 = js_int z) M -> NoDup (map fst (by_key M)) ->
  sorted (by_key (sort_by key_before M)).
Proof.
  intros HM. unfold sort_by. induction HM as [|e M He HM IH]; [constructor|]. cbn [by_key map fst foldr].
  intros [Hk Hn]%list.NoDup_cons. fold (sort_by key_before M) in *. apply sort_insert_sorted; [done| | |by apply IH].
  - by rewrite sort_by_perm.
  - intros Hin. apply Hk, list_elem_of_In. unfold by_key in Hin. by rewrite sort_by_perm in Hin.
Qed.

Lemma sim_entries M T : sim_table M T -> Forall2 sim_map (map snd (sort_by key_before M)) (bvalues T).
Proof.
  intros [He Hn Hs Hg]. set (L := sort_by key_before M).
  assert (P : by_key L ≡ₚ by_key M) by (unfold by_key, L; by rewrite sort_by_perm).
  assert (Hl : NoDup (map fst (by_key L))) by (by rewrite P).
  assert (G : forall z, opt_sim sim_map (bget z (by_key L)) (bget z T)).
  { intros z. rewrite (bget_perm z _ _ Hl P). apply Hg. }
  assert (E : T = map (fun e => (e.1, norm_map e.2)) (by_key L)).
  { apply btree_ext; [done| |].
    - assert (S : sorted (by_key L)) by (by apply sort_keys_by). clear -S. induction S as [|k v m Hf _ IH]; [constructor|].
      cbn. constructor; [|done]. by apply Forall_map.
    - intros z. specialize (G z). rewrite bget_second. destruct (bget z (by_key L)), (bget z T); try done.
      cbn. by destruct G as [_ ->]. }
  rewrite E. unfold bvalues, by_key. rewrite !map_map. cbn [fst snd].
  assert (HL : Forall (fun e => plain (Object e.2)) L).
  { apply Forall_forall. intros [n o] Hin.
    assert (B : bget (key_of n) (by_key L) = Some o).
    { apply bget_nodup; [done|]. apply in_map_iff. by exists (n, o). }
    specialize (G (key_of n)). rewrite B in G. by destruct (bget (key_of n) T); [destruct G|]. }
  clear -HL. induction HL as [|e L He _ IH]; constructor; [by split|done].
Qed.

Lemma sim_entries_by_key M T : sim_table M T -> sim (entries_by_key M) (Array (map Object (bvalues T))).
Proof.
  intros H%sim_entries. unfold entries_by_key. fold key_before. apply sim_array. rewrite <-(map_map snd Object).
  change (fun a b => js_before a.1 b.1) with key_before. induction H; constructor; [by apply sim_object|done].
Qed.

(** Objects that have their key as the member [index]. *)
Definition indexed (M : js_map) : Prop := Forall (fun e => bget "index" e.2 = Some (Number e.1)) M.

Lemma indexed_map_set n o M :
  indexed M -> bget "index" o = Some (Number n) -> (forall e, In e M -> js_same e.1 n = true -> e.1 = n) ->
  indexed (map_set n o M).
Proof.
  unfold indexed. intros H Ho Hs. induction H as [|e M He HM IH]; cbn [map_set]; [by repeat constructor|].
  destruct (js_same e.1 n) eqn:E.
  - constructor; [|done]. cbn. rewrite (Hs e) by (done || by left). done.
  - constructor; [done|]. apply IH. intros e' Hin. apply Hs. by right.
Qed.

Lemma same_key M T e z : sim_table M T -> exact z -> In e M -> js_same e.1 (js_int z) = true -> e.1 = js_int z.
Proof.
  intros H Hz Hin. pose proof (st_exact _ _ H) as He. rewrite Forall_forall in He. destruct (He e Hin) as (x & Hx & ->).
  unfold js_int. rewrite js_same_int by done. by intros ->%Z.eqb_eq.
Qed.

(** An update that leaves the member [index] alone. *)
Lemma indexed_update M T z fresh f :
  sim_table M T -> exact z -> indexed M -> bget "index" fresh = Some (Number (js_int z)) ->
  (forall o, bget "index" (f o) = bget "index" o) -> indexed (map_update (js_int z) fresh f M).
Proof.
  intros H Hz Hi Hf Ho. unfold map_update. apply indexed_map_set; [done| |by intros; eapply same_key].
  rewrite Ho. unfold map_get. destruct (List.find _ M) as [e|] eqn:E; [|done]. apply find_some in E as [Hin E].
  unfold indexed in Hi. rewrite Forall_forall in Hi. cbn. rewrite (Hi e Hin). do 2 f_equal. by eapply same_key.
Qed.

Lemma sim_values_by_index M T :
  sim_table M T -> indexed M -> sim (values_by_index M) (Array (map Object (bvalues T))).
Proof.
  intros H Hi. unfold values_by_index.
  rewrite (sort_by_map key_before index_before snd (fun e => bget "index" e.2 = Some (Number e.1))); [|exact Hi|].
  - pose proof (sim_entries _ _ H) as E. apply sim_array. induction E; constructor; [by apply sim_object|done].
  - intros x y Hx Hy. unfold index_before. by rewrite Hx, Hy.
Qed.

Lemma sim_but_close x key M T v w o p :
  sim_table M T -> sim_but x o p -> sim v w -> plain_key key = true ->
  sim_but x (close_map key M v o) match T with [] => p | _ => bins key w p end.
Proof.
  intros H Ho Hv Hk. pose proof (sim_table_nil _ _ H) as [H1 H2]. destruct M as [|e M].
  - by rewrite H1.
  - destruct T; [by specialize (H2 eq_refl)|]. by apply sim_but_assign.
Qed.

Lemma sim_close key M T v w o p :
  sim_table M T -> sim v w -> sim_map o p -> plain_key key = true ->
  sim_map (close_map key M v o) match T with [] => p | _ => bins key w p end.
Proof.
  intros H Hv Ho Hk. pose proof (sim_table_nil _ _ H) as [H1 H2]. destruct M as [|e M].
  - by rewrite H1.
  - destruct T; [by specialize (H2 eq_refl)|]. by apply sim_assign.
Qed.
End Tables.
