(* ===== verification/JsStreams.v ===== *)
(** The stream aggregators of the verifier against those of the enclave: for
    each protocol the condition under which the events of a stream are put
    together alike ([.._ok], decided along the verifier's own run), and the
    proof that they are.  The conditions name what the two programs treat
    differently. *)

From S2P Require Import Prelude RustStr BTree Json Merge JsJson Verifier JsViews JsAgree JsMerges JsTables.
From S2P Require OpenAiChat OpenAiResponses Anthropic Gemini Dashscope Bedrock Cohere.
Local Open Scope bytes_scope.

Section Streams.
Context `{SJ : SerdeJson} `{SJL : !SerdeJsonLaws} `{JT : !JsText} `{JL : !JsTextLaws} `{JN : !JsNumbers}
  `{NL : !JsNumbersLaws}.
Abbreviation json := (value number).
Abbreviation jmap := (list (bytes * value number)).
Abbreviation js_map := (list (number * list (bytes * value number))).

Lemma sim_new_choice z : exact z ->
  sim_map (new_choice (js_int z)) (bins "message" (Object []) (bins "index" (json_int z) [])).
Proof.
  intros Hz. change (new_choice (js_int z)) with ([("index", Number (js_int z))] ++ [("message", Object [])]).
  apply sim_literal; [|done|by intros [?|[]]|apply sim_object, sim_nil].
  change [("index", Number (js_int z))] with (([] : jmap) ++ [("index", Number (js_int z))]).
  apply sim_literal; [apply sim_nil|done|by intros []|by apply sim_int].
Qed.

Lemma sim_message_of m r : sim_map m r -> sim_map (message_of m) (object_or_empty (bget "message" r)).
Proof.
  intros H. pose proof (opt_sim_object _ _ (sim_get "message" _ _ H)) as G. unfold message_of, object_or_empty.
  destruct (bget "message" m) as [[]|], (bget "message" r ≫= as_object); cbn in *; try done; apply sim_nil.
Qed.

Lemma sim_raw_list key m r :
  sim_map m r -> Forall2 sim (list_or_new (bget key m)) (array_or_empty (bget key r)).
Proof. intros H. by apply sim_list_or_new, sim_get. Qed.

(** A loop over an array member, which the enclave runs when it is one. *)
Lemma fold_array {S} (f : S -> json -> S) (o : option json) s :
  fold_left f (array_or_empty o) s = match o ≫= as_array with Some l => fold_left f l s | None => s end.
Proof. unfold array_or_empty. by destruct (o ≫= as_array). Qed.

Lemma fold_enumerated {S} (f : S -> Z * json -> S) (o : option json) s :
  fold_left f (enumerate (array_or_empty o)) s = match o ≫= as_array with Some l => fold_left f (enumerate l) s | None => s end.
Proof. unfold array_or_empty. by destruct (o ≫= as_array). Qed.

(** [match m { [] => d, blocks => F(blocks) }]. *)
Lemma close_alias {A B} (F : list A -> B) (d : B) T :
  match T with [] => d | p :: l => F (p :: l) end = match T with [] => d | _ => F T end.
Proof. by destruct T. Qed.

(** * OpenAI chat *)

(** The tool calls of a delta fit those of its choice, and a choice without an
    index stands where the enclave puts it. *)
Definition chat_choice_ok (choice raw : jmap) : bool :=
  match bget "delta" raw with
  | Some (Object d) => calls_ok (message_of choice) d
  | _ => true
  end.

Definition chat_raw_ok (choices : js_map) (iraw : Z * json) : bool :=
  match iraw.2 with
  | Object raw =>
      match bget "index" raw ≫= as_number with Some _ => true | None => (iraw.1 =? zlen choices)%Z end
      && match index_at (bget "index" raw) iraw.1 with
         | Some z => chat_choice_ok (default (new_choice (js_int z)) (map_get (js_int z) choices)) raw
         | None => false
         end
  | _ => true
  end.

Definition chat_chunk_ok (st : jmap * js_map) (chunk : json) : bool :=
  match chunk with
  | Object chunk => tame_run chat_raw_choice chat_raw_ok st.2 (enumerate (list_or_new (bget "choices" chunk)))
  | _ => true
  end.

Definition chat_stream_ok (chunks : list json) : bool := tame_run chat_chunk chat_chunk_ok ([], []) chunks.

(** The choices of a run on both sides. *)
Definition sim_choices (M : js_map) (T : list (Z * jmap)) : Prop := sim_table M T /\ indexed M.

Lemma sim_chat_raw M T iraw raw' :
  sim_choices M T -> sim iraw.2 raw' -> chat_raw_ok M iraw = true ->
  sim_choices (chat_raw_choice M iraw) (OpenAiChat.apply_choice T raw').
Proof.
  intros [H Hi] Hr Ho. destruct iraw as [i raw]. unfold chat_raw_choice, chat_raw_ok in *. cbn [fst snd] in *.
  apply sim_cases in Hr. destruct raw as [| | | | |raw]; try (by subst raw' || by destruct Hr as (? & -> & _)).
  destruct Hr as (r & -> & Hr). apply andb_prop in Ho as [Hz Ho]. destruct (index_at _ _) as [z|] eqn:Ez; [|done].
  assert (Ez' := Ez). pose proof (index_at_range _ _ _ Ez) as Rz.
  destruct (index_agrees _ _ _ _ (sim_get "index" _ _ Hr) Ez) as (E1 & _ & _ & _). rewrite E1.
  assert (E2 : default (zlen T) (bget "index" r ≫= as_i64) = z).
  { assert (E : index_at (bget "index" raw) (zlen T) = Some z).
    { unfold index_at in *. destruct (bget "index" raw ≫= as_number); [done|].
      by rewrite <-(sim_table_size _ _ H), <-(proj1 (Z.eqb_eq _ _) Hz). }
    by destruct (index_agrees _ _ _ _ (sim_get "index" _ _ Hr) E) as (_ & _ & ? & _). }
  unfold OpenAiChat.apply_choice. cbn [as_object]. rewrite E2. split.
  - apply sim_map_update; [done|done|by apply sim_new_choice|]. intros p Hp. unfold chat_choice.
    apply sim_copy_defined; [done| |done].
    pose proof (sim_get_object "delta" _ _ Hr) as Gd. pose proof (sim_get_object "message" _ _ Hr) as Gm.
    pose proof (sim_get "finish_reason" _ _ Hr) as Gf. unfold chat_choice_ok in Ho.
    set (c := default _ _) in *. pose proof (sim_message_of _ _ Hp) as Hm.
    assert (H1 : sim_map match bget "delta" raw ≫= as_object with
                         | Some delta => mergeOpenAIChatDelta (message_of c) delta | None => message_of c end
                   match bget "delta" r ≫= as_object with
                   | Some delta => merge_openai_chat_delta (object_or_empty (bget "message" p)) delta
                   | None => object_or_empty (bget "message" p) end).
    { destruct (bget "delta" raw) as [[]|], (bget "delta" r ≫= as_object); cbn in *; try done. by apply sim_chat_delta. }
    cbv zeta. set (m1 := match bget "delta" raw ≫= as_object with Some _ => _ | None => _ end) in *.
    set (m1' := match bget "delta" r ≫= as_object with Some _ => _ | None => _ end) in *.
    assert (H2 : sim_map match bget "message" raw ≫= as_object with Some m => mergeObject m1 m | None => m1 end
                   match bget "message" r ≫= as_object with Some m => bextend m1' m | None => m1' end).
    { destruct (bget "message" raw ≫= as_object), (bget "message" r ≫= as_object); try done. by apply sim_mergeObject. }
    pose proof (sim_assign _ _ "message" _ _ Hp eq_refl (proj2 (sim_object _ _) H2)) as H3.
    destruct (bget "finish_reason" raw), (bget "finish_reason" r); try done. unfold present. rewrite (sim_null _ _ Gf).
    destruct (is_null _); [done|]. by apply sim_assign.
  - apply (indexed_update _ _ _ _ _ H); [done|done|done|]. intros o. unfold chat_choice, copy_defined.
    destruct (bget "logprobs" raw) as [l|]; [rewrite bget_assign_ne by done|];
      (destruct (bget "finish_reason" raw) as [v|]; [destruct (present v)|]); by rewrite !bget_assign_ne.
Qed.

Definition sim_chat (st : jmap * js_map) (st' : OpenAiChat.OpenAiChatStreamState) : Prop :=
  sim_map st.1 (OpenAiChat.out st') /\ sim_choices st.2 (OpenAiChat.choices st').

Lemma sim_chat_chunk st st' chunk chunk' :
  sim_chat st st' -> sim chunk chunk' -> chat_chunk_ok st chunk = true ->
  sim_chat (chat_chunk st chunk) (OpenAiChat.apply st' chunk').
Proof.
  intros [H Hc] Hr Ho. unfold chat_chunk, OpenAiChat.apply, chat_chunk_ok in *.
  apply sim_cases in Hr. destruct chunk as [| | | | |m]; try (by subst chunk' || by destruct Hr as (? & -> & _)).
  destruct Hr as (r & -> & Hr). cbn [as_object fst snd].
  set (o := match bget "model" m ≫= as_str with Some _ => _ | None => _ end).
  set (o' := if negb _ then _ else _).
  assert (H1 : sim_map o o').
  { unfold o, o'. rewrite (sim_get_str "model" _ _ Hr), (sim_has "model" _ _ H).
    destruct (bget "model" r ≫= as_str), (bhas "model" (OpenAiChat.out st')); try done. apply sim_assign; [done..|apply sim_str]. }
  pose proof (sim_copy_defined "usage" _ _ _ _ Hr H1 eq_refl) as H2.
  pose proof (sim_copy_defined "error" _ _ _ _ Hr H2 eq_refl) as H3. cbv zeta.
  pose proof (tame_fold sim_choices (fun a b => sim a.2 b) chat_raw_choice OpenAiChat.apply_choice chat_raw_ok _ _
    sim_chat_raw (enumerate_left _ _ _ (sim_raw_list "choices" _ _ Hr)) _ _ Hc Ho) as Hf.
  rewrite fold_array in Hf.
  destruct (bget "choices" r ≫= as_array); by split.
Qed.

Lemma sim_chat_stream l k :
  Forall2 sim l k -> chat_stream_ok l = true ->
  sim (aggregateOpenAIChatStream l) (OpenAiChat.aggregate_openai_chat_stream (Array k)).
Proof.
  intros Hl Ho. rewrite <-OpenAiChat.openai_chat_stream_is_batch. unfold aggregateOpenAIChatStream, chat_stream_ok in *.
  pose proof (tame_fold sim_chat sim chat_chunk OpenAiChat.apply chat_chunk_ok _ _ sim_chat_chunk Hl
    ([], []) OpenAiChat.openai_chat_default) as F.
  destruct (fold_left chat_chunk l _) as [out M]. destruct (fold_left OpenAiChat.apply k _) as [out' T].
  destruct F as (H & Ht & Hi); [split; [apply sim_nil|split; [apply table_nil|constructor]]|done|]. cbn [fst snd] in *.
  apply sim_object. unfold OpenAiChat.finish. cbn. apply sim_close; [done|by apply sim_values_by_index|done|done].
Qed.
(** * Anthropic messages *)

Definition anthropic_event_ok (st : jmap * js_map) (event : json) : bool :=
  match event with
  | Object event =>
      let type := default "" (bget "type" event ≫= as_str) in
      let indexed := bool_decide (is_Some (index_at (bget "index" event) (zlen st.2))) in
      if eqs type "message_start" then
        match bget "message" event ≫= as_object with
        | Some message => (zlen (list_or_new (bget "content" message)) <? 2 ^ 53)%Z
        | None => true
        end
      else if eqs type "content_block_start" then
        match bget "content_block" event ≫= as_object with Some _ => indexed | None => true end
      else if eqs type "content_block_delta" then
        match bget "delta" event ≫= as_object with Some delta => indexed && delta_type_ok delta | None => true end
      else if eqs type "message_delta" then
        match bget "delta" event ≫= as_object with Some _ => true | None => negb (bhas "usage" event) end
      else if eqs type "error" then
        match bget "error" event with Some Null => false | _ => true end
      else true
  | _ => true
  end.

Definition anthropic_stream_ok (events : list json) : bool := tame_run anthropic_event anthropic_event_ok ([], []) events.

Lemma sim_seed M T o p :
  sim_table M T -> opt_sim sim o p -> (zlen (list_or_new o) <? 2 ^ 53)%Z = true ->
  sim_table (seedAnthropicContentBlocks M o) (seed_anthropic_content_blocks T p).
Proof.
  intros H Ho Hn. unfold seedAnthropicContentBlocks, seed_anthropic_content_blocks.
  rewrite <-(fold_enumerated (fun blocks '(i, item) =>
    match as_object item with Some block => bentry i block (fun b => b) blocks | None => blocks end)).
  apply Z.ltb_lt in Hn. pose proof (enumerate_at _ _ _ (sim_list_or_new _ _ Ho)) as He.
  eapply (tame_fold sim_table _ _ _ (fun _ _ => true)); [|exact He|exact H|].
  - intros B B' [i v] [i' w] HB (E & Hi & Hv) _. cbn in E, Hi, Hv |- *. subst i'. assert (exact i) by (unfold exact; lia).
    apply sim_cases in Hv. destruct v as [| | | | |m]; try (by subst w || by destruct Hv as (? & -> & _)).
    destruct Hv as (r & -> & Hv). cbn [as_object]. unfold bentry, map_has.
    pose proof (sim_map_get _ _ _ HB ltac:(eassumption)) as G. destruct (map_get (js_int i) B), (bget i B') eqn:Eb; try done; cbn.
    + by rewrite bins_id by (done || apply HB).
    + by apply sim_map_set; [..|apply sim_copy].
  - clear. generalize M. induction (enumerate (list_or_new o)) as [|e l IH]; intros M'; [done|]. apply IH.
Qed.

(** [mergeObject(out, pick(o, keys))] against the enclave's keys: the verifier
    may pick one member more. *)
Lemma sim_but_merge_picked x t t' m r keys keys' :
  sim_but x t t' -> sim_map m r -> Forall (fun k => plain_key k = true) keys ->
  (forall k, k <> x -> In k keys <-> In k keys') ->
  sim_but x (merge_picked t m keys) (bextend t' (pick_map r keys')).
Proof.
  intros Ht Hm Hk Hx. unfold merge_picked. cbn [pick]. eapply sim_but_merge; [done|by apply sim_pick_map|apply sorted_pick_map|].
  intros k Hne. rewrite !bget_pick_map. by rewrite (bool_decide_ext _ _ (Hx k Hne)).
Qed.

Definition sim_anthropic (st : jmap * js_map) (st' : Anthropic.AnthropicMessagesStreamState) : Prop :=
  sim_but "stop_sequence" st.1 (Anthropic.out st') /\ sim_table st.2 (Anthropic.content_blocks st').

(** A block without an index is a new one at the end. *)
Lemma table_index m r M T z :
  sim_map m r -> sim_table M T -> index_at (bget "index" m) (zlen M) = Some z ->
  exact z /\ default (js_int (zlen M)) (bget "index" m ≫= as_number) = js_int z
  /\ default (zlen T) (bget "index" r ≫= as_i64) = z.
Proof.
  intros Hr Hb Ez. rewrite <-(sim_table_size _ _ Hb).
  destruct (index_agrees _ _ _ _ (sim_get "index" _ _ Hr) Ez) as (E1 & _ & E2 & _). by apply index_at_range in Ez.
Qed.

Lemma sim_anthropic_event st st' event event' :
  sim_anthropic st st' -> sim event event' -> anthropic_event_ok st event = true ->
  sim_anthropic (anthropic_event st event) (Anthropic.apply st' event').
Proof.
  destruct st as [out blocks], st' as [out' blocks']. intros [H Hb] Hr Ho. unfold anthropic_event, Anthropic.apply, anthropic_event_ok in *.
  cbn [fst snd Anthropic.out Anthropic.content_blocks] in *. pose proof Hr as He.
  apply sim_cases in Hr. destruct event as [| | | | |m]; try (by subst event' || by destruct Hr as (? & -> & _)).
  destruct Hr as (r & -> & Hr). cbn [as_object]. rewrite <-(sim_get_str "type" _ _ Hr).
  set (type := default "" _) in *. cbv zeta in *.
  pose proof (fun z => table_index _ _ _ _ z Hr Hb) as Gix.
  destruct (eqs type "message_start") eqn:T1; [|destruct (eqs type "content_block_start") eqn:T2;
    [|destruct (eqs type "content_block_delta") eqn:T3; [|destruct (eqs type "message_delta") eqn:T4]]].
  - apply eqs_true in T1. rewrite T1. cbn [eqs]. pose proof (sim_get "message" _ _ Hr) as G.
    destruct (bget "message" m) as [v|], (bget "message" r) as [w|]; try done. cbn [mbind option_bind] in *.
    cbn [opt_sim] in G. apply sim_cases in G. destruct v as [| | | |l|o]; try (by subst w); [by destruct G as (? & -> & _)|].
    destruct G as (o' & -> & G). cbn [as_object value_get pick_value merge_value_object] in *.
    split; [by apply sim_but_merge_picked; [..|plain_keys|]|by apply sim_seed; [|apply sim_get|]].
  - pose proof (sim_get_object "content_block" _ _ Hr) as G.
    destruct (bget "content_block" m ≫= as_object), (bget "content_block" r ≫= as_object); try done.
    + apply bool_decide_eq_true in Ho as [z Ez]. destruct (Gix z Ez) as (Hz & -> & ->). split; [done|].
      by apply sim_map_set; [..|apply sim_copy].
    + apply eqs_true in T2. rewrite T2. by split.
  - pose proof (sim_get_object "delta" _ _ Hr) as G.
    destruct (bget "delta" m ≫= as_object) as [d|], (bget "delta" r ≫= as_object) as [d'|]; try by destruct G.
    + apply andb_prop in Ho as [Ho Hd]. apply bool_decide_eq_true in Ho as [z Ez]. destruct (Gix z Ez) as (Hz & -> & ->).
      split; [done|]. cbn [snd Anthropic.content_blocks]. rewrite bins_bdel by apply Hb.
      apply (sim_map_update blocks blocks' z [] [] _ (fun block => merge_anthropic_content_delta block d')); [done|done|apply sim_nil|].
      intros p Hp. by apply sim_anthropic_delta.
    + apply eqs_true in T3. rewrite T3. by split.
  - pose proof (sim_get_object "delta" _ _ Hr) as G. pose proof (sim_get "usage" _ _ Hr) as Gu.
    pose proof (sim_get "delta" _ _ Hr) as Gd.
    destruct (bget "delta" m ≫= as_object) as [o|] eqn:Eo, (bget "delta" r ≫= as_object) as [o'|] eqn:Eo'; try by destruct G.
    + destruct (bget "delta" r) as [w|]; [|discriminate Eo']. destruct w as [| | | | |w]; try discriminate Eo'.
      injection Eo' as ->. split; [|exact Hb]. apply sim_but_mergeNested; [|done..].
      apply sim_but_merge_picked; [done|done|plain_keys|]. intros k Hk. cbn. intuition congruence.
    + unfold bhas in Ho. destruct (bget "usage" m); [discriminate Ho|]. destruct (bget "usage" r); [by destruct Gu|].
      assert (E : match bget "delta" r with Some delta => merge_value_object out' (pick_value delta ["stop_reason"]) | None => out' end = out').
      { destruct (bget "delta" r) as [[]|]; done. }
      rewrite E. apply eqs_true in T4. rewrite T4. by split.
  - destruct (eqs type "error"); [|by split]. split; [|done]. pose proof (sim_get "error" _ _ Hr) as G.
    unfold error_or_event. destruct (bget "error" m) as [v|], (bget "error" r) as [w|]; try done.
    + apply sim_but_assign; [done|done|]. destruct v; done.
    + by apply sim_but_assign.
Qed.

Lemma sim_anthropic_stream l k :
  Forall2 sim l k -> anthropic_stream_ok l = true ->
  sim (aggregateAnthropicMessagesStream l) (Anthropic.aggregate_anthropic_messages_stream (Array k)).
Proof.
  intros Hl Ho. rewrite <-Anthropic.anthropic_stream_is_batch.
  unfold aggregateAnthropicMessagesStream, anthropic_stream_ok in *.
  pose proof (tame_fold sim_anthropic sim anthropic_event Anthropic.apply anthropic_event_ok _ _ sim_anthropic_event Hl
    ([], []) Anthropic.anthropic_default) as F.
  destruct (fold_left anthropic_event l _) as [out M]. destruct (fold_left Anthropic.apply k _) as [out' T].
  destruct F as (H & Ht); [split; [apply sim_but_of, sim_nil|apply table_nil]|done|]. cbn [fst snd] in *.
  unfold Anthropic.finish. cbn [Anthropic.content_blocks Anthropic.out].
  apply (sim_but_pick "stop_sequence"); [|plain_keys|by vm_compute; intuition discriminate].
  rewrite (close_alias (fun blocks => bins "content" (Array (map Object (bvalues blocks))) out')).
  by apply sim_but_close; [..|apply sim_entries_by_key|].
Qed.
(** * Gemini *)

Definition gemini_raw_ok (_ : js_map) (iraw : Z * json) : bool :=
  match iraw.2 with
  | Object raw => bool_decide (is_Some (index_at (bget "index" raw) iraw.1)) && content_ok raw
  | _ => true
  end.

Definition gemini_chunk_ok (st : jmap * js_map) (chunk : json) : bool :=
  match chunk with
  | Object chunk => tame_run gemini_raw_candidate gemini_raw_ok st.2 (enumerate (list_or_new (bget "candidates" chunk)))
  | _ => true
  end.

Definition gemini_stream_ok (chunks : list json) : bool := tame_run gemini_chunk gemini_chunk_ok ([], []) chunks.

(** A loop that leaves a member alone. *)
Lemma bget_fold_ne {E} (f : jmap -> E -> jmap) k l t :
  (forall t e, bget k (f t e) = bget k t) -> bget k (fold_left f l t) = bget k t.
Proof. intros H. revert t. induction l as [|e l IH]; intros t; [done|]. cbn. by rewrite IH. Qed.

Lemma bget_assign_present_ne k t kv : k <> kv.1 -> bget k (assign_present t kv) = bget k t.
Proof. intros H. unfold assign_present. destruct (present kv.2); [by apply bget_assign_ne|done]. Qed.

Lemma eqs_false a b : eqs a b = false -> a <> b.
Proof. unfold eqs. by intros ?%bool_decide_eq_false. Qed.

Lemma index_gemini_candidate t s : bget "index" (mergeGeminiCandidate t s) = bget "index" t.
Proof.
  apply bget_fold_ne. intros m [k v]. cbn [fst snd]. destruct (eqs k "index") eqn:E; [done|]. apply eqs_false in E.
  destruct (eqs k "content"); [destruct (as_object v)|]; try (by rewrite bget_assign_ne); by apply bget_assign_present_ne, not_eq_sym.
Qed.

Lemma sim_index z : exact z -> sim_map [("index", Number (js_int z))] (bins "index" (json_int z) []).
Proof.
  intros Hz. change [("index", Number (js_int z))] with (([] : jmap) ++ [("index", Number (js_int z))]).
  apply sim_literal; [apply sim_nil|done|by intros []|by apply sim_int].
Qed.

Lemma sim_gemini_raw n M T iraw iraw' :
  sim_choices M T -> at_index n sim iraw iraw' -> gemini_raw_ok M iraw = true ->
  sim_choices (gemini_raw_candidate M iraw) (Gemini.apply_candidate T iraw').
Proof.
  intros [H Hi] Hr Ho. destruct iraw as [i raw], iraw' as [i' raw'], Hr as (E & _ & Hr). cbn [fst snd] in *. subst i'.
  unfold gemini_raw_candidate, gemini_raw_ok, Gemini.apply_candidate in *. cbn [fst snd] in *.
  apply sim_cases in Hr. destruct raw as [| | | | |raw]; try (by subst raw' || by destruct Hr as (? & -> & _)).
  destruct Hr as (r & -> & Hr). apply andb_prop in Ho as [[z Ez]%bool_decide_eq_true Ho]. cbn [as_object].
  pose proof (index_at_range _ _ _ Ez) as Rz.
  destruct (index_agrees _ _ _ _ (sim_get "index" _ _ Hr) Ez) as (_ & E1 & E2 & _). rewrite E1, E2. split.
  - apply sim_map_update; [done|done|by apply sim_index|]. intros p Hp. by apply sim_gemini_candidate.
  - apply (indexed_update _ _ _ _ _ H); [done..|]. intros o. apply index_gemini_candidate.
Qed.

Definition sim_gemini (st : jmap * js_map) (st' : Gemini.GeminiGenerateContentStreamState) : Prop :=
  sim_map st.1 (Gemini.out st') /\ sim_choices st.2 (Gemini.candidates st').

Lemma sim_gemini_chunk st st' chunk chunk' :
  sim_gemini st st' -> sim chunk chunk' -> gemini_chunk_ok st chunk = true ->
  sim_gemini (gemini_chunk st chunk) (Gemini.apply st' chunk').
Proof.
  intros [H Hc] Hr Ho. unfold gemini_chunk, Gemini.apply, gemini_chunk_ok in *.
  apply sim_cases in Hr. destruct chunk as [| | | | |m]; try (by subst chunk' || by destruct Hr as (? & -> & _)).
  destruct Hr as (r & -> & Hr). cbn [as_object]. cbv zeta.
  pose proof (tame_fold sim_choices (at_index (zlen (list_or_new (bget "candidates" m))) sim) gemini_raw_candidate
    Gemini.apply_candidate gemini_raw_ok _ _ (sim_gemini_raw _) (enumerate_at _ _ _ (sim_raw_list "candidates" _ _ Hr)) _ _ Hc Ho) as Hf.
  rewrite fold_enumerated in Hf. cbn [Gemini.gemini_copied fold_left].
  pose proof (sim_copy_defined "promptFeedback" _ _ _ _ Hr H eq_refl) as H1.
  pose proof (sim_copy_defined "usageMetadata" _ _ _ _ Hr H1 eq_refl) as H2.
  pose proof (sim_copy_defined "error" _ _ _ _ Hr H2 eq_refl) as H3.
  pose proof (sim_copy_defined "modelVersion" _ _ _ _ Hr H3 eq_refl) as H4.
  destruct (bget "candidates" r ≫= as_array); by split.
Qed.

Lemma sim_gemini_stream l k :
  Forall2 sim l k -> gemini_stream_ok l = true ->
  sim (aggregateGeminiGenerateContentStream l) (Gemini.aggregate_gemini_generate_content_stream (Array k)).
Proof.
  intros Hl Ho. rewrite <-Gemini.gemini_stream_is_batch. unfold aggregateGeminiGenerateContentStream, gemini_stream_ok in *.
  pose proof (tame_fold sim_gemini sim gemini_chunk Gemini.apply gemini_chunk_ok _ _ sim_gemini_chunk Hl
    ([], []) Gemini.gemini_default) as F.
  destruct (fold_left gemini_chunk l _) as [out M]. destruct (fold_left Gemini.apply k _) as [out' T].
  destruct F as (H & Ht & Hi); [split; [apply sim_nil|split; [apply table_nil|constructor]]|done|]. cbn [fst snd] in *.
  unfold Gemini.finish. cbn [Gemini.candidates Gemini.out]. apply sim_pick; [|plain_keys]. apply sim_object.
  rewrite (close_alias (fun cs => bins "candidates" (Array (map Object (bvalues cs))) out')).
  by apply sim_close; [|apply sim_values_by_index|..].
Qed.

(** * DashScope *)

Definition dashscope_choice_ok (choice raw : jmap) : bool :=
  let message := message_of choice in
  let of_message := bget "message" raw ≫= as_object in
  let message' := match of_message with Some m => mergeDashscopeMessage message m | None => message end in
  match of_message with Some m => calls_ok message m | None => true end
  && match bget "delta" raw ≫= as_object with Some d => calls_ok message' d | None => true end.

Definition dashscope_raw_ok (choices : js_map) (iraw : Z * json) : bool :=
  match iraw.2 with
  | Object raw =>
      match index_at (bget "index" raw) iraw.1 with
      | Some z => dashscope_choice_ok (default (new_choice (js_int z)) (map_get (js_int z) choices)) raw
      | None => false
      end
  | _ => true
  end.

Definition dashscope_chunk_ok (st : jmap * jmap * js_map) (chunk : json) : bool :=
  match value_get "output" chunk ≫= as_object with
  | Some raw => tame_run dashscope_raw_choice dashscope_raw_ok st.2 (enumerate (list_or_new (bget "choices" raw)))
  | None => true
  end.

Definition dashscope_stream_ok (chunks : list json) : bool := tame_run dashscope_chunk dashscope_chunk_ok ([], [], []) chunks.

Lemma sim_dashscope_choice c p raw r :
  sim_map c p -> sim_map raw r -> dashscope_choice_ok c raw = true ->
  sim_map (dashscope_choice c raw)
    (let message := object_or_empty (bget "message" p) in
     let message := match bget "message" r ≫= as_object with Some m => merge_dashscope_message message m | None => message end in
     let message := match bget "delta" r ≫= as_object with Some d => merge_dashscope_message message d | None => message end in
     for_members (fun choice k v =>
       if negb (eqs k "index") && negb (eqs k "message") && negb (eqs k "delta") && negb (is_null v)
       then bins k v choice else choice) r (bins "message" (Object message) p)).
Proof.
  intros Hp Hr Ho. unfold dashscope_choice, dashscope_choice_ok in *. cbv zeta in *. apply andb_prop in Ho as [O1 O2].
  pose proof (sim_get_object "message" _ _ Hr) as G1. pose proof (sim_get_object "delta" _ _ Hr) as G2.
  pose proof (sim_message_of _ _ Hp) as H0.
  apply (sim_copy_members (includes ["index"; "message"; "delta"])); [|done|done|].
  - apply sim_assign; [done..|]. apply sim_object.
    assert (H1 : sim_map match bget "message" raw ≫= as_object with Some m => mergeDashscopeMessage (message_of c) m | None => message_of c end
      match bget "message" r ≫= as_object with
      | Some m => merge_dashscope_message (object_or_empty (bget "message" p)) m | None => object_or_empty (bget "message" p) end).
    { destruct (bget "message" raw ≫= as_object), (bget "message" r ≫= as_object); try done. by apply sim_dashscope_message. }
    destruct (bget "delta" raw ≫= as_object), (bget "delta" r ≫= as_object); try done. by apply sim_dashscope_message.
  - intros t k v. unfold includes, insert_non_null. cbn [existsb]. rewrite orb_false_r, !negb_orb, andb_assoc.
    destruct (negb (eqs k "index") && negb (eqs k "message") && negb (eqs k "delta"))%bool; [by destruct (is_null v)|done].
Qed.

Lemma index_dashscope_choice c raw : bget "index" (dashscope_choice c raw) = bget "index" c.
Proof.
  unfold dashscope_choice. rewrite bget_fold_ne; [by apply bget_assign_ne|]. intros t [k v]. cbn [fst snd].
  destruct (includes _ k) eqn:E; [done|]. apply bget_assign_present_ne. cbn. intros <-. done.
Qed.

Lemma sim_dashscope_raw n M T iraw iraw' :
  sim_choices M T -> at_index n sim iraw iraw' -> dashscope_raw_ok M iraw = true ->
  sim_choices (dashscope_raw_choice M iraw) (Dashscope.apply_choice T iraw').
Proof.
  intros [H Hi] Hr Ho. destruct iraw as [i raw], iraw' as [i' raw'], Hr as (E & _ & Hr). cbn [fst snd] in *. subst i'.
  unfold dashscope_raw_choice, dashscope_raw_ok, Dashscope.apply_choice in *. cbn [fst snd] in *.
  apply sim_cases in Hr. destruct raw as [| | | | |raw]; try (by subst raw' || by destruct Hr as (? & -> & _)).
  destruct Hr as (r & -> & Hr). cbn [as_object]. destruct (index_at _ _) as [z|] eqn:Ez; [|done].
  pose proof (index_at_range _ _ _ Ez) as Rz.
  destruct (index_agrees _ _ _ _ (sim_get "index" _ _ Hr) Ez) as (_ & E1 & E2 & _). rewrite E1, E2. split.
  - apply sim_map_update; [done|done|by apply sim_new_choice|]. intros p Hp. by apply sim_dashscope_choice.
  - apply (indexed_update _ _ _ _ _ H); [done..|]. intros o. apply index_dashscope_choice.
Qed.

Lemma sim_dashscope_output t t' s s' :
  sim_map t t' -> sim_map s s' ->
  sim_map (dashscope_output t s) (for_members (fun op k v => if negb (eqs k "choices") then bins k v op else op) s' t').
Proof.
  intros Ht Hs. eapply (sim_members _ _ (fun k o v => if negb (eqs k "choices") then Some v else None)
    (fun k o v => if negb (eqs k "choices") then Some v else None)); [| | |done|done].
  - intros m k v. cbn [fst snd]. by destruct (negb (eqs k "choices")).
  - intros m k v. by destruct (negb (eqs k "choices")).
  - intros k o p v w _ _ _ Hv. by destruct (negb (eqs k "choices")).
Qed.

Definition sim_dashscope (st : jmap * jmap * js_map) (st' : Dashscope.DashscopeGenerationStreamState) : Prop :=
  sim_map st.1.1 (Dashscope.out st') /\ sim_map st.1.2 (Dashscope.output st') /\ sim_choices st.2 (Dashscope.choices st').

Lemma sim_dashscope_chunk st st' chunk chunk' :
  sim_dashscope st st' -> sim chunk chunk' -> dashscope_chunk_ok st chunk = true ->
  sim_dashscope (dashscope_chunk st chunk) (Dashscope.apply st' chunk').
Proof.
  destruct st as [[out output] M]. intros (H & Hp & Hc) Hr Ho. unfold dashscope_chunk, Dashscope.apply, dashscope_chunk_ok in *.
  cbn [fst snd] in *. apply sim_cases in Hr. destruct chunk as [| | | | |m]; try (by subst chunk' || by destruct Hr as (? & -> & _)).
  destruct Hr as (r & -> & Hr). cbn [as_object value_get] in *. cbv zeta. cbn [fold_left].
  pose proof (sim_copy_defined "usage" _ _ _ _ Hr H eq_refl) as H1.
  pose proof (sim_copy_defined "request_id" _ _ _ _ Hr H1 eq_refl) as H2.
  pose proof (sim_copy_defined "code" _ _ _ _ Hr H2 eq_refl) as H3.
  pose proof (sim_copy_defined "message" _ _ _ _ Hr H3 eq_refl) as H4.
  pose proof (sim_get_object "output" _ _ Hr) as G.
  destruct (bget "output" m ≫= as_object) as [raw|], (bget "output" r ≫= as_object) as [raw'|]; try by destruct G.
  cbn [opt_sim] in G. pose proof (sim_dashscope_output _ _ _ _ Hp G) as H5.
  pose proof (tame_fold sim_choices (at_index (zlen (list_or_new (bget "choices" raw))) sim) dashscope_raw_choice
    Dashscope.apply_choice dashscope_raw_ok _ _ (sim_dashscope_raw _) (enumerate_at _ _ _ (sim_raw_list "choices" _ _ G)) _ _ Hc Ho) as Hf.
  rewrite fold_enumerated in Hf. destruct (bget "choices" raw' ≫= as_array); by split.
Qed.

Lemma sim_dashscope_stream l k :
  Forall2 sim l k -> dashscope_stream_ok l = true ->
  sim (aggregateDashscopeGenerationStream l) (Dashscope.aggregate_dashscope_generation_stream (Array k)).
Proof.
  intros Hl Ho. rewrite <-Dashscope.dashscope_stream_is_batch. unfold aggregateDashscopeGenerationStream, dashscope_stream_ok in *.
  pose proof (tame_fold sim_dashscope sim dashscope_chunk Dashscope.apply dashscope_chunk_ok _ _ sim_dashscope_chunk Hl
    ([], [], []) Dashscope.dashscope_default) as F.
  destruct (fold_left dashscope_chunk l _) as [[out output] M]. destruct (fold_left Dashscope.apply k _) as [out' output' T].
  destruct F as (H & Hp & Ht & Hi); [split; [apply sim_nil|split; [apply sim_nil|split; [apply table_nil|constructor]]]|done|].
  cbn [fst snd Dashscope.out Dashscope.output Dashscope.choices] in *. unfold Dashscope.finish.
  cbn [Dashscope.choices Dashscope.out Dashscope.output]. apply sim_pick; [|plain_keys]. apply sim_object.
  rewrite (close_alias (fun cs => bins "choices" (Array (map Object (bvalues cs))) output')).
  pose proof (sim_close "choices" _ _ _ _ _ _ Ht (sim_values_by_index _ _ Ht Hi) Hp eq_refl) as H1.
  set (o := close_map _ _ _ _) in *. set (o' := match T with [] => _ | _ => _ end) in *.
  pose proof (sim_map_nil _ _ H1) as [N1 N2]. destruct o as [|e o]; [by rewrite N1|].
  destruct o' as [|e' o']; [by specialize (N2 eq_refl)|]. apply sim_assign; [done..|]. by apply sim_object.
Qed.
End Streams.
