(* ===== verification/JsBlocks.v ===== *)
(** The stream aggregators of Bedrock, Cohere and the OpenAI responses: the
    verifier's against the enclave's, as in JsStreams.v. *)

From S2P Require Import Prelude RustStr BTree Json Merge JsJson Verifier JsViews JsAgree JsMerges JsTables JsStreams.
From S2P Require OpenAiResponses Bedrock Cohere.
Local Open Scope bytes_scope.

Section Blocks.
Context `{SJ : SerdeJson} `{SJL : !SerdeJsonLaws} `{JT : !JsText} `{JL : !JsTextLaws} `{JN : !JsNumbers}
  `{NL : !JsNumbersLaws}.
Abbreviation json := (value number).
Abbreviation jmap := (list (bytes * value number)).
Abbreviation js_map := (list (number * list (bytes * value number))).

(** An index of a new or known block. *)
Definition known_index (o : option json) (M : js_map) : bool := bool_decide (is_Some (index_at o (zlen M))).

Lemma known_index_agrees o p M T :
  sim_table M T -> opt_sim sim o p -> known_index o M = true ->
  exists z, exact z /\ numberOrDefault o (js_int (zlen M)) = js_int z /\ default (zlen T) (p ≫= as_i64) = z.
Proof.
  intros H Ho [z Ez]%bool_decide_eq_true. exists z. rewrite <-(sim_table_size _ _ H).
  destruct (index_agrees _ _ _ _ Ho Ez) as (_ & E1 & E2 & _). by apply index_at_range in Ez.
Qed.

(** * Bedrock *)

Definition bedrock_block_ok (key : bytes) (event : jmap) (M : js_map) : bool :=
  match bget key event ≫= as_object with
  | Some part => known_index (bget "contentBlockIndex" part) M
  | None => true
  end.

Definition bedrock_event_ok (st : jmap * jmap * js_map) (event : json) : bool :=
  match event with
  | Object event =>
      bedrock_block_ok "contentBlockStart" event st.2
      && bedrock_block_ok "contentBlockDelta" event
           (bedrock_block "contentBlockStart" (with_record "start" mergeObject) event st.2)
      && match bget "output" event with None | Some (Object _) => true | Some _ => false end
  | _ => true
  end.

Definition bedrock_stream_ok (events : list json) : bool := tame_run bedrock_event bedrock_event_ok ([], [], []) events.

Lemma sim_bedrock_block key member f f' event event' M T :
  sim_map event event' -> sim_table M T -> bedrock_block_ok key event M = true ->
  (forall t t' s s', sim_map t t' -> sim_map s s' -> sim_map (f t s) (f' t' s')) ->
  sim_table (bedrock_block key (with_record member f) event M)
    match bget key event' ≫= as_object with
    | Some part =>
        let index := default (zlen T) (bget "contentBlockIndex" part ≫= as_i64) in
        bentry index [] (fun block =>
          match bget member part ≫= as_object with Some o => f' block o | None => block end) T
    | None => T
    end.
Proof.
  intros He H Ho Hf. unfold bedrock_block, bedrock_block_ok in *. pose proof (sim_get_object key _ _ He) as G.
  destruct (bget key event ≫= as_object) as [part|], (bget key event' ≫= as_object) as [part'|]; try done.
  destruct (known_index_agrees _ _ _ _ H (sim_get "contentBlockIndex" _ _ G) Ho) as (z & Hz & -> & E). cbv zeta. rewrite E.
  apply sim_map_update; [done|done|apply sim_nil|]. intros p Hp. unfold with_record.
  pose proof (sim_get_object member _ _ G) as Gm. destruct (bget member part ≫= as_object), (bget member part' ≫= as_object); try done.
  by apply Hf.
Qed.

Definition sim_bedrock (st : jmap * jmap * js_map) (st' : Bedrock.BedrockConverseStreamState) : Prop :=
  sim_but "additionalModelResponseFields" st.1.1 (Bedrock.out st') /\ sim_map st.1.2 (Bedrock.message st')
  /\ sim_table st.2 (Bedrock.content_blocks st').

Lemma sim_bedrock_out out out' event event' :
  sim_but "additionalModelResponseFields" out out' -> sim_map event event' ->
  match bget "output" event with None | Some (Object _) => true | Some _ => false end = true ->
  sim_but "additionalModelResponseFields" (bedrock_out out event) (Bedrock.apply_out event' (Object event') out').
Proof.
  intros H He Ho. unfold bedrock_out, Bedrock.apply_out. cbv zeta. apply sim_but_copy_defined; [done| |done].
  set (o1 := match bget "messageStop" event ≫= as_object with Some _ => _ | None => _ end).
  set (o1' := match bget "messageStop" event' ≫= as_object with Some _ => _ | None => _ end).
  assert (H1 : sim_but "additionalModelResponseFields" o1 o1').
  { unfold o1, o1'. pose proof (sim_get_object "messageStop" _ _ He) as G.
    destruct (bget "messageStop" event ≫= as_object) as [s|], (bget "messageStop" event' ≫= as_object); try done.
    pose proof (sim_but_copy_defined _ "stopReason" _ _ _ _ G H eq_refl) as H1.
    unfold copy_defined at 1. pose proof (sim_get "additionalModelResponseFields" _ _ G) as Ga.
    destruct (bget "additionalModelResponseFields" s) as [v|]; [|done].
    destruct (bget "additionalModelResponseFields" _); [|done]. by eapply sim_but_extra. }
  set (o2 := match bget "metadata" event ≫= as_object with Some _ => _ | None => _ end).
  set (o2' := match bget "metadata" event' ≫= as_object with Some _ => _ | None => _ end).
  assert (H2 : sim_but "additionalModelResponseFields" o2 o2').
  { unfold o2, o2'. pose proof (sim_get_object "metadata" _ _ He) as G.
    destruct (bget "metadata" event ≫= as_object), (bget "metadata" event' ≫= as_object); try done.
    by apply sim_but_copy_defined. }
  clearbody o1 o1' o2 o2'. pose proof (sim_get "output" _ _ He) as G. unfold bhas.
  destruct (bget "output" event) as [v|], (bget "output" event') as [w|]; try done. destruct v; try done.
  cbn [mbind option_bind as_object pick_value merge_value_object].
  apply sim_but_merge_picked; [done|done|plain_keys|done].
Qed.

Lemma sim_bedrock_event st st' event event' :
  sim_bedrock st st' -> sim event event' -> bedrock_event_ok st event = true ->
  sim_bedrock (bedrock_event st event) (Bedrock.apply st' event').
Proof.
  destruct st as [[out message] M]. intros (H & Hm & Ht) Hr Ho. unfold bedrock_event, Bedrock.apply, bedrock_event_ok in *.
  cbn [fst snd] in *. apply sim_cases in Hr. destruct event as [| | | | |m]; try (by subst event' || by destruct Hr as (? & -> & _)).
  destruct Hr as (r & -> & Hr). cbn [as_object] in *. cbv zeta. apply andb_prop in Ho as [[O1 O2]%andb_prop O3].
  split; [|split]; cbn [fst snd Bedrock.out Bedrock.message Bedrock.content_blocks].
  - by apply sim_bedrock_out.
  - unfold Bedrock.apply_message_start. pose proof (sim_get_object "messageStart" _ _ Hr) as G.
    destruct (bget "messageStart" m ≫= as_object), (bget "messageStart" r ≫= as_object); try done. by apply sim_copy_defined.
  - apply (sim_bedrock_block "contentBlockDelta" "delta" _ merge_bedrock_content_delta); [done| |done|apply sim_bedrock_delta].
    apply (sim_bedrock_block "contentBlockStart" "start" _ bextend); [done..|apply sim_mergeObject].
Qed.

Lemma sim_but_assign_unless_empty x key m r v w o p :
  sim_map m r -> sim_but x o p -> sim v w -> plain_key key = true -> key <> x ->
  sim_but x (assign_unless_empty key m v o)
    (if match r with [] => false | _ => true end && negb (bhas key p) then bins key w p else p).
Proof.
  intros H Ho Hv Hk Hx. unfold assign_unless_empty. pose proof (sim_map_nil _ _ H) as [N1 N2].
  destruct m as [|e m]; [by rewrite N1|]. destruct r as [|e' r]; [by specialize (N2 eq_refl)|].
  rewrite (sim_but_has _ key _ _ Ho Hx). cbn [andb]. destruct (bhas key p); [done|]. by apply sim_but_assign.
Qed.

Lemma sim_bedrock_stream l k :
  Forall2 sim l k -> bedrock_stream_ok l = true ->
  sim (aggregateBedrockConverseStream l) (Bedrock.aggregate_bedrock_converse_stream (Array k)).
Proof.
  intros Hl Ho. rewrite <-Bedrock.bedrock_stream_is_batch. unfold aggregateBedrockConverseStream, bedrock_stream_ok in *.
  pose proof (tame_fold sim_bedrock sim bedrock_event Bedrock.apply bedrock_event_ok _ _ sim_bedrock_event Hl
    ([], [], []) Bedrock.bedrock_default) as F.
  destruct (fold_left bedrock_event l _) as [[out message] M]. destruct (fold_left Bedrock.apply k _) as [out' message' T].
  destruct F as (H & Hm & Ht); [split; [apply sim_but_of, sim_nil|split; [apply sim_nil|apply table_nil]]|done|].
  cbn [fst snd Bedrock.out Bedrock.message Bedrock.content_blocks] in *. unfold Bedrock.finish.
  cbn [Bedrock.out Bedrock.message Bedrock.content_blocks].
  rewrite (close_alias (fun blocks => bins "content" (Array (map Object (bvalues blocks))) message')).
  pose proof (sim_close "content" _ _ _ _ _ _ Ht (sim_entries_by_key _ _ Ht) Hm eq_refl) as Hc.
  apply (sim_but_pick "additionalModelResponseFields"); [|plain_keys|by vm_compute; intuition discriminate].
  apply sim_but_assign_unless_empty; [done|done| |done|done].
  change (Object [("message", Object ?m)]) with (Object (([] : jmap) ++ [("message", Object m)])). apply sim_object.
  apply sim_literal; [apply sim_nil|done|by intros []|by apply sim_object].
Qed.
(** * Cohere *)

(** The enclave takes the first of the three members that is there, the
    verifier the first that is a text. *)
Definition cohere_type_ok (event : jmap) : bool :=
  match bget "type" event with
  | Some v => bool_decide (is_Some (as_str v))
  | None => match bget "event_type" event with Some v => bool_decide (is_Some (as_str v)) | None => true end
  end.

Definition cohere_fallback (M : js_map) : Z := match M with [] => 0%Z | _ => (zlen M - 1)%Z end.

Definition cohere_message_ok (M : js_map) (rawMessage : json) : bool :=
  match value_get "content" rawMessage with
  | Some (Array items) => (zlen items <? 2 ^ 53)%Z
  | Some (Object c) => bool_decide (is_Some (index_at (bget "index" c) (cohere_fallback M)))
  | _ => true
  end.

Definition cohere_event_ok (st : jmap * jmap * js_map * bytes) (event : json) : bool :=
  match event with
  | Object event =>
      cohere_type_ok event
      && match (bget "delta" event ≫= as_object) ≫= bget "message" with
         | Some raw => cohere_message_ok st.1.2 raw
         | None => true
         end
  | _ => true
  end.

Definition cohere_stream_ok (events : list json) : bool := tame_run cohere_event cohere_event_ok ([], [], [], []) events.

Lemma sim_cohere_block M T z raw raw' :
  sim_table M T -> exact z -> sim raw raw' ->
  sim_table (mergeCohereContentBlock M (js_int z) raw) (merge_cohere_content_block T z raw').
Proof.
  intros H Hz Hr. apply sim_cases in Hr. unfold mergeCohereContentBlock, merge_cohere_content_block.
  destruct raw as [| | | | |m]; try (by subst raw' || by destruct Hr as (? & -> & _)). destruct Hr as (r & -> & Hr).
  cbn [as_object]. apply sim_map_update; [done|done|apply sim_nil|]. intros p Hp. by apply sim_semantic_part.
Qed.

Lemma sim_cohere_message m m' M T raw raw' :
  sim_map m m' -> sim_table M T -> sim raw raw' -> cohere_message_ok M raw = true ->
  let s := mergeCohereMessageDelta m M raw in let s' := merge_cohere_message_delta m' T raw' in
  sim_map s.1 s'.1 /\ sim_table s.2 s'.2.
Proof.
  cbv zeta. intros Hm H Hr Ho. apply sim_cases in Hr. unfold mergeCohereMessageDelta, merge_cohere_message_delta, cohere_message_ok in *.
  destruct raw as [| | | | |o]; try (by subst raw' || by destruct Hr as (? & -> & _)). destruct Hr as (r & -> & Hr).
  cbn [as_object value_get] in *. pose proof (sim_get "content" _ _ Hr) as G.
  assert (H1 : sim_map (fold_left (fun message kv => if negb (eqs kv.1 "content") then assign_present message kv else message) (object_entries o) m)
    (for_members (fun message k v => if negb (eqs k "content") then insert_non_null k v message else message) r m'))
    by (by apply (sim_copy_members (fun k => eqs k "content"))).
  cbv zeta. destruct (bget "content" o) as [v|], (bget "content" r) as [w|]; try by destruct G.
  pose proof G as C. apply sim_cases in C. destruct v as [| | |str|items|c]; try (by subst w; split).
  - subst w. split; [done|]. cbn [snd]. apply (sim_map_update M T 0 _ _ _ (fun block => append_string_field block "text" (Some (Str str))));
      [done|unfold exact; lia| |].
    + change [("type", @Str number "text")] with (([] : jmap) ++ [("type", Str "text")]).
      apply sim_literal; [apply sim_nil|done|by intros []|apply sim_str].
    + intros p Hp. apply sim_append; [done|done|apply sim_str].
  - destruct C as (items' & -> & C). split; [done|]. cbn [snd]. apply Z.ltb_lt in Ho.
    assert (F : forall l k, Forall2 (at_index (zlen items) sim) l k -> forall B B', sim_table B B' ->
      sim_table (fold_left (fun blocks ib => mergeCohereContentBlock blocks (js_int ib.1) ib.2) l B)
        (fold_left (fun blocks '(i, item) => merge_cohere_content_block blocks i item) k B')).
    { induction 1 as [|[i a] [i' b] l k (E & Hi & Hab) _ IH]; intros B B' HB; [done|]. cbn [fold_left fst snd] in *. subst i'.
      apply IH, sim_cohere_block; [done|unfold exact; lia|done]. }
    by apply F; [apply enumerate_at|].
  - destruct C as (c' & -> & C). split; [done|]. cbn [snd]. apply bool_decide_eq_true in Ho as [z Ez].
    pose proof (index_at_range _ _ _ Ez) as Rz.
    destruct (index_agrees _ _ _ _ (sim_get "index" _ _ C) Ez) as (_ & E1 & E2 & _).
    assert (Ef : match M with [] => js_int 0 | _ => js_int (zlen M - 1) end = js_int (cohere_fallback M)) by (by destruct M).
    assert (Ei : match bget "index" c' ≫= as_i64 with Some i => i | None => match T with [] => 0%Z | _ => (zlen T - 1)%Z end end = z).
    { rewrite <-E2. unfold cohere_fallback. destruct (bget "index" c' ≫= as_i64); [done|]. cbn.
      rewrite (sim_table_size _ _ H). pose proof (sim_table_nil _ _ H) as [N1 N2].
      destruct M; [by rewrite N1|]. destruct T; [by specialize (N2 eq_refl)|done]. }
    rewrite Ef, E1, Ei. apply sim_cohere_block; [done|done|by apply sim_object].
Qed.

Lemma cohere_type_agrees m r : sim_map m r -> cohere_type_ok m = true -> cohere_event_type m = Cohere.event_type_of r.
Proof.
  intros H. unfold cohere_type_ok, cohere_event_type, Cohere.event_type_of.
  rewrite !(sim_get_str _ _ _ H). pose proof (sim_get "type" _ _ H) as G1. pose proof (sim_get "event_type" _ _ H) as G2.
  destruct (bget "type" m) as [v|], (bget "type" r) as [w|]; try by destruct G1.
  - pose proof (opt_sim_str (Some v) (Some w) G1) as E. cbn in E |- *. rewrite E. intros [t ->]%bool_decide_eq_true. done.
  - cbn. destruct (bget "event_type" m) as [v|], (bget "event_type" r) as [w|]; try by destruct G2.
    pose proof (opt_sim_str (Some v) (Some w) G2) as E. cbn in E |- *. rewrite E. intros [t ->]%bool_decide_eq_true. done.
Qed.

Record sim_cohere (st : jmap * jmap * js_map * bytes) (st' : Cohere.CohereChatStreamState) : Prop := {
  sc_out : sim_map st.1.1.1 (Cohere.out st');
  sc_message : sim_map st.1.1.2 (Cohere.message st');
  sc_blocks : sim_table st.1.2 (Cohere.content_blocks st');
  sc_text : st.2 = Cohere.text st';
}.

Lemma sim_merge_picked t t' m r keys :
  sim_map t t' -> sim_map m r -> Forall (fun k => plain_key k = true) keys ->
  sim_map (merge_picked t m keys) (bextend t' (pick_map r keys)).
Proof. intros Ht Hm Hk. unfold merge_picked. cbn [pick]. by apply sim_mergeObject; [|apply sim_pick_map]. Qed.

(** What the response of an event adds. *)
Lemma sim_cohere_response m r out out' message' T text :
  sim_map m r -> sim_map out out' ->
  exists o1', match bget "response" r with
      | Some response => Cohere.mkCohere (merge_value_object out' (pick_value response Cohere.cohere_keys)) message' T text
      | None => Cohere.mkCohere out' message' T text end = Cohere.mkCohere o1' message' T text
    /\ sim_map match bget "response" m ≫= as_object with
               | Some response => merge_picked out response cohere_view_keys | None => out end o1'.
Proof.
  intros Hr H. pose proof (sim_get "response" _ _ Hr) as G.
  destruct (bget "response" m) as [v|], (bget "response" r) as [w|]; try contradiction; [|by eexists].
  cbn [opt_sim] in G. apply sim_cases in G. cbn [mbind option_bind].
  destruct v as [| | | | |o]; try (subst w; by eexists); [destruct G as (? & -> & _); by eexists|].
  destruct G as (o' & -> & G). eexists. split; [reflexivity|]. cbn [as_object pick_value merge_value_object].
  by apply sim_merge_picked; [..|plain_keys].
Qed.

Lemma sim_cohere_event st st' event event' :
  sim_cohere st st' -> sim event event' -> cohere_event_ok st event = true ->
  sim_cohere (cohere_event st event) (Cohere.apply st' event').
Proof.
  destruct st as [[[out message] M] text], st' as [out' message' T text']. intros [H Hm Ht Hx] Hr Ho.
  cbn [fst snd Cohere.out Cohere.message Cohere.content_blocks Cohere.text] in *. subst text'.
  unfold cohere_event, Cohere.apply, cohere_event_ok in *. cbn [fst snd] in *.
  apply sim_cases in Hr. destruct event as [| | | | |m]; try (by subst event' || by destruct Hr as (? & -> & _)).
  destruct Hr as (r & -> & Hr). cbn [as_object]. apply andb_prop in Ho as [Ot Om].
  rewrite (cohere_type_agrees _ _ Hr Ot). set (type := Cohere.event_type_of r). cbv zeta.
  cbn [Cohere.out Cohere.message Cohere.content_blocks Cohere.text].
  destruct (sim_cohere_response _ _ _ _ message' T text Hr H) as (o1' & -> & H1).
  set (o1 := match bget "response" m ≫= as_object with Some _ => _ | None => _ end) in *.
  clearbody o1. cbn [Cohere.out Cohere.message Cohere.content_blocks Cohere.text].
  pose proof (sim_get_object "delta" _ _ Hr) as Gd.
  set (mb := match (bget "delta" m ≫= as_object) ≫= bget "message" with Some raw => _ | None => _ end).
  assert (R2 : exists s2, match bget "delta" r ≫= as_object with
      | Some delta => Cohere.apply_delta (Cohere.mkCohere o1' message' T text) type delta
      | None => Cohere.mkCohere o1' message' T text end = s2
    /\ let om := match (if eqs type "message-end" then bget "delta" m ≫= as_object else None) with
        | Some delta => (copy_defined "usage" delta (copy_defined "finish_reason" delta o1), copy_defined "finish_reason" delta mb.1)
        | None => (o1, mb.1) end in
      sim_map om.1 (Cohere.out s2) /\ sim_map om.2 (Cohere.message s2) /\ sim_table mb.2 (Cohere.content_blocks s2)
      /\ Cohere.text s2 = text).
  { eexists. split; [reflexivity|]. cbv zeta. destruct (bget "delta" m ≫= as_object) as [d|], (bget "delta" r ≫= as_object) as [d'|]; try contradiction.
    - unfold Cohere.apply_delta. cbn [Cohere.out Cohere.message Cohere.content_blocks Cohere.text mbind option_bind] in *.
      pose proof (sim_get "message" _ _ Gd) as Gm.
      set (mb' := match bget "message" d' with Some raw => _ | None => _ end).
      assert (H2 : sim_map mb.1 mb'.1 /\ sim_table mb.2 mb'.2).
      { unfold mb, mb'. destruct (bget "message" d), (bget "message" d'); try contradiction; [|done]. by apply sim_cohere_message. }
      destruct H2 as [H2 H3]. destruct mb' as [m2 T2]. cbn [fst snd] in *. unfold Cohere.copy_member. destruct (eqs type "message-end").
      + cbn. split; [|split; [|done]]; repeat (apply sim_copy_defined; [done| |done]); done.
      + done.
    - cbn in *. by destruct (eqs type "message-end"). }
  destruct R2 as ([o2 m2 T2 t2] & -> & R2). destruct mb as [message1 blocks1]. cbn [fst snd] in R2. cbv zeta in R2.
  destruct (match (if eqs type "message-end" then _ else _) with Some _ => _ | None => _ end) as [o3 m3].
  cbn [fst snd Cohere.out Cohere.message Cohere.content_blocks Cohere.text] in *. destruct R2 as (H4 & H5 & H6 & ->).
  unfold Cohere.copy_member. split; cbn [fst snd Cohere.out Cohere.message Cohere.content_blocks Cohere.text].
  - repeat (apply sim_copy_defined; [done| |done]). done.
  - by apply sim_copy_defined.
  - done.
  - by rewrite (sim_get_str "text" _ _ Hr).
Qed.

Lemma sim_cohere_stream l k :
  Forall2 sim l k -> cohere_stream_ok l = true ->
  sim (aggregateCohereChatStream l) (Cohere.aggregate_cohere_chat_stream (Array k)).
Proof.
  intros Hl Ho. rewrite <-Cohere.cohere_stream_is_batch. unfold aggregateCohereChatStream, cohere_stream_ok in *.
  pose proof (tame_fold sim_cohere sim cohere_event Cohere.apply cohere_event_ok _ _ sim_cohere_event Hl
    ([], [], [], []) Cohere.cohere_default) as F.
  destruct (fold_left cohere_event l _) as [[[out message] M] text]. destruct (fold_left Cohere.apply k _) as [out' message' T text'].
  destruct F as [H Hm Ht Hx]; [split; [apply sim_nil..|apply table_nil|done]|done|].
  cbn [fst snd Cohere.out Cohere.message Cohere.content_blocks Cohere.text] in *. subst text'. unfold Cohere.finish.
  cbn [Cohere.out Cohere.message Cohere.content_blocks Cohere.text].
  assert (C : forall o m o' m', sim_map o o' -> sim_map m m' ->
    sim (pick (Object (assign_unless_empty "message" m (Object m) o)) cohere_view_keys)
      (pick_value (Object (if match m' with [] => false | _ => true end && negb (bhas "message" o')
                           then bins "message" (Object m') o' else o')) Cohere.cohere_keys)).
  { intros o m o' m' Hob Hmb. apply (sim_but_pick ""); [|plain_keys|by vm_compute; intuition discriminate].
    apply sim_but_assign_unless_empty; [done|by apply sim_but_of|by apply sim_object|done|done]. }
  pose proof (sim_table_nil _ _ Ht) as [N1 N2]. pose proof (sim_entries_by_key _ _ Ht) as E.
  destruct M as [|e M].
  - rewrite N1 by done. destruct text as [|c text]; [by apply C|]. apply C; (apply sim_assign; [done..|]); [apply sim_str|].
    apply sim_array. constructor; [|constructor]. split; [|done]. constructor; [|by repeat constructor].
    by apply (bool_decide_unpack _).
  - destruct T as [|e' T]; [by specialize (N2 eq_refl)|]. apply C; [done|]. by apply sim_assign.
Qed.
(** * OpenAI responses *)

(** An event that writes an item names a new or known one, and its content part
    leaves no gap. *)
Definition responses_event_ok (st : jmap * js_map) (event : json) : bool :=
  match event with
  | Object event =>
      let type := default "" (bget "type" event ≫= as_str) in
      let either kind a b := eqs type (kind ++ a) || eqs type (kind ++ b) in
      let index := index_at (bget "output_index" event) (zlen st.2) in
      let item := bool_decide (is_Some index) in
      let part := match index with
                  | Some z => part_ok (default [] (map_get (js_int z) st.2)) (bget "content_index" event)
                  | None => false
                  end in
      if either "response.output_item." "added" "done" then item
      else if either "response.content_part." "added" "done" then part
      else if either "response.output_text." "delta" "done" then part
      else if either "response.refusal." "delta" "done" then part
      else if either "response.reasoning_text." "delta" "done" then part
      else if either "response.function_call_arguments." "delta" "done" then item
      else true
  | _ => true
  end.

Definition responses_stream_ok (events : list json) : bool := tame_run responses_event responses_event_ok ([], []) events.

Lemma sim_done_or_delta type field key event event' t t' :
  sim_map event event' -> sim_map t t' -> plain_key field = true ->
  sim_map (done_or_delta type field key event t)
    (if ends_with type ".done" then set_string_field t' field (bget key event')
     else append_string_field t' field (bget "delta" event')).
Proof.
  intros He Ht Hf. unfold done_or_delta. destruct (ends_with type ".done");
    [apply sim_set|apply sim_append]; (done || by apply sim_get).
Qed.

Lemma sim_text_event type kind field event event' m r :
  sim_map event event' -> sim_map m r -> plain_key field = true -> part_ok m (bget "content_index" event) = true ->
  sim_map (responses_text type kind field event m) (OpenAiResponses.text_event type kind field field event' r).
Proof.
  intros He Hm Hf Ho. unfold responses_text, OpenAiResponses.text_event. cbv zeta.
  assert (P : opt_sim sim (Some (Object [("type", Str kind)])) (Some (Object (bins "type" (Str kind) [])))).
  { apply sim_object. change [("type", @Str number kind)] with (([] : jmap) ++ [("type", Str kind)]).
    apply sim_literal; [apply sim_nil|done|by intros []|apply sim_str]. }
  pose proof (sim_get "content_index" _ _ He) as Hi.
  pose proof (fun t t' H => sim_done_or_delta type field field _ _ t t' He H Hf) as E.
  destruct (ends_with type ".done"); apply sim_content_part; try done; intros t t' Ht; by apply E.
Qed.

Definition sim_responses (st : jmap * js_map) (st' : OpenAiResponses.OpenAiResponsesStreamState) : Prop :=
  sim_map st.1 (OpenAiResponses.out st') /\ sim_table st.2 (OpenAiResponses.output_items st').

(** The arms of an event that write an item. *)
Lemma sim_on_item out out' M T event event' f f' :
  sim_map out out' -> sim_table M T -> sim_map event event' ->
  forall z, index_at (bget "output_index" event) (zlen M) = Some z ->
  (forall p, sim_map (default [] (map_get (js_int z) M)) p -> sim_map (f (default [] (map_get (js_int z) M))) (f' p)) ->
  sim_responses (out, map_update (numberOrDefault (bget "output_index" event) (js_int (zlen M))) [] f M)
    (OpenAiResponses.mkOpenAiResponses out' (bentry (OpenAiResponses.output_index event' T) [] f' T)).
Proof.
  intros H Ht He z Ez Hf. split; [done|]. cbn [snd OpenAiResponses.output_items]. unfold OpenAiResponses.output_index.
  rewrite <-(sim_table_size _ _ Ht). destruct (index_agrees _ _ _ _ (sim_get "output_index" _ _ He) Ez) as (_ & -> & -> & _).
  apply index_at_range in Ez. apply sim_map_update; [done|done|apply sim_nil|done].
Qed.

Lemma sim_responses_out m r out out' :
  sim_map m r -> sim_map out out' ->
  sim_map
    match bget "response" m with
    | Some (Object _ as response) =>
        match pick response responses_view_keys with Object picked => mergeObject out picked | _ => out end
    | _ => out
    end
    match bget "response" r with
    | Some response => merge_value_object out' (pick_value response OpenAiResponses.responses_keys)
    | None => out'
    end.
Proof.
  intros Hr H. pose proof (sim_get "response" _ _ Hr) as G.
  destruct (bget "response" m) as [v|], (bget "response" r) as [w|]; try contradiction; [|done]. cbn [opt_sim] in G.
  apply sim_cases in G. destruct v as [| | | | |o]; try (by subst w); [by destruct G as (? & -> & _)|]. destruct G as (o' & -> & G).
  cbn [pick pick_value merge_value_object]. apply sim_mergeObject; [done|]. by apply sim_pick_map; [|plain_keys].
Qed.

(** The last two arms. *)
Lemma sim_outcome type m r o1 o1' M T :
  sim_map m r -> sim_map o1 o1' -> sim_table M T ->
  sim_responses
    (if eqs type "response.completed" && negb (bhas "status" o1) then (assign o1 "status" (Str "completed"), M)
     else if eqs type "response.failed" then (copy_defined "error" m o1, M) else (o1, M))
    (OpenAiResponses.mkOpenAiResponses (OpenAiResponses.outcome_event o1' type r) T).
Proof.
  intros Hr H1 Ht.
  unfold OpenAiResponses.outcome_event. rewrite (sim_has "status" _ _ H1).
  destruct (eqs type "response.completed") eqn:Tc; cbn [andb].
  { apply eqs_true in Tc. destruct (bhas "status" o1'); cbn [negb]; [rewrite Tc; by split|].
    split; [|done]. apply sim_assign; [done..|apply sim_str]. }
  destruct (eqs type "response.failed"); [|by split]. split; [|done]. by apply sim_copy_defined.
Qed.

Lemma sim_responses_event st st' event event' :
  sim_responses st st' -> sim event event' -> responses_event_ok st event = true ->
  sim_responses (responses_event st event) (OpenAiResponses.apply st' event').
Proof.
  destruct st as [out M], st' as [out' T]. intros [H Ht] Hr Ho. cbn [fst snd OpenAiResponses.out OpenAiResponses.output_items] in *.
  unfold responses_event, OpenAiResponses.apply, responses_event_ok in *. cbn [fst snd OpenAiResponses.out OpenAiResponses.output_items] in *.
  apply sim_cases in Hr. destruct event as [| | | | |m]; try (by subst event' || by destruct Hr as (? & -> & _)).
  destruct Hr as (r & -> & Hr). cbn [as_object]. rewrite <-(sim_get_str "type" _ _ Hr). set (type := default "" _) in *.
  pose proof (sim_responses_out _ _ _ _ Hr H) as Hout. cbv zeta. set (o1 := match bget "response" m with Some _ => _ | None => _ end) in *.
  assert (E1 : exists o1', match bget "response" r with
      | Some response => OpenAiResponses.mkOpenAiResponses (merge_value_object out' (pick_value response OpenAiResponses.responses_keys)) T
      | None => OpenAiResponses.mkOpenAiResponses out' T end = OpenAiResponses.mkOpenAiResponses o1' T /\ sim_map o1 o1').
  { eexists. split; [|exact Hout]. by destruct (bget "response" r). }
  destruct E1 as (o1' & -> & H1). clearbody o1. unfold OpenAiResponses.apply_event.
  cbn [OpenAiResponses.out OpenAiResponses.output_items]. cbv zeta in Ho |- *.
  cbn [app] in Ho. pose proof (sim_get "content_index" _ _ Hr) as Gi.
  assert (P : forall f f', match index_at (bget "output_index" m) (zlen M) with
        | Some z => part_ok (default [] (map_get (js_int z) M)) (bget "content_index" m) | None => false end = true ->
      (forall c p, sim_map c p -> part_ok c (bget "content_index" m) = true -> sim_map (f c) (f' p)) ->
      sim_responses (o1, map_update (numberOrDefault (bget "output_index" m) (js_int (zlen M))) [] f M)
        (OpenAiResponses.mkOpenAiResponses o1' (bentry (OpenAiResponses.output_index r T) [] f' T))).
  { intros f f' Hp Hf. destruct (index_at _ _) as [z|] eqn:Ez; [|discriminate]. eapply sim_on_item; [done..|exact Ez|].
    intros p Hs. by apply Hf. }
  destruct (eqs type "response.output_item.added" || eqs type "response.output_item.done")%bool.
  { apply bool_decide_eq_true in Ho as [z Ez]. eapply sim_on_item; [done..|exact Ez|]. intros p Hp.
    pose proof (sim_get_object "item" _ _ Hr) as G. destruct (bget "item" m ≫= as_object), (bget "item" r ≫= as_object); try done.
    by apply sim_mergeObject. }
  destruct (eqs type "response.content_part.added" || eqs type "response.content_part.done")%bool.
  { apply P; [done|]. intros c p Hs Hp. apply sim_content_part; [done|done|by apply sim_get|done|done]. }
  destruct (eqs type "response.output_text.delta" || eqs type "response.output_text.done")%bool;
    [apply P; [done|]; intros; by apply sim_text_event|].
  destruct (eqs type "response.refusal.delta" || eqs type "response.refusal.done")%bool;
    [apply P; [done|]; intros; by apply sim_text_event|].
  destruct (eqs type "response.reasoning_text.delta" || eqs type "response.reasoning_text.done")%bool;
    [apply P; [done|]; intros; by apply sim_text_event|].
  destruct (eqs type "response.function_call_arguments.delta" || eqs type "response.function_call_arguments.done")%bool.
  { apply bool_decide_eq_true in Ho as [z Ez]. eapply sim_on_item; [done..|exact Ez|]. intros p Hp.
    unfold OpenAiResponses.arguments_event. cbv zeta.
    pose proof (sim_done_or_delta type "arguments" "arguments" _ _ _ _ Hr Hp eq_refl) as E. by destruct (ends_with type ".done"). }
  by apply sim_outcome.
Qed.

Lemma sim_no_output m r : sim_map m r -> no_output m = OpenAiResponses.output_is_empty r.
Proof.
  intros H. pose proof (opt_sim_array _ _ (sim_get "output" _ _ H)) as G. unfold no_output, OpenAiResponses.output_is_empty.
  destruct (bget "output" m) as [[| | | |l|]|], (bget "output" r ≫= as_array) as [k|]; cbn in G; try done. by destruct G.
Qed.

Lemma sim_responses_stream l k :
  Forall2 sim l k -> responses_stream_ok l = true ->
  sim (aggregateOpenAIResponsesStream l) (OpenAiResponses.aggregate_openai_responses_stream (Array k)).
Proof.
  intros Hl Ho. rewrite <-OpenAiResponses.openai_responses_stream_is_batch.
  unfold aggregateOpenAIResponsesStream, responses_stream_ok in *.
  pose proof (tame_fold sim_responses sim responses_event OpenAiResponses.apply responses_event_ok _ _ sim_responses_event Hl
    ([], []) OpenAiResponses.openai_responses_default) as F.
  destruct (fold_left responses_event l _) as [out M]. destruct (fold_left OpenAiResponses.apply k _) as [out' T].
  destruct F as [H Ht]; [split; [apply sim_nil|apply table_nil]|done|].
  cbn [fst snd OpenAiResponses.out OpenAiResponses.output_items] in *. unfold OpenAiResponses.finish.
  cbn [OpenAiResponses.out OpenAiResponses.output_items]. apply sim_pick; [|plain_keys]. apply sim_object.
  rewrite (close_alias (fun items => if OpenAiResponses.output_is_empty out'
    then bins "output" (Array (map Object (bvalues items))) out' else out')).
  rewrite (sim_no_output _ _ H). destruct (OpenAiResponses.output_is_empty out'); [|by destruct T].
  by apply sim_close; [|apply sim_entries_by_key|..].
Qed.
End Blocks.
