(* ===== verification/FieldProof.v ===== *)
(** The verifier's check of the field claims ([verifier/field-proof.ts]): the
    bodies parsed ([parseJsonBody], [parseSseData], [looksLikeSse]), their views
    hashed ([extractFieldView], [hashFieldView]) and compared with the claims
    ([verifyFieldClaims]); and the proof that it accepts, for the bodies of an
    exchange, the claims the enclave's collector made of it, and no others.

    [Buffer.toString('utf8')] replaces what is not UTF-8 as
    [String::from_utf8_lossy] does.  [JSON.parse] is a parameter: an object it
    gives holds its members in the order of the text. *)

From S2P Require Import Prelude RustStr BTree Json Digest Merge Paths Base64 Protocol Sse Collector Statement Sample.
From S2P Require Import Io Evidence Metrics Trailer JsJson Verifier JsViews JsAgree JsMerges JsTables JsStreams JsBlocks.
From S2P Require OpenAiChat OpenAiResponses Anthropic Gemini Dashscope Bedrock Cohere.
Local Open Scope bytes_scope.

(** [JSON.parse], [None] when it throws. *)
Class JsonParse `{SerdeJson} := json_parse : bytes -> option (value number).

(** * White space *)

(** The white space of JavaScript: U+FEFF is, U+0085 is not. *)
Definition js_ws_len (s : bytes) : option nat :=
  match s with
  | Byte.xc2 :: Byte.x85 :: _ => None
  | _ => ws_or_bom_len s
  end.

Definition js_ws_len_rev (r : bytes) : option nat :=
  match js_ws_len (rev (take 1 r)) with
  | Some n => Some n
  | None =>
      match js_ws_len (rev (take 2 r)) with
      | Some 2%nat => Some 2%nat
      | _ => match js_ws_len (rev (take 3 r)) with Some 3%nat => Some 3%nat | _ => None end
      end
  end.

(** [trimStart] and [trim]. *)
Definition js_trim_start (s : bytes) : bytes := strip_while (length s) js_ws_len s.
Definition js_trim (s : bytes) : bytes :=
  let s := js_trim_start s in rev (strip_while (length s) js_ws_len_rev (rev s)).

(** * Bodies *)

(** A line terminator of regular expressions, and what follows it. *)
Definition line_terminator (s : bytes) : option bytes :=
  match s with
  | Byte.x0a :: t | Byte.x0d :: t => Some t
  | Byte.xe2 :: Byte.x80 :: (Byte.xa8 | Byte.xa9) :: t => Some t
  | _ => None
  end.

(** [p] at the beginning of a line, the [m] flag being set. *)
Fixpoint at_line_start (p : bytes -> bool) (s : bytes) : bool :=
  match line_terminator s with Some t => p t | None => false end
  || match s with [] => false | _ :: s => at_line_start p s end.

Definition looksLikeSse (body : bytes) : bool :=
  let prefix := from_utf8_lossy (take 512 body) in
  let field s := starts_with s "event:" || starts_with s "data:" in
  field prefix || at_line_start field prefix.

Section FieldProof.
Context `{SJ : SerdeJson} `{JT : !JsText} `{JN : !JsNumbers} `{JP : !JsonParse} `{SH : Sha256} `{UC : UnicodeCase}.
Abbreviation json := (value number).

Definition parseJsonBody (body : bytes) : json :=
  let text := js_trim (from_utf8_lossy body) in
  match text with
  | [] => Null
  | _ =>
      match json_parse text with
      | Some v => v
      | None => Object [("raw_sha256", Str (sha256_hex body)); ("parse_error", Str "invalid_json")]
      end
  end.

(** What [flush] pushes for the lines gathered. *)
Definition sse_event (data : bytes) : list json :=
  if eqs (js_trim data) "" || eqs (js_trim data) "[DONE]" then []
  else
    match json_parse data with
    | Some v => [v]
    | None => [Object [("raw_data_sha256", Str (sha256_hex data)); ("parse_error", Str "invalid_sse_json")]]
    end.

(** The state is [(dataLines, out)]. *)
Definition sse_flush (st : list bytes * list json) : list bytes * list json :=
  match st.1 with
  | [] => st
  | dataLines => ([], st.2 ++ sse_event (join [Byte.x0a] dataLines))
  end.

Definition sse_line (st : list bytes * list json) (rawLine : bytes) : list bytes * list json :=
  match strip_cr rawLine with
  | [] => sse_flush st
  | line =>
      match strip_prefix line "data:" with
      | Some rest => (st.1 ++ [js_trim_start rest], st.2)
      | None => st
      end
  end.

Definition parseSseData (body : bytes) : list json :=
  (sse_flush (fold_left sse_line (split_on Byte.x0a (from_utf8_lossy body)) ([], []))).2.

(** * Views and their hashes *)

(** The choice of [extractFieldView], on the parsed body. *)
Definition viewOfParsed (protocol kind : bytes) (parsed : json) (upstreamPath : option bytes) : json :=
  if eqs protocol "openai.chat_completions" then openaiChatView kind parsed
  else if eqs protocol "openai.responses" then openaiResponsesView kind parsed
  else if eqs protocol "anthropic.messages" then anthropicMessagesView kind parsed
  else if eqs protocol "google.gemini.generate_content" then geminiGenerateContentView kind parsed upstreamPath
  else if eqs protocol "alibaba.dashscope.generation" then dashscopeGenerationView kind parsed
  else if eqs protocol "aws.bedrock.converse" then bedrockConverseView kind parsed upstreamPath
  else if eqs protocol "cohere.chat" then cohereChatView kind parsed
  else parsed.

Definition extractFieldView (protocol kind body : bytes) (upstreamPath : option bytes) : json :=
  viewOfParsed protocol kind (if looksLikeSse body then Array (parseSseData body) else parseJsonBody body) upstreamPath.

Definition hashFieldView (protocol kind body : bytes) (upstreamPath : option bytes) : bytes :=
  sha256_hex (canonicalJson (extractFieldView protocol kind body upstreamPath)).

(** * The check *)

Record FieldVerifyResult := mkFieldVerify {
  protocolFamily : bytes;
  requestChecked : bool;
  requestOk : bool;
  responseOk : bool;
  requestHash : option bytes;
  responseHash : bytes;
}.

(** The text of a member, when it is not empty. *)
Definition nonEmptyField (claims : json) (field : bytes) : option bytes :=
  match stringField claims field with
  | Some [] => None
  | o => o
  end.

(** [None] where it throws. *)
Definition verifyFieldClaims (claims : json) (requestBody : option bytes) (responseBody : bytes) (proof : TeeProofWire)
    : option FieldVerifyResult :=
  let path := Some (w_upstream_path proof) in
  protocol ← claims_protocol claims proof;
  if negb (hasRequiredPresence protocol "response" (extractFieldView protocol "response" responseBody path)) then None
  else
    let responseHash := hashFieldView protocol "response" responseBody path in
    expectedResponse ← nonEmptyField claims "upstream_response_fields_sha256";
    match requestBody with
    | None => Some (mkFieldVerify protocol false true (eqs responseHash expectedResponse) None responseHash)
    | Some requestBody =>
        if negb (hasRequiredPresence protocol "request" (extractFieldView protocol "request" requestBody path)) then None
        else
          let requestHash := hashFieldView protocol "request" requestBody path in
          expectedRequest ← nonEmptyField claims "upstream_request_fields_sha256";
          Some (mkFieldVerify protocol true (eqs requestHash expectedRequest) (eqs responseHash expectedResponse)
                  (Some requestHash) responseHash)
    end.

(** [verifyFieldClaimChecks]: whether every check it returns is [ok]. *)
Definition verifyFieldClaimChecks (t : TeeProofWire) (requestBody : option bytes) (responseBody : bytes) : bool :=
  match w_field_claims t with
  | Some claims =>
      match verifyFieldClaims claims requestBody responseBody t with
      | Some r => (if requestChecked r then requestOk r else true) && responseOk r
      | None => false
      end
  | None => false
  end.
(** * Agreement with the enclave *)

Section Agreement.
Context `{SJL : !SerdeJsonLaws} `{JL : !JsTextLaws} `{NL : !JsNumbersLaws}.

(** A text both sides parse to the same value, or both refuse. *)
Definition parsed_alike (t : bytes) : Prop := opt_sim sim (json_parse t) (from_str t).

(** A body that is one JSON text. *)
Record json_alike (body : bytes) : Prop := {
  ja_trim : js_trim (from_utf8_lossy body) = trim (from_utf8_lossy body);
  ja_parse : trim (from_utf8_lossy body) <> [] -> parsed_alike (trim (from_utf8_lossy body));
}.

(** The data of the events of a body, by the lines of it. *)
Definition data_step (st : list bytes * list bytes) (line : bytes) : list bytes * list bytes :=
  match line with
  | [] => match st.1 with [] => st | l => ([], st.2 ++ [join [Byte.x0a] l]) end
  | _ => match strip_prefix line "data:" with
         | Some rest => (st.1 ++ [trim_start rest], st.2)
         | None => st
         end
  end.
Definition sse_lines (body : bytes) : list bytes := map strip_cr (split_on Byte.x0a (from_utf8_lossy body)).
Definition sse_data (body : bytes) : list bytes := (data_step (fold_left data_step (sse_lines body) ([], [])) []).2.

(** A body of events: its lines and its data have the same white space on both
    sides, and it does not end in a lone carriage return. *)
Record sse_alike (body : bytes) : Prop := {
  sa_end : strip_cr (last_line (from_utf8_lossy body)) = last_line (from_utf8_lossy body);
  sa_lines : Forall (fun line => forall rest, strip_prefix line "data:" = Some rest -> js_trim_start rest = trim_start rest)
               (sse_lines body);
  sa_data : Forall (fun t => js_trim t = trim t
              /\ ((eqs (trim t) "" || eqs (trim t) "[DONE]") = false -> parsed_alike t)) (sse_data body);
}.

(** A body both sides read alike. *)
Definition body_alike (body : bytes) : Prop :=
  looksLikeSse body = looks_like_sse body
  /\ if looks_like_sse body then sse_alike body else json_alike body.

(** ** Parsing *)

Lemma sim_error_object k (s e : bytes) :
  In k ["raw_sha256"; "raw_data_sha256"] ->
  sim (Object [(k, Str s); ("parse_error", Str e)]) (json_object [(k, Str s); ("parse_error", Str e)]).
Proof.
  intros [<-|[<-|[]]]; (split; [|done]); (constructor; [by apply (bool_decide_unpack _)|by repeat constructor]).
Qed.

Lemma parse_json_agrees body : json_alike body -> sim (parseJsonBody body) (parse_json_body body).
Proof.
  intros [Ht Hp]. unfold parseJsonBody, parse_json_body. rewrite Ht. cbv zeta.
  destruct (trim (from_utf8_lossy body)) as [|b t]; [by split; [constructor|]|]. specialize (Hp ltac:(done)).
  unfold parsed_alike in Hp. destruct (json_parse (b :: t)), (from_str (b :: t)); try done.
  apply sim_error_object. by left.
Qed.

Lemma event_agrees t :
  js_trim t = trim t -> ((eqs (trim t) "" || eqs (trim t) "[DONE]") = false -> parsed_alike t) ->
  Forall2 sim (sse_event t) (event_of_data t).
Proof.
  intros Ht Hp. unfold sse_event, event_of_data. rewrite Ht. destruct (_ || _)%bool; [constructor|].
  specialize (Hp eq_refl). unfold parsed_alike in Hp. destruct (json_parse t), (from_str t); try done; constructor; try done.
  apply sim_error_object. right. by left.
Qed.

(** A reader's state, from the data gathered so far: [f] makes its events. *)
Definition reads (f : bytes -> list json) (st : list bytes * list json) (d : list bytes * list bytes) : Prop :=
  st.1 = d.1 /\ st.2 = concat (map f d.2).

Lemma reads_flush f st d :
  reads f st d ->
  reads f match st.1 with [] => st | l => ([], st.2 ++ f (join [Byte.x0a] l)) end (data_step d []).
Proof.
  destruct st as [l items], d as [l' texts]. intros [E1 E2]. cbn in *. subst. destruct l' as [|x l']; [done|]. split; [done|].
  cbn [snd]. by rewrite map_app, concat_app; cbn [map concat]; rewrite app_nil_r.
Qed.

Lemma reads_rust lines st d :
  reads event_of_data st d -> reads event_of_data (fold_left parse_sse_line lines st) (fold_left data_step lines d).
Proof.
  revert st d. induction lines as [|l lines IH]; intros st d H; [done|]. cbn [fold_left]. apply IH.
  destruct l as [|b l]; [by apply reads_flush|]. unfold parse_sse_line, data_step. destruct H as [E1 E2].
  destruct (strip_prefix (b :: l) "data:"); [|done]. split; cbn; [by rewrite E1|done].
Qed.

Lemma reads_js lines st d :
  Forall (fun line => forall rest, strip_prefix line "data:" = Some rest -> js_trim_start rest = trim_start rest)
    (map strip_cr lines) ->
  reads sse_event st d -> reads sse_event (fold_left sse_line lines st) (fold_left data_step (map strip_cr lines) d).
Proof.
  revert st d. induction lines as [|l lines IH]; intros st d Hl H; [done|]. cbn [map fold_left] in *.
  apply Forall_cons_iff in Hl as [Hl Hs]. apply IH; [done|]. unfold sse_line.
  destruct (strip_cr l) as [|b r]; [by apply reads_flush|]. unfold data_step. specialize (Hl). destruct H as [E1 E2].
  destruct (strip_prefix (b :: r) "data:") as [rest|]; [|done]. split; cbn; [by rewrite E1, (Hl rest)|done].
Qed.

(** The lines of [str::lines], without the empty one at the end. *)
Lemma lines_data body d :
  strip_cr (last_line (from_utf8_lossy body)) = last_line (from_utf8_lossy body) ->
  data_step (fold_left data_step (lines (from_utf8_lossy body)) d) []
    = data_step (fold_left data_step (sse_lines body) d) [].
Proof.
  unfold lines, sse_lines, last_line. set (ps := split_on Byte.x0a (from_utf8_lossy body)). intros E.
  destruct (exists_last (split_on_not_nil Byte.x0a (from_utf8_lossy body))) as (pre & l & Eps). fold ps in Eps.
  rewrite Eps in *. rewrite removelast_last, last_last in *. rewrite map_app, !fold_left_app. cbn [map fold_left]. rewrite E.
  destruct l as [|b l]; [|done]. cbn [fold_left]. set (x := fold_left _ _ _). unfold data_step. by destruct x as [[|? ?] ?].
Qed.

Lemma parse_sse_agrees body :
  sse_alike body -> exists events, parse_sse_data body = Array events /\ Forall2 sim (parseSseData body) events.
Proof.
  intros [He Hl Hd]. eexists. split; [reflexivity|]. unfold parseSseData.
  pose proof (reads_flush _ _ _ (reads_rust (lines (from_utf8_lossy body)) ([], []) ([], []) ltac:(done))) as [_ R].
  pose proof (reads_flush _ _ _ (reads_js (split_on Byte.x0a (from_utf8_lossy body)) ([], []) ([], []) Hl ltac:(done))) as [_ J].
  rewrite lines_data in R by done. unfold sse_data in Hd. fold (sse_lines body) in J. unfold sse_flush, flush_sse_data.
  rewrite R, J. clear R J. induction Hd as [|t texts [H1 H2] _ IH]; [constructor|]. cbn [map concat].
  apply Forall2_app; [by apply event_agrees|done].
Qed.

Lemma parse_agrees body :
  body_alike body ->
  sim (if looksLikeSse body then Array (parseSseData body) else parseJsonBody body)
    (if looks_like_sse body then parse_sse_data body else parse_json_body body).
Proof.
  intros [-> H]. destruct (looks_like_sse body); [|by apply parse_json_agrees].
  destruct (parse_sse_agrees _ H) as (events & -> & F). by apply sim_array.
Qed.

(** ** Models in paths *)

Definition some_text (o : option bytes) : option bytes := match o with Some [] => None | _ => o end.

Lemma pathWithoutQuery_clean p : pathWithoutQuery p = path_no_query p.
Proof. reflexivity. Qed.

Lemma path_parts_clean p :
  path_parts (Some (path_no_query p)) = match path_no_query p with [] => None | q => Some (split_on Byte.x2f q) end.
Proof.
  unfold path_parts. pose proof (pathWithoutQuery_again p) as E. by destruct (path_no_query p); [|rewrite E].
Qed.

Lemma gemini_model_agrees p :
  some_text (geminiModelFromPath (Some (path_no_query p))) = Gemini.gemini_model_from_path p.
Proof.
  unfold geminiModelFromPath, Gemini.gemini_model_from_path. rewrite path_parts_clean.
  destruct (path_no_query p) as [|b q]; [reflexivity|]. cbn [mbind option_bind].
  destruct (position _ _) as [i|]; [|done]. cbn [mbind option_bind].
  destruct (split_on Byte.x2f (b :: q) !! (i + 1)) as [[|c part]|]; [reflexivity| |done].
  destruct (head (split_on Byte.x3a (c :: part))) as [[]|]; done.
Qed.

Lemma In_split_on c s part b : In part (split_on c s) -> In b part -> In b s.
Proof.
  revert part. induction s as [|x s IH]; intros part; cbn [split_on].
  - intros [<-|[]] [].
  - destruct (Byte.eqb x c).
    + intros [<-|H] Hb; [by destruct Hb|]. right. by apply (IH part).
    + pose proof (split_on_not_nil c s) as N. destruct (split_on c s) as [|p ps]; [done|].
      intros [<-|H] Hb; [destruct Hb as [<-|Hb]; [by left|]; right; apply (IH p); [by left|done]|].
      right. apply (IH part); [by right|done].
Qed.

Lemma bedrock_model_agrees p :
  is_ascii (path_no_query p) = true ->
  bedrockModelIdFromPath (Some (path_no_query p)) = Bedrock.bedrock_model_id_from_path p.
Proof.
  intros Ha. unfold bedrockModelIdFromPath, Bedrock.bedrock_model_id_from_path. rewrite path_parts_clean.
  destruct (path_no_query p) as [|b q] eqn:Ep; [reflexivity|]. rewrite <-Ep in *. cbn [mbind option_bind].
  set (parts := split_on Byte.x2f (path_no_query p)). destruct (position _ _) as [i|]; [|done]. cbn [mbind option_bind].
  destruct (Nat.leb_spec (length parts) (i + 2)) as [Hl|Hl].
  { rewrite (lookup_ge_None_2 parts (i + 2)) by lia. done. }
  destruct (lookup_lt_is_Some_2 parts (i + 2) Hl) as [op Eop]. rewrite Eop. cbn [mbind option_bind default from_option].
  assert (Hop : is_ascii op = true).
  { unfold is_ascii in *. rewrite forallb_forall in Ha |- *. intros c Hc. apply Ha.
    eapply In_split_on; [|exact Hc]. apply list_elem_of_In. by eapply list_elem_of_lookup_2. }
  unfold to_lowercase. rewrite Hop. unfold includes. cbn [existsb]. rewrite orb_false_r, negb_orb. unfold id.
  destruct (negb _ && negb _)%bool; [done|].
  assert (Hl1 : (i + 1 < length parts)%nat) by lia. destruct (lookup_lt_is_Some_2 parts _ Hl1) as [m ->]. by destruct m.
Qed.

Lemma sim_view_with_model key v w keys model :
  sim v w -> Forall (fun k => plain_key k = true) keys -> plain_key key = true ->
  sim (view_with_model key (pick v keys) model)
    match pick_value w keys with
    | Object out =>
        Object (if negb (bhas key out)
                then match some_text model with Some m => bins key (Str m) out | None => out end
                else out)
    | view => view
    end.
Proof.
  intros Hv Hk Hkey. pose proof (sim_pick _ _ _ Hv Hk) as H. unfold view_with_model. set (x := pick v keys) in *.
  set (y := pick_value w keys) in *. clearbody x y. pose proof H as C. apply sim_cases in C.
  destruct x as [| | | | |m]; try (by subst y); [by destruct C as (? & -> & ?)|]. destruct C as (r & -> & C).
  rewrite (sim_has key _ _ C). unfold some_text. destruct model as [[|c t]|]; [by destruct (negb _)| |by destruct (negb _)].
  destruct (bhas key r); [done|]. apply sim_object, sim_assign; [done..|apply sim_str].
Qed.

(** ** Views *)

(** The events of a stream on which the aggregators agree. *)
Definition stream_ok (protocol : bytes) (events : list json) : bool :=
  if eqs protocol "openai.chat_completions" then chat_stream_ok events
  else if eqs protocol "openai.responses" then responses_stream_ok events
  else if eqs protocol "anthropic.messages" then anthropic_stream_ok events
  else if eqs protocol "google.gemini.generate_content" then gemini_stream_ok events
  else if eqs protocol "alibaba.dashscope.generation" then dashscope_stream_ok events
  else if eqs protocol "aws.bedrock.converse" then bedrock_stream_ok events
  else if eqs protocol "cohere.chat" then cohere_stream_ok events
  else true.

(** Only a response that is a list of events can be treated differently. *)
Definition view_ok (protocol kind : bytes) (parsed : json) : bool :=
  match parsed with
  | Array events => if eqs kind "response" then stream_ok protocol events else true
  | _ => true
  end.

Lemma sim_response v w keys (agg_js : list json -> json) (agg_rs : json -> json) ok :
  sim v w -> Forall (fun k => plain_key k = true) keys ->
  (forall l k, Forall2 sim l k -> ok l = true -> sim (agg_js l) (agg_rs (Array k))) ->
  match v with Array l => ok l | _ => true end = true ->
  sim match v with Array l => agg_js l | _ => pick v keys end (if is_array w then agg_rs w else pick_value w keys).
Proof.
  intros Hv Hk Ha Ho. pose proof Hv as C. apply sim_cases in C.
  destruct v as [| | | |l|m]; [by subst w..| |].
  - destruct C as (k & -> & C). by apply Ha.
  - destruct C as (r & -> & C). exact (sim_pick _ _ _ Hv Hk).
Qed.

Lemma view_agrees protocol kind v w p :
  In protocol SUPPORTED_PROTOCOLS -> kind = "request" \/ kind = "response" ->
  sim v w -> view_ok protocol kind v = true -> is_ascii (path_no_query p) = true ->
  sim (viewOfParsed protocol kind v (Some (path_no_query p))) (view_of_parsed protocol kind w (Some p)).
Proof.
  intros Hp Hk Hv Ho Ha. unfold view_ok in Ho. cbn [SUPPORTED_PROTOCOLS In] in Hp.
  assert (Q : forall keys, Forall (fun k => plain_key k = true) keys -> sim (pick v keys) (pick_value w keys))
    by (intros; by apply sim_pick).
  destruct Hk as [-> | ->].
  - clear Ho. repeat (destruct Hp as [<-|Hp]; [|]); try done.
    1-3: by apply Q; plain_keys.
    2: by apply Q; plain_keys.
    3: by apply Q; plain_keys.
    + assert (G := sim_view_with_model "model" _ _ ["model"; "contents"; "systemInstruction"]
        (geminiModelFromPath (Some (path_no_query p))) Hv ltac:(plain_keys) eq_refl).
      rewrite gemini_model_agrees in G. exact G.
    + assert (G := sim_view_with_model "modelId" _ _ ["modelId"; "messages"; "system"]
        (bedrockModelIdFromPath (Some (path_no_query p))) Hv ltac:(plain_keys) eq_refl).
      assert (E : some_text (bedrockModelIdFromPath (Some (path_no_query p))) = Bedrock.bedrock_model_id_from_path p).
      { rewrite bedrock_model_agrees by done. unfold Bedrock.bedrock_model_id_from_path. repeat case_match; done. }
      rewrite E in G. exact G.
  - destruct Hp as [<-|[<-|[<-|[<-|[<-|[<-|[<-|[]]]]]]]].
    + exact (sim_response v w ["model"; "choices"; "usage"; "error"] _ _ chat_stream_ok Hv ltac:(plain_keys) sim_chat_stream Ho).
    + exact (sim_response v w responses_view_keys _ _ responses_stream_ok Hv ltac:(plain_keys) sim_responses_stream Ho).
    + exact (sim_response v w anthropic_view_keys _ _ anthropic_stream_ok Hv ltac:(plain_keys) sim_anthropic_stream Ho).
    + exact (sim_response v w gemini_view_keys _ _ gemini_stream_ok Hv ltac:(plain_keys) sim_gemini_stream Ho).
    + exact (sim_response v w dashscope_view_keys _ _ dashscope_stream_ok Hv ltac:(plain_keys) sim_dashscope_stream Ho).
    + exact (sim_response v w bedrock_view_keys _ _ bedrock_stream_ok Hv ltac:(plain_keys) sim_bedrock_stream Ho).
    + exact (sim_response v w cohere_view_keys _ _ cohere_stream_ok Hv ltac:(plain_keys) sim_cohere_stream Ho).
Qed.

(** ** Canonical texts *)

(** The keys of the sorted object. *)
Lemma keys_norm (m : list (bytes * json)) : NoDup (map fst m) -> map fst (norm_map m) = sort_keys (map fst m).
Proof.
  intros Hn. assert (E : norm_map m = foldr (fun kv t => bins kv.1 (norm kv.2) t) [] m).
  { apply btree_ext; [apply sorted_norm_map| |].
    - clear Hn. induction m as [|kv m IH]; [constructor|]. by apply sorted_bins.
    - intros k. rewrite bget_norm_map by done. clear Hn. induction m as [|[k' v] m IH]; [done|]. cbn [foldr fst snd bget].
      rewrite bget_bins, <-IH. by destruct (kcmp k k'). }
  rewrite E. clear E. induction m as [|[k v] m IH]; [done|]. cbn [map fst] in Hn. apply list.NoDup_cons in Hn as [Hk Hn].
  cbn [foldr map fst snd sort_keys]. fold (sort_keys (map fst m)). rewrite <-IH in * by done.
  assert (Hf : ~ In k (map fst (foldr (fun kv t => bins kv.1 (norm kv.2) t) [] m))).
  { rewrite IH by done. intros Hin. apply Hk, list_elem_of_In. by rewrite sort_keys_perm in Hin. }
  clear -Hf. induction (foldr _ [] m) as [|[k' v'] t IH]; [done|]. cbn [bins map fst insert_key]. cbn in Hf.
  change (kcmp k k') with (bytes_cmp k k'). destruct (bytes_cmp k k') eqn:E.
  - apply bytes_cmp_eq in E. subst k'. by destruct Hf; left.
  - done.
  - cbn [map fst]. rewrite IH by tauto. done.
Qed.

Lemma canonical_norm v : plain v -> canonical_json (norm v) = canonical_json v.
Proof.
  induction v as [| | | |l IH|m IH] using value_ind'; try done; intros Hv.
  - inversion Hv as [| | | |l' Hl|]; subst. cbn [norm canonical_json]. rewrite map_map. do 3 f_equal. clear Hv.
    induction Hl as [|v l Hv _ IHl]; [done|]. apply Forall_cons_iff in IH as [IHv IH]. cbn. by rewrite IHv, IHl.
  - inversion Hv as [| | | | |m' Hnd Hm]; subst. change (norm (Object m)) with (Object (norm_map m)).
    cbn [canonical_json]. cbv zeta. rewrite sort_keys_sorted by apply sorted_norm_map. rewrite keys_norm by done.
    do 3 f_equal. apply map_ext. intros k. do 2 f_equal. rewrite !bget_map_snd, bget_norm_map by done.
    destruct (bget k m) as [v|] eqn:E; [|done]. apply In_bget in E. rewrite Forall_forall in IH, Hm.
    cbn [fmap option_fmap option_map default from_option]. f_equal. exact (IH _ E (proj2 (Hm _ E))).
Qed.

(** The same value has the same canonical text on both sides. *)
Lemma sim_canonical v w : sim v w -> canonicalJson v = canonical_json w.
Proof. intros [Hv ->]. by rewrite canonical_norm, canonicalJson_agrees. Qed.

(** ** Presence *)

Lemma presence_path_agrees v w path : sim v w -> hasPresentPath v path = has_present_path w path.
Proof.
  intros H. unfold hasPresentPath, has_present_path.
  assert (G : forall parts o p, opt_sim sim o p -> opt_sim sim
    (fold_left (fun cur part => cur ≫= value_get part) parts o) (fold_left (fun cur part => cur ≫= value_get part) parts p)).
  { induction parts as [|part parts IH]; intros o p Ho; [done|]. cbn [fold_left]. apply IH.
    destruct o as [a|], p as [b|]; try done. cbn [mbind option_bind opt_sim] in *. apply sim_cases in Ho.
    destruct a as [| | | | |m]; try (by subst b); [by destruct Ho as (? & -> & _)|]. destruct Ho as (r & -> & Ho).
    cbn [value_get]. by apply sim_get. }
  specialize (G (split_on Byte.x2e path) (Some v) (Some w) H).
  destruct (fold_left _ _ (Some v)) as [a|], (fold_left _ _ (Some w)) as [b|]; try done. cbn [opt_sim] in G. apply sim_cases in G.
  destruct a as [| | |t|l|m]; try (by subst b).
  - subst b. by destruct t.
  - destruct G as (k & -> & G). by destruct G.
  - by destruct G as (r & -> & _).
Qed.

Lemma presence_agrees protocol kind v w :
  In protocol SUPPORTED_PROTOCOLS -> kind = "request" \/ kind = "response" -> sim v w ->
  hasRequiredPresence protocol kind v = has_required_presence protocol kind w.
Proof.
  intros Hp Hk H. unfold hasRequiredPresence, has_required_presence, isErrorResponseView, is_error_response_view.
  rewrite !(fun path => presence_path_agrees v w path H). destruct (_ && _)%bool; [done|].
  assert (E : requiredPresence protocol kind = required_presence protocol kind).
  { cbn [SUPPORTED_PROTOCOLS In] in Hp. destruct Hk as [-> | ->]; by repeat (destruct Hp as [<-|Hp]; [reflexivity|]). }
  rewrite E. clear E. induction (required_presence protocol kind) as [|g gs IH]; [done|]. cbn [forallb]. rewrite IH. f_equal.
  clear IH. induction g as [|path g IH]; [done|]. cbn [existsb]. by rewrite IH, (presence_path_agrees v w path H).
Qed.

(** * The claims of an exchange *)

(** The parsed response body. *)
Definition parsedBody (body : bytes) : json := if looksLikeSse body then Array (parseSseData body) else parseJsonBody body.

(** The collector reads the response as an event stream only when its first 512
    bytes show one, and not in the framing of AWS, which the verifier has no
    parser for. *)
Definition reader_ok (b : FieldResponseBody) (whole : bytes) : Prop :=
  match b with
  | Streaming _ _ => looks_like_sse whole = true
  | AwsEventStream _ _ => False
  | Sniffing _ _ _ => body_prefix_indicates_sse whole = true -> looks_like_sse whole = true
  end.

(** An exchange whose views the verifier can compute from the bodies. *)
Record recomputable `{EN : Env} (head : ReqHead) (req_body content_type protocol whole : bytes) : Prop := {
  rc_protocol : detect_for_head head req_body = Some protocol;
  rc_size : is_sse_content_type content_type = true \/ (zlen whole <= MAX_FIELD_CLAIMS_CAPTURE)%Z;
  rc_reader c : collector_new head req_body content_type = Some c -> reader_ok (Collector.body c) whole;
  rc_request : body_alike req_body;
  rc_response : body_alike whole;
  rc_events : view_ok protocol "response" (parsedBody whole) = true;
  rc_host : is_ascii (host (upstream head)) = true;
  rc_method : is_ascii (method (upstream head)) = true;
  rc_path : is_ascii (path_no_query (path (upstream head))) = true;
}.

(** A proof that speaks of the exchange. *)
Record proof_of (head : ReqHead) (status : Z) (w : TeeProofWire) : Prop := {
  po_nonce : w_nonce w = nonce head;
  po_host : w_upstream_host w = to_lowercase (host (upstream head));
  po_path : w_upstream_path w = path_no_query (path (upstream head));
  po_method : w_http_method w = to_uppercase (method (upstream head));
  po_status : w_http_status w = number_from_i64 status;
}.

Lemma whole_view_reader b protocol upath whole :
  reader_ok b whole -> exists streaming, whole_view b protocol upath whole
    = Some (field_view protocol "response" whole (Some upath), streaming).
Proof.
  destruct b; cbn [reader_ok whole_view]; [|done|].
  - intros H. exists true. unfold field_view. by rewrite H.
  - intros H. destruct (body_prefix_indicates_sse whole); [|by exists false]. exists true. unfold field_view. by rewrite H.
Qed.

(** The claims are those of the two views of the enclave. *)
Lemma collect_views `{EN : Env} head req_body ct m status chunks c protocol :
  recomputable head req_body ct protocol (concat chunks) -> collect head req_body ct m status chunks = Some c ->
  exists streaming, In protocol SUPPORTED_PROTOCOLS
    /\ build_field_claims_from_views head m status protocol
         (field_view protocol "request" req_body (Some (path (upstream head))))
         (field_view protocol "response" (concat chunks) (Some (path (upstream head)))) streaming = Some c.
Proof.
  intros H. rewrite collect_whole_body by apply H. unfold collect_whole.
  destruct (collector_new head req_body ct) as [c0|] eqn:Ec; [|done]. cbn [mbind option_bind].
  pose proof (rc_reader _ _ _ _ _ H _ Ec) as R. unfold collector_new in Ec. rewrite (rc_protocol _ _ _ _ _ H) in Ec.
  cbn [mbind option_bind] in Ec. pose proof (detect_supported _ _ _ _ _ _ (rc_protocol _ _ _ _ _ H)) as Hp.
  destruct (negb _); [done|]. destruct (initial_body _ _ _ _) as [b|]; [|done]. cbn [mbind option_bind] in Ec.
  injection Ec as <-. cbn [Collector.protocol Collector.req_view Collector.body] in *.
  destruct (whole_view_reader b protocol (path (upstream head)) _ R) as (streaming & ->). cbn [mbind option_bind].
  intros Hc. by exists streaming.
Qed.

Lemma extract_agrees protocol kind body p :
  In protocol SUPPORTED_PROTOCOLS -> kind = "request" \/ kind = "response" -> body_alike body ->
  view_ok protocol kind (parsedBody body) = true -> is_ascii (path_no_query p) = true ->
  sim (extractFieldView protocol kind body (Some (path_no_query p))) (field_view protocol kind body (Some p)).
Proof. intros. unfold extractFieldView, field_view. by apply view_agrees; [..|apply parse_agrees| |]. Qed.

Lemma nonEmptyField_digest `{SL : !Sha256Laws} claims field b :
  value_get field claims = Some (Str (sha256_hex b)) -> nonEmptyField claims field = Some (sha256_hex b).
Proof.
  intros E. unfold nonEmptyField, stringField. rewrite E. cbn. pose proof (is_sha256_hex_digest b) as H.
  by destruct (sha256_hex b).
Qed.

(** What the verifier finds for the claims of an exchange. *)
Lemma claims_recomputed `{EN : Env} `{SL : !Sha256Laws} head req_body ct status chunks c protocol w :
  collect head req_body ct (to_uppercase (method (upstream head))) status chunks = Some c ->
  recomputable head req_body ct protocol (concat chunks) -> proof_of head status w ->
  let path := Some (w_upstream_path w) in
  let response body := canonicalJson (extractFieldView protocol "response" body path) in
  let request body := canonicalJson (extractFieldView protocol "request" body path) in
  claims_protocol c w = Some protocol
  /\ nonEmptyField c "upstream_response_fields_sha256" = Some (sha256_hex (response (concat chunks)))
  /\ nonEmptyField c "upstream_request_fields_sha256" = Some (sha256_hex (request req_body))
  /\ hasRequiredPresence protocol "response" (extractFieldView protocol "response" (concat chunks) path) = true
  /\ hasRequiredPresence protocol "request" (extractFieldView protocol "request" req_body path) = true.
Proof.
  intros Hc H Hw. cbv zeta. destruct (collect_views _ _ _ _ _ _ _ _ H Hc) as (streaming & Hp & Hb).
  destruct Hw as [W1 W2 W3 W4 W5]. rewrite W3. pose proof (claims_members _ _ _ _ _ _ _ _ Hb) as M.
  destruct M as (_ & _ & _ & _ & _ & _ & M1 & M2 & _).
  assert (Ereq : view_ok protocol "request" (parsedBody req_body) = true) by (by destruct (parsedBody req_body)).
  pose proof (extract_agrees protocol "request" req_body (path (upstream head)) Hp (or_introl eq_refl) (rc_request _ _ _ _ _ H)
    Ereq (rc_path _ _ _ _ _ H)) as S1.
  pose proof (extract_agrees protocol "response" (concat chunks) (path (upstream head)) Hp (or_intror eq_refl)
    (rc_response _ _ _ _ _ H) (rc_events _ _ _ _ _ H) (rc_path _ _ _ _ _ H)) as S2.
  split; [|split; [|split; [|split]]].
  - eapply claims_protocol_trailer; try done; apply H.
  - rewrite (sim_canonical _ _ S2). by apply nonEmptyField_digest.
  - rewrite (sim_canonical _ _ S1). by apply nonEmptyField_digest.
  - rewrite (presence_agrees _ _ _ _ Hp (or_intror eq_refl) S2). unfold build_field_claims_from_views in Hb.
    destruct (has_required_presence protocol "response" _); [done|]. by destruct (negb (has_required_presence protocol "request" _)).
  - rewrite (presence_agrees _ _ _ _ Hp (or_introl eq_refl) S1). unfold build_field_claims_from_views in Hb.
    by destruct (has_required_presence protocol "request" _).
Qed.

(** The verifier accepts the bodies of an exchange. *)
Lemma fields_accepted `{EN : Env} `{SL : !Sha256Laws} head req_body ct status chunks c protocol w :
  collect head req_body ct (to_uppercase (method (upstream head))) status chunks = Some c ->
  recomputable head req_body ct protocol (concat chunks) -> proof_of head status w ->
  let path := Some (w_upstream_path w) in
  let request_hash := hashFieldView protocol "request" req_body path in
  let response_hash := hashFieldView protocol "response" (concat chunks) path in
  verifyFieldClaims c (Some req_body) (concat chunks) w
    = Some (mkFieldVerify protocol true true true (Some request_hash) response_hash)
  /\ verifyFieldClaims c None (concat chunks) w = Some (mkFieldVerify protocol false true true None response_hash).
Proof.
  intros Hc H Hw. cbv zeta. destruct (claims_recomputed _ _ _ _ _ _ _ _ Hc H Hw) as (E1 & E2 & E3 & P1 & P2).
  unfold verifyFieldClaims, hashFieldView. rewrite E1. cbn [mbind option_bind]. rewrite P1, P2, E2, E3. cbn [negb mbind option_bind].
  unfold eqs. by rewrite !bool_decide_true.
Qed.

(** C8. The verifier computes the field hashes of the enclave: for the claims
    a collector makes of an exchange, [verifyFieldClaims] accepts the request
    and the response, whole or in part, with the hashes of its own views; and
    it accepts another response only when its view has the same canonical
    text, unless SHA-256 has a collision.  The exchange has to be
    [recomputable]: both JSON parsers read the bodies alike, the events of a
    stream are not ones the two programs put together differently, the collector
    and the verifier choose the same reader, the response is an event stream or
    has at most [MAX_FIELD_CLAIMS_CAPTURE] bytes, and host, method and path are
    ASCII. *)
Theorem verifier_recomputes_fields `{EN : Env} `{SL : !Sha256Laws} head req_body ct status chunks c protocol w :
  collect head req_body ct (to_uppercase (method (upstream head))) status chunks = Some c ->
  recomputable head req_body ct protocol (concat chunks) -> proof_of head status w ->
  let path := Some (w_upstream_path w) in
  let request_hash := hashFieldView protocol "request" req_body path in
  let response_hash := hashFieldView protocol "response" (concat chunks) path in
  verifyFieldClaims c (Some req_body) (concat chunks) w
    = Some (mkFieldVerify protocol true true true (Some request_hash) response_hash)
  /\ verifyFieldClaims c None (concat chunks) w = Some (mkFieldVerify protocol false true true None response_hash)
  /\ forall body r, verifyFieldClaims c None body w = Some r -> responseOk r = true ->
       let text body := canonicalJson (extractFieldView protocol "response" body path) in
       text body = text (concat chunks) \/ sha_collision (text body) (text (concat chunks)).
Proof.
  intros Hc H Hw. cbv zeta. destruct (fields_accepted _ _ _ _ _ _ _ _ Hc H Hw) as [A1 A2].
  split; [exact A1|]. split; [exact A2|]. intros body r.
  destruct (claims_recomputed _ _ _ _ _ _ _ _ Hc H Hw) as (E1 & E2 & _). unfold verifyFieldClaims, hashFieldView.
  rewrite E1. cbn [mbind option_bind]. rewrite E2. destruct (negb _); [done|]. cbn [mbind option_bind].
  intros [= <-]. cbn [responseOk]. intros E%bool_decide_eq_true. by apply sha256_hex_inj.
Qed.
End Agreement.
End FieldProof.

(** * A divergence *)

(** C21. The two sides part on a delta with [tool_calls: null], which chat
    completion servers send: the verifier gives the message an empty list of
    tool calls, the enclave gives it none, the canonical texts of the response
    views differ, and so an untouched response fails the verification. *)
Theorem null_tool_calls_diverge `{SJ : SerdeJson} `{SJL : !SerdeJsonLaws} `{JT : !JsText} `{JL : !JsTextLaws}
    `{JN : !JsNumbers} `{NL : !JsNumbersLaws} text :
  let delta := Object [("content", Str text); ("tool_calls", Null)] in
  let chunk := Object [("choices", Array [Object [("delta", delta); ("index", json_int 0)]])] in
  sim chunk chunk
  /\ canonicalJson (openaiChatView "response" (Array [chunk]))
     <> canonical_json (view_of_parsed "openai.chat_completions" "response" (Array [chunk]) None).
Proof.
  intros delta chunk.
  assert (Z0 : sim (json_int 0) (json_int 0)) by (apply sim_int; lia).
  assert (P0 : plain (json_int 0)) by apply Z0.
  split.
  - split; [|reflexivity]. repeat first
      [exact P0|constructor; [by apply (bool_decide_unpack _)|]|split; [reflexivity|]|constructor].
  - set (message tail := Object (("content", Str text) :: tail) : value number).
    set (view tail := Object [("choices", Array [Object [("index", json_int 0); ("message", message tail)]])] : value number).
    assert (J : openaiChatView "response" (Array [chunk]) = view [("tool_calls", Array [])]) by reflexivity.
    assert (R : view_of_parsed "openai.chat_completions" "response" (Array [chunk]) None = view []).
    { change (view_of_parsed "openai.chat_completions" "response" (Array [chunk]) None)
        with (OpenAiChat.aggregate_openai_chat_stream (Array [chunk])).
      unfold OpenAiChat.aggregate_openai_chat_stream, chunk, delta. cbn -[json_int number_as_i64 number_from_i64].
      assert (E : as_i64 (json_int 0) = Some 0%Z) by (apply number_from_i64_as_i64; lia). rewrite E. reflexivity. }
    assert (P : forall tail, Forall (fun kv => kv = ("tool_calls", Array [])) tail -> (length tail <= 1)%nat -> sim (view tail) (view tail)).
    { intros tail Ht Hl. destruct Ht as [|kv tail -> Ht]; [|destruct tail; [|cbn in Hl; lia]]; (split; [|reflexivity]);
        repeat first [exact P0|constructor; [by apply (bool_decide_unpack _)|]|split; [reflexivity|]|constructor]. }
    rewrite J, R, (sim_canonical _ _ (P [("tool_calls", Array [])] ltac:(by repeat constructor) ltac:(cbn; lia))).
    intros E. apply canonical_json_inj in E; [done|..]; repeat constructor.
Qed.

(** * Sample and witnesses *)

(** JavaScript's numbers and [JSON.parse] on the sample JSON: members stay in
    the order of the text, and a repeated one keeps its place. *)
#[export] Instance SampleJsNumbers : JsNumbers := {|
  js_same := Z.eqb; js_before := Z.ltb; js_is_finite _ := true;
  js_array_index z := if (0 <=? z)%Z && (z <? 2 ^ 32 - 1)%Z then Some (Z.to_nat z) else None |}.

#[export] Instance SampleJsNumbersLaws : JsNumbersLaws.
Proof.
  split; cbn; intros; try done.
  - destruct ((- 2 ^ 63 <=? n) && (n <? 2 ^ 63))%Z; congruence.
  - destruct ((- 2 ^ 63 <=? n) && (n <? 2 ^ 63))%Z eqn:E; [|done]. injection H as ->.
    replace ((0 <=? z) && (z <? 2 ^ 64))%Z with true by (symmetry; lia). done.
  - replace ((0 <=? a) && (a <? 2 ^ 32 - 1))%Z with true by (symmetry; lia). done.
Qed.

#[export] Instance SampleJsonParse : JsonParse := read_text (fun k v m => assign_own k v m).

(** ** When two readings agree, decided *)

Section Decide.
Context `{SJL : !SerdeJsonLaws} `{JL : !JsTextLaws} `{NL : !JsNumbersLaws} `{EqN : !EqDecision number}.
Abbreviation json := (value number).
Abbreviation jmap := (list (bytes * value number)).

Fixpoint plain_value (v : json) : bool :=
  match v with
  | Null | Bool _ | Str _ => true
  | Number n => bool_decide (js_number n = number_to_string n)
  | Array l => forallb plain_value l
  | Object m => bool_decide (NoDup (map fst m)) && forallb (fun kv => plain_key kv.1 && plain_value kv.2) m
  end.

Fixpoint value_eqb (v w : json) {struct v} : bool :=
  match v, w with
  | Null, Null => true
  | Bool a, Bool b => Bool.eqb a b
  | Number a, Number b => bool_decide (a = b)
  | Str a, Str b => bool_decide (a = b)
  | Array l, Array k =>
      (fix go (l k : list json) : bool :=
         match l, k with [], [] => true | v :: l, w :: k => value_eqb v w && go l k | _, _ => false end) l k
  | Object l, Object k =>
      (fix go (l k : jmap) : bool :=
         match l, k with
         | [], [] => true
         | kv :: l, kw :: k => bool_decide (kv.1 = kw.1) && value_eqb kv.2 kw.2 && go l k
         | _, _ => false
         end) l k
  | _, _ => false
  end.

Lemma plain_value_spec v : plain_value v = true -> plain v.
Proof.
  induction v as [| |n| |l IH|m IH] using value_ind'; cbn [plain_value]; try by constructor.
  - rewrite forallb_forall, <-List.Forall_forall. intros H. constructor. induction IH; inversion H; subst; constructor; auto.
  - intros [H1%bool_decide_eq_true H2]%andb_prop. constructor; [done|].
    rewrite forallb_forall, <-List.Forall_forall in H2. clear H1.
    induction IH; inversion H2 as [|? ? [? ?]%andb_prop]; subst; constructor; auto.
Qed.

Lemma value_eqb_spec v : forall w, value_eqb v w = true -> v = w.
Proof.
  induction v as [|b|n|s|l IH|m IH] using value_ind'; intros [| | | |k|k]; cbn [value_eqb]; try done.
  - by intros ->%Bool.eqb_prop.
  - by intros ->%bool_decide_eq_true.
  - by intros ->%bool_decide_eq_true.
  - revert k. induction IH as [|v l Hv _ IHl]; intros [|w k]; try done. intros [->%Hv H2]%andb_prop.
    by apply IHl in H2 as [= ->].
  - revert k. induction IH as [|[a v] l Hv _ IHl]; intros [|[b w] k]; try done; cbn [fst snd] in *.
    intros [[->%bool_decide_eq_true ->%Hv]%andb_prop H2]%andb_prop. by apply IHl in H2 as [= ->].
Qed.

Definition parsed_alike_b (t : bytes) : bool :=
  match json_parse t, from_str t with
  | Some v, Some w => plain_value v && value_eqb (norm v) w
  | None, None => true
  | _, _ => false
  end.

Definition body_alike_b (body : bytes) : bool :=
  let text := from_utf8_lossy body in
  Bool.eqb (looksLikeSse body) (looks_like_sse body)
  && if looks_like_sse body then
       bool_decide (strip_cr (last_line text) = last_line text)
       && forallb (fun line => match strip_prefix line "data:" with
                               | Some rest => bool_decide (js_trim_start rest = trim_start rest)
                               | None => true
                               end) (sse_lines body)
       && forallb (fun t => bool_decide (js_trim t = trim t)
                            && (eqs (trim t) "" || eqs (trim t) "[DONE]" || parsed_alike_b t)) (sse_data body)
     else bool_decide (js_trim text = trim text) && parsed_alike_b (trim text).

Lemma parsed_alike_b_spec t : parsed_alike_b t = true -> parsed_alike t.
Proof.
  unfold parsed_alike_b, parsed_alike. destruct (json_parse t), (from_str t); try done.
  intros [H1 H2]%andb_prop. split; [by apply plain_value_spec|symmetry; by apply value_eqb_spec].
Qed.

Lemma body_alike_b_spec body : body_alike_b body = true -> body_alike body.
Proof.
  unfold body_alike_b. intros [H1%Bool.eqb_prop H2]%andb_prop. split; [done|]. destruct (looks_like_sse body).
  - apply andb_prop in H2 as [[Ha%bool_decide_eq_true Hb]%andb_prop Hc].
    rewrite forallb_forall in Hb, Hc. split; [done|..]; apply List.Forall_forall; intros x Hx.
    + intros rest E. specialize (Hb x Hx). rewrite E in Hb. by apply bool_decide_eq_true in Hb.
    + specialize (Hc x Hx). apply andb_prop in Hc as [E%bool_decide_eq_true Hc]. split; [done|].
      intros Hn. rewrite Hn in Hc. by apply parsed_alike_b_spec.
  - apply andb_prop in H2 as [E%bool_decide_eq_true H2]. split; [done|]. intros _. by apply parsed_alike_b_spec.
Qed.
End Decide.

(** ** A streamed chat completion with a tool call *)

Section Witness.
#[local] Instance field_env : Env := fun _ => None.
#[local] Instance number_decision : EqDecision (@number SampleJson) := Z.eq_dec.

Definition chat_head : ReqHead := Collector.sample_head "/v1/chat/completions?beta=1".

Definition chat_response : list bytes :=
  ["data: " ++ js "{'model':'m','choices':[{'index':0,'delta':{'role':'assistant','content':'He'}}]}" ++ [Byte.x0a; Byte.x0a];
   "data: " ++ js "{'choices':[{'index':0,'delta':{'tool_calls':[{'index':0,'id':'c','function':{'name':'f','arguments':'{'}}]}}]}";
   [Byte.x0d; Byte.x0a; Byte.x0d; Byte.x0a];
   "data: " ++ js "{'choices':[{'index':0,'delta':{'content':'y','tool_calls':[{'function':{'arguments':'}'},'index':0}]}}]}";
   [Byte.x0a; Byte.x0a] ++ "data: [DONE]" ++ [Byte.x0a; Byte.x0a]].

Definition chat_proof : TeeProofWire :=
  mkWire "" "bm9uY2U=" "api.openai.com" "/v1/chat/completions" "POST" (number_from_i64 200) "text/event-stream" "" "" "" None.

Lemma chat_recomputable :
  recomputable chat_head sample_request "text/event-stream" "openai.chat_completions" (concat chat_response).
Proof.
  split.
  - vm_compute. reflexivity.
  - left. vm_compute. reflexivity.
  - intros c E. assert (B : match collector_new chat_head sample_request "text/event-stream" with
      | Some c => match Collector.body c with Streaming _ _ => true | _ => false end | None => false end = true)
      by (vm_compute; reflexivity).
    rewrite E in B. by destruct (Collector.body c).
  - apply body_alike_b_spec. vm_compute. reflexivity.
  - apply body_alike_b_spec. vm_compute. reflexivity.
  - vm_compute. reflexivity.
  - vm_compute. reflexivity.
  - vm_compute. reflexivity.
  - vm_compute. reflexivity.
Qed.

Lemma chat_proof_of : proof_of chat_head 200 chat_proof.
Proof. split; vm_compute; reflexivity. Qed.

Lemma verifier_recomputes_fields_witness :
  exists c, collect chat_head sample_request "text/event-stream" "POST" 200 chat_response = Some c
    /\ exists r, verifyFieldClaims c None (concat chat_response) chat_proof = Some r /\ responseOk r = true.
Proof.
  assert (E : match collect chat_head sample_request "text/event-stream" "POST" 200 chat_response with
    | Some _ => true | None => false end = true) by (vm_compute; reflexivity).
  destruct (collect chat_head sample_request "text/event-stream" "POST" 200 chat_response) as [c|] eqn:Ec; [|discriminate E].
  exists c. split; [reflexivity|]. eexists.
  split; [exact (proj1 (proj2 (verifier_recomputes_fields _ _ _ _ _ _ _ _ Ec chat_recomputable chat_proof_of)))|reflexivity].
Defined.

Lemma null_tool_calls_diverge_witness :
  canonicalJson (openaiChatView "response" (Array [Object [("choices", Array [Object
    [("delta", Object [("content", Str "hi"); ("tool_calls", Null)]); ("index", json_int 0)]])]])) <>
  canonical_json (view_of_parsed "openai.chat_completions" "response" (Array [Object [("choices", Array [Object
    [("delta", Object [("content", Str "hi"); ("tool_calls", Null)]); ("index", json_int 0)]])]]) None).
Proof. exact (proj2 (null_tool_calls_diverge "hi")). Defined.
End Witness.
