(* ===== verification/Verdict.v ===== *)
(** The verdict of the verifier ([verifyTeeExchange] of
    [verifier/tee-verify-core.ts]): its checks put together.  With field claims
    the hashes of the bodies are advisory and the field checks decide; without
    them the hashes do.

    The verifiers of the platforms' evidence (certificate chains, quotes,
    measurements; [evidence-*.ts]) are a parameter: for a profile, whether every
    check of its verifier passes, over the trust bundle and the time the caller
    has given. *)

From S2P Require Import Prelude RustStr BTree Json Digest Paths Base64 Protocol Collector Statement.
From S2P Require Import Evidence Trailer Handle Transcript JsJson Verifier JsViews JsAgree FieldProof.
From S2P Require AliyunHelper.
Local Open Scope bytes_scope.

(** [resolveEvidenceVerifier]: [None] for a profile there is no verifier for. *)
Class EvidenceVerifiers `{SerdeJson} := resolveEvidenceVerifier : bytes -> option (value number -> bool).

Section Verdict.
Context `{SJ : SerdeJson} `{JT : !JsText} `{JN : !JsNumbers} `{JP : !JsonParse} `{SH : Sha256} `{UC : UnicodeCase}
  `{ED : Ed25519} `{B64 : Base64} `{NC : NodeCrypto} `{EV : !EvidenceVerifiers}.
Abbreviation json := (value number).

(** * The evidence *)

(** A member that is a string; the empty one is falsy. *)
Definition profile_of (proof : json) : option bytes :=
  match stringField proof "profile" with
  | Some [] => None
  | o => o
  end.

(** The profile the caller's trust bundle names, or else the one of the proof. *)
Definition configuredProfile (trust_profile : option bytes) (proof : json) : bytes :=
  match trust_profile with
  | Some (_ :: _ as p) => p
  | _ => match profile_of proof with
         | None => "nitro"
         | Some p => if eqs p "nitro" then "nitro" else p
         end
  end.

Definition verifyConfiguredProfile (profile : bytes) (proof : json) : bool :=
  match profile_of proof with
  | Some p => eqs p profile
  | None => true
  end.

(** The checks of the profile and of the evidence. *)
Definition evidence_check (trust_profile : option bytes) (proof : json) : bool :=
  let profile := configuredProfile trust_profile proof in
  verifyConfiguredProfile profile proof
  && match resolveEvidenceVerifier profile with
     | Some verifyEvidence => verifyEvidence proof
     | None => false
     end.

(** * The exchange *)

Record TeeVerifyInput := mkInput {
  trust_profile : option bytes;
  responseBody : bytes;
  proof : json;
  requestBody : option bytes;
  expectedHost : option bytes;
  expectedNonceB64 : option bytes;
  requireFieldClaims : bool;
}.

(** [!!t.field_claims]: past the wire check the claims are an object. *)
Definition field_mode (t : TeeProofWire) : bool :=
  match w_field_claims t with Some _ => true | None => false end.

(** [ok] of the result: every check passes. *)
Definition verifyTeeExchange (input : TeeVerifyInput) : bool :=
  verifyWireEnvelope (proof input)
  && match wire_of (proof input) with
     | None => false
     | Some t =>
         evidence_check (trust_profile input) (proof input)
         && nonce_check t (expectedNonceB64 input)
         && host_check t (expectedHost input)
         && negb (requireFieldClaims input && negb (field_mode t))
         && verifySignatureCheck t (responseBody input) (field_mode t)
         && (if field_mode t then verifyFieldClaimChecks t (requestBody input) (responseBody input) else true)
         && request_check t (requestBody input)
     end.

(** The client of an exchange asks about a trailer and the bodies it has. *)
Definition verdict (head : ReqHead) (proof : json) (trust : option bytes) (require_claims : bool)
    (request : option bytes) (response : bytes) : bool :=
  verifyTeeExchange (mkInput trust response proof request (Some (host (upstream head))) (Some (nonce head)) require_claims).

(** * What a verdict means *)

(** Two bodies with the same fields, unless SHA-256 has a collision. *)
Definition same_fields (protocol kind : bytes) (path : bytes) (b b' : bytes) : Prop :=
  let text b := canonicalJson (extractFieldView protocol kind b (Some path)) in
  text b = text b' \/ sha_collision (text b) (text b').

(** The client accepts a trailer for its nonce and its host whose evidence it
    trusts, with its request or without it, on the response delivered, and not
    on another one.  Without claims, another one is one with other bytes, and
    the same goes for the request.  With claims, it is one with other fields,
    when the bodies of the exchange are ones both sides read alike; the digests
    of the bodies do not count then. *)
Definition accepted `{EN : Env} (head : ReqHead) (body ct resp_body : bytes) (t : json) : Prop :=
  verifyWireEnvelope t = true
  /\ exists w, wire_of t = Some w
    /\ match w_field_claims w with
       | None =>
           (forall trust request, evidence_check trust t = true -> In request [None; Some body] ->
              verdict head t trust false request resp_body = true)
           /\ (forall trust require request response, verdict head t trust require request response = true ->
                 require = false
                 /\ (response = resp_body \/ sha_collision response resp_body)
                 /\ (forall b, request = Some b -> b = body \/ sha_collision b body))
       | Some claims =>
           (exists protocol, claims_protocol claims w = Some protocol)
           /\ forall protocol, recomputable head body ct protocol resp_body ->
                (forall trust require request, evidence_check trust t = true -> In request [None; Some body] ->
                   verdict head t trust require request resp_body = true)
                /\ (forall trust require request response, verdict head t trust require request response = true ->
                      same_fields protocol "response" (w_upstream_path w) response resp_body
                      /\ (forall b, request = Some b -> same_fields protocol "request" (w_upstream_path w) b body))
       end.

(** * Proofs *)

(** A trailer signed with [key] over the statement of an exchange, as the
    verifier reads it. *)
Definition signed_wire (key : SigningKey) (x : Exchange) (norm_host norm_path : bytes) : TeeProofWire :=
  mkWire (b64_encode (spki_prefix ++ verifying_key key)) (nonce (x_head x)) norm_host norm_path (x_norm_method x)
    (number_from_i64 (x_status x)) (x_content_type x) (x_req_body_hex x) (x_resp_body_hex x)
    (b64_encode (sk_sign key (exchange_statement x norm_host norm_path))) (x_field_claims x).

Section Agreement.
Context `{SJL : !SerdeJsonLaws} `{JL : !JsTextLaws} `{NUL : !JsNumbersLaws} `{SL : !Sha256Laws} `{EL : !Ed25519Laws}
  `{NL : !NodeCryptoLaws} `{EN : Env}.

Lemma collect_plain head body ct m status pieces c :
  (0 <= status <= u16_max)%Z -> collect head body ct m status pieces = Some c -> plain c.
Proof. intros Hst (protocol & rq & rs & streaming & _ & Hb)%collect_claims. by eapply plain_claims. Qed.

(** The signature check for a body, and a mode. *)
Lemma signed_check key head body status ct pieces nh np b mode :
  (0 <= status <= u16_max)%Z ->
  verifySignatureCheck (signed_wire key (relayed_exchange head body status ct pieces) nh np) b mode
    = eqs (sha256_hex b) (sha256_hex (concat pieces)) || mode.
Proof.
  intros Hst. unfold signed_wire. rewrite verifySignatureCheck_signed; [reflexivity|exact Hst|].
  intros c. exact (collect_plain _ _ _ _ _ _ c Hst).
Qed.

Lemma signed_body key head body status ct pieces nh np b mode :
  (0 <= status <= u16_max)%Z ->
  verifySignatureCheck (signed_wire key (relayed_exchange head body status ct pieces) nh np) b mode = true ->
  mode = true \/ b = concat pieces \/ sha_collision b (concat pieces).
Proof.
  intros Hst. rewrite signed_check by done. intros [E%bool_decide_eq_true | ->]%orb_prop; [|by left].
  right. by apply sha256_hex_inj.
Qed.


Lemma host_check_lowered w h : is_ascii h = true -> w_upstream_host w = to_lowercase h -> host_check w (Some h) = true.
Proof.
  intros Ha Hw. unfold host_check. destruct h as [|b t]; [done|]. rewrite Hw, ascii_lower_again by done.
  unfold to_lowercase. rewrite Ha. unfold eqs. by rewrite bool_decide_true.
Qed.

(** The field checks pass only on the fields of the exchange. *)
Lemma fields_checked head body ct status pieces c protocol w request response :
  collect head body ct (to_uppercase (method (upstream head))) status pieces = Some c -> w_field_claims w = Some c ->
  recomputable head body ct protocol (concat pieces) -> proof_of head status w ->
  verifyFieldClaimChecks w request response = true ->
  same_fields protocol "response" (w_upstream_path w) response (concat pieces)
  /\ (forall b, request = Some b -> same_fields protocol "request" (w_upstream_path w) b body).
Proof.
  intros Hc Hw Hr Hp. destruct (claims_recomputed _ _ _ _ _ _ _ _ Hc Hr Hp) as (E1 & E2 & E3 & _).
  unfold verifyFieldClaimChecks, verifyFieldClaims, hashFieldView. rewrite Hw, E1. cbn [mbind option_bind].
  destruct (negb (hasRequiredPresence _ "response" _)); [done|]. rewrite E2. cbn [mbind option_bind].
  destruct request as [b|]; cbn [requestChecked responseOk requestOk].
  - destruct (negb (hasRequiredPresence _ "request" _)); [done|]. rewrite E3. cbn [mbind option_bind requestChecked responseOk requestOk].
    intros [H1%bool_decide_eq_true H2%bool_decide_eq_true]%andb_prop. split; [by apply sha256_hex_inj|].
    intros b' [= <-]. by apply sha256_hex_inj.
  - cbn [andb]. intros H%bool_decide_eq_true. split; [by apply sha256_hex_inj|done].
Qed.

Lemma signed_accepted key head body ct status pieces t :
  let x := relayed_exchange head body status ct pieces in
  verifyWireEnvelope t = true ->
  wire_of t = Some (signed_wire key x (to_lowercase (host (upstream head))) (path_no_query (path (upstream head)))) ->
  (0 <= status <= u16_max)%Z -> is_ascii (host (upstream head)) = true -> is_ascii (method (upstream head)) = true ->
  accepted head body ct (concat pieces) t.
Proof.
  cbv zeta. intros He Ht Hst Hh Hm. split; [done|]. eexists. split; [exact Ht|].
  set (w := signed_wire _ _ _ _) in *.
  assert (Hn : nonce_check w (Some (nonce head)) = true).
  { cbn [nonce_check]. change (w_nonce w) with (nonce head). unfold eqs. by destruct (nonce head); [|rewrite bool_decide_true]. }
  assert (Hhost : host_check w (Some (host (upstream head))) = true).
  { by apply host_check_lowered. }
  assert (Hp : proof_of head status w) by by split.
  assert (V : forall trust require request response, verdict head t trust require request response
    = evidence_check trust t && negb (require && negb (field_mode w)) && verifySignatureCheck w response (field_mode w)
      && (if field_mode w then verifyFieldClaimChecks w request response else true) && request_check w request).
  { intros. unfold verdict, verifyTeeExchange. cbn [proof trust_profile expectedNonceB64 expectedHost requireFieldClaims
      responseBody requestBody]. by rewrite He, Ht, Hn, Hhost, !andb_true_r, andb_true_l. }
  assert (S : forall response, verifySignatureCheck w response (field_mode w)
    = eqs (sha256_hex response) (sha256_hex (concat pieces)) || field_mode w) by (intros; by apply signed_check).
  change (w_field_claims w) with (collect head body ct (to_uppercase (method (upstream head))) status pieces).
  destruct (collect _ _ _ _ _ _) as [c|] eqn:Hc.
  - assert (Hw : w_field_claims w = Some c) by exact Hc.
    assert (Mode : field_mode w = true) by (unfold field_mode; by rewrite Hw).
    assert (Rq : forall request, request_check w request = true) by (intros [b|]; [unfold request_check; by rewrite Hw|done]).
    split.
    { pose proof Hc as Hc'. apply collect_claims in Hc' as (protocol & rq & rs & streaming & Hin & Hb). exists protocol.
      eapply (claims_protocol_trailer head status); try done; apply Hp. }
    intros protocol Hr. split; intros trust require request.
    + intros Hev Hin. rewrite V, S, Mode, Hev, Rq, orb_true_r, andb_true_r. cbn [negb]. rewrite andb_false_r. cbn [negb andb].
      destruct (fields_accepted _ _ _ _ _ _ _ _ Hc Hr Hp) as [A1 A2]. unfold verifyFieldClaimChecks. rewrite Hw.
      destruct Hin as [<-|[<-|[]]]; [by rewrite A2|by rewrite A1].
    + intros response. rewrite V, Mode. intros ((_ & H)%andb_prop & _)%andb_prop. by eapply fields_checked.
  - assert (Hw : w_field_claims w = None) by exact Hc.
    assert (Mode : field_mode w = false) by (unfold field_mode; by rewrite Hw). split.
    + intros trust request Hev Hin. rewrite V, S, Mode, Hev. unfold eqs at 1. rewrite bool_decide_true by done.
      cbn [negb andb orb]. destruct Hin as [<-|[<-|[]]]; [done|]. unfold request_check. rewrite Hw.
      change (w_request_body_sha256 w) with (sha256_hex body). unfold eqs. by rewrite bool_decide_true.
    + intros trust require request response. rewrite V, S, Mode, orb_false_r.
      intros (((( _ & Hq)%andb_prop & Hb%bool_decide_eq_true)%andb_prop & _)%andb_prop & Hr)%andb_prop.
      split; [by destruct require|]. split; [by apply sha256_hex_inj|]. intros b ->. unfold request_check in Hr. rewrite Hw in Hr.
      change (w_request_body_sha256 w) with (sha256_hex body) in Hr. apply bool_decide_eq_true in Hr. by apply sha256_hex_inj.
Qed.
End Agreement.
End Verdict.
