(* ===== verification/EndToEnd.v ===== *)
(** From the client's request to the verifier's verdict: whenever the parties
    of an exchange do their part, [handle] delivers the response, and the
    verifier accepts the trailer that comes with it on the response delivered,
    and on no other bytes, or, with field claims, no other fields. *)

From S2P Require Import Prelude RustStr BTree Json Digest Paths Base64 TlsProfile Protocol Collector Statement.
From S2P Require Import Io Frames Http1 ResponseHead H2Client Egress Evidence Metrics Trailer Handle Transcript.
From S2P Require Import Delivery JsJson Verifier JsViews JsAgree FieldProof Verdict Sample.
From S2P Require AliyunHelper.
Local Open Scope bytes_scope.

Section EndToEnd.
Context `{SJ : SerdeJson} `{SJL : !SerdeJsonLaws} `{SH : Sha256} `{SL : !Sha256Laws} `{UC : UnicodeCase} `{EN : Env}
  `{B64 : Base64} `{ED : Ed25519} `{EL : !Ed25519Laws} `{HJ : AliyunHelper.HelperJson}
  `{US : AliyunHelper.UnixSockets} `{HC : HttpCrate} `{SO : Sockets} `{TL : !TlsLibraries} `{RH : ReqHeadJson}
  `{JT : !JsText} `{JL : !JsTextLaws} `{NC : NodeCrypto} `{NL : !NodeCryptoLaws}
  `{JN : !JsNumbers} `{NUL : !JsNumbersLaws} `{JP : !JsonParse} `{EV : !EvidenceVerifiers}.
Abbreviation json := (value number).

(** An upstream reached over one of the two transports, with the status, the
    content type and the body of its response. *)
Inductive serves (head : ReqHead) (body : bytes) : Z -> bytes -> bytes -> Prop :=
  | serves_http1 sock tls h resp_body :
      upstream_socket (egress_port head) = Ok sock -> h2_profile_of (decode_profile head) = None ->
      connect_tls (decode_profile head) sock (host (upstream head)) = Ok tls -> answers tls h resp_body ->
      serves head body (code h) (default [] (list.last (values "content-type" (fields h)))) resp_body
  | serves_http2 sock p tls fp status headers resp_body :
      upstream_socket (egress_port head) = Ok sock -> h2_profile_of (decode_profile head) = Some p -> h2 p = Some fp ->
      aws_lc_connect p sock (host (upstream head)) = Ok tls -> h2_answers head body tls fp status headers resp_body ->
      serves head body status
        (default [] (snd <$> list.last (List.filter (fun kv => eq_ignore_ascii_case kv.1 "content-type") headers))) resp_body.

(** An exchange a proof can be made of: the device answers, the status is one
    the verifier knows, the texts are within its limit, and the host and the
    method are ASCII. *)
Record provable (local : LocalEvidenceBackend) (head : ReqHead) (nonce_bytes : bytes) (status : Z) (ct : bytes)
    (ev : Evidence) : Prop := {
  pv_evidence : attest (evidence_provider local) (spki local) nonce_bytes = Ok ev;
  pv_status : (100 <= status <= 599)%Z;
  pv_content_type : no_crlf ct = true;
  pv_host : is_ascii (host (upstream head)) = true;
  pv_method : is_ascii (method (upstream head)) = true;
  pv_texts : Forall (fun s => (zlen s <= MAX_PROOF_STRING_BYTES)%Z)
    [b64_encode (spki local); nonce head; to_lowercase (host (upstream head)); path_no_query (path (upstream head));
     to_uppercase (method (upstream head)); ct; b64_encode (attestation ev)];
  pv_signature msg : (zlen (b64_encode (sk_sign (sk local) msg)) <= MAX_PROOF_STRING_BYTES)%Z;
}.

(** * Lemmas *)

Lemma serves_delivers s backend m elapsed head body nb status ct resp_body :
  requested s head body nb -> serves head body status ct resp_body ->
  exists s' m' headers, handle s backend m elapsed = (s', m', Ok tt)
    /\ delivered backend head body nb s s' status headers ct resp_body.
Proof.
  intros Hq Hs. destruct (read_request_sent _ _ _ _ Hq) as (s1 & Er & Ho & Hl).
  unfold handle. rewrite Er, (rq_head _ _ _ _ Hq).
  destruct Hs as [sock tls h resp_body He Hp Ht Ha|sock p tls fp status headers resp_body He Hp Hfp Ht Ha];
    rewrite He; cbv zeta; rewrite Hp.
  - rewrite Ht. destruct (handle_h1_delivers s1 backend m elapsed head body nb tls h resp_body Hl Ha)
      as (s' & m' & p & -> & Hr & pieces & Hb & Hout).
    exists s', m', (Http1.headers p). split; [done|]. exists pieces. rewrite <-Ho. by rewrite <-(ra_content_type _ _ Hr).
  - destruct (handle_h2_delivers s1 backend m elapsed head body nb p sock tls fp status headers resp_body Hl Ht Hfp Ha)
      as (s' & m' & shown & ct & -> & _ & -> & pieces & Hb & Hout).
    exists s', m', shown. split; [done|]. exists pieces. by rewrite <-Ho.
Qed.

Lemma relayed_verifiable seed provider head body nb status ct ev pieces sig :
  let local := build_local_evidence_backend seed provider in
  let x := relayed_exchange head body status ct pieces in
  provable local head nb status ct ev ->
  (exists msg, sig = sk_sign (sk local) msg) ->
  verifiable local x (to_lowercase (host (upstream head))) (path_no_query (path (upstream head))) sig ev body (concat pieces).
Proof.
  cbv zeta. intros [_ Hst _ _ _ Htexts Hsig] [msg ->]. split; [exact Hst| |done|done|].
  - unfold wire_texts, relayed_exchange. cbn [x_head x_norm_method x_content_type].
    rewrite !Forall_cons_iff in Htexts |- *. intuition.
  - intros c Hc. apply collect_claims in Hc as (protocol & rq & rs & streaming & _ & Hb).
    split; [eapply plain_claims; [|exact Hb]; unfold u16_max; lia|].
    unfold build_field_claims_from_views in Hb.
    destruct (negb (has_required_presence protocol "request" rq)); [done|].
    destruct (negb (has_required_presence protocol "response" rs)); [done|]. cbv zeta in Hb.
    destruct (field_policy_version protocol) as [version|]; [|done]. by injection Hb as <-.
Qed.

Lemma relayed_accepted seed provider head body nb status ct ev pieces :
  let local := build_local_evidence_backend seed provider in
  let x := relayed_exchange head body status ct pieces in
  let norm_host := to_lowercase (host (upstream head)) in
  let norm_path := path_no_query (path (upstream head)) in
  provable local head nb status ct ev ->
  accepted head body ct (concat pieces)
    (local_trailer local x norm_host norm_path (sk_sign (sk local) (exchange_statement x norm_host norm_path)) ev).
Proof.
  cbv zeta. intros Hp. set (local := build_local_evidence_backend seed provider) in *.
  set (x := relayed_exchange head body status ct pieces).
  set (sig := sk_sign (sk local) _).
  pose proof (relayed_verifiable seed provider head body nb status ct ev pieces sig Hp
    (ex_intro _ _ eq_refl)) as Hv.
  refine (signed_accepted (sk_from_bytes seed) head body ct status pieces _ _ _ _ _ _).
  - by eapply verifyWireEnvelope_trailer.
  - apply wire_of_trailer.
  - pose proof (pv_status _ _ _ _ _ _ Hp). unfold u16_max. lia.
  - apply Hp.
  - apply Hp.
Qed.

(** The fields of a statement that a relay can have made read back. *)
Lemma relayed_fields `{UCL : !UnicodeCaseLaws} `{BL : !Base64Laws} head body nb ct status pieces :
  check_head head = Ok nb -> no_crlf ct = true -> (0 <= status)%Z ->
  statement_fields (nonce head) (to_lowercase (host (upstream head))) (path_no_query (path (upstream head)))
    (to_uppercase (method (upstream head))) status ct (sha256_hex body) (sha256_hex (concat pieces)).
Proof.
  intros (Hn & Hh & Hm & Hp & _ & _)%check_head_ok Hct Hst. rewrite no_crlf_spec in Hh, Hm, Hp, Hct.
  split; try apply hex_no_newline; try lia.
  - by eapply b64_no_byte.
  - intros Hin. apply to_lowercase_lf, to_lowercase_lf in Hin. tauto.
  - intros Hin%path_no_query_In. tauto.
  - intros Hin. apply to_uppercase_lf, to_uppercase_lf in Hin. tauto.
  - tauto.
Qed.

(** * Properties *)

(** C1. The whole way: when the client sends a request the enclave takes, the
    upstream answers it in full over HTTP/1.1 or HTTP/2 (with a legal
    fingerprint), and a proof can be made of the exchange ([provable]: the device
    attests, the status is one of 100 to 599, host and method are ASCII, the
    texts are within the verifier's limit), [handle] succeeds; the client has the
    response head, the whole body and one trailer; and [verifyTeeExchange], given
    the nonce, the host and the response of the client, with its request or
    without, accepts that trailer, once the evidence passes.  Without field
    claims it accepts no other response and no other request, byte for byte,
    unless SHA-256 has a collision, and nothing when claims are required.  With
    field claims the digests of the bodies are advisory: it accepts the exchange
    when the bodies are ones both sides read alike ([recomputable]), and then
    another response or request only when its fields are the same, up to a
    collision. *)
Theorem proof_end_to_end s seed provider m elapsed head body nb status ct resp_body ev :
  let local := build_local_evidence_backend seed provider in
  requested s head body nb -> serves head body status ct resp_body -> provable local head nb status ct ev ->
  exists s' m' headers pieces t,
    handle s (LocalEvidence local) m elapsed = (s', m', Ok tt)
    /\ outbox s' = outbox s ++ frame RESP_HEAD (to_string (resp_head_json status headers))
         ++ concat (map (frame RESP_CHUNK) pieces) ++ frame RESP_TRAILER (to_string t)
    /\ concat pieces = resp_body /\ accepted head body ct resp_body t.
Proof.
  cbv zeta. intros Hq Hs Hp.
  destruct (serves_delivers s (LocalEvidence (build_local_evidence_backend seed provider)) m elapsed head body nb status ct
    resp_body Hq Hs) as (s' & m' & headers & E & pieces & <- & Hout).
  unfold trailer_payload in Hout. rewrite (pv_evidence _ _ _ _ _ _ Hp) in Hout.
  change (x_content_type (relayed_exchange head body status ct pieces)) with ct in Hout.
  rewrite (pv_content_type _ _ _ _ _ _ Hp) in Hout. cbn [negb] in Hout.
  eexists s', m', headers, pieces, _. split; [exact E|]. split; [exact Hout|]. split; [done|].
  by apply (relayed_accepted seed provider head body nb status ct ev pieces).
Qed.

(** C3. A locally attested connection can be checked, whoever the parties are:
    the trailer of a successful [handle] either says that there is no proof, or
    it has the claims of the bytes relayed, and passes the signature check of
    the verifier on the bytes relayed, over the statement the enclave signed,
    all fields of which can be read back.  The check passes on other bytes only
    in the advisory mode the verifier uses when there are claims, where it
    passes on all, or when SHA-256 has a collision. *)
Theorem handle_trailer_verifies `{UCL : !UnicodeCaseLaws} `{BL : !Base64Laws} s seed provider m elapsed s' m' :
  (forall config sni sock, h2_status_typed (h2_peer (rustls_stream config sni sock))) ->
  handle s (LocalEvidence (build_local_evidence_backend seed provider)) m elapsed = (s', m', Ok tt) ->
  exists s1 head body nonce_bytes status headers ct pieces t,
    read_request s = (s1, Ok (head, body)) /\ check_head head = Ok nonce_bytes
    /\ outbox s' = outbox s ++ frame RESP_HEAD (to_string (resp_head_json status headers))
         ++ concat (map (frame RESP_CHUNK) pieces) ++ frame RESP_TRAILER (to_string t)
    /\ (value_get "attested" t = Some (Bool false)
        \/ exists w, wire_of t = Some w
           /\ w_field_claims w = collect head body ct (to_uppercase (method (upstream head))) status pieces
           /\ (forall mode, verifySignatureCheck w (concat pieces) mode = true)
           /\ (forall b, verifySignatureCheck w b true = true)
           /\ (forall b, verifySignatureCheck w b false = true -> b = concat pieces \/ sha_collision b (concat pieces))
           /\ let norm_host := to_lowercase (host (upstream head)) in
              let norm_path := path_no_query (path (upstream head)) in
              let norm_method := to_uppercase (method (upstream head)) in
                buildV2Statement (mkFields (w_nonce w) (w_upstream_host w) (w_upstream_path w) (w_http_method w)
                    (w_http_status w) (w_resp_content_type w) (w_request_body_sha256 w) (w_response_body_sha256 w)
                    (w_field_claims w))
                  = build_v2_statement (nonce head) norm_host norm_path norm_method status ct (sha256_hex body)
                      (sha256_hex (concat pieces)) (w_field_claims w)
                /\ statement_fields (nonce head) norm_host norm_path norm_method status ct (sha256_hex body)
                     (sha256_hex (concat pieces))).
Proof.
  intros Hty H. apply handle_transcript in H as [H _]; [|done].
  destruct (H eq_refl) as (s1 & head & body & nb & status & ct & pieces & Hr & Hk & Hst & headers & Ho).
  set (x := relayed_exchange head body status ct pieces) in *.
  exists s1, head, body, nb, status, headers, ct, pieces. unfold relayed, chunk_frames in Ho. rewrite <-!app_assoc in Ho.
  unfold trailer_payload in Ho. change (x_content_type x) with ct in Ho. destruct (no_crlf ct) eqn:Hct; cbn [negb] in Ho.
  2:{ eexists. split; [done|]. split; [done|]. split; [exact Ho|]. left. reflexivity. }
  destruct (attest _ _ _) as [ev|e]; [|eexists; split; [done|]; split; [done|]; split; [exact Ho|left; reflexivity]].
  eexists. split; [done|]. split; [done|]. split; [exact Ho|]. right. eexists. split; [apply wire_of_trailer|].
  split; [done|].
  pose proof (signed_check (sk_from_bytes seed) head body status ct pieces (to_lowercase (host (upstream head)))
    (path_no_query (path (upstream head)))) as K.
  split; [|split; [|split]].
  - intros mode. etransitivity; [by apply K|]. unfold eqs. by rewrite bool_decide_true.
  - intros b. etransitivity; [by apply K|]. apply orb_true_r.
  - intros b E. eapply (signed_body (sk_from_bytes seed)) in E as [?|?]; done.
  - cbv zeta. split; [|apply (relayed_fields head body nb); [done|done|lia]].
    apply buildV2Statement_agrees; [done|]. intros c. exact (collect_plain _ _ _ _ _ _ c Hst).
Qed.
End EndToEnd.

(** * Witnesses *)

Section Witness.
#[local] Existing Instance quiet_env.
#[local] Existing Instance sample_req_head.
#[local] Existing Instance no_helper_json.
#[local] Existing Instance no_unix.
#[local] Existing Instance Transcript.sample_sockets.
#[local] Existing Instance Transcript.sample_http.
#[local] Instance plain_tls : TlsLibraries := sample_tls upstream_script.

Definition sample_local : LocalEvidenceBackend := build_local_evidence_backend ("seed" : bytes) sample_provider.

Definition sample_document : Evidence := mkEvidence "qingtian" "doc:nonce" None None [].

(** A digest of 32 bytes takes 44 symbols. *)
Lemma encoded_digest (d : bytes) : length d = 32 -> zlen (rfc_encode d) = 44%Z.
Proof. intros H. do 32 (destruct d as [|? d]; [done|]). destruct d; [reflexivity|done]. Qed.

Lemma sample_provable : provable sample_local plain_request "nonce" 200 "text/plain" sample_document.
Proof.
  split; [reflexivity|lia|reflexivity|reflexivity|reflexivity| |].
  - repeat (constructor; [apply (bool_decide_unpack _); vm_compute; exact I|]). constructor.
  - intros msg. change (zlen (rfc_encode (sha_digest (sha_digest ("seed" : bytes) ++ msg))) <= MAX_PROOF_STRING_BYTES)%Z.
    rewrite encoded_digest by apply sha_length. unfold MAX_PROOF_STRING_BYTES. lia.
Qed.

Lemma sample_serves : serves plain_request "ping" 200 "text/plain" "hello world".
Proof.
  exact (serves_http1 plain_request "ping" (DirectVsock (tt : @Socket Transcript.sample_sockets)) (mkTls upstream_script [] [])
    chunked_head "hello world" eq_refl eq_refl eq_refl upstream_answers).
Qed.

(** The evidence of the samples: the document holds the nonce of the proof. *)
#[local] Instance sample_evidence_verifiers : EvidenceVerifiers := fun profile =>
  if eqs profile "qingtian" then
    Some (fun proof =>
      match stringField proof "nonce", stringField proof "attestation" with
      | Some n, Some d => eqs (buffer_from_base64 d) ("doc:" ++ buffer_from_base64 n)
      | _, _ => false
      end)
  else None.

(** The verifier run on the trailer of the sample: accepted on the response
    delivered, refused on another one. *)
Definition sample_trailer : value number :=
  let x := relayed_exchange plain_request "ping" 200 "text/plain" ["hello world"] in
  local_trailer sample_local x "api.example.com" "/v1/x"
    (sk_sign (sk sample_local) (exchange_statement x "api.example.com" "/v1/x")) sample_document.

Example sample_accepted :
  map (verdict plain_request sample_trailer None false (Some ("ping" : bytes))) ["hello world"; "hello world!"] = [true; false].
Proof. vm_compute. reflexivity. Qed.

Lemma proof_end_to_end_witness :
  exists s' m' headers pieces t,
    handle sample_control (LocalEvidence sample_local) metrics_default 1000 = (s', m', Ok tt)
    /\ outbox s' = outbox sample_control ++ frame RESP_HEAD (to_string (resp_head_json 200 headers))
         ++ concat (map (frame RESP_CHUNK) pieces) ++ frame RESP_TRAILER (to_string t)
    /\ concat pieces = "hello world" /\ accepted plain_request "ping" "text/plain" "hello world" t.
Proof.
  exact (proof_end_to_end sample_control ("seed" : bytes) sample_provider metrics_default 1000 plain_request "ping" "nonce"
    200 "text/plain" "hello world" sample_document plain_requested sample_serves sample_provable).
Defined.

Lemma handle_trailer_verifies_witness :
  exists s' m' s1 head body nb status headers ct pieces t,
    sample_handle upstream_script = (s', m', Ok tt)
    /\ read_request sample_control = (s1, Ok (head, body)) /\ check_head head = Ok nb
    /\ outbox s' = [] ++ frame RESP_HEAD (to_string (resp_head_json status headers))
         ++ concat (map (frame RESP_CHUNK) pieces) ++ frame RESP_TRAILER (to_string t)
    /\ (value_get "attested" t = Some (Bool false)
        \/ exists w, wire_of t = Some w /\ w_field_claims w = collect head body ct (to_uppercase (method (upstream head))) status pieces
           /\ forall mode, verifySignatureCheck w (concat pieces) mode = true).
Proof.
  destruct (sample_handle upstream_script) as [[s' m'] r] eqn:E.
  assert (Hr : r = Ok tt) by (pose proof sample_handle_ok as H; rewrite E in H; exact H).
  rewrite Hr in *.
  destruct (handle_trailer_verifies _ _ _ _ _ _ _ (sample_typed upstream_script) E)
    as (s1 & head & body & nb & status & headers & ct & pieces & t & Hr1 & Hk & Ho & Ht).
  exists s', m', s1, head, body, nb, status, headers, ct, pieces, t. split; [reflexivity|]. split; [exact Hr1|].
  split; [exact Hk|]. split; [exact Ho|]. destruct Ht as [Ht|(w & H1 & H2 & H3 & _)]; [left; exact Ht|right]. exists w. exact (conj H1 (conj H2 H3)).
Defined.
End Witness.
