(* ===== verification/GoJson.v ===== *)
(** JSON as Go writes it ([aliyun-enclave/internal/proof], Go): the text
    [encoding/json] gives strings, with and without its HTML escapes,
    [CanonicalJSON] and [FieldClaimsSHA256Hex], and where they agree with
    [canonical_json] of the enclave. *)

From S2P Require Import Prelude RustStr BTree Json Digest Sample.
Local Open Scope bytes_scope.

(** * Strings of [encoding/json] *)

(** A text cut into what is escaped as one: the line and paragraph separators
    U+2028 and U+2029, and single bytes. *)
Inductive json_unit :=
  | LineSeparator
  | ParagraphSeparator
  | OneByte (b : byte).

#[export] Instance json_unit_eq_dec : EqDecision json_unit.
Proof. solve_decision. Defined.

Fixpoint json_units (s : bytes) : list json_unit :=
  match s with
  | [] => []
  | b :: t =>
      match t with
      | b1 :: b2 :: t2 =>
          if eqs [b; b1; b2] [Byte.xe2; Byte.x80; Byte.xa8] then LineSeparator :: json_units t2
          else if eqs [b; b1; b2] [Byte.xe2; Byte.x80; Byte.xa9] then ParagraphSeparator :: json_units t2
          else OneByte b :: json_units t
      | _ => OneByte b :: json_units t
      end
  end.

Definition unit_source (u : json_unit) : bytes :=
  match u with
  | LineSeparator => [Byte.xe2; Byte.x80; Byte.xa8]
  | ParagraphSeparator => [Byte.xe2; Byte.x80; Byte.xa9]
  | OneByte b => [b]
  end.

(** [<], [>] and [&]: escaped unless [SetEscapeHTML(false)]. *)
Definition is_html (b : byte) : bool := bool_decide (In b ("<>&" : bytes)).

Definition unit_text (html : bool) (u : json_unit) : bytes :=
  match u with
  | LineSeparator => "\u2028"
  | ParagraphSeparator => "\u2029"
  | OneByte b => if html && is_html b then "\u00" ++ hex_byte b else escape_byte b
  end.

(** The text of a string.  ([encoding/json] writes U+FFFD for bytes that are not
    UTF-8; the strings of the helper come from [json.Unmarshal], which leaves
    none.) *)
Definition go_string (html : bool) (s : bytes) : bytes :=
  [Byte.x22] ++ concat (map (unit_text html) (json_units s)) ++ [Byte.x22].

(** [json.Marshal] of a string, and [quoteJSONString]. *)
Definition json_marshal_string : bytes -> bytes := go_string true.
Definition quoteJSONString : bytes -> bytes := go_string false.

(** A text Go writes like [serde_json]. *)
Definition same_unit (html : bool) (u : json_unit) : bool :=
  match u with OneByte b => negb (html && is_html b) | _ => false end.
Definition same_text (html : bool) (s : bytes) : bool := forallb (same_unit html) (json_units s).

(** * Values *)

(** What [encoding/json] does with JSON it has not been given a type for:
    [json.Unmarshal] into an [any], and the text [json.Marshal] gives the
    [float64] a number is read as. *)
Class GoJson `{SerdeJson} := {
  json_unmarshal : bytes -> result (value number) bytes;
  json_marshal_float : number -> bytes;
}.

(** [serde_json]'s strings have the short escapes and no others, and integers
    a [float64] holds exactly are written in decimal by both sides. *)
Class GoJsonLaws `{GoJson} : Prop := {
  quote_escapes s : quote s = [Byte.x22] ++ concat (map escape_byte s) ++ [Byte.x22];
  json_marshal_float_int z : (0 <= z < 2 ^ 53)%Z -> json_marshal_float (number_from_i64 z) = show_Z z;
  serde_number_int z : (0 <= z < 2 ^ 53)%Z -> number_to_string (number_from_i64 z) = show_Z z;
}.

Section Canonical.
Context `{SJ : SerdeJson} `{GJ : !GoJson}.
Abbreviation json := (value number).

(** [writeCanonicalJSON]: a [map[string]any] has its keys sorted by their
    bytes; every value [json.Unmarshal] makes is of a supported type. *)
Fixpoint writeCanonicalJSON (v : json) : bytes :=
  match v with
  | Null => "null"
  | Bool b => if b then "true" else "false"
  | Number n => json_marshal_float n
  | Str s => json_marshal_string s
  | Array items => "[" ++ join "," (map writeCanonicalJSON items) ++ "]"
  | Object m =>
      let texts := map (fun kv => (kv.1, writeCanonicalJSON kv.2)) m in
      let keys := sort_keys (map fst m) in
      "{" ++ join "," (map (fun k => json_marshal_string k ++ ":" ++ default [] (bget k texts)) keys) ++ "}"
  end.

Definition CanonicalJSON (v : json) : bytes := writeCanonicalJSON v.

(** A raw message that is not there is empty. *)
Definition FieldClaimsSHA256Hex `{Sha256} (raw : bytes) : result bytes bytes :=
  match raw with
  | [] => Ok []
  | _ =>
      let? value := map_err (fun e => "field_claims JSON: " ++ e) (json_unmarshal raw) in
      Ok (sha256_hex (CanonicalJSON value))
  end.

(** * Agreement with the enclave *)

(** Every number of a value is written alike. *)
Fixpoint same_numbers (v : json) : Prop :=
  match v with
  | Number n => json_marshal_float n = number_to_string n
  | Array l => foldr (fun v P => same_numbers v /\ P) True l
  | Object m => foldr (fun kv P => same_numbers kv.2 /\ P) True m
  | _ => True
  end.

(** Every string is, the keys of objects included. *)
Fixpoint same_texts (v : json) : bool :=
  match v with
  | Str s => same_text true s
  | Array l => forallb same_texts l
  | Object m => forallb (fun kv => same_text true kv.1 && same_texts kv.2) m
  | _ => true
  end.

Lemma same_numbers_object m : Forall (fun kv => same_numbers kv.2) m -> same_numbers (Object m).
Proof. intros H. induction H; [done|]. by split. Qed.

Lemma json_units_source s : concat (map unit_source (json_units s)) = s.
Proof.
  induction s as [s IH] using list_length_ind. destruct s as [|b t]; [done|]. cbn [json_units].
  assert (D : b :: concat (map unit_source (json_units t)) = b :: t) by (f_equal; apply IH; cbn; lia).
  destruct t as [|b1 [|b2 t2]]; [done|exact D|]. unfold eqs.
  case_bool_decide as E1; [|case_bool_decide as E2]; [| |exact D].
  - injection E1 as -> -> ->. cbn [map concat unit_source]. rewrite IH by (cbn; lia). done.
  - injection E2 as -> -> ->. cbn [map concat unit_source]. rewrite IH by (cbn; lia). done.
Qed.

Lemma quote_units `{GL : !GoJsonLaws} s :
  quote s = [Byte.x22] ++ concat (map (fun u => concat (map escape_byte (unit_source u))) (json_units s)) ++ [Byte.x22].
Proof.
  rewrite quote_escapes. do 2 f_equal. rewrite <-(json_units_source s) at 1.
  induction (json_units s) as [|u us IH]; [done|]. cbn [map concat]. by rewrite map_app, concat_app, IH.
Qed.

(** What Go escapes and [serde_json] does not is longer. *)
Lemma unit_longer html u :
  if same_unit html u then unit_text html u = concat (map escape_byte (unit_source u))
  else length (concat (map escape_byte (unit_source u))) < length (unit_text html u).
Proof.
  destruct u as [| |b]; [cbn; lia..|]. cbn [same_unit unit_text unit_source map concat]. rewrite app_nil_r.
  destruct html; [|done]. cbn [andb]. unfold is_html. case_bool_decide as Hb; [|done]. cbn [negb].
  cbn in Hb. destruct Hb as [<-|[<-|[<-|[]]]]; cbn; lia.
Qed.

Lemma string_longer `{GL : !GoJsonLaws} html s :
  if same_text html s then go_string html s = quote s else length (quote s) < length (go_string html s).
Proof.
  rewrite quote_units. unfold go_string, same_text.
  enough (G : if forallb (same_unit html) (json_units s)
    then concat (map (unit_text html) (json_units s)) = concat (map (fun u => concat (map escape_byte (unit_source u))) (json_units s))
    else length (concat (map (fun u => concat (map escape_byte (unit_source u))) (json_units s)))
      < length (concat (map (unit_text html) (json_units s)))).
  { destruct (forallb _ _); [by rewrite G|]. rewrite !length_app. lia. }
  induction (json_units s) as [|u us IH]; [done|]. cbn [forallb map concat]. rewrite !length_app.
  pose proof (unit_longer html u) as Hu. destruct (same_unit html u), (forallb _ us); cbn [andb];
    rewrite ?Hu, ?IH; (done || lia).
Qed.

(** Joined texts, compared part by part. *)
Lemma join_longer {A} (sep : bytes) (f g : A -> bytes) (same : A -> bool) l :
  (forall a, In a l -> if same a then f a = g a else length (g a) < length (f a)) ->
  if forallb same l then join sep (map f l) = join sep (map g l)
  else length (join sep (map g l)) < length (join sep (map f l)).
Proof.
  induction l as [|a [|a' l] IH]; intros Hl; [done| |].
  - cbn [forallb map join]. rewrite andb_true_r. apply Hl. by left.
  - specialize (IH (fun b Hb => Hl b (or_intror Hb))). pose proof (Hl a (or_introl eq_refl)) as Ha.
    change (forallb same (a :: a' :: l)) with (same a && forallb same (a' :: l)).
    change (join sep (map f (a :: a' :: l))) with (f a ++ sep ++ join sep (map f (a' :: l))).
    change (join sep (map g (a :: a' :: l))) with (g a ++ sep ++ join sep (map g (a' :: l))).
    rewrite !length_app. destruct (same a), (forallb same (a' :: l)); cbn [andb]; rewrite ?Ha, ?IH; (done || lia).
Qed.

Lemma CanonicalJSON_object m :
  sorted m ->
  CanonicalJSON (Object m)
    = "{" ++ join "," (map (fun kv => json_marshal_string kv.1 ++ ":" ++ CanonicalJSON kv.2) m) ++ "}".
Proof.
  intros Hs. unfold CanonicalJSON. cbn [writeCanonicalJSON]. rewrite sort_keys_sorted, map_map by done.
  do 3 f_equal. apply map_ext_in. intros [k v] Hin. cbn [fst snd]. do 3 f_equal.
  by rewrite bget_map_snd, (bget_In _ _ _ Hs Hin).
Qed.

(** The canonical texts of the two sides are the same exactly when the strings
    are; otherwise Go's is longer. *)
Lemma canonical_longer `{GL : !GoJsonLaws} v :
  wf_value v -> same_numbers v ->
  if same_texts v then CanonicalJSON v = canonical_json v
  else length (canonical_json v) < length (CanonicalJSON v).
Proof.
  induction v as [|b|n|s|l IH|m IH] using value_ind'; intros Hw Hn; inversion Hw; subst; try done.
  - apply string_longer.
  - assert (G : forall v, In v l -> if same_texts v then CanonicalJSON v = canonical_json v
      else length (canonical_json v) < length (CanonicalJSON v)).
    { cbn [same_numbers] in Hn. rewrite Forall_forall in *. intros v Hv. apply IH; [done|auto|].
      clear -Hn Hv. induction l as [|w l IHl]; [done|]. destruct Hn as [Hw Hn], Hv as [->|Hv]; auto. }
    apply (join_longer "," CanonicalJSON canonical_json same_texts) in G. cbn [same_texts].
    change (map CanonicalJSON l) with (map writeCanonicalJSON l) in G. unfold CanonicalJSON.
    cbn [writeCanonicalJSON canonical_json]. destruct (forallb same_texts l); [by rewrite G|]. rewrite !length_app. lia.
  - rewrite CanonicalJSON_object, canonical_json_object by done. cbn [same_texts].
    change (map canonical_member m) with (map (fun kv => quote kv.1 ++ ":" ++ canonical_json kv.2) m).
    assert (G : forall kv, In kv m -> if same_text true kv.1 && same_texts kv.2
      then json_marshal_string kv.1 ++ ":" ++ CanonicalJSON kv.2 = quote kv.1 ++ ":" ++ canonical_json kv.2
      else length (quote kv.1 ++ ":" ++ canonical_json kv.2) < length (json_marshal_string kv.1 ++ ":" ++ CanonicalJSON kv.2)).
    { cbn [same_numbers] in Hn. rewrite Forall_forall in *. intros kv Hv.
      pose proof (string_longer true kv.1) as Hk. fold (json_marshal_string kv.1) in Hk.
      assert (Hv2 : if same_texts kv.2 then CanonicalJSON kv.2 = canonical_json kv.2
        else length (canonical_json kv.2) < length (CanonicalJSON kv.2)).
      { apply IH; [done|auto|]. clear -Hn Hv. induction m as [|w m IHm]; [done|]. destruct Hn as [Hw Hn], Hv as [->|Hv]; auto. }
      destruct (same_text true kv.1), (same_texts kv.2); cbn [andb]; rewrite ?length_app;
        [by rewrite Hk, Hv2|rewrite Hk; lia|rewrite Hv2; lia|lia]. }
    apply (join_longer ",") in G. destruct (forallb _ m); [by rewrite G|]. rewrite !length_app. lia.
Qed.
End Canonical.

(** * Samples *)

(** [encoding/json] on the JSON of integers. *)
#[export] Instance SampleGoJson : GoJson := {|
  json_unmarshal s := match sample_from_str s with Some v => Ok v | None => Err "invalid character" end;
  json_marshal_float := show_int |}.

#[export] Instance SampleGoJsonLaws : GoJsonLaws.
Proof.
  assert (E : forall z, (0 <= z < 2 ^ 53)%Z -> show_int z = show_Z z)
    by (intros z Hz; unfold show_int; by rewrite (proj2 (Z.ltb_ge _ _)) by lia).
  by split.
Qed.

(** Keys are sorted, and the HTML escapes made. *)
Example canonical_sorts :
  CanonicalJSON (Object [("a", Array [Null; Bool true]); ("b", Str "<&")])
    = js "{'a':[null,true],'b':'\u003c\u0026'}".
Proof. vm_compute. reflexivity. Qed.
