(* ===== verification/AliyunProof.v ===== *)
(** The proof generator of the Aliyun helper
    ([aliyun-enclave/internal/proof], Go): the checks of the input, the
    statement, the challenge a vTPM quote is made for, and
    [GenerateFromHashes].

    Strings, integers and base64 are those of Go's standard library; what of it
    is a table or depends on the run is a parameter ([GoLib]). *)

From S2P Require Import Prelude RustStr BTree Json Digest Paths Base64 Sample Trailer GoJson.
Local Open Scope bytes_scope.

Definition SigningDomainV2 : bytes := "tee-exchange-v2".

(** * The standard library *)

Class GoLib := {
  (** [strings.ToLower] and [strings.ToUpper] beyond ASCII. *)
  go_unicode_lower : bytes -> bytes;
  go_unicode_upper : bytes -> bytes;
  (** [base64.StdEncoding.DecodeString], with the text of its error. *)
  go_base64_decode : bytes -> result bytes bytes;
  (** The text of the error of [hex.DecodeString]. *)
  hex_error : bytes -> bytes;
  (** The order in which [range] goes through a map. *)
  map_range : list (bytes * bytes) -> list (bytes * bytes);
  (** What [json.Marshal] writes of a raw message: compacted, with the HTML
      escapes; an error when it is not JSON. *)
  json_compact : bytes -> result bytes bytes;
}.

(** [range] visits every entry once, and Go's decoder takes what the strict one
    of the enclave does. *)
Class GoLibLaws `{GoLib} `{Base64} : Prop := {
  map_range_perm l : map_range l ≡ₚ l;
  go_base64_decode_strict s b : b64_decode s = Ok b -> go_base64_decode s = Ok b;
}.

Definition ToLower `{GoLib} (s : bytes) : bytes := if is_ascii s then to_ascii_lowercase s else go_unicode_lower s.
Definition ToUpper `{GoLib} (s : bytes) : bytes := if is_ascii s then to_ascii_uppercase s else go_unicode_upper s.

(** [fmt.Sprintf("%d", n)]. *)
Definition format_int (n : Z) : bytes := show_int n.

Definition hex_value (b : byte) : option Z :=
  if is_digit b then Some (bv b - 48)%Z
  else if in_range 97 102 b then Some (bv b - 87)%Z
  else if in_range 65 70 b then Some (bv b - 55)%Z
  else None.

(** [hex.DecodeString]. *)
Fixpoint hex_decode (s : bytes) : option bytes :=
  match s with
  | [] => Some []
  | a :: b :: s => x ← hex_value a; y ← hex_value b; r ← hex_decode s; Some (byte_of_Z (16 * x + y) :: r)
  | _ => None
  end.

(** * The input *)

(** A raw message that is not there is empty. *)
Record GenerateHashedInput := mkInput {
  in_NonceB64 : bytes;
  in_UpstreamHost : bytes;
  in_UpstreamPath : bytes;
  in_HTTPMethod : bytes;
  in_HTTPStatus : Z;
  in_ResponseContentType : bytes;
  in_RequestBodySHA256Hex : bytes;
  in_ResponseBodySHA256Hex : bytes;
  in_FieldClaims : bytes;
}.

Section Checks.
Context `{GO : GoLib}.

(** The first entry in the order of [range] that [bad] refuses. *)
Definition refuse_first (bad : bytes -> bool) (message : bytes -> bytes) (entries : list (bytes * bytes))
    : result unit bytes :=
  match List.find (fun kv => bad kv.2) (map_range entries) with
  | Some kv => Err (message kv.1)
  | None => Ok tt
  end.

Definition required_fields (i : GenerateHashedInput) : list (bytes * bytes) := [
  ("nonce_b64", in_NonceB64 i);
  ("upstream_host", in_UpstreamHost i);
  ("upstream_path", in_UpstreamPath i);
  ("http_method", in_HTTPMethod i);
  ("resp_content_type", in_ResponseContentType i)].

Definition ValidateRequiredFields (i : GenerateHashedInput) : result unit bytes :=
  refuse_first (fun v => eqs (trim v) []) (fun name => name ++ " is required") (required_fields i).

Definition ValidateNoCRLF (values : list (bytes * bytes)) : result unit bytes :=
  refuse_first (fun v => negb (no_crlf v)) (fun name => name ++ " contains CR/LF") values.

Definition normalizeSHA256Hex (value label : bytes) : result bytes bytes :=
  let normalized := ToLower (trim value) in
  if negb (length normalized =? 64)%nat then Err (label ++ " must be 64 lowercase/uppercase hex characters")
  else match hex_decode normalized with
       | Some _ => Ok normalized
       | None => Err (label ++ " must be hex: " ++ hex_error normalized)
       end.
End Checks.

(** * The statement *)

Definition PathWithoutQuery (path : bytes) : bytes :=
  match find_byte path Byte.x3f with
  | Some i => take i path
  | None => path
  end.

Record StatementFacts := mkStatementFacts {
  sf_NonceB64 : bytes;
  sf_UpstreamHost : bytes;
  sf_UpstreamPath : bytes;
  sf_HTTPMethod : bytes;
  sf_HTTPStatus : Z;
  sf_ResponseContentType : bytes;
  sf_RequestBodySHA256Hex : bytes;
  sf_ResponseBodySHA256Hex : bytes;
  sf_FieldClaims : bytes;
}.

Record ChallengeFacts := mkChallengeFacts {
  cf_Profile : bytes;
  cf_NonceB64 : bytes;
  cf_StatementPublicKeySHA256 : bytes;
  cf_RequestBodySHA256Hex : bytes;
  cf_ResponseBodySHA256Hex : bytes;
  cf_UpstreamHost : bytes;
  cf_UpstreamPath : bytes;
  cf_HTTPMethod : bytes;
  cf_HTTPStatus : Z;
  cf_ResponseContentType : bytes;
  cf_FieldClaims : bytes;
}.

(** * Evidence *)

Record QuoteReport := mkQuote {
  Quoted : bytes;
  Signature : bytes;
  Cert : bytes;
  PCRValues : bytes;
  PCRSelectionOut : bytes;
  PCRUpdateCounter : Z;
}.

Record AttesterMetadata := mkMetadata {
  SDK : bytes;
  SDKCommit : bytes;
  QuoteHandle : bytes;
}.

(** The [Attester] interface: a quote over qualifying data. *)
Record Attester := mkAttester {
  GetQuote : bytes -> result (QuoteReport * AttesterMetadata) bytes;
}.

Section Proof.
Context `{SJ : SerdeJson} `{GJ : !GoJson} `{SH : Sha256} `{B64 : Base64} `{ED : Ed25519} `{GO : GoLib}.
Abbreviation json := (value number).

Definition BuildV2Statement (f : StatementFacts) : bytes :=
  let lines := [
    SigningDomainV2;
    "nonce=" ++ sf_NonceB64 f;
    "upstream-host=" ++ ToLower (sf_UpstreamHost f);
    "upstream-path=" ++ PathWithoutQuery (sf_UpstreamPath f);
    "http-method=" ++ ToUpper (sf_HTTPMethod f);
    "http-status=" ++ format_int (sf_HTTPStatus f);
    "resp-content-type=" ++ sf_ResponseContentType f;
    "request-body-sha256=" ++ ToLower (sf_RequestBodySHA256Hex f);
    "response-body-sha256=" ++ ToLower (sf_ResponseBodySHA256Hex f)] in
  let lines := match FieldClaimsSHA256Hex (sf_FieldClaims f) with
               | Ok (b :: t) => lines ++ ["field-claims-sha256=" ++ b :: t]
               | _ => lines
               end in
  join [Byte.x0a] lines ++ [Byte.x0a].

Definition writeJSONPair (key value : bytes) (with_leading_comma : bool) : bytes :=
  (if with_leading_comma then "," else []) ++ quoteJSONString key ++ ":" ++ quoteJSONString value.

Definition BuildAliyunVTPMChallengePayload (f : ChallengeFacts) : result bytes bytes :=
  let has_field_claims := match cf_FieldClaims f with [] => false | _ => true end in
  let? buf :=
    if has_field_claims then
      let? h := FieldClaimsSHA256Hex (cf_FieldClaims f) in
      Ok ("{" ++ writeJSONPair "field_claims_sha256" h false)
    else Ok "{" in
  Ok (buf ++ writeJSONPair "http_method" (cf_HTTPMethod f) has_field_claims
    ++ "," ++ [Byte.x22] ++ "http_status" ++ [Byte.x22] ++ ":" ++ format_int (cf_HTTPStatus f)
    ++ writeJSONPair "nonce" (cf_NonceB64 f) true
    ++ writeJSONPair "profile" (cf_Profile f) true
    ++ writeJSONPair "request_body_sha256" (cf_RequestBodySHA256Hex f) true
    ++ writeJSONPair "resp_content_type" (cf_ResponseContentType f) true
    ++ writeJSONPair "response_body_sha256" (cf_ResponseBodySHA256Hex f) true
    ++ writeJSONPair "statement_public_key_sha256" (cf_StatementPublicKeySHA256 f) true
    ++ writeJSONPair "upstream_host" (cf_UpstreamHost f) true
    ++ writeJSONPair "upstream_path" (cf_UpstreamPath f) true ++ "}").

Definition QualifyingData (payload : bytes) : bytes := sha_digest payload.

Record ChallengeEnvelope := mkChallenge {
  ce_Algorithm : bytes;
  ce_PayloadB64 : bytes;
  ce_QualifyingDataHex : bytes;
}.

Definition ChallengeEnvelopeForPayload (payload : bytes) : ChallengeEnvelope :=
  mkChallenge "sha256" (b64_encode payload) (hex (QualifyingData payload)).

(** [json.Marshal] of a struct: its fields in their order. *)
Definition member_text (key text : bytes) : bytes := json_marshal_string key ++ ":" ++ text.
Definition struct_text (members : list (bytes * bytes)) : bytes :=
  "{" ++ join "," (map (fun kv => member_text kv.1 kv.2) members) ++ "}".
Definition string_text : bytes -> bytes := json_marshal_string.

(** The text of an [EvidenceEnvelope]: nil pointers are [null]. *)
Definition evidence_text (report : QuoteReport) (meta : AttesterMetadata) (challenge : ChallengeEnvelope) : bytes :=
  struct_text [
    ("profile", string_text "aliyun-vtpm"); ("version", format_int 1);
    ("attester", struct_text [
      ("sdk", string_text (SDK meta)); ("sdk_commit", string_text (SDKCommit meta));
      ("quote_handle", string_text (QuoteHandle meta))]);
    ("quote_report", struct_text [
      ("quoted_b64", string_text (b64_encode (Quoted report)));
      ("signature_b64", string_text (b64_encode (Signature report)));
      ("pcr_info", struct_text [
        ("pcr_values_b64", string_text (b64_encode (PCRValues report)));
        ("pcr_selection_out_b64", string_text (b64_encode (PCRSelectionOut report)));
        ("pcr_update_counter", format_int (PCRUpdateCounter report))]);
      ("cert_b64", string_text (b64_encode (Cert report)))]);
    ("challenge", struct_text [
      ("alg", string_text (ce_Algorithm challenge)); ("payload_b64", string_text (ce_PayloadB64 challenge));
      ("qualifying_data_hex", string_text (ce_QualifyingDataHex challenge))]);
    ("platform_attestation", struct_text [
      ("mode", string_text "missing"); ("cert_chain_pem", "[]"); ("trust_anchor_id", "null");
      ("revocation", struct_text [("checked", "false"); ("method", "null")])])].

(** * Proofs *)

(** [tp_Evidence] is the text of the envelope. *)
Record TeeProof := mkTeeProof {
  tp_Version : Z;
  tp_Profile : bytes;
  tp_Algorithm : bytes;
  tp_PublicKey : bytes;
  tp_Nonce : bytes;
  tp_UpstreamHost : bytes;
  tp_UpstreamPath : bytes;
  tp_HTTPMethod : bytes;
  tp_HTTPStatus : Z;
  tp_ResponseType : bytes;
  tp_RequestSHA256Hex : bytes;
  tp_ResponseSHA256Hex : bytes;
  tp_FieldClaims : bytes;
  tp_Signature : bytes;
  tp_Attestation : bytes;
  tp_Evidence : bytes;
}.

(** [json.Marshal] of a proof. *)
Definition marshal_proof (p : TeeProof) : result bytes bytes :=
  let? claims := match tp_FieldClaims p with
                 | [] => Ok []
                 | raw => let? text := json_compact raw in Ok [("field_claims", text)]
                 end in
  Ok (struct_text ([
    ("v", format_int (tp_Version p)); ("profile", string_text (tp_Profile p)); ("alg", string_text (tp_Algorithm p));
    ("public_key", string_text (tp_PublicKey p)); ("nonce", string_text (tp_Nonce p));
    ("upstream_host", string_text (tp_UpstreamHost p)); ("upstream_path", string_text (tp_UpstreamPath p));
    ("http_method", string_text (tp_HTTPMethod p)); ("http_status", format_int (tp_HTTPStatus p));
    ("resp_content_type", string_text (tp_ResponseType p));
    ("request_body_sha256", string_text (tp_RequestSHA256Hex p));
    ("response_body_sha256", string_text (tp_ResponseSHA256Hex p))]
    ++ claims ++ [
    ("signature", string_text (tp_Signature p)); ("attestation", string_text (tp_Attestation p));
    ("evidence", tp_Evidence p)])).

Record GenerateOptions := mkOptions {
  PrivateKey : option SigningKey;
  opt_Attester : option Attester;
}.

(** [generated] is what [ed25519.GenerateKey(rand.Reader)] gives. *)
Definition GenerateFromHashes (generated : result SigningKey bytes) (i : GenerateHashedInput) (opts : GenerateOptions)
    : result TeeProof bytes :=
  let? attester := ok_or (opt_Attester opts) "attester is required" in
  let? _ := ValidateRequiredFields i in
  let? _ := ValidateNoCRLF [
    ("nonce", in_NonceB64 i); ("upstream_host", in_UpstreamHost i); ("upstream_path", in_UpstreamPath i);
    ("http_method", in_HTTPMethod i); ("resp_content_type", in_ResponseContentType i)] in
  let? _ := map_err (fun e => "nonce must be base64: " ++ e) (go_base64_decode (in_NonceB64 i)) in
  let? request_hash := normalizeSHA256Hex (in_RequestBodySHA256Hex i) "request_body_sha256" in
  let? response_hash := normalizeSHA256Hex (in_ResponseBodySHA256Hex i) "response_body_sha256" in
  let? _ := FieldClaimsSHA256Hex (in_FieldClaims i) in
  let? private_key := match PrivateKey opts with
                      | Some k => Ok k
                      | None => map_err (fun e => "generate ed25519 key: " ++ e) generated
                      end in
  let spki := spki_prefix ++ verifying_key private_key in
  let? challenge_payload := BuildAliyunVTPMChallengePayload
    (mkChallengeFacts "aliyun-vtpm" (in_NonceB64 i) (hex (sha_digest spki)) request_hash response_hash
       (in_UpstreamHost i) (in_UpstreamPath i) (in_HTTPMethod i) (in_HTTPStatus i) (in_ResponseContentType i)
       (in_FieldClaims i)) in
  let challenge := ChallengeEnvelopeForPayload challenge_payload in
  let? qualifying_data := ok_or (hex_decode (ce_QualifyingDataHex challenge)) (hex_error (ce_QualifyingDataHex challenge)) in
  let? quote := map_err (fun e => "get vtpm quote: " ++ e) (GetQuote attester qualifying_data) in
  let evidence := evidence_text quote.1 quote.2 challenge in
  let statement := BuildV2Statement
    (mkStatementFacts (in_NonceB64 i) (in_UpstreamHost i) (in_UpstreamPath i) (in_HTTPMethod i) (in_HTTPStatus i)
       (in_ResponseContentType i) request_hash response_hash (in_FieldClaims i)) in
  Ok (mkTeeProof 2 "aliyun-vtpm" "ed25519" (b64_encode spki) (in_NonceB64 i) (in_UpstreamHost i) (in_UpstreamPath i)
        (in_HTTPMethod i) (in_HTTPStatus i) (in_ResponseContentType i) request_hash response_hash (in_FieldClaims i)
        (b64_encode (sk_sign private_key statement)) (b64_encode evidence) evidence).

Record GenerateInput := mkGenerateInput {
  gi_NonceB64 : bytes;
  gi_UpstreamHost : bytes;
  gi_UpstreamPath : bytes;
  gi_HTTPMethod : bytes;
  gi_HTTPStatus : Z;
  gi_ResponseContentType : bytes;
  gi_RequestBody : bytes;
  gi_ResponseBody : bytes;
  gi_FieldClaims : bytes;
}.

Definition Generate (generated : result SigningKey bytes) (i : GenerateInput) (opts : GenerateOptions) : result TeeProof bytes :=
  GenerateFromHashes generated
    (mkInput (gi_NonceB64 i) (gi_UpstreamHost i) (gi_UpstreamPath i) (gi_HTTPMethod i) (gi_HTTPStatus i)
       (gi_ResponseContentType i) (sha256_hex (gi_RequestBody i)) (sha256_hex (gi_ResponseBody i)) (gi_FieldClaims i)) opts.
End Proof.

(** * Lemmas *)

Lemma hex_value_digit n : (0 <= n < 16)%Z -> hex_value (hex_digit n) = Some n.
Proof.
  assert (T : forallb (fun m => bool_decide (hex_value (hex_digit m) = Some m)) (seqZ 0 16) = true)
    by (vm_compute; reflexivity).
  rewrite forallb_forall in T. intros Hn. apply (bool_decide_unpack _), Is_true_true, T.
  apply list_elem_of_In, elem_of_seqZ. lia.
Qed.

Lemma hex_decode_hex b : hex_decode (hex b) = Some b.
Proof.
  unfold hex. induction b as [|x b IH]; [done|].
  change (concat (map hex_byte (x :: b))) with (hex_digit (bv x / 16) :: hex_digit (bv x mod 16) :: concat (map hex_byte b)).
  pose proof (bv_range x). cbn [hex_decode]. rewrite !hex_value_digit, IH.
  - cbn. f_equal. f_equal. rewrite <-Z.div_mod by lia. apply byte_of_bv.
  - split; [apply Z.div_pos; lia|apply Z.div_lt_upper_bound; lia].
  - apply Z.mod_pos_bound. lia.
Qed.

(** Texts up to a separator they do not hold. *)
Lemma before_separator (c : byte) a b x y : ~ In c a -> ~ In c b -> a ++ c :: x = b ++ c :: y -> a = b /\ x = y.
Proof.
  revert b. induction a as [|d a IH]; intros [|e b] Ha Hb E; cbn in *.
  - by injection E.
  - injection E as -> _. tauto.
  - injection E as -> _. tauto.
  - injection E as -> E. apply IH in E as [-> ->]; tauto.
Qed.

Lemma show_int_no_comma n : ~ In Byte.x2c (show_int n).
Proof.
  destruct (show_int_bytes n) as [_ H]. rewrite forallb_forall in H. intros Hin%H. done.
Qed.

(** A text Go quotes can be told, and what follows it. *)
Lemma go_string_prefix html a b x y : html = false -> go_string html a ++ x = go_string html b ++ y -> a = b /\ x = y.
Proof.
  intros ->. unfold go_string. rewrite <-!app_assoc. intros E. apply app_inv_head in E.
  apply (prefix_code (unit_text false) [Byte.x22]) in E as [E ->].
  - by rewrite <-(json_units_source a), E, json_units_source.
  - intros [| |c]; [done..|]. apply escape_diverge.
  - assert (T : forallb (fun b => diverge "\u2028" (escape_byte b) && diverge "\u2029" (escape_byte b)
      && diverge (escape_byte b) "\u2028" && diverge (escape_byte b) "\u2029") all_bytes = true) by (vm_compute; reflexivity).
    rewrite forallb_forall in T. intros [| |c] [| |d] Hne; try done; cbn [unit_text andb];
      try (specialize (T _ (In_all_bytes d))); try (specialize (T _ (In_all_bytes c)));
      rewrite ?andb_true_iff in T; try tauto.
    apply escape_diverge. congruence.
Qed.

Section Agreement.
Context `{SJ : SerdeJson} `{GJ : !GoJson} `{SH : Sha256} `{B64 : Base64} `{ED : Ed25519} `{GO : GoLib}.

Lemma writeJSONPair_inj k a b comma x y : writeJSONPair k a comma ++ x = writeJSONPair k b comma ++ y -> a = b /\ x = y.
Proof.
  unfold writeJSONPair. rewrite <-!app_assoc. intros E. do 3 apply app_inv_head in E. by apply (go_string_prefix false) in E.
Qed.

(** ** Checks that pass *)

Lemma refuse_first_none `{GL : !GoLibLaws} bad message entries :
  forallb (fun kv => negb (bad kv.2)) entries = true -> refuse_first bad message entries = Ok tt.
Proof.
  intros H. unfold refuse_first. destruct (List.find _ _) as [kv|] eqn:E; [|done].
  apply find_some in E as [Hin Hb]. rewrite map_range_perm in Hin. rewrite forallb_forall in H.
  specialize (H _ Hin). by rewrite Hb in H.
Qed.

Lemma refuse_first_only `{GL : !GoLibLaws} bad message entries name v :
  In (name, v) entries -> bad v = true -> (forall kv, In kv entries -> bad kv.2 = true -> kv.1 = name) ->
  refuse_first bad message entries = Err (message name).
Proof.
  intros Hin Hb Ho. unfold refuse_first. destruct (List.find _ _) as [kv|] eqn:E.
  - apply find_some in E as [Hin' Hb']. rewrite map_range_perm in Hin'. by rewrite (Ho _ Hin' Hb').
  - apply find_none with (x := (name, v)) in E; [|by rewrite map_range_perm]. cbn in E. congruence.
Qed.

Lemma visible_hex b : forallb visible (hex b) = true.
Proof.
  unfold hex. induction b as [|x b IH]; [done|]. cbn [map concat]. rewrite forallb_app, IH, andb_true_r. by destruct x.
Qed.

Lemma lower_hex b : ToLower (hex b) = hex b.
Proof.
  unfold ToLower. rewrite (visible_ascii (hex b)) by apply visible_hex. unfold hex, to_ascii_lowercase.
  induction b as [|x b IH]; [done|]. cbn [map concat]. rewrite map_app, IH. f_equal. by destruct x.
Qed.

Lemma normalize_digest `{SL : !Sha256Laws} b label : normalizeSHA256Hex (sha256_hex b) label = Ok (sha256_hex b).
Proof.
  unfold normalizeSHA256Hex, sha256_hex. rewrite trim_visible by apply visible_hex. rewrite lower_hex, length_hex.
  unfold sha_digest at 1. rewrite sha_length.  cbn [Nat.mul Nat.add Nat.eqb negb]. by rewrite hex_decode_hex.
Qed.

(** ** The challenge *)

(** The payload after the digest of the claims. *)
Definition challenge_rest (f : ChallengeFacts) (comma : bool) : bytes :=
  writeJSONPair "http_method" (cf_HTTPMethod f) comma
    ++ "," ++ [Byte.x22] ++ "http_status" ++ [Byte.x22] ++ ":" ++ format_int (cf_HTTPStatus f)
    ++ writeJSONPair "nonce" (cf_NonceB64 f) true
    ++ writeJSONPair "profile" (cf_Profile f) true
    ++ writeJSONPair "request_body_sha256" (cf_RequestBodySHA256Hex f) true
    ++ writeJSONPair "resp_content_type" (cf_ResponseContentType f) true
    ++ writeJSONPair "response_body_sha256" (cf_ResponseBodySHA256Hex f) true
    ++ writeJSONPair "statement_public_key_sha256" (cf_StatementPublicKeySHA256 f) true
    ++ writeJSONPair "upstream_host" (cf_UpstreamHost f) true
    ++ writeJSONPair "upstream_path" (cf_UpstreamPath f) true ++ "}".

Lemma challenge_payload_shape f p :
  BuildAliyunVTPMChallengePayload f = Ok p ->
  match cf_FieldClaims f with
  | [] => p = "{" ++ challenge_rest f false
  | _ => exists h, FieldClaimsSHA256Hex (cf_FieldClaims f) = Ok h
           /\ p = "{" ++ writeJSONPair "field_claims_sha256" h false ++ challenge_rest f true
  end.
Proof.
  assert (Ok_inj : forall a b : bytes, @Ok bytes bytes a = Ok b -> b = a) by (intros a b E; by injection E).
  unfold BuildAliyunVTPMChallengePayload. destruct (cf_FieldClaims f) as [|b t]; cbv zeta iota.
  - intros E. exact (Ok_inj _ _ E).
  - destruct (FieldClaimsSHA256Hex (b :: t)) as [h|]; [|done]. intros E. exists h. split; [done|].
    rewrite (Ok_inj _ _ E). symmetry. apply app_assoc.
Qed.

Lemma challenge_rest_inj f g comma :
  challenge_rest f comma = challenge_rest g comma ->
  cf_Profile f = cf_Profile g /\ cf_NonceB64 f = cf_NonceB64 g
  /\ cf_StatementPublicKeySHA256 f = cf_StatementPublicKeySHA256 g
  /\ cf_RequestBodySHA256Hex f = cf_RequestBodySHA256Hex g /\ cf_ResponseBodySHA256Hex f = cf_ResponseBodySHA256Hex g
  /\ cf_UpstreamHost f = cf_UpstreamHost g /\ cf_UpstreamPath f = cf_UpstreamPath g
  /\ cf_HTTPMethod f = cf_HTTPMethod g /\ cf_HTTPStatus f = cf_HTTPStatus g
  /\ cf_ResponseContentType f = cf_ResponseContentType g.
Proof.
  unfold challenge_rest. intros E. apply writeJSONPair_inj in E as [E1 E]. do 5 apply app_inv_head in E.
  assert (C : forall a x, writeJSONPair "nonce" a true ++ x = Byte.x2c :: writeJSONPair "nonce" a false ++ x) by done.
  rewrite !C in E. apply before_separator in E as [E2 E]; [|apply show_int_no_comma..].
  apply show_int_inj in E2.
  repeat match type of E with writeJSONPair _ _ _ ++ _ = _ => apply writeJSONPair_inj in E as [? E] end. repeat split; done.
Qed.
End Agreement.

(** * Property *)

(** C10. The quote binds the proof: two challenges with the same qualifying data
    were made for the same profile, nonce, statement key, bodies, host, path,
    method, status, content type and field claims (their presence and their
    canonical text's digest), unless SHA-256 has a collision. *)
Theorem challenge_binds `{SJ : SerdeJson} `{GJ : !GoJson} `{SH : Sha256} f g pf pg :
  BuildAliyunVTPMChallengePayload f = Ok pf -> BuildAliyunVTPMChallengePayload g = Ok pg ->
  QualifyingData pf = QualifyingData pg ->
  (cf_Profile f = cf_Profile g /\ cf_NonceB64 f = cf_NonceB64 g
   /\ cf_StatementPublicKeySHA256 f = cf_StatementPublicKeySHA256 g
   /\ cf_RequestBodySHA256Hex f = cf_RequestBodySHA256Hex g /\ cf_ResponseBodySHA256Hex f = cf_ResponseBodySHA256Hex g
   /\ cf_UpstreamHost f = cf_UpstreamHost g /\ cf_UpstreamPath f = cf_UpstreamPath g
   /\ cf_HTTPMethod f = cf_HTTPMethod g /\ cf_HTTPStatus f = cf_HTTPStatus g
   /\ cf_ResponseContentType f = cf_ResponseContentType g
   /\ (cf_FieldClaims f = [] <-> cf_FieldClaims g = [])
   /\ FieldClaimsSHA256Hex (cf_FieldClaims f) = FieldClaimsSHA256Hex (cf_FieldClaims g))
  \/ sha_collision pf pg.
Proof.
  intros Hf Hg Hq. destruct (decide (pf = pg)) as [<-|Hne]; [left|by right].
  apply challenge_payload_shape in Hf, Hg.
  destruct (cf_FieldClaims f) as [|b t], (cf_FieldClaims g) as [|b' t'].
  - rewrite Hf in Hg. apply app_inv_head, challenge_rest_inj in Hg. by repeat split; try apply Hg.
  - destruct Hg as (h & _ & Hg). by rewrite Hf in Hg.
  - destruct Hf as (h & _ & Hf). by rewrite Hg in Hf.
  - destruct Hf as (h & -> & Hf), Hg as (h' & -> & Hg). rewrite Hf in Hg. apply app_inv_head in Hg.
    apply writeJSONPair_inj in Hg as [-> Hg%challenge_rest_inj]. by repeat split; try apply Hg.
Qed.

(** * Samples *)

(** Text that holds no white space is compacted by the HTML escapes alone. *)
Definition compact_unit (u : json_unit) : bytes :=
  match u with
  | OneByte b => if is_html b then unit_text true u else [b]
  | _ => unit_text true u
  end.

#[export] Instance SampleGoLib : GoLib := {|
  go_unicode_lower s := s;
  go_unicode_upper s := s;
  go_base64_decode s := match rfc_decode s with Some b => Ok b | None => Err "illegal base64 data" end;
  hex_error s := "encoding/hex: invalid byte";
  map_range := rev (A := bytes * bytes);
  json_compact s :=
    match sample_from_str s with
    | Some _ => Ok (concat (map compact_unit (json_units s)))
    | None => Err "invalid character"
    end |}.

#[export] Instance SampleGoLibLaws : GoLibLaws.
Proof.
  split; [intros l; symmetry; apply Permutation_rev|]. intros s b. cbn. by destruct (rfc_decode s); intros [= <-].
Qed.

(** [TestBuildV2StatementMatchesExistingVector] of [proof_test.go]. *)
Example statement_vector :
  BuildV2Statement (mkStatementFacts "MDEyMzQ1Njc4OWFiY2RlZg==" "API.Example.Com" "/v1/chat?beta=true" "post" 200
      "text/event-stream; charset=utf-8" "924067dfbe4731a8f87d4dbc96078edf774685c9c5fb22a50bf210e6fcd2a0a6"
      "371d3454662f0d86541fec1c3202000ce425c8c3be9ca0de0e10e5d0225ad8f1" [])
    = concat (map (fun l : bytes => l ++ [Byte.x0a]) [
        "tee-exchange-v2"; "nonce=MDEyMzQ1Njc4OWFiY2RlZg=="; "upstream-host=api.example.com"; "upstream-path=/v1/chat";
        "http-method=POST"; "http-status=200"; "resp-content-type=text/event-stream; charset=utf-8";
        "request-body-sha256=924067dfbe4731a8f87d4dbc96078edf774685c9c5fb22a50bf210e6fcd2a0a6";
        "response-body-sha256=371d3454662f0d86541fec1c3202000ce425c8c3be9ca0de0e10e5d0225ad8f1"]).
Proof. vm_compute. reflexivity. Qed.

(** [TestBuildAliyunVTPMChallengePayloadIsVerifierCompatible]. *)
Example challenge_vector :
  BuildAliyunVTPMChallengePayload (mkChallengeFacts "aliyun-vtpm" "bm9uY2U=" "001122" "aa" "bb" "api.example.com" "/v1/chat"
      "POST" 200 "text/event-stream" [])
    = Ok (js ("{'http_method':'POST','http_status':200,'nonce':'bm9uY2U=','profile':'aliyun-vtpm','request_body_sha256':'aa'"
        ++ ",'resp_content_type':'text/event-stream','response_body_sha256':'bb','statement_public_key_sha256':'001122'"
        ++ ",'upstream_host':'api.example.com','upstream_path':'/v1/chat'}")).
Proof. vm_compute. reflexivity. Qed.

(** * Witness *)

Definition sample_facts (claims : bytes) : ChallengeFacts :=
  mkChallengeFacts "aliyun-vtpm" "bm9uY2U=" (sha256_hex "key") (sha256_hex "req") (sha256_hex "resp") "api.example.com"
    "/v1/chat" "POST" 200 "text/plain" claims.

(** Two spellings of the same claims. *)
Lemma challenge_binds_witness :
  let f := sample_facts (js "{'v':1,'a':2}") in
  let g := sample_facts (js " {'a': 2, 'v': 1}") in
  exists p, BuildAliyunVTPMChallengePayload f = Ok p /\ BuildAliyunVTPMChallengePayload g = Ok p
    /\ (FieldClaimsSHA256Hex (cf_FieldClaims f) = FieldClaimsSHA256Hex (cf_FieldClaims g) \/ sha_collision p p).
Proof.
  cbv zeta. destruct (BuildAliyunVTPMChallengePayload (sample_facts (js "{'v':1,'a':2}"))) as [p|e] eqn:E;
    [|vm_compute in E; discriminate].
  assert (E2 : BuildAliyunVTPMChallengePayload (sample_facts (js " {'a': 2, 'v': 1}")) = Ok p)
    by (rewrite <-E; vm_compute; reflexivity).
  exists p. split; [reflexivity|]. split; [exact E2|].
  destruct (challenge_binds _ _ p p E E2 eq_refl) as [H|Hc]; [left; apply H|right; exact Hc].
Defined.
