(* ===== verification/HelperServer.v ===== *)
(** The Aliyun proof helper as the enclave meets it
    ([aliyun-enclave/internal/helper], Go): its frames, [HandleRequest] and the
    handling of one connection; and the whole way from the enclave's request
    over the socket to a proof the verifier accepts.

    Requests are handled one at a time (a mutex around the generator), each on
    a connection of its own; the listening socket is not modelled. *)

From S2P Require Import Prelude RustStr BTree Json Digest Paths Base64 Protocol Collector Statement Io Frames Evidence Trailer.
From S2P Require Import JsJson Verifier JsViews JsAgree FieldProof Verdict GoJson AliyunProof Sample.
From S2P Require AliyunHelper Transcript.
Local Open Scope bytes_scope.

Definition Version : Z := 1.
Definition MaxRequestPayload : Z := 64 * 1024.
Definition MaxResponsePayload : Z := 4 * 1024 * 1024.

Record Request := mkRequest {
  rq_Version : Z;
  rq_Op : bytes;
  rq_NonceB64 : bytes;
  rq_UpstreamHost : bytes;
  rq_UpstreamPath : bytes;
  rq_HTTPMethod : bytes;
  rq_HTTPStatus : Z;
  rq_ResponseContentType : bytes;
  rq_RequestSHA256Hex : bytes;
  rq_ResponseSHA256Hex : bytes;
  rq_FieldClaims : bytes;
}.

Record Error := mkError {
  er_Code : bytes;
  er_Message : bytes;
}.

Record Response := mkResponse {
  rs_Version : Z;
  rs_OK : bool;
  rs_Proof : bytes;
  rs_Error : option Error;
}.

(** [json.Unmarshal] into a [Request], with the text of its error. *)
Class RequestJson := request_unmarshal : bytes -> result Request bytes.

(** * Frames *)

(** [io.ReadFull]. *)
Definition ReadFull (n : Z) (c : Control) : Control * result bytes bytes :=
  match read_exact n c with
  | (c', Ok b) => (c', Ok b)
  | (c', Err _) => (c', Err match inbox c with [] => "EOF" | _ => "unexpected EOF" end)
  end.

Definition ReadFrame (c : Control) (max : Z) : Control * result bytes bytes :=
  match ReadFull 4 c with
  | (c, Err e) => (c, Err e)
  | (c, Ok hdr) =>
      let n := from_be_bytes hdr in
      if (max <? n)%Z then (c, Err ("payload too large: " ++ format_int n ++ " > " ++ format_int max))
      else ReadFull n c
  end.

Definition WriteFrame (c : Control) (payload : bytes) (max : Z) : Control * result unit bytes :=
  if (max <? zlen payload)%Z then
    (c, Err ("payload too large: " ++ format_int (zlen payload) ++ " > " ++ format_int max))
  else
    match write_all (to_be_bytes 4 (zlen payload mod 2 ^ 32)) c with
    | (c, Err e) => (c, Err (display e))
    | (c, Ok _) => let '(c, r) := write_all payload c in (c, map_err display r)
    end.

(** * Requests *)

Section Server.
Context `{SJ : SerdeJson} `{GJ : !GoJson} `{SH : Sha256} `{B64 : Base64} `{ED : Ed25519} `{GO : GoLib}
  `{RJ : RequestJson}.
Abbreviation json := (value number).

Record Server := mkServer {
  attester : Attester;
  privateKey : SigningKey;
}.

Definition failure (code message : bytes) : Response := mkResponse Version false [] (Some (mkError code message)).

Definition classifyError (msg : bytes) : Response :=
  if contains msg "is required" then failure "bad_request" msg
  else if contains msg "nonce must be base64" then failure "invalid_nonce" msg
  else if contains msg "request_body_sha256" || contains msg "response_body_sha256" then failure "invalid_hash" msg
  else if contains msg "field_claims" then failure "bad_request" msg
  else if contains msg "get vtpm quote" then failure "vtpm_quote_failed" msg
  else failure "proof_generation_failed" msg.

Definition input_of (req : Request) : GenerateHashedInput :=
  mkInput (rq_NonceB64 req) (rq_UpstreamHost req) (rq_UpstreamPath req) (rq_HTTPMethod req) (rq_HTTPStatus req)
    (rq_ResponseContentType req) (rq_RequestSHA256Hex req) (rq_ResponseSHA256Hex req) (rq_FieldClaims req).

(** The fields [HandleRequest] asks [ValidateRequiredFields] about. *)
Definition required_of (req : Request) : GenerateHashedInput :=
  mkInput (rq_NonceB64 req) (rq_UpstreamHost req) (rq_UpstreamPath req) (rq_HTTPMethod req) 0
    (rq_ResponseContentType req) [] [] [].

Definition HandleRequest (s : Server) (req : Request) : Response :=
  if negb (rq_Version req =? Version)%Z then
    failure "bad_request" ("unsupported protocol version: " ++ format_int (rq_Version req))
  else if eqs (rq_Op req) "health" then mkResponse Version true [] None
  else if negb (eqs (rq_Op req) []) && negb (eqs (rq_Op req) "proof") then
    failure "bad_request" ("unsupported op: " ++ rq_Op req)
  else if (rq_HTTPStatus req <=? 0)%Z then failure "bad_request" "http_status must be positive"
  else
    match ValidateRequiredFields (required_of req) with
    | Err e => failure "bad_request" e
    | Ok _ =>
        match GenerateFromHashes (Ok (privateKey s)) (input_of req) (mkOptions (Some (privateKey s)) (Some (attester s))) with
        | Err e => classifyError e
        | Ok p =>
            match marshal_proof p with
            | Err e => failure "proof_generation_failed" ("marshal proof: " ++ e)
            | Ok raw => mkResponse Version true raw None
            end
        end
    end.

(** [json.Marshal] of a response: a raw message and a pointer that are not there
    are left out. *)
Definition marshal_response (r : Response) : result bytes bytes :=
  let? proof := match rs_Proof r with
                | [] => Ok []
                | raw => let? text := json_compact raw in Ok [("proof", text)]
                end in
  Ok (struct_text ([("v", format_int (rs_Version r)); ("ok", if rs_OK r then "true" else "false")]
    ++ proof
    ++ match rs_Error r with
       | Some e => [("error", struct_text [("code", string_text (er_Code e)); ("message", string_text (er_Message e))])]
       | None => []
       end)).

Definition writeResponse (c : Control) (r : Response) : Control * result unit bytes :=
  let r := if (rs_Version r =? 0)%Z then mkResponse Version (rs_OK r) (rs_Proof r) (rs_Error r) else r in
  match marshal_response r with
  | Err e => (c, Err e)
  | Ok payload => WriteFrame c payload MaxResponsePayload
  end.

(** [Server.handle]: the connection after it. *)
Definition handle (s : Server) (conn : Control) : Control :=
  match ReadFrame conn MaxRequestPayload with
  | (conn, Err e) => (writeResponse conn (failure "bad_request" e)).1
  | (conn, Ok payload) =>
      match request_unmarshal payload with
      | Err e => (writeResponse conn (failure "bad_request" ("request JSON: " ++ e))).1
      | Ok req => (writeResponse conn (HandleRequest s req)).1
      end
  end.
End Server.

(** * Lemmas *)

Section Lemmas.
Context `{SJ : SerdeJson} `{GJ : !GoJson} `{SH : Sha256} `{UC : UnicodeCase} `{B64 : Base64} `{ED : Ed25519}
  `{GO : GoLib} `{RJ : RequestJson} `{HJ : AliyunHelper.HelperJson} `{JT : !JsText} `{NC : NodeCrypto}
  `{JP : !JsonParse} `{EN : Env}.
Abbreviation json := (value number).

(** The enclave's request as the helper reads it. *)
Definition request_of (r : AliyunHelper.ProofRequest) : Request :=
  mkRequest (AliyunHelper.v r) [] (AliyunHelper.nonce_b64 r) (AliyunHelper.upstream_host r) (AliyunHelper.upstream_path r)
    (AliyunHelper.http_method r) (AliyunHelper.http_status r) (AliyunHelper.resp_content_type r)
    (AliyunHelper.request_body_sha256 r) (AliyunHelper.response_body_sha256 r)
    (match AliyunHelper.field_claims r with Some c => to_string c | None => [] end).

(** The proof of a response, compacted, as the enclave reads it. *)
Definition response_of (r : Response) (proof : option bytes) : AliyunHelper.HelperResponse :=
  AliyunHelper.mkHelperResponse (rs_Version r) (rs_OK r) proof
    (option_map (fun e => AliyunHelper.mkHelperError (er_Code e) (er_Message e)) (rs_Error r)).

(** The two programs read each other's JSON: the request [serde_json] writes,
    and a response that Go writes, within the limits of the frames. *)
Record talk (s : Server) (r : AliyunHelper.ProofRequest) (proof : option bytes) : Prop := {
  tk_request_size : (zlen (AliyunHelper.proof_request_json r) <= MaxRequestPayload)%Z;
  tk_request : request_unmarshal (AliyunHelper.proof_request_json r) = Ok (request_of r);
  tk_response : let a := HandleRequest s (request_of r) in
    match proof with
    | None => rs_Proof a = []
    | Some text => rs_Proof a <> [] /\ json_compact (rs_Proof a) = Ok text
    end
    /\ exists payload, marshal_response a = Ok payload /\ (zlen payload <= MaxResponsePayload)%Z
         /\ AliyunHelper.helper_response payload = Ok (response_of a proof);
}.

Lemma WriteFrame_sent c payload max :
  (zlen payload <= max)%Z -> (max < 2 ^ 32)%Z -> write_limit c = [] ->
  WriteFrame c payload max = (mkControl (inbox c) (outbox c ++ AliyunHelper.helper_frame payload) [], Ok tt).
Proof.
  intros Hp Hm Hl. unfold WriteFrame. rewrite (proj2 (Z.ltb_ge _ _)) by done.
  pose proof (zlen_nonneg payload). rewrite Z.mod_small by lia. destruct c as [i o l]. cbn [write_limit] in Hl. subst l.
  unfold write_all. cbn [write_limit inbox outbox map_err]. unfold AliyunHelper.helper_frame. by rewrite app_assoc.
Qed.

Lemma ReadFull_exact b rest out lim :
  ReadFull (zlen b) (mkControl (b ++ rest) out lim) = (mkControl rest out lim, Ok b).
Proof. unfold ReadFull. by rewrite read_exact_app. Qed.

Lemma ReadFrame_sent c payload rest out lim max :
  c = mkControl (AliyunHelper.helper_frame payload ++ rest) out lim -> (zlen payload <= max)%Z -> (max < 2 ^ 32)%Z ->
  ReadFrame c max = (mkControl rest out lim, Ok payload).
Proof.
  intros -> Hp Hm. unfold ReadFrame, AliyunHelper.helper_frame. rewrite <-app_assoc.
  pose proof (ReadFull_exact (to_be_bytes 4 (zlen payload)) (payload ++ rest) out lim) as R.
  unfold zlen in R at 1. rewrite length_to_be_bytes in R. change (Z.of_nat 4) with 4%Z in R. rewrite R.
  rewrite from_to_be_bytes_small by (pose proof (zlen_nonneg payload); lia).
  rewrite (proj2 (Z.ltb_ge _ _)) by done. apply ReadFull_exact.
Qed.

(** What the helper answers comes through. *)
Lemma round_trip s r proof stream :
  talk s r proof -> write_limit stream = [] ->
  inbox stream = outbox (handle s (mkControl (AliyunHelper.helper_frame (AliyunHelper.proof_request_json r)) [] [])) ->
  exists stream', AliyunHelper.exchange_proof r stream
    = (stream', AliyunHelper.accept_response (response_of (HandleRequest s (request_of r)) proof))
    /\ outbox stream' = outbox stream ++ AliyunHelper.helper_frame (AliyunHelper.proof_request_json r).
Proof.
  intros [Hsize Hreq (_ & payload & Hm & Hp & Hr)] Hl Hin.
  unfold handle in Hin. rewrite (ReadFrame_sent _ (AliyunHelper.proof_request_json r) [] [] []) in Hin
    by (by rewrite ?app_nil_r || done). rewrite Hreq in Hin. unfold writeResponse in Hin.
  assert (Hv : (rs_Version (HandleRequest s (request_of r)) =? 0)%Z = false).
  { unfold HandleRequest, classifyError, failure. repeat case_match; reflexivity. }
  rewrite Hv, Hm in Hin. rewrite WriteFrame_sent in Hin by done. cbn [inbox outbox fst app] in Hin.
  unfold AliyunHelper.exchange_proof.
  assert (T : forall n, takes n (write_limit stream)) by (intros n; by rewrite Hl).
  rewrite (proj2 (AliyunHelper.helper_write_ok _ AliyunHelper.MAX_REQUEST_PAYLOAD stream _ eq_refl)
    (conj Hsize (conj (T _) eq_refl))).
  cbn [inbox outbox write_limit]. rewrite Hin, <-(app_nil_r (AliyunHelper.helper_frame payload)), AliyunHelper.helper_read_sent
    by (unfold MaxResponsePayload in *; lia).
  rewrite (proj2 (Z.ltb_ge _ _)) by done. rewrite Hr. cbn [map_err]. eexists. split; [done|]. reflexivity.
Qed.

(** ** The proof of an exchange *)

(** The raw claims of a request. *)
Definition raw_claims (claims : option json) : bytes := match claims with Some c => to_string c | None => [] end.
















(** ** Claims of the enclave in Go *)

Lemma claims_same_numbers `{GL : !GoJsonLaws} head norm_method status protocol rq rs streaming c :
  (0 <= status <= u16_max)%Z ->
  build_field_claims_from_views head norm_method status protocol rq rs streaming = Some c -> same_numbers c.
Proof.
  intros Hst. unfold build_field_claims_from_views.
  destruct (negb (has_required_presence protocol "request" rq)); [done|].
  destruct (negb (has_required_presence protocol "response" rs)); [done|]. cbv zeta.
  destruct (field_policy_version protocol) as [version|]; [|done]. intros [= <-]. apply same_numbers_object, Forall_bextend; [constructor|].
  assert (I : forall z, (0 <= z <= u16_max)%Z -> same_numbers (json_int z)).
  { intros z Hz. unfold u16_max in Hz. cbn [same_numbers json_int]. by rewrite json_marshal_float_int, serde_number_int by lia. }
  unfold u16_max in *. repeat (constructor; [cbn [snd]; first [apply I; lia | exact Logic.I]|]). constructor.
Qed.

End Lemmas.

(** * Properties *)

Section Theorems.
Context `{SJ : SerdeJson} `{GJ : !GoJson} `{SH : Sha256} `{UC : UnicodeCase} `{B64 : Base64} `{ED : Ed25519}
  `{GO : GoLib} `{RJ : RequestJson} `{HJ : AliyunHelper.HelperJson} `{US : AliyunHelper.UnixSockets}
  `{JT : !JsText} `{NC : NodeCrypto} `{JN : !JsNumbers} `{JP : !JsonParse} `{EN : Env} `{EV : !EvidenceVerifiers}.


(** C20. A response without a content type cannot be proved by the helper: the
    enclave's request for it is refused as a bad one, whatever the rest of the
    exchange, and the trailer says so instead of holding a proof. *)
Theorem untyped_response_unproven `{LL : !GoLibLaws} s aliyun x control stream norm_host norm_path :
  let r := aliyun_request x norm_host norm_path in
  trim (x_content_type x) = [] ->
  Forall (fun t => trim t <> []) [nonce (x_head x); norm_host; norm_path; x_norm_method x] -> (1 <= x_status x)%Z ->
  talk s r None ->
  AliyunHelper.unix_connect (socket_path aliyun) = Ok stream -> write_limit stream = [] ->
  inbox stream = outbox (handle s (mkControl (AliyunHelper.helper_frame (AliyunHelper.proof_request_json r)) [] [])) ->
  write_aliyun_vtpm_trailer control aliyun x norm_host norm_path
    = write_proof_unavailable_trailer control x "attestation_failed"
        "aliyun helper bad_request: resp_content_type is required".
Proof.
  cbv zeta. intros Hct Hother Hst Ht Hc Hl Hin.
  destruct (round_trip s _ _ stream Ht Hl Hin) as (stream' & He & _).
  assert (Ha : HandleRequest s (request_of (aliyun_request x norm_host norm_path))
    = failure "bad_request" "resp_content_type is required").
  { set (r := request_of _). unfold HandleRequest. change (rq_Version r) with Version. change (rq_Op r) with ([] : bytes).
    change (rq_HTTPStatus r) with (x_status x). cbn [Z.eqb Version negb eqs bool_decide andb].
    rewrite (proj2 (Z.leb_gt _ _)) by lia. unfold ValidateRequiredFields.
    rewrite (refuse_first_only _ _ _ "resp_content_type" (x_content_type x)); [done|cbn; tauto| |].
    - unfold eqs. by rewrite Hct.
    - rewrite !Forall_cons_iff in Hother. destruct Hother as (N1 & N2 & N3 & N4 & _).
      intros kv Hkv Hb%bool_decide_eq_true. cbn in Hkv.
      destruct Hkv as [<-|[<-|[<-|[<-|[<-|[]]]]]]; cbn [snd] in Hb; done. }
  unfold write_aliyun_vtpm_trailer, AliyunHelper.request_proof. rewrite Hc. cbn [map_err]. rewrite He, Ha. reflexivity.
Qed.

(** C19. The field claims of a path the helper's JSON escapes are hashed
    differently by the helper: when the path without its query holds [<], [>],
    [&], U+2028 or U+2029, the digest in its statement and in its challenge is
    not the one the enclave and the verifier compute, unless SHA-256 has a
    collision. *)
Theorem html_claims_diverge `{SJL : !SerdeJsonLaws} `{GL : !GoJsonLaws} `{SL : !Sha256Laws}
    head req_body content_type norm_method status pieces c :
  collect head req_body content_type norm_method status pieces = Some c -> (0 <= status <= u16_max)%Z ->
  same_text true (path_no_query (path (upstream head))) = false ->
  json_unmarshal (to_string c) = Ok c -> raw_claims (Some c) <> [] ->
  exists h, FieldClaimsSHA256Hex (raw_claims (Some c)) = Ok h
    /\ (h = field_claims_sha256_hex c -> sha_collision (CanonicalJSON c) (canonical_json c)).
Proof.
  intros (protocol & rq & rs & streaming & _ & Hb)%collect_claims Hst Hp Hr Hne.
  exists (sha256_hex (CanonicalJSON c)). split.
  { unfold FieldClaimsSHA256Hex. cbn [raw_claims] in *. destruct (to_string c) as [|b t]; [done|]. by rewrite Hr. }
  assert (Hlen : length (canonical_json c) < length (CanonicalJSON c)).
  { pose proof (canonical_longer c (wf_claims _ _ _ _ _ _ _ _ Hb) (claims_same_numbers _ _ _ _ _ _ _ _ Hst Hb)) as K.
    enough (E : same_texts c = false) by (by rewrite E in K). apply claims_members in Hb as (_ & _ & _ & Hpath & _).
    destruct c as [| | | | |m]; [done..|]. cbn [same_texts]. apply not_true_iff_false. rewrite forallb_forall.
    intros H. specialize (H _ (In_bget _ _ _ Hpath)). cbn [fst snd same_texts] in H. rewrite Hp, andb_false_r in H. done. }
  intros [E|Hcoll]%sha256_hex_inj; [|done]. rewrite E in Hlen. lia.
Qed.
End Theorems.

(** * Samples *)

(** The members [json.Unmarshal] fills in; what is missing stays zero. *)
#[local] Instance sample_request_json : RequestJson := fun payload =>
  match sample_from_str payload with
  | Some (Object m) =>
      let text k := match bget k m with Some (Str s) => s | _ => [] end in
      let int k := match bget k m with Some (Number n) => n | _ => 0%Z end in
      Ok (mkRequest (int "v") (text "op") (text "nonce_b64") (text "upstream_host") (text "upstream_path")
            (text "http_method") (int "http_status") (text "resp_content_type") (text "request_body_sha256")
            (text "response_body_sha256") match bget "field_claims" m with Some c => to_string c | None => [] end)
  | _ => Err "invalid character"
  end.

(** [serde_json] on the two responses of the samples: a proof, or an error. *)
#[local] Instance sample_helper_json : AliyunHelper.HelperJson := fun raw =>
  match strip_prefix raw (js "{'v':1,'ok':true,'proof':"), sample_from_str raw with
  | Some t, _ => Ok (AliyunHelper.mkHelperResponse 1 true (Some (removelast t)) None)
  | None, Some (Object m) =>
      match bget "error" m with
      | Some (Object e) =>
          let text k := match bget k e with Some (Str s) => s | _ => [] end in
          Ok (AliyunHelper.mkHelperResponse 1 false None (Some (AliyunHelper.mkHelperError (text "code") (text "message"))))
      | _ => Err "missing field"
      end
  | None, _ => Err "expected value"
  end.

(** [fakeAttester] of [server_test.go]. *)
Definition fake_attester (err : option bytes) : Attester := mkAttester (fun _ =>
  match err with
  | Some e => Err e
  | None => Ok (mkQuote "quoted" "sig" "cert" "values" "selection" 0, mkMetadata "test" "test" "test")
  end).

Definition test_server (err : option bytes) : Server := mkServer (fake_attester err) ("seed" : bytes).

Definition test_request (op path rq : bytes) : Request :=
  mkRequest Version op "bm9uY2U=" "API.Example.Com" path "post" 200 "text/event-stream" rq (sha256_hex "response") [].

(** The tests of [server_test.go]. *)
Example handle_health :
  HandleRequest (test_server None) (test_request "health" "" "") = mkResponse Version true [] None.
Proof. vm_compute. reflexivity. Qed.

Example handle_proof :
  rs_OK (HandleRequest (test_server None) (test_request "" "/v1/messages?ignored=true" (sha256_hex "request"))) = true.
Proof. vm_compute. reflexivity. Qed.

Example handle_invalid_hash :
  option_map er_Code (rs_Error (HandleRequest (test_server None) (test_request "" "/v1/messages" "nope")))
    = Some ("invalid_hash" : bytes).
Proof. vm_compute. reflexivity. Qed.

Example handle_missing_field :
  HandleRequest (test_server None) (test_request "" "" (sha256_hex "request"))
    = failure "bad_request" "upstream_path is required".
Proof. vm_compute. reflexivity. Qed.

Example handle_quote_error :
  HandleRequest (test_server (Some ("boom" : bytes))) (test_request "" "/v1/messages" (sha256_hex "request"))
    = failure "vtpm_quote_failed" "get vtpm quote: boom".
Proof. vm_compute. reflexivity. Qed.

(** * Witnesses *)

(** Digests and answers are computed once. *)
Definition req_hex : bytes := Eval vm_compute in sha256_hex "req".
Definition resp_hex : bytes := Eval vm_compute in sha256_hex "resp".

Definition served_exchange (content_type : bytes) (claims : option (value number)) : Exchange :=
  mkExchange (x_head sample_exchange) "POST" 200 content_type req_hex resp_hex claims.

(** A request without claims. *)
Definition served_head : ReqHead := x_head sample_exchange.

(** The helper at the other end of the socket. *)
Definition helper_socket (s : Server) (r : AliyunHelper.ProofRequest) : Control :=
  mkControl (outbox (handle s (mkControl (AliyunHelper.helper_frame (AliyunHelper.proof_request_json r)) [] []))) [] [].

Lemma helper_socket_inbox s r : inbox (helper_socket s r)
  = outbox (handle s (mkControl (AliyunHelper.helper_frame (AliyunHelper.proof_request_json r)) [] [])).
Proof. reflexivity. Qed.

Definition served_request : AliyunHelper.ProofRequest :=
  aliyun_request (served_exchange "text/plain" None) "api.example.com" "/v1/chat".
Definition untyped_request : AliyunHelper.ProofRequest :=
  aliyun_request (served_exchange "" None) "api.example.com" "/v1/chat".


Definition served_answer : Response := Eval vm_compute in HandleRequest (test_server None) (request_of served_request).

Definition served_text : bytes := Eval vm_compute in
  match json_compact (rs_Proof served_answer) with
  | Ok text => text
  | Err _ => []
  end.



(** The trailer as the verifier parses it. *)
Definition served_trailer : value number := Eval vm_compute in
  match json_parse served_text with Some t => t | None => Null end.





Lemma untyped_talk : talk (test_server None) untyped_request None.
Proof.
  split; [vm_compute; discriminate|vm_compute; reflexivity|]. split; [vm_compute; reflexivity|].
  eexists. split; [vm_compute; reflexivity|split; [vm_compute; discriminate|vm_compute; reflexivity]].
Qed.

Section Connected.
#[local] Instance helper_connected : AliyunHelper.UnixSockets :=
  fun _ => Ok (helper_socket (test_server None) served_request).

#[local] Instance served_env : Env := fun _ => None.
#[local] Instance served_evidence_verifiers : EvidenceVerifiers := fun profile =>
  if eqs profile "aliyun-vtpm" then Some (fun proof => match value_get "evidence" proof with Some _ => true | None => false end)
  else None.


Example served_accepted :
  map (verdict served_head served_trailer None false (Some ("req" : bytes))) ["resp"; "resq"] = [true; false].
Proof. vm_compute. reflexivity. Qed.

End Connected.

Section Untyped.
#[local] Instance untyped_connected : AliyunHelper.UnixSockets :=
  fun _ => Ok (helper_socket (test_server None) untyped_request).

Lemma untyped_response_unproven_witness :
  write_aliyun_vtpm_trailer (mkControl [] [] []) (mkAliyun ("/run/helper.sock" : bytes)) (served_exchange "" None)
      "api.example.com" "/v1/chat"
    = write_proof_unavailable_trailer (mkControl [] [] []) (served_exchange "" None) "attestation_failed"
        "aliyun helper bad_request: resp_content_type is required".
Proof.
  refine (untyped_response_unproven (test_server None) (mkAliyun ("/run/helper.sock" : bytes)) (served_exchange "" None)
    (mkControl [] [] []) (helper_socket (test_server None) untyped_request) "api.example.com" "/v1/chat"
    eq_refl _ _ untyped_talk eq_refl eq_refl (helper_socket_inbox _ _)); [|done].
  repeat (constructor; [vm_compute; discriminate|]). constructor.
Defined.
End Untyped.

Section Escaped.
#[local] Instance escaped_env : Env := fun _ => None.

(** A model whose name holds an ampersand. *)
Definition escaped_head : ReqHead := Collector.sample_head "/v1beta/models/a&b:generateContent".
Definition escaped_request : bytes := js "{'contents':[{'role':'user','parts':[{'text':'hi'}]}]}".
Definition escaped_chunks : list bytes := [js "{'candidates':[{'content':{'role':'model','parts':[{'text':'hi'}]}}]}"].

Definition escaped_claims : value number := Eval vm_compute in
  match collect escaped_head escaped_request "application/json" "POST" 200 escaped_chunks with
  | Some c => c
  | None => Null
  end.

Lemma escaped_collected :
  collect escaped_head escaped_request "application/json" "POST" 200 escaped_chunks = Some escaped_claims.
Proof. vm_compute. reflexivity. Qed.

Lemma html_claims_diverge_witness :
  exists h, FieldClaimsSHA256Hex (to_string escaped_claims) = Ok h
    /\ (h = field_claims_sha256_hex escaped_claims -> sha_collision (CanonicalJSON escaped_claims) (canonical_json escaped_claims)).
Proof.
  assert (R : json_unmarshal (to_string escaped_claims) = Ok escaped_claims) by (vm_compute; reflexivity).
  assert (T : to_string escaped_claims <> []) by (vm_compute; discriminate).
  assert (B : (0 <= 200 <= u16_max)%Z) by (unfold u16_max; lia).
  exact (html_claims_diverge _ _ _ _ _ _ _ escaped_collected B eq_refl R T).
Defined.
End Escaped.
