(* ===== verification/ProfileEncode.v ===== *)
(** The command [profile-encode] ([src/bin/profile-encode.rs]), which turns a
    TLS profile written in JSON into the text an operator puts into the
    [tls_spec] of a request. *)

From S2P Require Import Prelude RustStr BTree Json Digest Base64 TlsProfile Protocol Collector Io H2Client Egress Evidence.
From S2P Require Import Metrics Trailer Handle Transcript Delivery Sample.
From S2P Require AliyunHelper.
Local Open Scope bytes_scope.

(** What the command takes from outside: [std::fs::read], the deserialiser
    [serde] derives for a profile, and the pretty printer of [serde_json]. *)
Class EncoderWorld `{SerdeJson} := {
  fs_read : bytes -> result bytes bytes;
  profile_from_slice : bytes -> result TlsProfile bytes;
  to_string_pretty : value number -> bytes;
}.

(** How the command ends: with an exit code and a line on the error output, or
    with a line printed. *)
Inductive command_end :=
  | Exits (code : Z) (error : bytes)
  | Prints (output : bytes).

Section ProfileEncode.
Context `{SJ : SerdeJson} `{B64 : Base64} `{EW : !EncoderWorld}.
Abbreviation json := (value number).

Definition encoder_output (spec : TlsProfile) : json :=
  json_object [
    ("spec_id", json_int (spec_id spec));
    ("label", Str (label spec));
    ("canonical_b64", Str (b64_encode (canonical_encode spec)))].

Definition profile_encode (args : list bytes) : command_end :=
  match args !! 1 with
  | None => Exits 2 ("用法: profile-encode <spec.json>  → 输出 {spec_id, canonical_b64}")
  | Some path =>
      match fs_read path with
      | Err e => Exits 1 ("读 spec 失败 " ++ path ++ ": " ++ e)
      | Ok raw =>
          match profile_from_slice raw with
          | Err e => Exits 1 ("解析 TlsProfile JSON 失败: " ++ e)
          | Ok spec => Prints (to_string_pretty (encoder_output spec))
          end
      end
  end.

(** Sent as the [tls_spec] of a request, it decodes to the profile. *)
Lemma encoder_output_decodes `{BL : !Base64Laws} spec head :
  profile_ok spec -> (zlen (canonical_encode spec) <= u64_max)%Z ->
  tls_spec head = value_get "canonical_b64" (encoder_output spec) ≫= as_str -> decode_profile head = Some spec.
Proof.
  intros Hok Hl E. unfold decode_profile. rewrite E. cbn [mbind option_bind].
  change (value_get "canonical_b64" (encoder_output spec)) with (Some (Str (b64_encode (canonical_encode spec)) : json)).
  cbn [mbind option_bind as_str]. by rewrite b64_decode_encode, decode_encoded.
Qed.
End ProfileEncode.

Section Connects.
Context `{SJ : SerdeJson} `{SH : Sha256} `{UC : UnicodeCase} `{EN : Env} `{B64 : Base64} `{ED : Ed25519}
  `{HJ : AliyunHelper.HelperJson} `{US : AliyunHelper.UnixSockets} `{HC : HttpCrate} `{SO : Sockets}
  `{TL : !TlsLibraries} `{RH : ReqHeadJson} `{EW : !EncoderWorld}.

(** C36. What the command prints is what the enclave connects with: for a
    profile file it can read, it prints an object whose [canonical_b64] member,
    sent as the [tls_spec] of a request that passes the guards of [handle] and
    whose socket opens, makes [handle] go on with the TLS client of the
    profile's stack, given exactly that profile: the HTTP/2 one for
    [rustls-aws-lc], and HTTP/1.1 over BoringSSL or OpenSSL.  With the stack
    [rustls] the default client is used, which ignores the rest of the profile. *)
Theorem encoded_profile_connects `{BL : !Base64Laws} command path raw spec s backend m elapsed s1 head body nonce_bytes sock :
  fs_read path = Ok raw -> profile_from_slice raw = Ok spec ->
  profile_ok spec -> (zlen (canonical_encode spec) <= u64_max)%Z ->
  tls_spec head = value_get "canonical_b64" (encoder_output spec) ≫= as_str ->
  read_request s = (s1, Ok (head, body)) -> check_head head = Ok nonce_bytes ->
  upstream_socket (egress_port head) = Ok sock ->
  let norm_method := to_uppercase (method (upstream head)) in
  let sni := host (upstream head) in
  let http1 connection := match connection with
    | Ok tls => fails (handle_h1 s1 backend m elapsed head body nonce_bytes tls norm_method)
    | Err e => (s1, m, Err (Fails e))
    end in
  profile_encode [command; path] = Prints (to_string_pretty (encoder_output spec))
  /\ handle s backend m elapsed =
       match stack spec with
       | RustlsAwsLc => handle_h2 s1 backend m elapsed head body nonce_bytes spec sock norm_method
       | Boring => http1 (map_err (fun e => "btls 出口: " ++ e) (boring_connect spec sock sni))
       | OpenSsl => http1 (map_err (fun e => "openssl 出口: " ++ e) (openssl_connect spec sock sni))
       | Rustls => http1 (ring_connect sock sni)
       end.
Proof.
  intros Hf Hp Hok Hl E Hr Hk Hs. cbv zeta. split; [unfold profile_encode; cbn; by rewrite Hf, Hp|].
  pose proof (encoder_output_decodes spec head Hok Hl E) as D.
  unfold handle. rewrite Hr, Hk, Hs, D. cbv zeta. unfold h2_profile_of, connect_tls.
  destruct (stack spec) eqn:Es; cbn [bool_decide]; (try (rewrite bool_decide_false by done)); (try (rewrite bool_decide_true by done));
    try done; by destruct (map_err _ _) || by destruct (ring_connect _ _).
Qed.
End Connects.

(** * A run *)

Section Witness.
#[local] Existing Instance quiet_env.
#[local] Existing Instance sample_req_head.
#[local] Existing Instance no_helper_json.
#[local] Existing Instance no_unix.
#[local] Existing Instance Transcript.sample_sockets.
#[local] Existing Instance Transcript.sample_http.

#[local] Instance encoder_world : EncoderWorld := {|
  fs_read path := if eqs path "grok.json" then Ok "grok" else Err "No such file or directory (os error 2)";
  profile_from_slice raw := if eqs raw "grok" then Ok grok_profile else Err "expected value at line 1 column 1";
  to_string_pretty v := to_string v;
|}.

(** The profile of the sample request of Delivery.v, which the enclave serves
    over HTTP/2 with it. *)
Lemma encoded_profile_connects_witness :
  profile_encode ["profile-encode"; "grok.json"] = Prints (to_string_pretty (encoder_output grok_profile))
  /\ exists s1, handle (TL := h2_tls) h2_control (backend_of "seed") metrics_default 1000
      = handle_h2 (TL := h2_tls) s1 (backend_of "seed") metrics_default 1000 h2_request_head "hi" "nonce" grok_profile
          (DirectVsock (tt : @Socket Transcript.sample_sockets)) "POST".
Proof.
  destruct (read_request_sent _ _ _ _ h2_requested) as (s1 & Er & _).
  assert (F1 : fs_read ("grok.json" : bytes) = Ok ("grok" : bytes)) by (vm_compute; reflexivity).
  assert (F2 : profile_from_slice ("grok" : bytes) = Ok grok_profile) by (vm_compute; reflexivity).
  assert (Hok : profile_ok grok_profile) by solve_profile_ok.
  assert (Hl : (zlen (canonical_encode grok_profile) <= u64_max)%Z) by (vm_compute; discriminate).
  assert (Ht : tls_spec h2_request_head = value_get "canonical_b64" (encoder_output grok_profile) ≫= as_str)
    by (vm_compute; reflexivity).
  destruct (encoded_profile_connects (TL := h2_tls) "profile-encode" "grok.json" "grok" grok_profile h2_control (backend_of "seed")
    metrics_default 1000 s1 h2_request_head "hi" "nonce" (DirectVsock (tt : @Socket Transcript.sample_sockets))
    F1 F2 Hok Hl Ht Er (rq_head _ _ _ _ h2_requested) h2_connects) as [E1 E2].
  split; [exact E1|]. exists s1. exact E2.
Defined.
End Witness.
