(* ===== verification/Startup.v ===== *)
(** The start of the enclave: the part of [main] of [main.rs] that chooses the
    proof backend from the environment, with [configured_tee_profile],
    [build_evidence_provider] and [build_local_evidence_backend].  A panic of
    the start is an [Err] with its message. *)

From S2P Require Import Prelude RustStr BTree Json Digest Protocol Base64 Evidence Trailer Sample.
Local Open Scope bytes_scope.

Definition DEFAULT_ALIYUN_HELPER_SOCKET : bytes := "/run/aliyun-proof-helper.sock".

(** The Cargo features the binary was built with. *)
Record Features := mkFeatures {
  nitro_feature : bool;
  qingtian_feature : bool;
}.

Section Startup.
Context `{SJ : SerdeJson} `{SH : Sha256} `{UC : UnicodeCase} `{EN : Env} `{ED : Ed25519}
  `{B64 : Base64} `{NS : Nsm} `{QT : Qtsm}.
Variable features : Features.
(** The seed from [getrandom]. *)
Variable seed : bytes.

Definition configured_tee_profile : bytes :=
  to_ascii_lowercase (default "nitro" (opt_or (env_var "TEE_PROFILE") (env_var "POO_EVIDENCE_PROFILE"))).

Definition build_evidence_provider (profile : bytes) : result EvidenceProvider bytes :=
  if eqs profile [] || eqs profile "nitro" then
    if nitro_feature features then Ok nitro_new
    else Err "TEE_PROFILE=nitro but binary was built without the nitro feature"
  else if eqs profile "qingtian" then
    if qingtian_feature features then
      match qingtian_new with
      | Ok fd => Ok (QingTianEvidenceProvider fd)
      | Err e => Err ("failed to initialize QingTian QTSM provider: " ++ e)
      end
    else Err "TEE_PROFILE=qingtian but binary was built without the qingtian feature"
  else Err ("unsupported local evidence profile=" ++ profile ++ "; supported profiles: nitro, qingtian").

(** The [backend] of [main]. *)
Definition startup_backend : result ProofBackend bytes :=
  let profile := configured_tee_profile in
  if eqs profile [] || eqs profile "nitro" || eqs profile "qingtian" then
    let? provider := build_evidence_provider profile in
    Ok (LocalEvidence (build_local_evidence_backend seed provider))
  else if eqs profile "aliyun-vtpm" then
    Ok (AliyunVtpm (mkAliyun (default DEFAULT_ALIYUN_HELPER_SOCKET (env_var "ALIYUN_PROOF_HELPER_SOCKET"))))
  else Err ("unsupported TEE_PROFILE=" ++ profile ++ "; supported profiles: nitro, qingtian, aliyun-vtpm").


(** The local backends, by profile. *)
Lemma startup_local local :
  startup_backend = Ok (LocalEvidence local) ->
  let p := configured_tee_profile in
  exists provider,
    local = build_local_evidence_backend seed provider
    /\ ((p = [] \/ p = "nitro") /\ provider = nitro_new
        \/ p = "qingtian" /\ exists fd, qingtian_new = Ok fd /\ provider = QingTianEvidenceProvider fd).
Proof.
  cbv zeta. unfold startup_backend, build_evidence_provider. generalize configured_tee_profile as p. intros p.
  destruct (eqs p []) eqn:E1; [|destruct (eqs p "nitro") eqn:E2; [|destruct (eqs p "qingtian") eqn:E3]];
    repeat match goal with E : eqs _ _ = true |- _ => apply bool_decide_eq_true in E end; cbn [orb];
    repeat case_match; intros [= <-]; naive_solver.
Qed.

(** C40. The proofs an enclave sends are those its operator configured: when
    [main] starts with a local backend, it holds the key of the random seed,
    and every trailer it attests carries the DER form of that key's public
    part and, as its [profile] member, the configured profile in lower case;
    [nitro], which an empty or missing setting means too, is the one a trailer
    leaves out. *)
Theorem startup_profile_in_trailer local x nh np sig nonce ev
    (Start : startup_backend = Ok (LocalEvidence local))
    (Attest : attest (evidence_provider local) (spki local) nonce = Ok ev) :
  let p := configured_tee_profile in
  let t := local_trailer local x nh np sig ev in
  sk local = sk_from_bytes seed
  /\ value_get "public_key" t = Some (Str (b64_encode (spki_prefix ++ verifying_key (sk_from_bytes seed))))
  /\ ((p = [] \/ p = "nitro") /\ value_get "profile" t = None
      \/ p = "qingtian" /\ value_get "profile" t = Some (Str p)).
Proof.
  cbv zeta. destruct (startup_local _ Start) as (provider & -> & D). cbn [evidence_provider spki build_local_evidence_backend] in Attest.
  rewrite local_trailer_profile. split; [done|split; [by apply local_trailer_get|]].
  destruct D as [[Hp ->]|(Hp & fd & _ & ->)].
  - left. split; [done|]. by rewrite (attest_profile _ _ _ Attest).
  - right. split; [done|]. rewrite Hp. by rewrite (attest_profile _ _ _ Attest).
Qed.
End Startup.

(** * A start *)

Section Witness.
#[local] Existing Instance SampleJson.
#[local] Existing Instance SampleSha.
#[local] Existing Instance SampleCase.
#[local] Existing Instance SampleEd25519.
#[local] Instance start_env : Env := fun name => if eqs name "TEE_PROFILE" then Some "QingTian" else None.
#[local] Instance start_nsm : Nsm := {| nsm_init := 0; nsm_process_request _ _ _ := NsmOther "InvalidOperation" |}.
#[local] Instance start_qtsm : Qtsm := {|
  qtsm_lib_init := 7;
  qtsm_get_attestation fd nonce spki buffer := (0%Z, "doc" ++ drop 3 buffer, 3%Z);
|}.

Lemma startup_profile_in_trailer_witness :
  exists local ev,
    startup_backend (mkFeatures false true) "seed" = Ok (LocalEvidence local)
    /\ attest (evidence_provider local) (spki local) "nonce" = Ok ev
    /\ value_get "profile" (local_trailer local sample_exchange "h" "/p" "sig" ev) = Some (Str "qingtian").
Proof.
  set (local := build_local_evidence_backend "seed" (QingTianEvidenceProvider 7)).
  assert (S : startup_backend (mkFeatures false true) "seed" = Ok (LocalEvidence local)) by reflexivity.
  set (ev := mkEvidence "qingtian" "doc" None None []).
  assert (A : attest (evidence_provider local) (spki local) "nonce" = Ok ev) by (vm_compute; reflexivity).
  exists local, ev. split; [done|split; [done|]].
  destruct (startup_profile_in_trailer (mkFeatures false true) "seed" local sample_exchange "h" "/p" "sig" "nonce" ev S A)
    as (_ & _ & [[[E|E] _]|[_ E]]); [discriminate|discriminate|exact E].
Defined.
End Witness.
