(* ===== verification/Server.v ===== *)
(** The server of [main.rs]: the accept loop of [main], the bounded queue
    ([sync_channel]), the workers ([worker]) and the counters they share, as an
    interleaving of their atomic steps.

    Every access to an atomic, the channel or the mutex is one step of one
    thread; [handle] is one step (the counters it changes are touched by
    nothing else modelled here), and it is taken to return or panic: its
    network calls have timeouts.  The accesses are [Relaxed], which orders the
    accesses to one atomic but not those to different ones; what is proved of
    a gauge and the program points of the threads is about its own increments
    and decrements, and a decrement of [queue_depth] follows the increment of
    its connection through the channel.

    The fields [log], [replies], [peak_in_flight] and [peak_queue_depth] of
    [Shared] and [arrivals] of [State] are history, not state of the program:
    the connections as they arrived, their fates with what had been written to
    them by then, what they are after the server's own last frame, and the
    largest values the two gauges have had. *)

From stdpp Require Import relations.
From S2P Require Import Prelude RustStr BTree Json Digest Base64 Protocol.
From S2P Require Import Io Frames Http1 H2Client Egress Metrics Trailer Handle.
From S2P Require AliyunHelper.
Local Open Scope Z_scope.

Definition N_WORKERS : Z := 64.
Definition QUEUE_CAP : Z := 256.

(** * State *)

(** A connection: its number in the order of arrival, and the stream. *)
Definition Conn : Type := nat * Control.

(** What [catch_unwind] gives for [handle]. *)
Inductive outcome :=
  | Returned
  | ReturnedErr (e : bytes)
  | Panicked.

Inductive fate :=
  | Shed
  | Finished (o : outcome).

Record Shared := mkShared {
  sm : Metrics;
  queue : list Conn;
  lock : option nat;
  log : list (Conn * fate);
  replies : list Conn;
  peak_in_flight : Z;
  peak_queue_depth : Z;
}.

(** Where the accept loop is. *)
Inductive MainPc :=
  | MAccept
  | MCount (c : Conn)
  | MLoad (c : Conn) (q : Z)
  | MBump (c : Conn) (q m : Z)
  | MSend (c : Conn)
  | MAccepted
  | MFull (c : Conn)
  | MShed (c : Conn)
  | MBusy (c : Conn)
  | MDisconnected (c : Conn)
  | MStop.

(** Where a worker is. *)
Inductive WorkerPc :=
  | WStart
  | WRecv
  | WUnlock (c : Conn)
  | WDequeue (c : Conn)
  | WEnter (c : Conn)
  | WLoad (c : Conn) (now : Z)
  | WBump (c : Conn) (now m : Z)
  | WHandle (c : Conn)
  | WTime (c : Conn) (o : outcome)
  | WLeave (c : Conn) (o : outcome)
  | WCount (c : Conn) (o : outcome)
  | WReply (c : Conn) (e : bytes).

Record State := mkState {
  shared : Shared;
  main_pc : MainPc;
  workers : list WorkerPc;
  arrivals : list Control;
}.

(** How many connections have arrived. *)
Definition arrived (st : State) : nat := length (arrivals st).

(** What the counters and histories become. *)
Definition with_metrics (f : Metrics -> Metrics) (s : Shared) : Shared :=
  mkShared (f (sm s)) (queue s) (lock s) (log s) (replies s) (peak_in_flight s) (peak_queue_depth s).
Definition with_queue (q : list Conn) (s : Shared) : Shared :=
  mkShared (sm s) q (lock s) (log s) (replies s) (peak_in_flight s) (peak_queue_depth s).
Definition with_lock (l : option nat) (s : Shared) : Shared :=
  mkShared (sm s) (queue s) l (log s) (replies s) (peak_in_flight s) (peak_queue_depth s).
Definition with_log (c : Conn) (f : fate) (s : Shared) : Shared :=
  mkShared (sm s) (queue s) (lock s) ((c, f) :: log s) (replies s) (peak_in_flight s) (peak_queue_depth s).
Definition with_reply (id : nat) (c : Control) (s : Shared) : Shared :=
  mkShared (sm s) (queue s) (lock s) (log s) ((id, c) :: replies s) (peak_in_flight s) (peak_queue_depth s).
(** The gauges go up: the histories follow. *)
Definition note_in_flight (s : Shared) : Shared :=
  mkShared (sm s) (queue s) (lock s) (log s) (replies s) (Z.max (peak_in_flight s) (in_flight (sm s))) (peak_queue_depth s).
Definition note_queue_depth (s : Shared) : Shared :=
  mkShared (sm s) (queue s) (lock s) (log s) (replies s) (peak_in_flight s) (Z.max (peak_queue_depth s) (queue_depth (sm s))).

(** * Steps *)

Inductive label :=
  | Arrival
  | Spurious
  | Work.

(** The handler the workers run: [handle] with a backend.  It leaves the
    counters of the server alone. *)
Class Handler := {
  run_handler : Control -> Metrics -> Z -> Control * Metrics * result unit failure;
  run_handler_counters c m t c' m' r :
    run_handler c m t = (c', m', r) -> same_server_counters m m';
}.

(** The handler of the program. *)
Section HandlerOf.
Context `{SJ : SerdeJson} `{SH : Sha256} `{UC : UnicodeCase} `{EN : Env} `{B64 : Base64}
  `{ED : Ed25519} `{HJ : AliyunHelper.HelperJson} `{US : AliyunHelper.UnixSockets}
  `{HC : HttpCrate} `{SO : Sockets} `{TL : !TlsLibraries} `{RH : ReqHeadJson}.

Lemma trailer_counters s backend m x nonce t :
  same_server_counters m (write_attested_trailer s backend m x nonce t).1.2.
Proof.
  unfold write_attested_trailer, write_local_attested_trailer.
  repeat first [case_match | progress cbn [fst snd]]; done.
Qed.

Lemma handle_counters s backend m t : same_server_counters m (handle s backend m t).1.2.
Proof.
  unfold handle, handle_h2, handle_h1.
  repeat first [case_match | progress cbn [fst snd]]; try done; exact (trailer_counters _ _ (on_resp_bytes_total _ m) _ _ _).
Qed.

#[refine] Instance handler_of (backend : ProofBackend) : Handler := {|
  run_handler s m t := handle s backend m t;
|}.
Proof. intros s m t s' m' r H. pose proof (handle_counters s backend m t) as K. by rewrite H in K. Defined.
End HandlerOf.

Section Server.
Context `{SJ : SerdeJson} `{HA : Handler}.

(** [json!({ "code": code, "message": message }).to_string()]. *)
Definition error_payload (code message : bytes) : bytes :=
  to_string (json_object [("code"%bs, Str code); ("message"%bs, Str message)]).

(** The last frame to a connection that is not served; whether it could be
    written does not matter. *)
Definition err_frame (code message : bytes) (c : Control) : Control :=
  (write_frame ERR (error_payload code message) c).1.

(** One round of [bump_max], where the last value read of the maximum is [m]:
    with [cur] not above it the call is over; otherwise a
    [compare_exchange_weak] succeeds, fails and gives the value it found, or
    fails spuriously. *)
Inductive bump_max (cur : Z) : label -> Z -> Z -> option Z -> Z -> Prop :=
  | bump_done m max : cur <= m -> bump_max cur Work m max None max
  | bump_exchange m : m < cur -> bump_max cur Work m m None cur
  | bump_reread m max : m < cur -> max <> m -> bump_max cur Work m max (Some max) max
  | bump_spurious m : m < cur -> bump_max cur Spurious m m (Some m) m.

(** What [catch_unwind] gives for a run of the handler. *)
Definition outcome_of (r : result unit failure) : outcome :=
  match r with
  | Ok _ => Returned
  | Err (Fails e) => ReturnedErr e
  | Err Panics => Panicked
  end.

(** One step of worker [i]. *)
Inductive worker_step (i : nat) : label -> Shared -> WorkerPc -> Shared -> WorkerPc -> Prop :=
  | w_lock s : lock s = None ->
      worker_step i Work s WStart (with_lock (Some i) s) WRecv
  | w_recv s c q : queue s = c :: q ->
      worker_step i Work s WRecv (with_queue q s) (WUnlock c)
  | w_unlock s c :
      worker_step i Work s (WUnlock c) (with_lock None s) (WDequeue c)
  | w_dequeue s c :
      worker_step i Work s (WDequeue c) (with_metrics (on_queue_depth (fun z => fetch_sub z 1)) s) (WEnter c)
  | w_enter s c :
      worker_step i Work s (WEnter c)
        (note_in_flight (with_metrics (on_in_flight (fun z => fetch_add z 1)) s))
        (WLoad c ((in_flight (sm s) + 1) mod 2 ^ 64))
  | w_load s c now :
      worker_step i Work s (WLoad c now) s (WBump c now (in_flight_max (sm s)))
  | w_bump l s c now m m' max : bump_max now l m (in_flight_max (sm s)) m' max ->
      worker_step i l s (WBump c now m) (with_metrics (on_in_flight_max (fun _ => max)) s)
        match m' with Some m' => WBump c now m' | None => WHandle c end
  | w_handle s id c t c' m' r : run_handler c (sm s) t = (c', m', r) ->
      worker_step i Work s (WHandle (id, c)) (with_metrics (fun _ => m') s)
        (WTime (id, c') (outcome_of r))
  | w_handle_panic s id c c' m' : same_server_counters (sm s) m' ->
      worker_step i Work s (WHandle (id, c)) (with_metrics (fun _ => m') s) (WTime (id, c') Panicked)
  | w_time s c o ns :
      worker_step i Work s (WTime c o)
        (with_metrics (on_handle_ns_total (fun z => fetch_add z (ns mod 2 ^ 64))) s) (WLeave c o)
  | w_leave s c o :
      worker_step i Work s (WLeave c o) (with_metrics (on_in_flight (fun z => fetch_sub z 1)) s) (WCount c o)
  | w_completed s c :
      worker_step i Work s (WCount c Returned)
        (with_log c (Finished Returned) (with_metrics (on_completed (fun z => fetch_add z 1)) s)) WStart
  | w_failed s c e :
      worker_step i Work s (WCount c (ReturnedErr e))
        (with_log c (Finished (ReturnedErr e)) (with_metrics (on_failed (fun z => fetch_add z 1)) s)) (WReply c e)
  | w_panicked s c :
      worker_step i Work s (WCount c Panicked)
        (with_log c (Finished Panicked) (with_metrics (on_panicked (fun z => fetch_add z 1)) s)) WStart
  | w_reply s c e :
      worker_step i Work s (WReply c e) (with_reply c.1 (err_frame "enclave"%bs e c.2) s) WStart.

(** The receiving end is held by every worker and by [main] itself. *)
Definition receivers (ws : list WorkerPc) : nat := S (length ws).

(** One step of the accept loop. *)
Inductive main_step (ws : list WorkerPc) : label -> Shared -> MainPc -> Shared -> MainPc -> Prop :=
  | m_count s c :
      main_step ws Work s (MCount c)
        (note_queue_depth (with_metrics (on_queue_depth (fun z => fetch_add z 1)) s))
        (MLoad c ((queue_depth (sm s) + 1) mod 2 ^ 64))
  | m_load s c q :
      main_step ws Work s (MLoad c q) s (MBump c q (queue_depth_max (sm s)))
  | m_bump l s c q m m' max : bump_max q l m (queue_depth_max (sm s)) m' max ->
      main_step ws l s (MBump c q m) (with_metrics (on_queue_depth_max (fun _ => max)) s)
        match m' with Some m' => MBump c q m' | None => MSend c end
  | m_send s c : zlen (queue s) < QUEUE_CAP ->
      main_step ws Work s (MSend c) (with_queue (queue s ++ [c]) s) MAccepted
  | m_accepted s :
      main_step ws Work s MAccepted (with_metrics (on_accepted (fun z => fetch_add z 1)) s) MAccept
  | m_full s c : QUEUE_CAP <= zlen (queue s) ->
      main_step ws Work s (MSend c) s (MFull c)
  | m_full_depth s c :
      main_step ws Work s (MFull c) (with_metrics (on_queue_depth (fun z => fetch_sub z 1)) s) (MShed c)
  | m_shed s c :
      main_step ws Work s (MShed c)
        (with_log c Shed (with_metrics (on_shed (fun z => fetch_add z 1)) s)) (MBusy c)
  | m_busy s c :
      main_step ws Work s (MBusy c) (with_reply c.1 (err_frame "busy"%bs "enclave at capacity, retry"%bs c.2) s) MAccept
  | m_disconnected s c : receivers ws = O ->
      main_step ws Work s (MSend c) s (MDisconnected c)
  | m_stop s c :
      main_step ws Work s (MDisconnected c) (with_metrics (on_queue_depth (fun z => fetch_sub z 1)) s) MStop.

Inductive step : label -> State -> State -> Prop :=
  | step_arrival s ws l c :
      step Arrival (mkState s MAccept ws l) (mkState s (MCount (length l, c)) ws (l ++ [c]))
  | step_main l s s' pc pc' ws n :
      main_step ws l s pc s' pc' -> step l (mkState s pc ws n) (mkState s' pc' ws n)
  | step_worker i l s s' p p' pc ws n :
      ws !! i = Some p -> worker_step i l s p s' p' ->
      step l (mkState s pc ws n) (mkState s' pc (<[i := p']> ws) n).

Definition any_step (st st' : State) : Prop := exists l, step l st st'.

Definition initial (n : nat) : State :=
  mkState (mkShared metrics_default [] None [] [] 0 0) MAccept (replicate n WStart) [].

Definition reachable (n : nat) (st : State) : Prop := rtc any_step (initial n) st.
End Server.

(** * Counting *)

(** The sum of a weight over the workers. *)
Definition total (f : WorkerPc -> Z) (ws : list WorkerPc) : Z := fold_right (fun p acc => f p + acc) 0 ws.

Lemma total_insert f ws i p p' :
  ws !! i = Some p -> total f (<[i := p']> ws) = total f ws - f p + f p'.
Proof.
  revert i. induction ws as [|q ws IH]; intros [|i] Hi; try done.
  - injection Hi as ->. cbn. lia.
  - specialize (IH i Hi). change (f q + total f (<[i:=p']> ws) = f q + total f ws - f p + f p'). lia.
Qed.

Lemma total_bounds f ws : (forall p, 0 <= f p <= 1) -> 0 <= total f ws <= zlen ws.
Proof.
  intros Hf. induction ws as [|p ws IH]; [done|]. unfold zlen in *. cbn [total fold_right length].
  specialize (Hf p). fold (total f ws). lia.
Qed.

Lemma total_nonneg f ws : (forall p, 0 <= f p) -> 0 <= total f ws.
Proof. intros Hf. induction ws as [|q ws IH]; [done|]. specialize (Hf q). unfold total in *. cbn. lia. Qed.

Lemma total_pos f ws i p : (forall p, 0 <= f p) -> ws !! i = Some p -> f p <= total f ws.
Proof.
  intros Hf. revert i. induction ws as [|q ws IH]; intros [|i] Hi; try done.
  - injection Hi as ->. pose proof (total_nonneg f ws Hf). unfold total in *. cbn. lia.
  - specialize (IH i Hi). specialize (Hf q). unfold total in *. cbn. lia.
Qed.

Lemma total_zero f n : f WStart = 0 -> total f (replicate n WStart) = 0.
Proof. intros H. induction n as [|n IH]; cbn; [done|]. unfold total in *. lia. Qed.

(** The connection a thread is responsible for. *)
Definition worker_conn (p : WorkerPc) : option Conn :=
  match p with
  | WUnlock c | WDequeue c | WEnter c | WLoad c _ | WBump c _ _ | WHandle c | WTime c _ | WLeave c _ | WCount c _ => Some c
  | WStart | WRecv | WReply _ _ => None
  end.

Definition main_conn (p : MainPc) : option Conn :=
  match p with
  | MCount c | MLoad c _ | MBump c _ _ | MSend c | MFull c | MShed c | MDisconnected c => Some c
  | MAccept | MAccepted | MBusy _ | MStop => None
  end.

Definition one (id : nat) (c : option Conn) : Z :=
  match c with Some c => if decide (c.1 = id) then 1 else 0 | None => 0 end.

(** How often a number occurs. *)
Definition occurs (id : nat) (l : list nat) : Z := Z.of_nat (count_occ Nat.eq_dec l id).

Lemma occurs_cons id x l : occurs id (x :: l) = (if decide (x = id) then 1 else 0) + occurs id l.
Proof. unfold occurs. cbn. destruct (Nat.eq_dec x id), (decide (x = id)); (done || lia). Qed.

Lemma occurs_snoc id x l : occurs id (l ++ [x]) = occurs id l + (if decide (x = id) then 1 else 0).
Proof.
  induction l as [|y l IH]; [cbn [app]; rewrite occurs_cons; unfold occurs; cbn; lia|].
  cbn [app]. rewrite !occurs_cons, IH. lia.
Qed.

Lemma occurs_nonneg id l : 0 <= occurs id l.
Proof. unfold occurs. lia. Qed.

(** Weights of the gauges: who has been counted in, and not out yet. *)
Definition in_depth (p : WorkerPc) : Z := match p with WUnlock _ | WDequeue _ => 1 | _ => 0 end.
Definition main_in_depth (p : MainPc) : Z :=
  match p with MLoad _ _ | MBump _ _ _ | MSend _ | MFull _ | MDisconnected _ => 1 | _ => 0 end.
Definition in_flight_now (p : WorkerPc) : Z :=
  match p with WLoad _ _ | WBump _ _ _ | WHandle _ | WTime _ _ | WLeave _ _ => 1 | _ => 0 end.
Definition taken (p : WorkerPc) : Z := match worker_conn p with Some _ => 1 | None => 0 end.
Definition has_lock (p : WorkerPc) : bool := match p with WRecv | WUnlock _ => true | _ => false end.

Definition is_fate (f : fate -> bool) (e : Conn * fate) : Z := if f e.2 then 1 else 0.
Definition tally (f : fate -> bool) (l : list (Conn * fate)) : Z := fold_right (fun e acc => is_fate f e + acc) 0 l.

Definition is_shed (f : fate) : bool := match f with Shed => true | _ => false end.
Definition is_finished (f : fate) : bool := negb (is_shed f).
Definition is_completed (f : fate) : bool := match f with Finished Returned => true | _ => false end.
Definition is_failed (f : fate) : bool := match f with Finished (ReturnedErr _) => true | _ => false end.
Definition is_panicked (f : fate) : bool := match f with Finished Panicked => true | _ => false end.
