(* ===== verification/ServerSafety.v ===== *)
(** Safety of the server of Server.v: every connection is in one place, the
    gauges count what they are said to count and never wrap around, the two
    maxima are the peaks of the gauges, one worker at a time holds the
    receiver, and the counters are the tallies of the connections' fates. *)

From stdpp Require Import relations.
From S2P Require Import Prelude RustStr BTree Json Io Frames Metrics Server.
Local Open Scope Z_scope.

(** The cases of a step, with the projections of the states computed. *)
Ltac server_simpl :=
  cbn [shared main_pc workers arrived arrivals sm queue lock log replies peak_in_flight peak_queue_depth
       with_metrics with_queue with_lock with_log with_reply note_in_flight note_queue_depth
       accepted shed completed failed panicked in_flight in_flight_max queue_depth queue_depth_max
       on_accepted on_shed on_completed on_failed on_panicked on_in_flight on_in_flight_max
       on_queue_depth on_queue_depth_max on_handle_ns_total
       worker_conn main_conn one in_depth main_in_depth in_flight_now taken has_lock map fst snd] in *.

Ltac step_cases H :=
  inversion H; subst; clear H;
  try (match goal with M : main_step _ _ _ _ _ _ |- _ => inversion M; subst; clear M end);
  try (match goal with M : worker_step _ _ _ _ _ _ |- _ => inversion M; subst; clear M end);
  try (match goal with M : bump_max _ _ _ _ _ _ |- _ => inversion M; subst; clear M end);
  try (match goal with R : run_handler _ _ _ = _ |- _ =>
         let C := fresh "C" in pose proof (run_handler_counters _ _ _ _ _ _ R) as C end);
  try (match goal with R : same_server_counters _ _ |- _ =>
         destruct R as (?R1 & ?R2 & ?R3 & ?R4 & ?R5 & ?R6 & ?R7 & ?R8 & ?R9) end);
  server_simpl.

Section Safety.
Context `{SJ : SerdeJson} `{HA : Handler}.

(** ** The threads *)

Lemma step_workers l st st' : step l st st' -> length (workers st') = length (workers st).
Proof. intros H. destruct H; cbn; rewrite ?length_insert; done. Qed.

(** The accept loop goes on. *)
Definition accepting (st : State) : Prop :=
  match main_pc st with MDisconnected _ | MStop => False | _ => True end.

Lemma accepting_step l st st' : step l st st' -> accepting st -> accepting st'.
Proof. unfold accepting. intros H I. step_cases H; done. Qed.

(** ** Every connection is in one place *)

Definition queued (id : nat) (q : list Conn) : Z := occurs id (map fst q).
Definition ids_of (l : list (Conn * fate)) : list nat := map (fun e => e.1.1) l.
Definition logged (id : nat) (l : list (Conn * fate)) : Z := occurs id (ids_of l).

Lemma queued_cons id c q : queued id (c :: q) = one id (Some c) + queued id q.
Proof. apply occurs_cons. Qed.

Lemma queued_snoc id c q : queued id (q ++ [c]) = queued id q + one id (Some c).
Proof. unfold queued. rewrite map_app. apply occurs_snoc. Qed.

Lemma logged_cons id e l : logged id (e :: l) = (if decide (e.1.1 = id) then 1 else 0) + logged id l.
Proof. apply occurs_cons. Qed.

Definition places (id : nat) (st : State) : Z :=
  one id (main_conn (main_pc st)) + queued id (queue (shared st))
  + total (fun p => one id (worker_conn p)) (workers st) + logged id (log (shared st)).

Definition in_one_place (st : State) : Prop := forall id,
  places id st = if decide (id < arrived st)%nat then 1 else 0.

Lemma in_one_place_initial n : in_one_place (initial n).
Proof. intros id. unfold places. cbn -[total replicate]. rewrite total_zero by done. by rewrite decide_False by lia. Qed.

Lemma in_one_place_step l st st' : step l st st' -> accepting st -> in_one_place st -> in_one_place st'.
Proof.
  intros H A I id. specialize (I id). unfold places, accepting, arrived in *. step_cases H; try done;
    repeat match goal with E : queue _ = _ |- _ => rewrite E in *; clear E end;
    rewrite ?queued_cons, ?queued_snoc, ?logged_cons in *;
    try (erewrite total_insert by eassumption); rewrite ?length_app in *; server_simpl; cbn [length] in *;
    repeat case_decide; lia.
Qed.

(** ** The queue *)

Definition queue_bounded (st : State) : Prop := zlen (queue (shared st)) <= QUEUE_CAP.

Lemma queue_bounded_step l st st' : step l st st' -> queue_bounded st -> queue_bounded st'.
Proof.
  unfold queue_bounded. intros H I. step_cases H;
    repeat match goal with E : queue _ = _ |- _ => rewrite E in *; clear E end;
    rewrite ?zlen_app, ?zlen_cons, ?zlen_nil in *; lia.
Qed.

(** ** The receiver's lock *)

Definition lock_owned (l : option nat) (ws : list WorkerPc) : Prop :=
  (forall i p, ws !! i = Some p -> (has_lock p = true <-> l = Some i))
  /\ (forall i, l = Some i -> (i < length ws)%nat).

Lemma lock_owned_insert l ws i p p' :
  ws !! i = Some p -> lock_owned l ws ->
  (has_lock p' = true -> has_lock p = true \/ l = None) ->
  lock_owned (if has_lock p' then Some i else if has_lock p then None else l) (<[i := p']> ws).
Proof.
  intros Hi [I B] Hf. pose proof (lookup_lt_Some _ _ _ Hi) as Hlt. pose proof (I i p Hi) as Ii. split.
  - intros k q Hk. destruct (decide (i = k)) as [->|Hne].
    + rewrite list_lookup_insert_eq in Hk by done. injection Hk as <-.
      destruct (has_lock p'); [done|]. split; [done|]. destruct (has_lock p); [done|]. intros E. by apply Ii.
    + rewrite list_lookup_insert_ne in Hk by done. rewrite (I k q Hk).
      clear I B Hk Hi Hlt. destruct (has_lock p'), (has_lock p); intuition congruence.
  - rewrite length_insert. intros k. destruct (has_lock p'); [by intros [= <-]|]. destruct (has_lock p); [done|apply B].
Qed.

Lemma lock_owned_step l st st' :
  step l st st' -> lock_owned (lock (shared st)) (workers st) -> lock_owned (lock (shared st')) (workers st').
Proof.
  intros H I. step_cases H; try done;
    match goal with L : _ !! ?i = Some ?p |- lock_owned _ (<[_ := ?p']> _) =>
      pose proof (lock_owned_insert _ _ _ _ p' L I) as K; cbn in K
    end; try (apply K; auto; done).
  rewrite (proj1 (proj1 I i WRecv ltac:(eassumption))) by done. apply K. auto.
Qed.

(** ** The gauges *)

Definition gauges_exact (st : State) : Prop :=
  queue_depth (sm (shared st))
    = zlen (queue (shared st)) + main_in_depth (main_pc st) + total in_depth (workers st)
  /\ in_flight (sm (shared st)) = total in_flight_now (workers st).

Lemma gauges_step l st st' :
  step l st st' -> accepting st -> queue_bounded st -> zlen (workers st) <= N_WORKERS ->
  gauges_exact st -> gauges_exact st'.
Proof.
  unfold gauges_exact, accepting, queue_bounded. intros H A Q W [D F].
  assert (Bd := total_bounds in_depth (workers st) ltac:(intros []; cbn; lia)).
  assert (Bf := total_bounds in_flight_now (workers st) ltac:(intros []; cbn; lia)).
  assert (Zq : 0 <= zlen (queue (shared st))) by apply zlen_nonneg.
  assert (Bm : 0 <= main_in_depth (main_pc st) <= 1) by (destruct (main_pc st); cbn; lia).
  unfold N_WORKERS, QUEUE_CAP in *. step_cases H; try done;
    repeat match goal with E : queue _ = _ |- _ => rewrite E in *; clear E end;
    rewrite ?zlen_app, ?zlen_cons, ?zlen_nil in *;
    try (match goal with L : _ !! _ = Some _ |- _ =>
      assert (Pd := total_pos in_depth _ _ _ ltac:(intros []; cbn; lia) L);
      assert (Pf := total_pos in_flight_now _ _ _ ltac:(intros []; cbn; lia) L);
      erewrite !total_insert by exact L end);
    server_simpl; rewrite ?fetch_add_small, ?fetch_sub_small by lia; lia.
Qed.

(** ** The peaks *)

(** The value a thread is about to publish with [bump_max]. *)
Definition bumping (p : WorkerPc) : option Z :=
  match p with WLoad _ now | WBump _ now _ => Some now | _ => None end.
Definition main_bumping (p : MainPc) : option Z :=
  match p with MLoad _ q | MBump _ q _ => Some q | _ => None end.

Definition bump_fits (peak max : Z) (p : WorkerPc) : Prop :=
  match p with
  | WLoad _ now => now <= peak
  | WBump _ now m => now <= peak /\ m <= max
  | _ => True
  end.
Definition main_bump_fits (peak max : Z) (p : MainPc) : Prop :=
  match p with
  | MLoad _ q => q <= peak
  | MBump _ q m => q <= peak /\ m <= max
  | _ => True
  end.

(** The maximum is the peak, unless a worker is still to publish the peak. *)
Definition bumps_ok (peak max : Z) (ws : list WorkerPc) : Prop :=
  max <= peak
  /\ (forall i p, ws !! i = Some p -> bump_fits peak max p)
  /\ (max = peak \/ exists i p, ws !! i = Some p /\ bumping p = Some peak).

Lemma bump_fits_mono peak max peak' max' p :
  peak <= peak' -> max <= max' -> bump_fits peak max p -> bump_fits peak' max' p.
Proof. destruct p; cbn; lia. Qed.

Lemma bumps_ok_insert peak max peak' max' ws i p p' :
  ws !! i = Some p -> bumps_ok peak max ws ->
  peak <= peak' -> max <= max' -> max' <= peak' -> bump_fits peak' max' p' ->
  max' = peak' \/ bumping p' = Some peak'
    \/ (peak' = peak /\ (bumping p = Some peak -> max' = peak) /\ (max = peak -> max' = peak)) ->
  bumps_ok peak' max' (<[i := p']> ws).
Proof.
  intros Hi (_ & F & E) Hp Hm Hb Hf D. pose proof (lookup_lt_Some _ _ _ Hi) as Hlt.
  split; [done|split].
  - intros k q Hk. destruct (decide (i = k)) as [->|Hne].
    + rewrite list_lookup_insert_eq in Hk by done. by injection Hk as <-.
    + rewrite list_lookup_insert_ne in Hk by done. by eapply bump_fits_mono, F.
  - destruct D as [D|[D|(-> & D & D')]]; [by left| |].
    + right. exists i, p'. by rewrite list_lookup_insert_eq.
    + destruct E as [E|(k & q & Hk & Eq)]; [by left; apply D'|].
      destruct (decide (i = k)) as [->|Hne].
      * rewrite Hi in Hk. injection Hk as <-. left. auto.
      * right. exists k, q. by rewrite list_lookup_insert_ne.
Qed.

Definition flight_peak_ok (st : State) : Prop :=
  bumps_ok (peak_in_flight (shared st)) (in_flight_max (sm (shared st))) (workers st)
  /\ in_flight (sm (shared st)) <= peak_in_flight (shared st) <= zlen (workers st).

Lemma fetch_sub_one x : 0 <= x -> fetch_sub x 1 <= 2 ^ 32 -> fetch_sub x 1 <= x.
Proof.
  unfold fetch_sub. intros H0 H. destruct (decide (x = 0)) as [->|]; [done|].
  destruct (decide (x < 2 ^ 64)); [rewrite Z.mod_small in *; lia|lia].
Qed.

(** One worker's step, for the peaks: the side conditions by arithmetic, after
    the comparison of a value to publish with the peak. *)
Ltac compare_with_peak v peak := destruct (decide (v = peak)); destruct (decide (v <= peak)).
Ltac bump_case B :=
  match goal with K : _ !! _ = Some ?p |- bumps_ok ?peak _ (<[_ := ?p']> _) =>
    pose proof (proj1 (proj2 B) _ _ K); pose proof (proj1 B);
    try match constr:((p, p')) with
      | (WEnter _, WLoad _ ?v) => match peak with ?old `max` _ => compare_with_peak v old end
      | (WLoad _ ?v, _) => compare_with_peak v peak
      | (WBump _ ?v _, _) => compare_with_peak v peak
      end;
    eapply (bumps_ok_insert _ _ _ _ _ _ p p' K B); cbn [bump_fits bumping] in *; try lia;
    solve
      [ lia
      | left; lia
      | right; left; f_equal; lia
      | right; right; split; [lia|split; [first [done | intros [= ?]; lia]|lia]] ]
  end.

Lemma flight_peak_step l st st' :
  step l st st' -> zlen (workers st) <= N_WORKERS -> gauges_exact st -> gauges_exact st' ->
  flight_peak_ok st -> flight_peak_ok st'.
Proof.
  unfold flight_peak_ok, gauges_exact. intros H W [_ G] [_ G'] [B P].
  assert (Bf := total_bounds in_flight_now (workers st) ltac:(intros []; cbn; lia)).
  assert (Bf' := total_bounds in_flight_now (workers st') ltac:(intros []; cbn; lia)).
  assert (L : zlen (workers st') = zlen (workers st)) by (unfold zlen; by erewrite step_workers).
  rewrite <- G in Bf. rewrite <- G' in Bf'. clear G G'.
  step_cases H; rewrite ?L in *; try (split; [done|lia]);
    rewrite ?R6, ?R7 in *; clear L;
    (split; [unfold fetch_add in *; bump_case B | first [lia | pose proof (fetch_sub_one (in_flight (sm s))); unfold N_WORKERS in *; lia]]).
Qed.

Definition depth_peak_ok (st : State) : Prop :=
  let s := shared st in
  queue_depth_max (sm s) <= peak_queue_depth s
  /\ main_bump_fits (peak_queue_depth s) (queue_depth_max (sm s)) (main_pc st)
  /\ (queue_depth_max (sm s) = peak_queue_depth s \/ main_bumping (main_pc st) = Some (peak_queue_depth s))
  /\ queue_depth (sm s) <= peak_queue_depth s <= QUEUE_CAP + 1 + zlen (workers st).

Lemma depth_peak_step l st st' :
  step l st st' -> accepting st -> zlen (workers st) <= N_WORKERS -> queue_bounded st' ->
  gauges_exact st -> gauges_exact st' -> depth_peak_ok st -> depth_peak_ok st'.
Proof.
  unfold depth_peak_ok, gauges_exact, accepting, queue_bounded. intros H A W Q [G _] [G' _] (P1 & P2 & P3 & P4).
  assert (Bf := total_bounds in_depth (workers st) ltac:(intros []; cbn; lia)).
  assert (Bf' := total_bounds in_depth (workers st') ltac:(intros []; cbn; lia)).
  assert (L : zlen (workers st') = zlen (workers st)) by (unfold zlen; by erewrite step_workers).
  assert (Zq := zlen_nonneg (queue (shared st))). assert (Zq' := zlen_nonneg (queue (shared st'))).
  assert (Bm : 0 <= main_in_depth (main_pc st) <= 1) by (destruct (main_pc st); cbn; lia).
  assert (Bm' : 0 <= main_in_depth (main_pc st') <= 1) by (destruct (main_pc st'); cbn; lia).
  assert (Bd : 0 <= queue_depth (sm (shared st))) by lia.
  assert (Bd' : queue_depth (sm (shared st')) <= QUEUE_CAP + 1 + zlen (workers st)) by lia.
  clear G G' Bm Bm' Q Bf Bf' Zq Zq'. unfold N_WORKERS, QUEUE_CAP in *.
  step_cases H; try done; rewrite ?L, ?R8, ?R9 in *; try (by repeat split; lia);
    cbn [main_bump_fits main_bumping] in *;
    unfold fetch_add in *; destruct P3 as [P3|P3]; try (injection P3 as P3); try discriminate P3;
    repeat match goal with |- context [fetch_sub ?x 1] => pose proof (fetch_sub_one x ltac:(lia)); generalize dependent (fetch_sub x 1); intros end;
    (split; [lia|split; [first [done|lia]|split; [|lia]]]);
    try (by auto); try (left; lia); try (right; f_equal; lia).
  destruct (decide ((queue_depth (sm s) + 1) `mod` 2 ^ 64 <= peak_queue_depth s)); [left; lia|right; f_equal; lia].
Qed.

(** ** The tallies *)

Definition counted (z : Z) : Z := z mod 2 ^ 64.

Lemma counted_succ z : fetch_add (counted z) 1 = counted (1 + z).
Proof. unfold fetch_add, counted. rewrite Zplus_mod_idemp_l. f_equal. lia. Qed.

Lemma tally_cons f e l : tally f (e :: l) = (if f e.2 then 1 else 0) + tally f l.
Proof. done. Qed.

Definition not_yet_accepted (p : MainPc) : Z := match p with MAccepted => 1 | _ => 0 end.

Definition tallies_exact (st : State) : Prop :=
  let s := shared st in
  accepted (sm s)
    = counted (tally is_finished (log s) + total taken (workers st) + zlen (queue s) - not_yet_accepted (main_pc st))
  /\ shed (sm s) = counted (tally is_shed (log s))
  /\ completed (sm s) = counted (tally is_completed (log s))
  /\ failed (sm s) = counted (tally is_failed (log s))
  /\ panicked (sm s) = counted (tally is_panicked (log s)).

Lemma tallies_step l st st' : step l st st' -> tallies_exact st -> tallies_exact st'.
Proof.
  unfold tallies_exact. intros H (A & S & C & F & P).
  step_cases H; rewrite ?R1, ?R2, ?R3, ?R4, ?R5, ?tally_cons in *;
    repeat match goal with E : queue _ = _ |- _ => rewrite E in *; clear E end;
    try (erewrite !total_insert by eassumption); server_simpl;
    rewrite ?zlen_app, ?zlen_cons, ?zlen_nil in *;
    cbn [is_finished is_shed is_completed is_failed is_panicked negb not_yet_accepted taken worker_conn] in *;
    rewrite ?A, ?S, ?C, ?F, ?P, ?counted_succ;
    repeat split; try done; f_equal; lia.
Qed.

(** ** Together *)

Record server_ok (n : nat) (st : State) : Prop := {
  ok_workers : length (workers st) = n;
  ok_accepting : accepting st;
  ok_place : in_one_place st;
  ok_queue : queue_bounded st;
  ok_lock : lock_owned (lock (shared st)) (workers st);
  ok_gauges : gauges_exact st;
  ok_flight_peak : flight_peak_ok st;
  ok_depth_peak : depth_peak_ok st;
  ok_tallies : tallies_exact st;
}.

Lemma server_ok_initial n : server_ok n (initial n).
Proof.
  split; cbn -[in_one_place replicate]; try done.
  - apply length_replicate.
  - apply in_one_place_initial.
  - split; [|done]. intros i p [-> _]%lookup_replicate. done.
  - split; cbn -[replicate total]; by rewrite total_zero.
  - split; cbn -[replicate]; [|unfold zlen; lia].
    split; [done|split; [|by left]]. intros i p [-> _]%lookup_replicate. done.
  - unfold depth_peak_ok. cbn -[replicate]. repeat split; try done; [by left|]. unfold QUEUE_CAP, zlen. lia.
  - unfold tallies_exact. cbn -[replicate total]. by rewrite total_zero.
Qed.

Lemma server_ok_step n l st st' : Z.of_nat n <= N_WORKERS -> step l st st' -> server_ok n st -> server_ok n st'.
Proof.
  intros Hn H [W A I Q L G F D T].
  assert (Hw : zlen (workers st) <= N_WORKERS) by (unfold zlen; lia).
  assert (Q' := queue_bounded_step _ _ _ H Q). assert (G' := gauges_step _ _ _ H A Q Hw G).
  split.
  - by erewrite step_workers.
  - by eapply accepting_step.
  - by eapply in_one_place_step.
  - done.
  - by eapply lock_owned_step.
  - done.
  - by eapply flight_peak_step.
  - by eapply depth_peak_step.
  - by eapply tallies_step.
Qed.

Lemma server_ok_reachable n st : Z.of_nat n <= N_WORKERS -> reachable n st -> server_ok n st.
Proof.
  intros Hn H. unfold reachable in H. remember (initial n) as st0 eqn:E.
  assert (server_ok n st0) as I by (subst; apply server_ok_initial). clear E.
  induction H as [|st0 st1 st2 [l Hl] _ IH]; [done|]. apply IH. by eapply server_ok_step.
Qed.

(** * Properties *)

(** The connections somebody still has to deal with: the accept loop, the
    queue, the workers. *)
Definition hands (st : State) : list Conn :=
  option_list (main_conn (main_pc st)) ++ queue (shared st) ++ omap worker_conn (workers st).

Lemma queued_app id a b : queued id (a ++ b) = queued id a + queued id b.
Proof. unfold queued, occurs. rewrite map_app, count_occ_app. apply Nat2Z.inj_add. Qed.

Lemma queued_option id c : queued id (option_list c) = one id c.
Proof. destruct c as [c|]; [|done]. etransitivity; [apply (queued_cons id c [])|apply Z.add_0_r]. Qed.

Lemma queued_workers id ws : queued id (omap worker_conn ws) = total (fun p => one id (worker_conn p)) ws.
Proof.
  induction ws as [|p ws IH]; [done|].
  change (total (fun p => one id (worker_conn p)) (p :: ws))
    with (one id (worker_conn p) + total (fun p => one id (worker_conn p)) ws).
  rewrite <- IH. unfold omap. cbn [list_omap]. destruct (worker_conn p); [apply queued_cons|done].
Qed.

Lemma occurs_seq id n : occurs id (seq 0 n) = if decide (id < n)%nat then 1 else 0.
Proof.
  unfold occurs. case_decide as H.
  - rewrite (proj1 (NoDup_count_occ' Nat.eq_dec _)); [done|apply seq_NoDup|apply in_seq; lia].
  - rewrite (proj1 (count_occ_not_In Nat.eq_dec _ _)); [done|]. rewrite in_seq. lia.
Qed.

Lemma places_perm st :
  in_one_place st -> map fst (hands st) ++ ids_of (log (shared st)) ≡ₚ seq 0 (arrived st).
Proof.
  intros I. apply (Permutation_count_occ Nat.eq_dec). intros id. apply Nat2Z.inj.
  change (occurs id (map fst (hands st) ++ ids_of (log (shared st))) = occurs id (seq 0 (arrived st))).
  rewrite occurs_seq, <- (I id). unfold occurs at 1. rewrite count_occ_app, Nat2Z.inj_add.
  change (queued id (hands st) + logged id (log (shared st)) = places id st).
  unfold hands, places. rewrite !queued_app, queued_workers, queued_option. lia.
Qed.

(** C11. No connection is lost and none is dealt with twice, however the accept
    loop and the workers interleave: at every moment the connections that have
    arrived are, each once, those in the hands of the accept loop, those in
    the queue, those a worker has taken, and those whose fate is decided; and
    the counters (modulo [2^64]) are the numbers of connections accepted,
    shed, completed, failed and panicked. *)
Theorem server_conserves n st (Hn : Z.of_nat n <= N_WORKERS) (R : reachable n st) :
  map fst (hands st) ++ ids_of (log (shared st)) ≡ₚ seq 0 (arrived st)
  /\ tallies_exact st.
Proof.
  pose proof (server_ok_reachable _ _ Hn R) as O. split; [apply places_perm|]; apply O.
Qed.

(** C30. The queue never holds more than [QUEUE_CAP] connections and one worker
    at most holds the receiver.  The two gauges are exact at every moment and
    never wrap around: [in_flight] is the number of workers between their
    increment and their decrement, [queue_depth] counts the queue, the
    connection the accept loop is offering and those taken but not yet
    counted out, so it can pass [QUEUE_CAP] by no more than one and the number
    of workers. *)
Theorem server_gauges n st (Hn : Z.of_nat n <= N_WORKERS) (R : reachable n st) :
  zlen (queue (shared st)) <= QUEUE_CAP
  /\ (forall i j p q, workers st !! i = Some p -> workers st !! j = Some q ->
        has_lock p = true -> has_lock q = true -> i = j)
  /\ gauges_exact st
  /\ 0 <= in_flight (sm (shared st)) <= Z.of_nat n
  /\ 0 <= queue_depth (sm (shared st)) <= QUEUE_CAP + 1 + Z.of_nat n.
Proof.
  pose proof (server_ok_reachable _ _ Hn R) as [W _ _ Q [L _] G [_ F] (_ & _ & _ & D) _].
  split; [done|split; [|split; [done|]]].
  - intros i j p q Hi Hj Hp Hq. rewrite (L _ _ Hi) in Hp. rewrite (L _ _ Hj) in Hq. congruence.
  - destruct G as [Gd Gf].
    assert (Bd := total_bounds in_depth (workers st) ltac:(intros []; cbn; lia)).
    assert (Bf := total_bounds in_flight_now (workers st) ltac:(intros []; cbn; lia)).
    assert (Bm : 0 <= main_in_depth (main_pc st)) by (destruct (main_pc st); cbn; lia).
    assert (Zq := zlen_nonneg (queue (shared st))). unfold zlen in *. lia.
Qed.

(** C31. [bump_max] loses no peak: the two maxima never exceed the largest
    value their gauge has had, which is at most the number of workers for
    [in_flight] and [QUEUE_CAP + 1] more than it for [queue_depth]; and when no
    thread is between reading the gauge and the end of its
    [compare_exchange_weak] loop, they are exactly that value. *)
Theorem server_peaks n st (Hn : Z.of_nat n <= N_WORKERS) (R : reachable n st) :
  let s := shared st in
  in_flight (sm s) <= peak_in_flight s <= Z.of_nat n
  /\ queue_depth (sm s) <= peak_queue_depth s <= QUEUE_CAP + 1 + Z.of_nat n
  /\ in_flight_max (sm s) <= peak_in_flight s
  /\ queue_depth_max (sm s) <= peak_queue_depth s
  /\ (Forall (fun p => bumping p = None) (workers st) -> in_flight_max (sm s) = peak_in_flight s)
  /\ (main_bumping (main_pc st) = None -> queue_depth_max (sm s) = peak_queue_depth s).
Proof.
  pose proof (server_ok_reachable _ _ Hn R) as [W _ _ _ _ _ [(B & _ & E) F] (D1 & _ & D3 & D4) _].
  unfold zlen in *. rewrite W in *. cbv zeta. repeat split; try tauto; try lia.
  - intros N. destruct E as [E|(i & p & Hi & Hp)]; [done|].
    rewrite Forall_lookup in N. rewrite (N _ _ Hi) in Hp. done.
  - intros N. destruct D3 as [D|D]; [done|congruence].
Qed.
End Safety.

(** * A run *)

Section Run.
#[local] Instance quiet_handler : Handler := {|
  run_handler c m t := (c, m, Ok tt);
  run_handler_counters c m t c' m' r H := ltac:(injection H as <- <- <-; done);
|}.
#[local] Existing Instance Sample.SampleJson.

Definition run_conn : Conn := (O, mkControl [] [] []).
Definition run_counters : Metrics := on_accepted (fun _ => 1) (on_queue_depth_max (fun _ => 1) metrics_default).

(** One connection, accepted and taken by the first of two workers. *)
Definition run_state : State :=
  mkState (mkShared (on_queue_depth (fun _ => 1) run_counters) [] (Some O) [] [] 0 1) MAccept
    [WUnlock run_conn; WStart] [run_conn.2].

Lemma run_reachable : reachable 2 run_state.
Proof.
  unfold reachable. change (initial 2) with (mkState (mkShared metrics_default [] None [] [] 0 0) MAccept [WStart; WStart] []).
  eapply rtc_l; [exists Arrival; eapply (step_arrival _ _ _ run_conn.2)|].
  eapply rtc_l; [exists Work; apply step_main, m_count|].
  eapply rtc_l; [exists Work; apply step_main, m_load|].
  eapply rtc_l; [exists Work; apply step_main; eapply m_bump, bump_exchange; vm_compute; reflexivity|].
  eapply rtc_l; [exists Work; apply step_main, m_send; vm_compute; reflexivity|].
  eapply rtc_l; [exists Work; apply step_main, m_accepted|].
  eapply rtc_l; [exists Work; eapply (step_worker O _ _ _ WStart WRecv); [done|by apply w_lock]|].
  eapply rtc_l; [exists Work; eapply (step_worker O _ _ _ WRecv (WUnlock run_conn)); [done|by apply w_recv]|].
  apply rtc_refl.
Qed.

Lemma server_conserves_witness :
  reachable 2 run_state /\ map fst (hands run_state) ++ ids_of (log (shared run_state)) ≡ₚ seq 0 1.
Proof.
  split; [apply run_reachable|].
  refine (proj1 (server_conserves 2 run_state _ run_reachable)). vm_compute. discriminate.
Defined.

Lemma server_gauges_witness :
  reachable 2 run_state /\ 0 <= queue_depth (sm (shared run_state)) <= QUEUE_CAP + 1 + Z.of_nat 2.
Proof.
  split; [apply run_reachable|].
  refine (proj2 (proj2 (proj2 (proj2 (server_gauges 2 run_state _ run_reachable))))). vm_compute. discriminate.
Defined.

Lemma server_peaks_witness :
  reachable 2 run_state /\ queue_depth_max (sm (shared run_state)) = peak_queue_depth (shared run_state).
Proof.
  split; [apply run_reachable|].
  refine (proj2 (proj2 (proj2 (proj2 (proj2 (server_peaks 2 run_state _ run_reachable))))) _); [|reflexivity].
  vm_compute. discriminate.
Defined.
End Run.
