(* ===== verification/ServerProgress.v ===== *)
(** Progress of the server of Server.v: the work of the threads between two
    arrivals ends, however they interleave and however often the
    [compare_exchange_weak] of [bump_max] has to be retried, and it ends only
    when nothing is left to do. *)

From stdpp Require Import relations.
From S2P Require Import Prelude RustStr BTree Json Io Frames Metrics Server ServerSafety.
Local Open Scope Z_scope.

(** * A measure *)

(** How many steps a thread is from where it waits; a queued connection costs
    a worker twelve steps. *)
Definition worker_rank (p : WorkerPc) : Z :=
  match p with
  | WUnlock _ => 12
  | WDequeue _ => 11
  | WEnter _ => 10
  | WLoad _ _ => 9
  | WBump _ _ _ => 8
  | WHandle _ => 7
  | WTime _ _ => 6
  | WLeave _ _ => 5
  | WCount _ _ => 4
  | WReply _ _ => 3
  | WStart => 2
  | WRecv => 1
  end.

Definition main_rank (p : MainPc) : Z :=
  match p with
  | MCount _ => 17
  | MLoad _ _ => 16
  | MBump _ _ _ => 15
  | MSend _ => 14
  | MFull _ => 3
  | MShed _ => 2
  | MBusy _ | MAccepted | MDisconnected _ => 1
  | MAccept | MStop => 0
  end.

(** A value of the maximum that is out of date costs one retry. *)
Definition stale (max : Z) (p : WorkerPc) : Z :=
  match p with WBump _ _ m => if decide (m = max) then 0 else 1 | _ => 0 end.
Definition main_stale (max : Z) (p : MainPc) : Z :=
  match p with MBump _ _ m => if decide (m = max) then 0 else 1 | _ => 0 end.

(** A thread that moves a maximum makes the values the other threads hold
    stale: its own step weighs more than all of them. *)
Definition weight (st : State) : Z := zlen (workers st) + 2.

Definition rank (st : State) : Z :=
  main_rank (main_pc st) + 12 * zlen (queue (shared st)) + total worker_rank (workers st).
Definition staleness (st : State) : Z :=
  main_stale (queue_depth_max (sm (shared st))) (main_pc st)
  + total (stale (in_flight_max (sm (shared st)))) (workers st).
Definition measure (st : State) : Z := weight st * rank st + staleness st.

Section Progress.
Context `{SJ : SerdeJson} `{HA : Handler}.

Lemma stale_bounds max p : 0 <= stale max p <= 1.
Proof. destruct p; cbn; try case_decide; lia. Qed.

Lemma main_stale_bounds max p : 0 <= main_stale max p <= 1.
Proof. destruct p; cbn; try case_decide; lia. Qed.

Lemma staleness_bounds st : 0 <= staleness st <= zlen (workers st) + 1.
Proof.
  unfold staleness.
  pose proof (main_stale_bounds (queue_depth_max (sm (shared st))) (main_pc st)).
  pose proof (total_bounds (stale (in_flight_max (sm (shared st)))) (workers st) (stale_bounds _)). lia.
Qed.

Lemma rank_nonneg st : 0 <= rank st.
Proof.
  unfold rank. pose proof (zlen_nonneg (queue (shared st))).
  assert (0 <= main_rank (main_pc st)) by (destruct (main_pc st); cbn; lia).
  pose proof (total_nonneg worker_rank (workers st) ltac:(intros []; cbn; lia)). lia.
Qed.

Lemma measure_nonneg st : 0 <= measure st.
Proof.
  unfold measure, weight. pose proof (rank_nonneg st). pose proof (staleness_bounds st).
  pose proof (zlen_nonneg (workers st)). nia.
Qed.

(** A step either brings a thread forward, or replaces a stale value. *)
Lemma work_step_advances st st' :
  step Work st st' ->
  rank st' + 1 <= rank st \/ (rank st' = rank st /\ staleness st' + 1 <= staleness st).
Proof.
  unfold rank, staleness. intros H. step_cases H; rewrite ?R7, ?R9;
    repeat match goal with E : queue _ = _ |- _ => rewrite E in *; clear E end;
    rewrite ?zlen_app, ?zlen_cons, ?zlen_nil;
    try (erewrite !total_insert by eassumption); cbn [main_rank worker_rank main_stale stale];
    try (left; lia); try (destruct r; left; cbn; lia).
  all: right; split; [lia|]; repeat case_decide; (congruence || lia).
Qed.

Lemma work_step_measure st st' : step Work st st' -> measure st' + 1 <= measure st.
Proof.
  intros H. pose proof (work_step_advances _ _ H) as D. pose proof (step_workers _ _ _ H) as L.
  pose proof (staleness_bounds st). pose proof (staleness_bounds st').
  unfold measure, weight, zlen in *. rewrite L in *. nia.
Qed.

(** * Runs *)

(** A run, with the number of arrivals and of steps of work in it; the
    spurious failures of [compare_exchange_weak] are not counted. *)
Inductive run : nat -> nat -> State -> State -> Prop :=
  | run_nil st : run 0 0 st st
  | run_arrival a w st st1 st2 : step Arrival st st1 -> run a w st1 st2 -> run (S a) w st st2
  | run_spurious a w st st1 st2 : step Spurious st st1 -> run a w st1 st2 -> run a w st st2
  | run_work a w st st1 st2 : step Work st st1 -> run a w st1 st2 -> run a (S w) st st2.

Lemma spurious_same st st' : step Spurious st st' -> st' = st.
Proof.
  intros H. step_cases H; f_equal; try (by apply list_insert_id); by destruct s as [[]].
Qed.

Lemma arrival_measure st st' : step Arrival st st' -> measure st' = measure st + 17 * weight st.
Proof.
  intros H. step_cases H. unfold measure, weight, rank, staleness. cbn [main_rank main_stale shared main_pc workers queue sm]. nia.
Qed.

Lemma run_measure a w st st' :
  run a w st st' ->
  length (workers st') = length (workers st)
  /\ Z.of_nat w + measure st' <= measure st + 17 * weight st * Z.of_nat a.
Proof.
  induction 1 as [|a w st st1 st2 H _ [L IH]|a w st st1 st2 H _ IH|a w st st1 st2 H _ [L IH]].
  - lia.
  - pose proof (arrival_measure _ _ H). pose proof (step_workers _ _ _ H) as L1.
    unfold weight, zlen in *. rewrite L1 in *. split; [congruence|]. nia.
  - by rewrite (spurious_same _ _ H) in *.
  - pose proof (work_step_measure _ _ H). pose proof (step_workers _ _ _ H) as L1.
    unfold weight, zlen in *. rewrite L1 in *. split; [congruence|]. lia.
Qed.

Lemma run_any a w st st' : run a w st st' -> rtc any_step st st'.
Proof.
  induction 1; [apply rtc_refl| | |]; (eapply rtc_l; [by eexists|done]).
Qed.

(** * Standing still *)

(** Every thread waits, with nothing to wait for but an arrival. *)
Definition idle (st : State) : Prop :=
  main_pc st = MAccept /\ queue (shared st) = [] /\ Forall (fun p => p = WStart \/ p = WRecv) (workers st).

Definition main_movable (p : MainPc) : Prop :=
  match p with MAccept | MStop | MDisconnected _ => False | _ => True end.
Definition worker_movable (s : Shared) (p : WorkerPc) : Prop :=
  match p with WStart => lock s = None | WRecv => queue s <> [] | _ => True end.
Definition waits (p : WorkerPc) : bool := match p with WStart | WRecv => true | _ => false end.

Lemma bump_moves cur m max : exists m' max', bump_max cur Work m max m' max'.
Proof.
  destruct (decide (cur <= m)); [do 2 eexists; by constructor|].
  destruct (decide (max = m)) as [->|]; do 2 eexists; constructor; lia.
Qed.

Lemma main_moves ws s pc : main_movable pc -> exists s' pc', main_step ws Work s pc s' pc'.
Proof.
  destruct pc as [|c|c q|c q m|c| |c|c|c|c|]; intros Hpc; try done; try (by repeat econstructor).
  - destruct (bump_moves q m (queue_depth_max (sm s))) as (m' & max' & B). do 2 eexists. by eapply m_bump.
  - destruct (decide (zlen (queue s) < QUEUE_CAP)); [by repeat econstructor|].
    do 2 eexists. apply m_full. lia.
Qed.

Lemma worker_moves i s p : worker_movable s p -> exists s' p', worker_step i Work s p s' p'.
Proof.
  destruct p as [| |c|c|c|c now|c now m|[id c]|c o|c o|c [|e|]|c e]; intros Hp;
    lazymatch goal with
    | |- context [WHandle] => idtac
    | |- context [WTime] => do 2 eexists; by apply (w_time _ _ _ _ 0)
    | _ => try (by (do 2 eexists; constructor))
    end.
  - cbn in Hp. destruct (queue s) as [|c q] eqn:E; [done|]. do 2 eexists. by eapply w_recv.
  - destruct (bump_moves now m (in_flight_max (sm s))) as (m' & max' & B). do 2 eexists. by eapply w_bump.
  - destruct (run_handler c (sm s) 0) as [[c' m'] r] eqn:E. do 2 eexists. by eapply w_handle.
Qed.

Lemma worker_moves_state st i p :
  workers st !! i = Some p -> worker_movable (shared st) p -> exists st', step Work st st'.
Proof.
  intros Hi M. destruct st as [s pc ws k]. destruct (worker_moves i s p M) as (s' & p' & X).
  eexists. by eapply step_worker.
Qed.

(** With all its workers waiting, one of them can move, unless the queue is
    empty and one of them holds the receiver. *)
Lemma waiting_moves n st :
  (0 < n)%nat -> server_ok n st -> Forall (fun p => waits p = true) (workers st) ->
  queue (shared st) = [] \/ exists st', step Work st st'.
Proof.
  intros Hn [W _ _ _ [L B] _ _ _ _] F. rewrite Forall_lookup in F.
  destruct (lock (shared st)) as [i|] eqn:El.
  - destruct (lookup_lt_is_Some_2 (workers st) i (B i eq_refl)) as [p Hi].
    assert (Hp : has_lock p = true) by (by apply (L i p Hi)).
    assert (Hw : waits p = true) by (by eapply F).
    destruct p; try done. destruct (queue (shared st)) eqn:Eq; [by left|right].
    eapply (worker_moves_state _ _ _ Hi). cbn. by rewrite Eq.
  - right. destruct (lookup_lt_is_Some_2 (workers st) O ltac:(lia)) as [p Hi].
    assert (Hp : has_lock p <> true) by (rewrite (L O p Hi); done).
    assert (Hw : waits p = true) by (by eapply F).
    destruct p; try done. by eapply (worker_moves_state _ _ _ Hi).
Qed.

Lemma idle_or_moves n st : (0 < n)%nat -> server_ok n st -> idle st \/ exists st', step Work st st'.
Proof.
  intros Hn O. assert (D : main_pc st = MAccept \/ main_movable (main_pc st)).
  { pose proof (ok_accepting _ _ O) as A. unfold accepting in A. destruct (main_pc st); auto. }
  destruct D as [D|D].
  - destruct (decide (Forall (fun p => waits p = true) (workers st))) as [F|F].
    + destruct (waiting_moves _ _ Hn O F) as [Q|M]; [left|by right].
      split; [done|split; [done|]]. eapply Forall_impl; [|exact F]. intros []; cbn; auto; done.
    + right. apply not_Forall_Exists in F; [|apply _]. apply Exists_exists in F as (p & Hp & Hw).
      apply list_elem_of_In, list_elem_of_lookup in Hp as [i Hi]. apply (worker_moves_state _ _ _ Hi). destruct p; cbn in *; congruence || done.
  - right. destruct st as [s pc ws k]. destruct (main_moves ws s pc D) as (s' & pc' & M).
    eexists. by apply step_main.
Qed.

(** When every thread waits, the fate of every connection is decided. *)
Lemma idle_hands st : idle st -> hands st = [].
Proof.
  intros (Hm & Hq & Hw). unfold hands. rewrite Hm, Hq. cbn [main_conn option_list app].
  induction Hw as [|p ws [-> | ->] _ IH]; done.
Qed.

Lemma total_idle f ws :
  Forall (fun p => p = WStart \/ p = WRecv) ws -> f WStart = 0 -> f WRecv = 0 -> total f ws = 0.
Proof.
  intros H Hs Hr. induction H as [|p ws [-> | ->] _ IH]; [done| |];
    unfold total in *; cbn [fold_right]; lia.
Qed.

(** Work goes on until every thread waits. *)
Lemma work_ends n st : Z.of_nat n <= N_WORKERS -> (0 < n)%nat -> server_ok n st ->
  exists w st', run 0 w st st' /\ idle st'.
Proof.
  intros Hn Hp. assert (G : forall k st, measure st <= Z.of_nat k -> server_ok n st -> exists w st', run 0 w st st' /\ idle st').
  { clear st. induction k as [|k IH]; intros st Hk O; (destruct (idle_or_moves _ _ Hp O) as [|[st1 H]];
      [exists 0%nat, st; by split; [constructor|]|]); pose proof (work_step_measure _ _ H); pose proof (measure_nonneg st1).
    - lia.
    - destruct (IH st1 ltac:(lia) ltac:(by eapply server_ok_step)) as (w & st' & R & E).
      exists (S w), st'. split; [by econstructor|done]. }
  apply (G (Z.to_nat (measure st)) st). pose proof (measure_nonneg st). lia.
Qed.

Lemma initial_measure n : measure (initial n) = (Z.of_nat n + 2) * (2 * Z.of_nat n).
Proof.
  assert (R : forall f, total f (replicate n WStart) = Z.of_nat n * f WStart).
  { intros f. induction n as [|m IH]; [done|]. change (f WStart + total f (replicate m WStart) = Z.of_nat (S m) * f WStart). lia. }
  unfold measure, weight, rank, staleness, zlen. cbn [initial workers main_pc shared queue sm main_rank main_stale].
  rewrite !R, length_replicate. cbn. lia.
Qed.

(** * Properties *)

(** C13. The server terminates between arrivals: a run of [n] workers in which
    [a] connections arrive has at most [(n + 2) * (2 * n + 17 * a)] steps of
    work, whatever the interleaving, retries of [bump_max] included; only
    spurious failures of [compare_exchange_weak] can add to it. *)
Theorem server_work_bounded n a w st (R : run a w (initial n) st) :
  Z.of_nat w <= (Z.of_nat n + 2) * (2 * Z.of_nat n + 17 * Z.of_nat a).
Proof.
  pose proof (run_measure _ _ _ _ R) as [_ H]. pose proof (measure_nonneg st). pose proof (initial_measure n) as E.
  assert (W : weight (initial n) = Z.of_nat n + 2) by (unfold weight, zlen; cbn; by rewrite length_replicate).
  rewrite E, W in H. nia.
Qed.

(** C12. No connection is left waiting: whatever the server has done, if it has
    a worker at all the threads can go on until every one of them waits for an
    arrival, and a state in which none can go on is such a state; there every
    connection that has arrived has exactly one fate, shed or finished, the
    queue is empty and both gauges are zero. *)
Theorem server_drains n st (Hn : Z.of_nat n <= N_WORKERS) (Hp : (0 < n)%nat) (R : reachable n st) :
  (exists w st', run 0 w st st' /\ idle st')
  /\ ((forall st', ~ step Work st st') ->
       idle st
       /\ ids_of (log (shared st)) ≡ₚ seq 0 (arrived st)
       /\ in_flight (sm (shared st)) = 0 /\ queue_depth (sm (shared st)) = 0).
Proof.
  pose proof (server_ok_reachable _ _ Hn R) as O. split; [by eapply work_ends|].
  intros Stuck. destruct (idle_or_moves _ _ Hp O) as [I|[st' H]]; [|by destruct (Stuck _ H)].
  split; [done|]. split.
  - pose proof (places_perm st (ok_place _ _ O)) as P. by rewrite (idle_hands _ I) in P.
  - destruct (ok_gauges _ _ O) as [Gd Gf]. destruct I as (Im & Iq & Iw). rewrite Gd, Gf, Im, Iq.
    by rewrite !total_idle.
Qed.
End Progress.

(** * A run *)

Section Run.
#[local] Existing Instance ServerSafety.quiet_handler.
#[local] Existing Instance Sample.SampleJson.

Definition first_state : State :=
  mkState (mkShared metrics_default [] None [] [] 0 0) (MCount (O, mkControl [] [] [])) [WStart] [mkControl [] [] []].

Lemma first_arrival : step Arrival (initial 1) first_state.
Proof. apply (step_arrival _ _ []). Qed.

Lemma server_work_bounded_witness :
  exists st, run 1 1 (initial 1) st /\ Z.of_nat 1 <= (Z.of_nat 1 + 2) * (2 * Z.of_nat 1 + 17 * Z.of_nat 1).
Proof.
  assert (R : exists st, run 1 1 (initial 1) st).
  { eexists. eapply run_arrival; [apply first_arrival|].
    eapply run_work; [apply step_main, m_count|]. apply run_nil. }
  destruct R as [st R]. exists st. split; [done|]. exact (server_work_bounded 1 1 1 st R).
Defined.

Lemma server_drains_witness :
  reachable 1 first_state /\ exists w st', run 0 w first_state st' /\ idle st'.
Proof.
  assert (R : reachable 1 first_state) by (apply rtc_once; exists Arrival; apply first_arrival).
  split; [done|]. refine (proj1 (server_drains 1 first_state _ _ R)); [vm_compute; discriminate|lia].
Defined.
End Run.
