(* ===== verification/Report.v ===== *)
(** The report of the counters: [Metrics::snapshot] and [serve_metrics] of
    [main.rs], read by a thread of its own while the server of Server.v runs.

    Every [load] reads one counter at its own moment, so a report is not the
    state of any one moment; what holds of it is proved against the run of the
    server during which it was made.  The averages are IEEE double precision,
    as in the source. *)

From stdpp Require Import relations.
From Stdlib Require Import Floats.SpecFloat.
From S2P Require Import Prelude RustStr BTree Json Io Frames Metrics Server ServerSafety Sample.
Local Open Scope Z_scope.

(** * Double precision *)

Definition f64 : Type := spec_float.
Definition f64_zero : f64 := S754_zero false.
(** [z as f64]. *)
Definition f64_of_u64 (z : Z) : f64 := binary_normalize 53 1024 z 0 false.
Definition f64_div : f64 -> f64 -> f64 := SFdiv 53 1024.
Definition f64_mul : f64 -> f64 -> f64 := SFmul 53 1024.

(** [f64::round]: to the nearest integer, half away from zero. *)
Definition f64_round (x : f64) : f64 :=
  match x with
  | S754_finite s m e =>
      if 0 <=? e then x
      else
        let q := (Zpos m + 2 ^ (- e - 1)) / 2 ^ (- e) in
        if q =? 0 then S754_zero s else binary_normalize 53 1024 (cond_Zopp s q) 0 s
  | _ => x
  end.

(** [json!] of an [f64]: [null] unless it is finite; the text of the number is
    the crate's. *)
Class F64Json `{SerdeJson} := number_from_f64 : f64 -> number.

Definition json_f64 `{F64Json} (x : f64) : value number :=
  match x with
  | S754_zero _ | S754_finite _ _ _ => Number (number_from_f64 x)
  | S754_infinity _ | S754_nan => Null
  end.

(** * Loads *)

(** A computation that reads the counters as they are at each of its loads:
    [now i] at the [i]th. *)
Definition Loads (A : Type) : Type := (nat -> Metrics) -> nat -> A * nat.

Definition ret {A} (a : A) : Loads A := fun _ i => (a, i).
Definition bind {A B} (l : Loads A) (f : A -> Loads B) : Loads B :=
  fun now i => let '(a, j) := l now i in f a now j.
(** [counter.load(Ordering::Relaxed)]. *)
Definition load (counter : Metrics -> Z) : Loads Z := fun now i => (counter (now i), S i).

Declare Scope loads_scope.
Notation "x <- l ; k" := (bind l (fun x => k)) (at level 100, l at next level, right associativity) : loads_scope.
Delimit Scope loads_scope with loads.

Section Report.
Context `{SJ : SerdeJson} `{FJ : !F64Json} `{HA : Handler}.

Definition round2 (x : f64) : f64 := f64_div (f64_round (f64_mul x (f64_of_u64 100))) (f64_of_u64 100).

(** A total of nanoseconds over a count, in milliseconds. *)
Definition average_ms (total : Metrics -> Z) (count : Z) : Loads f64 :=
  if 0 <? count then
    (t <- load total; ret (round2 (f64_div (f64_div (f64_of_u64 t) (f64_of_u64 count)) (f64_of_u64 1000000))))%loads
  else ret f64_zero.

Definition snapshot : Loads bytes := (
  c <- load completed; f <- load failed; p <- load panicked;
  avg_handle_ms <- average_ms handle_ns_total (((c + f) mod 2 ^ 64 + p) mod 2 ^ 64);
  nc <- load nsm_calls;
  avg_nsm_ms <- average_ms nsm_ns_total nc;
  a <- load accepted; s <- load shed; c <- load completed; f <- load failed; p <- load panicked;
  fl <- load in_flight; flm <- load in_flight_max; qd <- load queue_depth; qdm <- load queue_depth_max;
  rb <- load resp_bytes_total;
  ret (to_string (json_object [
    ("n_workers"%bs, json_int N_WORKERS); ("queue_cap"%bs, json_int QUEUE_CAP);
    ("accepted"%bs, json_int a); ("shed"%bs, json_int s);
    ("completed"%bs, json_int c); ("failed"%bs, json_int f); ("panicked"%bs, json_int p);
    ("in_flight"%bs, json_int fl); ("in_flight_max"%bs, json_int flm);
    ("queue_depth"%bs, json_int qd); ("queue_depth_max"%bs, json_int qdm);
    ("avg_handle_ms"%bs, json_f64 avg_handle_ms); ("avg_nsm_ms"%bs, json_f64 avg_nsm_ms);
    ("nsm_calls"%bs, json_int nc); ("resp_bytes_total"%bs, json_int rb)])))%loads.

(** The thread that serves the reports: what it leaves on the connections it
    accepts, [None] where accepting failed; nothing when the port could not be
    bound.  Whether a report could be written does not matter. *)
Fixpoint serve_incoming (incoming : list (option Control)) : Loads (list Control) :=
  match incoming with
  | [] => ret []
  | None :: incoming => serve_incoming incoming
  | Some s :: incoming =>
      (text <- snapshot; served <- serve_incoming incoming; ret ((write_frame STATS text s).1 :: served))%loads
  end.

Definition serve_metrics (bound : result unit bytes) (incoming : list (option Control)) : Loads (list Control) :=
  match bound with
  | Err _ => ret []
  | Ok _ => serve_incoming incoming
  end.

(** * Lemmas *)

(** What a counter holds when nothing wraps around. *)
Definition accepted_count (st : State) : Z :=
  tally is_finished (log (shared st)) + total taken (workers st) + zlen (queue (shared st))
  - not_yet_accepted (main_pc st).
Definition fate_count (f : fate -> bool) (st : State) : Z := tally f (log (shared st)).

Lemma step_counts l st st' :
  step l st st' ->
  accepted_count st <= accepted_count st' /\ (forall f, fate_count f st <= fate_count f st')
  /\ (arrived st <= arrived st')%nat.
Proof.
  unfold accepted_count, fate_count, arrived. intros H.
  step_cases H; rewrite ?tally_cons in *;
    repeat match goal with E : queue _ = _ |- _ => rewrite E in *; clear E end;
    try (erewrite !total_insert by eassumption); rewrite ?length_app; server_simpl;
    rewrite ?zlen_app, ?zlen_cons, ?zlen_nil in *;
    cbn [is_finished is_shed negb not_yet_accepted taken worker_conn] in *;
    change (zlen []) with 0; (split; [lia|split; [|lia]]); intros f; rewrite ?tally_cons; try case_match; lia.
Qed.

Lemma counts_mono st st' :
  rtc any_step st st' ->
  accepted_count st <= accepted_count st' /\ (forall f, fate_count f st <= fate_count f st')
  /\ (arrived st <= arrived st')%nat.
Proof.
  induction 1 as [st|st st1 st2 [l H%step_counts] _ IH]; [by repeat split; try lia|].
  destruct H as (A1 & F1 & R1), IH as (A2 & F2 & R2). split; [lia|split; [|lia]].
  intros f. specialize (F1 f). specialize (F2 f). lia.
Qed.

Lemma tally_bounds f l : 0 <= tally f l <= zlen l.
Proof.
  induction l as [|e l IH]; [done|]. rewrite tally_cons, zlen_cons. case_match; lia.
Qed.

Lemma fates_partition l : tally is_completed l + tally is_failed l + tally is_panicked l + tally is_shed l = zlen l.
Proof.
  induction l as [|[c f] l IH]; [done|]. rewrite !tally_cons, zlen_cons. destruct f as [|[]]; cbn in *; lia.
Qed.

Lemma taken_workers ws : zlen (omap worker_conn ws) = total taken ws.
Proof.
  induction ws as [|p ws IH]; [done|].
  change (total taken (p :: ws)) with (taken p + total taken ws). rewrite <-IH. unfold omap, taken. cbn [list_omap].
  destruct (worker_conn p); [by rewrite zlen_cons|done].
Qed.

Lemma arrived_bounds n st :
  Z.of_nat n <= N_WORKERS -> reachable n st ->
  0 <= accepted_count st <= Z.of_nat (arrived st) /\ zlen (log (shared st)) <= Z.of_nat (arrived st).
Proof.
  intros Hn R. pose proof (server_ok_reachable _ _ Hn R) as [_ _ I _ _ _ _ _ _].
  apply places_perm, Permutation_length in I.
  rewrite length_seq, length_app, length_map in I. unfold hands, ids_of in I. rewrite !length_app, length_map in I.
  pose proof (taken_workers (workers st)) as T. pose proof (tally_bounds is_finished (log (shared st))) as F.
  destruct (counts_mono _ _ R) as (A & _ & _).
  unfold accepted_count at 1 in A. cbn -[total replicate] in A. rewrite total_zero in A by done. change (zlen []) with 0 in A.
  unfold accepted_count in *. unfold zlen in *. change (nat * Control)%type with Conn in *.
  assert (0 <= not_yet_accepted (main_pc st)) by (destruct (main_pc st); cbn; lia). lia.
Qed.

(** Below [2^64] connections the counters hold the counts. *)
Lemma counters_exact n st :
  Z.of_nat n <= N_WORKERS -> reachable n st -> Z.of_nat (arrived st) < 2 ^ 64 ->
  let m := sm (shared st) in
  accepted m = accepted_count st /\ shed m = fate_count is_shed st /\ completed m = fate_count is_completed st
  /\ failed m = fate_count is_failed st /\ panicked m = fate_count is_panicked st.
Proof.
  intros Hn R Hb. destruct (arrived_bounds _ _ Hn R) as [A L].
  pose proof (server_ok_reachable _ _ Hn R) as [_ _ _ _ _ _ _ _ (T1 & T2 & T3 & T4 & T5)].
  assert (B : forall f, 0 <= tally f (log (shared st)) < 2 ^ 64)
    by (intros f; pose proof (tally_bounds f (log (shared st))); lia).
  cbv zeta. rewrite T1, T2, T3, T4, T5. unfold counted, accepted_count, fate_count in *.
  repeat split; apply Z.mod_small; auto. lia.
Qed.

(** * A run while it is reported *)

(** The states of the server at the loads, [st i] at the [i]th: the server goes
    on in between. *)
Definition watched (n : nat) (st : nat -> State) : Prop :=
  reachable n (st O) /\ forall i, rtc any_step (st i) (st (S i)).

Definition counters (st : nat -> State) (i : nat) : Metrics := sm (shared (st i)).

Lemma watched_mono n st i j : watched n st -> (i <= j)%nat -> rtc any_step (st i) (st j).
Proof. intros [_ W]. induction 1 as [|j _ IH]; [done|]. by etransitivity. Qed.

Lemma watched_reachable n st i : watched n st -> reachable n (st i).
Proof. intros W. unfold reachable. etransitivity; [apply W|]. apply (watched_mono n st 0 i W). lia. Qed.

(** The counters that only grow. *)
Definition growing : list (Metrics -> Z) := [accepted; shed; completed; failed; panicked].

Lemma growing_mono n st i j counter :
  Z.of_nat n <= N_WORKERS -> watched n st -> (i <= j)%nat -> Z.of_nat (arrived (st j)) < 2 ^ 64 ->
  In counter growing -> 0 <= counter (counters st i) <= counter (counters st j).
Proof.
  intros Hn W Hij Hb Hin. destruct (counts_mono _ _ (watched_mono _ _ _ _ W Hij)) as (A & F & R).
  destruct (counters_exact n (st i) Hn (watched_reachable _ _ _ W) ltac:(lia)) as (A1 & S1 & C1 & F1 & P1).
  destruct (counters_exact n (st j) Hn (watched_reachable _ _ _ W) Hb) as (A2 & S2 & C2 & F2 & P2).
  destruct (arrived_bounds n (st i) Hn (watched_reachable _ _ _ W)) as [B _].
  assert (T : forall f, 0 <= fate_count f (st i)) by (intros f; apply tally_bounds).
  unfold counters. cbn in Hin. destruct Hin as [<-|[<-|[<-|[<-|[<-|[]]]]]];
    rewrite ?A1, ?A2, ?S1, ?S2, ?C1, ?C2, ?F1, ?F2, ?P1, ?P2; split; auto; lia.
Qed.

(** What a report made between the loads [from] and [to] says. *)
Inductive truthful (n : nat) (st : nat -> State) (from to : nat) : bytes -> Prop :=
  | truthful_report a s c f p fl flm qd qdm ah an nc rb :
      accepted (counters st from) <= a <= accepted (counters st to) ->
      shed (counters st from) <= s <= shed (counters st to) ->
      completed (counters st from) <= c <= completed (counters st to) ->
      failed (counters st from) <= f <= failed (counters st to) ->
      panicked (counters st from) <= p <= panicked (counters st to) ->
      c + f + p + s <= Z.of_nat (arrived (st to)) ->
      0 <= fl <= Z.of_nat n -> flm <= Z.of_nat n ->
      0 <= qd <= QUEUE_CAP + 1 + Z.of_nat n -> qdm <= QUEUE_CAP + 1 + Z.of_nat n ->
      (exists i, (from <= i <= to)%nat /\ nc = nsm_calls (counters st i)) ->
      (exists i, (from <= i <= to)%nat /\ rb = resp_bytes_total (counters st i)) ->
      (c + f + p = 0 -> ah = f64_zero) -> (nc = 0 -> an = f64_zero) ->
      truthful n st from to (to_string (json_object [
        ("n_workers"%bs, json_int 64); ("queue_cap"%bs, json_int 256);
        ("accepted"%bs, json_int a); ("shed"%bs, json_int s);
        ("completed"%bs, json_int c); ("failed"%bs, json_int f); ("panicked"%bs, json_int p);
        ("in_flight"%bs, json_int fl); ("in_flight_max"%bs, json_int flm);
        ("queue_depth"%bs, json_int qd); ("queue_depth_max"%bs, json_int qdm);
        ("avg_handle_ms"%bs, json_f64 ah); ("avg_nsm_ms"%bs, json_f64 an);
        ("nsm_calls"%bs, json_int nc); ("resp_bytes_total"%bs, json_int rb)])).

(** One average makes at most one load. *)
Lemma average_ms_loads total count now i :
  exists avg d, average_ms total count now i = (avg, (i + d)%nat) /\ (d <= 1)%nat /\ (count <= 0 -> avg = f64_zero).
Proof.
  unfold average_ms, ret, bind, load. destruct (Z.ltb_spec 0 count).
  - eexists _, 1%nat. rewrite Nat.add_1_r. split; [done|]. split; [lia|lia].
  - exists f64_zero, O. rewrite Nat.add_0_r. split; [done|split; [lia|done]].
Qed.

Lemma gauges_read n st i :
  Z.of_nat n <= N_WORKERS -> watched n st ->
  0 <= in_flight (counters st i) <= Z.of_nat n /\ in_flight_max (counters st i) <= Z.of_nat n
  /\ 0 <= queue_depth (counters st i) <= QUEUE_CAP + 1 + Z.of_nat n
  /\ queue_depth_max (counters st i) <= QUEUE_CAP + 1 + Z.of_nat n.
Proof.
  intros Hn W. pose proof (server_ok_reachable _ _ Hn (watched_reachable _ _ i W)) as [Wl _ _ _ _ [Gd Gf] [(B & _) F] (D1 & _ & _ & D) _].
  assert (Bd := total_bounds in_depth (workers (st i)) ltac:(intros []; cbn; lia)).
  assert (Bf := total_bounds in_flight_now (workers (st i)) ltac:(intros []; cbn; lia)).
  assert (Bm : 0 <= main_in_depth (main_pc (st i))) by (destruct (main_pc (st i)); cbn; lia).
  assert (Zq := zlen_nonneg (queue (shared (st i)))). unfold counters, zlen in *. rewrite Wl in *. lia.
Qed.

Lemma snapshot_truthful n st i :
  Z.of_nat n <= N_WORKERS -> watched n st ->
  exists text k, snapshot (counters st) i = (text, k) /\ (i <= k)%nat
    /\ (Z.of_nat (arrived (st k)) < 2 ^ 64 -> truthful n st i k text).
Proof.
  intros Hn W. unfold snapshot. unfold bind at 1, load at 1. unfold bind at 1, load at 1. unfold bind at 1, load at 1.
  set (c0 := completed _). set (f0 := failed _). set (p0 := panicked _). unfold bind at 1.
  destruct (average_ms_loads handle_ns_total (((c0 + f0) mod 2 ^ 64 + p0) mod 2 ^ 64) (counters st) (S (S (S i))))
    as (ah & d1 & -> & Hd1 & Hah).
  unfold bind at 1, load at 1. unfold bind at 1.
  destruct (average_ms_loads nsm_ns_total (nsm_calls (counters st (S (S (S i)) + d1))) (counters st) (S (S (S (S i)) + d1)))
    as (an & d2 & -> & Hd2 & Han).
  unfold bind, load, ret. cbv beta iota. eexists _, _. split; [reflexivity|]. split; [lia|].
  intros Hb. match type of Hb with context [st ?e] => set (k := e) in * end.
  assert (G : forall j j' counter, (i <= j <= j')%nat -> (j' <= k)%nat -> In counter growing ->
    0 <= counter (counters st j) <= counter (counters st j')).
  { intros j j' counter Hj Hj' Hin. destruct (counts_mono _ _ (watched_mono _ _ j' k W Hj')) as (_ & _ & R).
    eapply growing_mono; [exact Hn|exact W|lia|lia|exact Hin]. }
  assert (F : completed (counters st k) + failed (counters st k) + panicked (counters st k) + shed (counters st k)
    <= Z.of_nat (arrived (st k))).
  { unfold counters. destruct (counters_exact n (st k) Hn (watched_reachable _ _ _ W) Hb) as (_ & -> & -> & -> & ->).
    unfold fate_count. rewrite fates_partition. apply (proj2 (arrived_bounds n (st k) Hn (watched_reachable _ _ _ W))). }
  constructor; try (eapply gauges_read; eassumption); try (eexists; split; [|reflexivity]; lia);
    try (split; eapply G; try lia; cbn; tauto).
  - match goal with |- ?f (counters st ?a) + ?g (counters st ?b) + ?h (counters st ?c) + ?l (counters st ?d) <= _ =>
      pose proof (G a k f ltac:(lia) (le_n k) ltac:(cbn; tauto)); pose proof (G b k g ltac:(lia) (le_n k) ltac:(cbn; tauto));
      pose proof (G c k h ltac:(lia) (le_n k) ltac:(cbn; tauto)); pose proof (G d k l ltac:(lia) (le_n k) ltac:(cbn; tauto))
    end. lia.
  - match goal with |- ?f (counters st ?a) + ?g (counters st ?b) + ?h (counters st ?c) = 0 -> _ =>
      pose proof (G i a f ltac:(lia) ltac:(lia) ltac:(cbn; tauto)); pose proof (G (S i) b g ltac:(lia) ltac:(lia) ltac:(cbn; tauto));
      pose proof (G (S (S i)) c h ltac:(lia) ltac:(lia) ltac:(cbn; tauto))
    end.
    intros Hz. apply Hah.
    replace c0 with 0 by (unfold c0; lia). replace f0 with 0 by (unfold f0; lia). by replace p0 with 0 by (unfold p0; lia).
  - intros Hz. apply Han. lia.
Qed.

Lemma incoming_served n st incoming i :
  Z.of_nat n <= N_WORKERS -> watched n st ->
  exists served k, serve_incoming incoming (counters st) i = (served, k) /\ (i <= k)%nat
    /\ (Z.of_nat (arrived (st k)) < 2 ^ 64 ->
        Forall2 (fun c c' => exists from to text, (i <= from <= to)%nat /\ (to <= k)%nat
          /\ truthful n st from to text /\ c' = (write_frame STATS text c).1) (omap id incoming) served).
Proof.
  intros Hn W. revert i. induction incoming as [|[c|] incoming IH]; intros i; cbn [serve_incoming].
  - exists [], i. split; [done|]. split; [lia|constructor].
  - unfold bind at 1. destruct (snapshot_truthful n st i Hn W) as (text & k1 & -> & Hk1 & Ht).
    unfold bind. destruct (IH k1) as (served & k & -> & Hk & Hs). unfold ret.
    eexists _, k. split; [done|]. split; [lia|]. intros Hb.
    destruct (counts_mono _ _ (watched_mono _ _ k1 k W Hk)) as (_ & _ & R).
    constructor; [exists i, k1, text; split; [lia|]; split; [lia|]; split; [apply Ht; lia|done]|].
    eapply Forall2_impl; [|by apply Hs]. intros x y (from & to & tx & Hf & Hto & Htx & ->).
    exists from, to, tx. split; [lia|done].
  - destruct (IH i) as (served & k & -> & Hk & Hs). by exists served, k.
Qed.

(** * Property *)

(** C32. Every connection to the metrics port is sent one report, and the report is
    true of the run of the server during which it was made, although each
    counter is read at a moment of its own: what only grows is between its
    value at the start and at the end of the report, the fates reported add up
    to no more than the connections that have arrived, the gauges and their
    maxima are within the bounds of the server, and an average is zero when
    nothing was averaged. *)
Theorem reports_truthful n st bound incoming :
  Z.of_nat n <= N_WORKERS -> watched n st ->
  exists served k, serve_metrics bound incoming (counters st) O = (served, k)
    /\ match bound with
       | Err _ => served = []
       | Ok _ => Z.of_nat (arrived (st k)) < 2 ^ 64 ->
           Forall2 (fun c c' => exists from to text, (from <= to <= k)%nat /\ truthful n st from to text
             /\ c' = (write_frame STATS text c).1
             /\ (write_limit c = [] -> outbox c' = outbox c ++ frame STATS text)) (omap id incoming) served
       end.
Proof.
  intros Hn W. unfold serve_metrics. destruct bound as [[]|e]; [|by exists [], O].
  destruct (incoming_served n st incoming O Hn W) as (served & k & -> & _ & Hs).
  exists served, k. split; [done|]. intros Hb. eapply Forall2_impl; [|by apply Hs].
  intros c c' (from & to & text & Hf & Hto & Ht & ->). exists from, to, text. split; [lia|]. split; [done|]. split; [done|].
  destruct c as [ib ob lim]. cbn [write_limit]. intros ->. cbn. unfold frame, frame_header. by rewrite <-app_assoc.
Qed.
End Report.

(** * Samples and witness *)

(** 1.234567 ms over two connections, to hundredths. *)
Example average_rounded :
  fst (average_ms handle_ns_total 2 (fun _ => on_handle_ns_total (fun _ => 1234567) metrics_default) 0%nat)
    = f64_div (f64_of_u64 62) (f64_of_u64 100).
Proof. vm_compute. reflexivity. Qed.

Section Witness.
#[local] Instance quiet_handler : Handler := {|
  run_handler c m t := (c, m, Ok tt);
  run_handler_counters c m t c' m' r H := ltac:(injection H as <- <- <-; done);
|}.
#[local] Existing Instance Sample.SampleJson.

(** Numbers to hundredths. *)
#[local] Instance hundredths : F64Json := fun x =>
  match f64_round (f64_mul x (f64_of_u64 100)) with
  | S754_finite _ m e => Zpos m * 2 ^ e
  | _ => 0
  end.

(** A connection arrives before the report and is served while it is made. *)
Definition report_conn : Conn := (O, mkControl [] [] []).
Definition waiting_state : State :=
  mkState (mkShared metrics_default [] None [] [] 0 0) (MCount report_conn) [WStart] [report_conn.2].
Definition served_counters : Metrics :=
  on_accepted (fun _ => 1) (on_completed (fun _ => 1) (on_handle_ns_total (fun _ => 5)
    (on_queue_depth_max (fun _ => 1) (on_in_flight_max (fun _ => 1) metrics_default)))).
Definition served_state : State :=
  mkState (mkShared served_counters [] None [(report_conn, Finished Returned)] [] 1 1) MAccept [WStart] [report_conn.2].

Lemma waiting_served : rtc any_step waiting_state served_state.
Proof.
  eapply rtc_l; [exists Work; apply step_main, m_count|].
  eapply rtc_l; [exists Work; apply step_main, m_load|].
  eapply rtc_l; [exists Work; apply step_main; eapply m_bump, bump_exchange; vm_compute; reflexivity|].
  eapply rtc_l; [exists Work; apply step_main, m_send; vm_compute; reflexivity|].
  eapply rtc_l; [exists Work; apply step_main, m_accepted|].
  eapply rtc_l; [exists Work; eapply (step_worker O _ _ _ WStart WRecv); [done|by apply w_lock]|].
  eapply rtc_l; [exists Work; eapply (step_worker O _ _ _ WRecv (WUnlock report_conn)); [done|by apply w_recv]|].
  eapply rtc_l; [exists Work; eapply (step_worker O); [done|apply w_unlock]|].
  eapply rtc_l; [exists Work; eapply (step_worker O); [done|apply w_dequeue]|].
  eapply rtc_l; [exists Work; eapply (step_worker O); [done|apply w_enter]|].
  eapply rtc_l; [exists Work; eapply (step_worker O); [done|apply w_load]|].
  eapply rtc_l; [exists Work; eapply (step_worker O); [done|eapply w_bump, bump_exchange; vm_compute; reflexivity]|].
  eapply rtc_l; [exists Work; eapply (step_worker O); [done|by eapply (w_handle O _ O _ 0)]|].
  eapply rtc_l; [exists Work; eapply (step_worker O); [done|apply (w_time O _ _ _ 5)]|].
  eapply rtc_l; [exists Work; eapply (step_worker O); [done|apply w_leave]|].
  eapply rtc_l; [exists Work; eapply (step_worker O); [done|apply w_completed]|].
  apply rtc_refl.
Qed.

Definition report_run (i : nat) : State := if (i <? 4)%nat then waiting_state else served_state.

Lemma report_watched : watched 1 report_run.
Proof.
  split; [eapply rtc_l; [exists Arrival; eapply (step_arrival _ _ _ report_conn.2)|apply rtc_refl]|].
  intros i. unfold report_run. destruct (Nat.ltb_spec i 4), (Nat.ltb_spec (S i) 4); try lia;
    [apply rtc_refl|apply waiting_served|apply rtc_refl].
Qed.

Definition report_control : Control := mkControl [] [] [].

Lemma reports_truthful_witness :
  exists from to text c', truthful 1 report_run from to text
    /\ fst (serve_metrics (Ok tt) [None; Some report_control] (counters report_run) O) = [c']
    /\ outbox c' = frame STATS text.
Proof.
  destruct (reports_truthful 1 report_run (Ok tt) [None; Some report_control] ltac:(vm_compute; discriminate) report_watched)
    as (served & k & E & Hs).
  specialize (Hs ltac:(unfold report_run; destruct (k <? 4)%nat; vm_compute; reflexivity)).
  inversion Hs as [|c c' l l' (from & to & text & _ & Ht & _ & Ho) Hr]; subst. inversion Hr; subst.
  exists from, to, text, c'. split; [exact Ht|]. split; [by rewrite E|]. by rewrite Ho.
Defined.
End Witness.
