(* ===== verification/Service.v ===== *)
(** The service as its clients see it: the server of Server.v with [handle] as
    the handler of its workers.  What each connection that arrived has been
    sent is traced through the queue, the workers and the handler. *)

From stdpp Require Import relations.
From S2P Require Import Prelude RustStr BTree Json Digest Base64 Protocol Statement Io Frames Http1 H2Client.
From S2P Require Import Egress Evidence Metrics Trailer Handle Transcript Server ServerSafety ServerProgress Sample.
From S2P Require AliyunHelper.
Local Open Scope Z_scope.

Section Traces.
Context `{SJ : SerdeJson} `{HA : Handler}.

(** ** From the arrival to the fate *)

(** The connection is as it arrived. *)
Definition fresh (l : list Control) (c : Conn) : Prop := l !! c.1 = Some c.2.

(** The connection is what the handler has made of it. *)
Definition handled (l : list Control) (c : Conn) (o : outcome) : Prop :=
  exists c0, l !! c.1 = Some c0 /\
    match o with
    | Returned => exists m t m', run_handler c0 m t = (c.2, m', Ok tt)
    | ReturnedErr e => exists m t m', run_handler c0 m t = (c.2, m', Err (Fails e))
    | Panicked => True
    end.

Definition fated (l : list Control) (e : Conn * fate) : Prop :=
  match e.2 with Shed => fresh l e.1 | Finished o => handled l e.1 o end.

Definition main_traced (l : list Control) (p : MainPc) : Prop :=
  match p with
  | MCount c | MLoad c _ | MBump c _ _ | MSend c | MFull c | MShed c | MBusy c | MDisconnected c => fresh l c
  | MAccept | MAccepted | MStop => True
  end.

Definition worker_traced (l : list Control) (p : WorkerPc) : Prop :=
  match p with
  | WUnlock c | WDequeue c | WEnter c | WLoad c _ | WBump c _ _ | WHandle c => fresh l c
  | WTime c o | WLeave c o | WCount c o => handled l c o
  | WStart | WRecv | WReply _ _ => True
  end.

Record traced (st : State) : Prop := {
  tr_main : main_traced (arrivals st) (main_pc st);
  tr_queue : Forall (fresh (arrivals st)) (queue (shared st));
  tr_workers : Forall (worker_traced (arrivals st)) (workers st);
  tr_log : Forall (fated (arrivals st)) (log (shared st));
}.

Lemma fresh_mono l x c : fresh l c -> fresh (l ++ [x]) c.
Proof. apply lookup_app_l_Some. Qed.

Lemma handled_mono l x c o : handled l c o -> handled (l ++ [x]) c o.
Proof. intros (c0 & Hl & H). exists c0. split; [by apply lookup_app_l_Some|done]. Qed.

Lemma main_traced_mono l x p : main_traced l p -> main_traced (l ++ [x]) p.
Proof. destruct p; cbn; auto using fresh_mono. Qed.

Lemma worker_traced_mono l x p : worker_traced l p -> worker_traced (l ++ [x]) p.
Proof. destruct p; cbn; auto using fresh_mono, handled_mono. Qed.

Lemma fated_mono l x e : fated l e -> fated (l ++ [x]) e.
Proof. destruct e as [c []]; cbn; auto using fresh_mono, handled_mono. Qed.

Lemma traced_initial n : traced (initial n).
Proof. split; cbn; try done. by apply Forall_replicate. Qed.

Lemma traced_step l st st' : step l st st' -> traced st -> traced st'.
Proof.
  intros H [M Q W L]. step_cases H; cbn [main_traced worker_traced] in *;
    try (match goal with K : _ !! _ = Some _ |- _ => pose proof (Forall_lookup_1 _ _ _ _ W K) as P; cbn [worker_traced] in P end);
    try (match goal with E : queue _ = _ |- _ => rewrite E in Q; apply Forall_cons_iff in Q as [Q1 Q] end);
    (split; server_simpl; cbn [main_traced];
      [try done|try done|try (apply Forall_insert; [done|]; cbn [worker_traced]); try done|try (constructor; [|done]); try done]).
  - by apply list_lookup_middle.
  - eapply Forall_impl; [|exact Q]. auto using fresh_mono.
  - eapply Forall_impl; [|exact W]. auto using worker_traced_mono.
  - eapply Forall_impl; [|exact L]. auto using fated_mono.
  - apply Forall_app. split; [done|]. by constructor.
  - exists c. split; [done|]. destruct r as [[]|[e|]]; cbn; eauto.
  - by exists c.
Qed.

Lemma traced_reachable n st : reachable n st -> traced st.
Proof.
  unfold reachable. intros H. assert (T : traced (initial n)) by apply traced_initial.
  induction H as [|st0 st1 st2 [l Hl] _ IH]; [done|]. apply IH. by eapply traced_step.
Qed.

(** ** The server's own answers *)

(** The answer a fate calls for. *)
Definition answer (e : Conn * fate) : option Conn :=
  match e with
  | (c, Shed) => Some (c.1, err_frame "busy"%bs "enclave at capacity, retry"%bs c.2)
  | (c, Finished (ReturnedErr m)) => Some (c.1, err_frame "enclave"%bs m c.2)
  | _ => None
  end.

(** The answers still to be sent. *)
Definition main_owes (p : MainPc) : option Conn :=
  match p with MBusy c => answer (c, Shed) | _ => None end.
Definition worker_owes (p : WorkerPc) : option Conn :=
  match p with WReply c e => answer (c, Finished (ReturnedErr e)) | _ => None end.

Definition answers_exact (st : State) : Prop :=
  omap answer (log (shared st))
    ≡ₚ option_list (main_owes (main_pc st)) ++ omap worker_owes (workers st) ++ replies (shared st).

Lemma insert_split {A} (ws : list A) i p p' :
  ws !! i = Some p -> exists a b, ws = a ++ p :: b /\ <[i := p']> ws = a ++ p' :: b.
Proof.
  intros Hi. exists (take i ws), (drop (S i) ws). split; [by rewrite take_drop_middle|].
  by apply insert_take_drop, lookup_lt_Some with p.
Qed.

Lemma omap_cons_list {A B} (f : A -> option B) x l : omap f (x :: l) = option_list (f x) ++ omap f l.
Proof. cbn. by destruct (f x). Qed.

Lemma answers_step l st st' : step l st st' -> answers_exact st -> answers_exact st'.
Proof.
  unfold answers_exact. intros H I. step_cases H; cbn [main_owes] in *;
    try (match goal with K : _ !! _ = Some _ |- context [<[_ := ?p']> _] =>
      destruct (insert_split _ _ _ p' K) as (a & b & -> & ->) end);
    rewrite ?omap_app, ?omap_cons_list in *; cbn [worker_owes answer option_list app] in *; try done.
  all: cbv [option_list from_option option_rect] in *; cbn [app] in *; rewrite I, <-?app_assoc; cbn [app];
    by rewrite <-?Permutation_middle.
Qed.

Lemma answers_initial n : answers_exact (initial n).
Proof. unfold answers_exact. cbn -[replicate]. induction n as [|n IH]; [done|exact IH]. Qed.

Lemma answers_reachable n st : reachable n st -> answers_exact st.
Proof.
  unfold reachable. intros H. assert (T : answers_exact (initial n)) by apply answers_initial.
  induction H as [|st0 st1 st2 [l Hl] _ IH]; [done|]. apply IH. by eapply answers_step.
Qed.

(** At most one answer for a connection. *)
Lemma answer_id e c : answer e = Some c -> c.1 = e.1.1.
Proof. destruct e as [c0 [|[]]]; cbn; by intros [= <-]. Qed.

Lemma answer_ids_sublist log : map fst (omap answer log) `sublist_of` ids_of log.
Proof.
  induction log as [|e log IH]; [done|]. rewrite omap_cons_list, map_app.
  destruct (answer e) as [c|] eqn:E; cbn.
  - apply answer_id in E. rewrite E. by apply sublist_skip.
  - by apply sublist_cons.
Qed.

Lemma replies_nodup st : in_one_place st -> answers_exact st -> NoDup (map fst (replies (shared st))).
Proof.
  intros I A. apply places_perm in I. unfold answers_exact in A.
  assert (N : NoDup (ids_of (log (shared st)))).
  { assert (N : NoDup (map fst (hands st) ++ ids_of (log (shared st)))) by (rewrite I; apply NoDup_seq).
    by apply list.NoDup_app in N as (_ & _ & N). }
  pose proof (sublist_NoDup _ _ N (answer_ids_sublist (log (shared st)))) as M.
  rewrite A, !map_app in M. by apply list.NoDup_app in M as (_ & _ & (_ & _ & M)%list.NoDup_app).
Qed.

(** When the threads are idle every connection has a fate, and no answer is
    owed. *)
Lemma idle_fate st : in_one_place st -> idle st -> forall id, (id < arrived st)%nat ->
  exists c f, In (c, f) (log (shared st)) /\ c.1 = id.
Proof.
  intros P I id Hid. apply places_perm in P. rewrite (idle_hands _ I) in P. cbn [map app] in P.
  assert (H : In id (ids_of (log (shared st)))) by (eapply Permutation_in; [symmetry; exact P|apply in_seq; lia]).
  apply in_map_iff in H as ([c f] & E & H). by exists c, f.
Qed.

Lemma waiting_owes ws : Forall (fun p => p = WStart \/ p = WRecv) ws -> omap worker_owes ws = [].
Proof. induction 1 as [|p ws [-> | ->] _ IH]; [done|exact IH|exact IH]. Qed.

Lemma idle_answers st r :
  answers_exact st -> idle st -> In r (omap answer (log (shared st))) -> In r (replies (shared st)).
Proof.
  unfold answers_exact. intros A (Im & _ & Iw) H. rewrite Im, (waiting_owes _ Iw) in A.
  cbv [option_list from_option option_rect] in A. cbn [main_owes app] in A. by eapply Permutation_in.
Qed.
End Traces.

(** * The service *)

Section Service.
Context `{SJ : SerdeJson} `{SH : Sha256} `{SL : !Sha256Laws} `{UC : UnicodeCase} `{EN : Env} `{B64 : Base64}
  `{ED : Ed25519} `{HJ : AliyunHelper.HelperJson} `{US : AliyunHelper.UnixSockets}
  `{HC : HttpCrate} `{SO : Sockets} `{TL : !TlsLibraries} `{RH : ReqHeadJson}.
Variable backend : ProofBackend.
#[local] Existing Instance handler_of.
#[local] Instance service_handler : Handler := handler_of backend.

(** The connection has been sent the whole response and its proof. *)
Definition sent_proof (c0 c : Control) : Prop :=
  exists s1 head body nonce_bytes status content_type pieces,
    read_request c0 = (s1, Ok (head, body)) /\ check_head head = Ok nonce_bytes
    /\ complete backend head body nonce_bytes c0 c status content_type pieces.

(** The connection has been sent an error frame as the last thing, after
    nothing or after a response without a proof. *)
Definition sent_error (c0 c : Control) : Prop :=
  outbox c = outbox c0 ++ frame ERR (error_payload "busy"%bs "enclave at capacity, retry"%bs)
  \/ exists e partial,
       outbox c = outbox c0 ++ partial ++ frame ERR (error_payload "enclave"%bs e)
       /\ (partial = [] \/ exists status headers pieces, partial = relayed status headers pieces).

Lemma err_frame_sent code message c :
  write_limit c = [] -> outbox (err_frame code message c) = outbox c ++ frame ERR (error_payload code message).
Proof.
  intros Hl. unfold err_frame.
  destruct (write_frame ERR _ c) as [c' r] eqn:E. pose proof (write_frame_limit _ _ _ _ _ E Hl) as [-> _].
  apply write_frame_outbox in E as (_ & w & E & Hw). cbn [fst]. by rewrite E, Hw.
Qed.

Lemma answer_sent l e r :
  (forall config sni sock, h2_status_typed (h2_peer (rustls_stream config sni sock))) ->
  fated l e -> answer e = Some r ->
  exists c0, l !! r.1 = Some c0 /\ (write_limit c0 = [] -> sent_error c0 r.2).
Proof.
  intros Hty F E. destruct e as [c [|[|m|]]]; try done; cbn in E; injection E as <-; cbn [fst snd].
  - exists c.2. split; [exact F|]. intros Hl. left. by apply err_frame_sent.
  - destruct F as (c0 & Hc & m0 & t & m' & Hr). exists c0. split; [done|]. intros Hl.
    apply handle_transcript in Hr as [_ Hr]; [|done]. destruct (Hr ltac:(done)) as (whole & part & Hout & Hw & _ & Hp).
    destruct (Hp Hl) as [-> Hlim]. cbn [fst snd] in *. right. exists m, whole.
    rewrite err_frame_sent, Hout, app_nil_r, <-app_assoc by done. by split.
Qed.

(** C7. Every client of the service gets a proof or an error, and never both.
    However connections arrive and threads interleave: a connection counted as
    completed has been sent the whole transcript of its request, the proof
    last; every error frame of the server went to a connection that had been
    sent nothing, or a response without a proof (for a connection no write on
    which fails), and at most one to each; and when the threads are idle every connection that arrived has completed, has
    had its error frame, or its handler panicked. *)
Theorem service_answers n st (Hn : Z.of_nat n <= N_WORKERS) (R : reachable n st)
    (Hty : forall config sni sock, h2_status_typed (h2_peer (rustls_stream config sni sock))) :
  (forall c, In (c, Finished Returned) (log (shared st)) ->
     exists c0, arrivals st !! c.1 = Some c0 /\ sent_proof c0 c.2)
  /\ (forall r, In r (replies (shared st)) ->
     exists c0, arrivals st !! r.1 = Some c0 /\ (write_limit c0 = [] -> sent_error c0 r.2))
  /\ NoDup (map fst (replies (shared st)))
  /\ (idle st -> forall id, (id < arrived st)%nat ->
        In id (map fst (replies (shared st)))
        \/ exists c, c.1 = id /\ (In (c, Finished Returned) (log (shared st)) \/ In (c, Finished Panicked) (log (shared st)))).
Proof.
  pose proof (traced_reachable _ _ R) as T. pose proof (answers_reachable _ _ R) as A.
  pose proof (ok_place _ _ (server_ok_reachable _ _ Hn R)) as P.
  pose proof (tr_log _ T) as L. rewrite List.Forall_forall in L.
  split; [|split; [|split; [by apply replies_nodup|]]].
  - intros c Hc%L. destruct Hc as (c0 & Hl & m & t & m' & Hr). exists c0. split; [done|].
    apply handle_transcript in Hr as [Hr _]; [|done].
    destruct (Hr eq_refl) as (s1 & head & body & nb & status & ct & ps & H1 & H2 & _ & H3).
    by exists s1, head, body, nb, status, ct, ps.
  - intros r Hr. assert (Hin : r ∈ omap answer (log (shared st))).
    { rewrite A, !elem_of_app. right. right. by apply list_elem_of_In. }
    apply list_elem_of_omap in Hin as (e & He & E). eapply answer_sent; [done| |exact E].
    apply L. by apply list_elem_of_In.
  - intros I id Hid. destruct (idle_fate _ P I _ Hid) as (c & f & He & <-).
    destruct (answer (c, f)) as [r|] eqn:E.
    + left. pose proof (answer_id _ _ E) as Er. cbn [fst] in Er. rewrite <- Er. apply in_map.
      apply (idle_answers _ _ A I). apply list_elem_of_In, list_elem_of_omap. exists (c, f).
      split; [by apply list_elem_of_In|done].
    + right. exists c. split; [done|]. destruct f as [|[]]; naive_solver.
Qed.
End Service.

(** * A run *)

(** One client of the sample world of Transcript.v, one worker, until the
    connection is counted as completed. *)
Section Run.
#[local] Existing Instance Transcript.quiet_env.
#[local] Existing Instance Transcript.sample_req_head.
#[local] Existing Instance Transcript.no_helper_json.
#[local] Existing Instance Transcript.no_unix.
#[local] Existing Instance Transcript.sample_sockets.
#[local] Existing Instance Transcript.sample_http.
#[local] Instance run_tls : TlsLibraries := sample_tls upstream_script.

Definition run_backend : ProofBackend := LocalEvidence (build_local_evidence_backend "seed"%bs sample_provider).
#[local] Instance run_service : Handler := handler_of run_backend.

Lemma run_handles m t :
  let x := handle sample_control run_backend m t in x = (x.1.1, x.1.2, Ok tt).
Proof.
  assert (E : (handle sample_control run_backend m t).2 = Ok tt) by (vm_compute; reflexivity).
  cbv zeta. destruct (handle _ _ _ _) as [[c' m'] r]. cbn in *. by rewrite E.
Qed.

Lemma run_completes :
  exists st c, reachable 1 st /\ In (c, Finished Returned) (log (shared st)).
Proof.
  unfold reachable. change (initial 1) with (mkState (mkShared metrics_default [] None [] [] 0 0) MAccept [WStart] []).
  do 2 eexists. split.
  { eapply rtc_l; [exists Arrival; apply (step_arrival _ _ _ sample_control)|].
    eapply rtc_l; [exists Work; apply step_main, m_count|].
    eapply rtc_l; [exists Work; apply step_main, m_load|].
    eapply rtc_l; [exists Work; apply step_main; eapply m_bump, bump_exchange; vm_compute; reflexivity|].
    eapply rtc_l; [exists Work; apply step_main, m_send; vm_compute; reflexivity|].
    eapply rtc_l; [exists Work; apply step_main, m_accepted|].
    eapply rtc_l; [exists Work; eapply (step_worker O); [done|by apply w_lock]|].
    eapply rtc_l; [exists Work; eapply (step_worker O); [done|by apply w_recv]|].
    eapply rtc_l; [exists Work; eapply (step_worker O); [done|apply w_unlock]|].
    eapply rtc_l; [exists Work; eapply (step_worker O); [done|apply w_dequeue]|].
    eapply rtc_l; [exists Work; eapply (step_worker O); [done|apply w_enter]|].
    eapply rtc_l; [exists Work; eapply (step_worker O); [done|apply w_load]|].
    eapply rtc_l; [exists Work; eapply (step_worker O); [done|eapply w_bump, bump_exchange; vm_compute; reflexivity]|].
    eapply rtc_l; [exists Work; eapply (step_worker O); [done|eapply w_handle, (run_handles _ 0)]|].
    eapply rtc_l; [exists Work; eapply (step_worker O); [done|apply (w_time _ _ _ _ 0)]|].
    eapply rtc_l; [exists Work; eapply (step_worker O); [done|apply w_leave]|].
    eapply rtc_l; [exists Work; eapply (step_worker O); [done|apply w_completed]|].
    apply rtc_refl. }
  left. reflexivity.
Qed.

Lemma service_answers_witness :
  exists st c c0, In (c, Finished Returned) (log (shared st)) /\ arrivals st !! c.1 = Some c0
    /\ sent_proof run_backend c0 c.2.
Proof.
  destruct run_completes as (st & c & R & H).
  assert (N : Z.of_nat 1 <= N_WORKERS) by (vm_compute; discriminate).
  destruct (service_answers run_backend 1 st N R (sample_typed upstream_script)) as [P _].
  destruct (P c H) as (c0 & Hc & Hs). exists st, c, c0. split; [exact H|split; [exact Hc|exact Hs]].
Defined.
End Run.
